(** * vcfgtcheck: the sample-identity check of bcftools

    A shallow embedding of [vcfgtcheck.c]: the genotype macros, the per-pair
    comparison of the four representation combinations, the accumulation
    loops of [process_line], the drain of the distinctive sites and the sort
    keys of the report.

    Conventions.
    - An [int32_t] is a [Z]; the comparisons of the source involve no
      arithmetic on these values, so no wrap-around arises on them.
    - The [uint32_t] counters [ndiff], [ncnt] and [ncmp] are [Z] with the
      increment written out modulo [2^32].
    - A pointer into a value block ([aptr], [bptr]) is the function that reads
      the block at an offset, [ptr = nat -> Z].
    - A [double] is a real number: the sums, products and quotients of the
      source are those of [R], rounding is not modelled, and [log] is [ln].
    - Arrays are lists, read with stdpp's total lookup and updated with
      [alter]/[insert]. Sample counts and indices, which the source keeps
      in [int] and never lets go negative, are [nat]; their arithmetic is
      that of the source as long as the [int] does not overflow, which C
      leaves undefined. *)

From Stdlib Require Import ZArith List Bool Lia Reals Lra Permutation Sorted.
From Stdlib Require Ascii.
From stdpp Require Import base list numbers.

Local Open Scope Z_scope.

#[global] Instance R_inhabited : Inhabited R := populate 0%R.

(** ** htslib encoding of genotypes and sentinels *)

Module Hts.

(** Modelled from the spec: the sentinels of htslib's [vcf.h], which is not
    under src/. A value block carries a "missing" and a "vector end"
    sentinel; htslib takes the two smallest [int32_t] values for them. *)
Definition bcf_int32_missing : Z := -2147483648.
Definition bcf_int32_vector_end : Z := -2147483647.

(** Modelled from the spec: the allele encoding of htslib's [vcf.h]
    ([bcf_gt_missing], [bcf_gt_is_missing], [bcf_gt_allele]): an allele index
    [a] is stored as [(a+1)<<1|phased], and a missing allele as [0]. *)
Definition bcf_gt_missing : Z := 0.
Definition bcf_gt_is_missing (val : Z) : bool := Z.shiftr val 1 =? 0.
Definition bcf_gt_allele (val : Z) : Z := Z.shiftr val 1 - 1.
Definition bcf_gt_unphased (idx : Z) : Z := Z.shiftl (idx + 1) 1.

End Hts.
Export Hts.

(** ** Genotype view: the macros of the default branch *)

Definition ptr : Type := nat -> Z.

(** [arr + off]: the block of [arr] that starts at offset [off]. *)
Definition at_off (arr : list Z) (off : nat) : ptr :=
  fun k => arr !!! (off + k)%nat.

Definition pair_of (a0 a1 : Z) : ptr := at_off [a0; a1] 0.
Definition triple (a0 a1 a2 : Z) : ptr := at_off [a0; a1; a2] 0.

Definition HAS_GT (p : ptr) : bool :=
  negb (bcf_gt_is_missing (p 0%nat)) && negb (bcf_gt_is_missing (p 1%nat))
  && negb (p 1%nat =? bcf_int32_vector_end).

Definition HAS_PL (p : ptr) : bool :=
  negb (p 0%nat =? bcf_int32_missing) && negb (p 1%nat =? bcf_int32_missing)
  && negb (p 2%nat =? bcf_int32_missing)
  && negb (p 1%nat =? bcf_int32_vector_end)
  && negb (p 2%nat =? bcf_int32_vector_end).

Definition MIN_PL (p : ptr) : Z :=
  if p 0%nat <? p 1%nat
  then (if p 0%nat <? p 2%nat then p 0%nat else p 2%nat)
  else (if p 1%nat <? p 2%nat then p 1%nat else p 2%nat).

Definition DSG_PL (p : ptr) : Z :=
  if p 0%nat <? p 1%nat
  then (if p 0%nat <? p 2%nat then 0 else 2)
  else (if p 1%nat <? p 2%nat then 1 else 2).

Definition DSG_GT (p : ptr) : Z :=
  (if bcf_gt_allele (p 0%nat) =? 0 then 0 else 1)
  + (if bcf_gt_allele (p 1%nat) =? 0 then 0 else 1).

(** The dosage as the specification words it: the three positions are
    checked in the order 0, 1, 2 and the first one that holds the minimum is
    taken. This is also the scan of the disabled [_SLOWER_BRANCH]
    ([min = ptr[0]; for i in 1..2: if min > ptr[i] then ...]). *)
Definition spec_dosage_PL (p : ptr) : Z :=
  let '(min, dsg) :=
    fold_left (fun (acc : Z * Z) (i : nat) =>
                 if p i <? fst acc then (p i, Z.of_nat i) else acc)
              [1%nat; 2%nat] (p 0%nat, 0) in
  dsg.

Definition min3 (p : ptr) : Z := Z.min (p 0%nat) (Z.min (p 1%nat) (p 2%nat)).

(** ** The pairwise comparison *)

(** Outcome of one comparison: the source's [continue] (no data), the
    [ndiff]-branch (mismatch) and the [else]-branch (match). *)
Inductive outcome : Type := NoData | Mismatch | Match.

(** The four loops of [process_line] differ in the macros they apply to
    the two sides. One record gathers what changes from loop to loop. *)
Record comparator : Type := {
  HAS_a : ptr -> bool;            (* validity of the query block *)
  HAS_b : ptr -> bool;            (* validity of the genotype block *)
  VAL_a : ptr -> Z;               (* aval *)
  VAL_b : ptr -> Z;               (* bval *)
  het_b : ptr -> Z -> bool;       (* the test guarded by hom_only *)
  differ : ptr -> Z -> ptr -> Z -> bool;  (* the test that bumps ndiff *)
  dsg_a : ptr -> Z -> Z;          (* index into hwe[] on a match *)
  miss_b : Z                      (* written to bptr[0] by the matrix loops *)
}.

(** [qry_use_GT && gt_use_GT] *)
Definition GT_GT : comparator := {|
  HAS_a := HAS_GT; HAS_b := HAS_GT;
  VAL_a := DSG_GT; VAL_b := DSG_GT;
  het_b := fun _ bval => bval =? 1;
  differ := fun _ aval _ bval => negb (aval =? bval);
  dsg_a := fun _ aval => aval;
  miss_b := bcf_gt_missing |}.

(** [!qry_use_GT && !gt_use_GT] *)
Definition PL_PL : comparator := {|
  HAS_a := HAS_PL; HAS_b := HAS_PL;
  VAL_a := MIN_PL; VAL_b := MIN_PL;
  het_b := fun bptr bval => bptr 1%nat =? bval;
  differ := fun aptr aval bptr bval =>
    negb (existsb (fun k => (aptr k =? aval) && (bptr k =? bval)) (seq 0 3));
  dsg_a := fun aptr _ => DSG_PL aptr;
  miss_b := bcf_int32_missing |}.

(** [qry_use_GT], the other side on PL *)
Definition GT_PL : comparator := {|
  HAS_a := HAS_GT; HAS_b := HAS_PL;
  VAL_a := DSG_GT; VAL_b := MIN_PL;
  het_b := fun bptr bval => bptr 1%nat =? bval;
  differ := fun _ aval bptr bval => negb (bptr (Z.to_nat aval) =? bval);
  dsg_a := fun _ aval => aval;
  miss_b := bcf_int32_missing |}.

(** [!qry_use_GT], the other side on GT *)
Definition PL_GT : comparator := {|
  HAS_a := HAS_PL; HAS_b := HAS_GT;
  VAL_a := MIN_PL; VAL_b := DSG_GT;
  het_b := fun _ bval => bval =? 1;
  differ := fun aptr aval _ bval => negb (aval =? aptr (Z.to_nat bval));
  dsg_a := fun aptr _ => DSG_PL aptr;
  miss_b := bcf_gt_missing |}.

(** The [if / else if] chain that picks the loop. *)
Definition select_cmp (qry_use_GT gt_use_GT : bool) : comparator :=
  if qry_use_GT && gt_use_GT then GT_GT
  else if negb qry_use_GT && negb gt_use_GT then PL_PL
  else if qry_use_GT then GT_PL
  else PL_GT.

(** The body of one loop iteration up to the update of the counters. *)
Definition compare (c : comparator) (hom_only : bool) (aptr bptr : ptr)
  : outcome :=
  if negb (HAS_a c aptr) then NoData else
  if negb (HAS_b c bptr) then NoData else
  let aval := VAL_a c aptr in
  let bval := VAL_b c bptr in
  if hom_only && het_b c bptr bval then NoData else
  if differ c aptr aval bptr bval then Mismatch else Match.


(** ** Counters *)

(** [x++] on a [uint32_t]. *)
Definition incr32 (x : Z) : Z := (x + 1) mod 2 ^ 32.

(** Conversion of a [uint32_t] to [int] and back, as on two's complement
    targets. *)
Definition to_int32 (z : Z) : Z := if z <? 2 ^ 31 then z else z - 2 ^ 32.
Definition to_uint32 (z : Z) : Z := z mod 2 ^ 32.

(** Arithmetic on [int]: the result of an operation, brought back into the
    range of [int] as on two's complement targets (the C standard leaves
    an overflow open). *)
Definition INT_MAX : Z := 2 ^ 31 - 1.
Definition wrap_int (z : Z) : Z := to_int32 (to_uint32 z).

(** [arr[i]] for an [int] index: the element, and nothing where the index
    is outside the array; an array that was never allocated (a [NULL]
    pointer) is the empty list and has no element to read. *)
Definition read {A : Type} (arr : list A) (i : Z) : option A :=
  if i <? 0 then None else arr !! Z.to_nat i.

(** ** HWE scorer (the [calc_hwe_prob] block of [process_line]) *)

Definition min_af : R := (1 / 1000)%R.

(** [x < y] on doubles. *)
Definition Rltb (x y : R) : bool := if Rlt_dec x y then true else false.

(** The three scores for an allele frequency [af]; [log] is a parameter so
    that the arguments it is called on can be traced. *)
Definition hwe_with (log : R -> R) (af : R) : list R :=
  [ if Rltb min_af af
    then (- log (af * af))%R else (- log (min_af * min_af))%R ;
    if Rltb min_af af && Rltb af (1 - min_af)
    then (- log (2 * af * (1 - af)))%R
    else (- log (2 * min_af * (1 - min_af)))%R ;
    if Rltb af (1 - min_af)
    then (- log ((1 - af) * (1 - af)))%R else (- log (min_af * min_af))%R ].

Definition hwe_of_af (af : R) : list R := hwe_with ln af.

(** [af = (double)ac[1]/(ac[0]+ac[1])]. With no allele counted the quotient
    of the source is [0.0/0], a NaN, on which every comparison is false. *)
Definition hwe_of_ac (ac : Z * Z) : list R :=
  if fst ac + snd ac =? 0
  then [ (- ln (min_af * min_af))%R ;
         (- ln (2 * min_af * (1 - min_af)))%R ;
         (- ln (min_af * min_af))%R ]
  else hwe_of_af (IZR (snd ac) / IZR (fst ac + snd ac))%R.

(** The clamp of the specification. *)
Definition clamp (x lo hi : R) : R := Rmax lo (Rmin x hi).

(** ** Bit sets *)

(** Modelled from the spec: htslib's [kbitset.h], which is not under src/.
    A bit set of fixed width, one bit per pair; [kbs_elements] is the
    sequence that [kbs_start]/[kbs_next] iterate, the set bits in ascending
    order. *)
Abbreviation kbitset_t := (list bool).
Definition kbs_init (n : nat) : kbitset_t := replicate n false.
Definition kbs_clear (b : kbitset_t) : kbitset_t := replicate (length b) false.
Definition kbs_insert (b : kbitset_t) (i : nat) : kbitset_t := <[i := true]> b.
Definition kbs_exists (b : kbitset_t) (i : nat) : bool :=
  default false (b !! i).
Definition kbs_elements (b : kbitset_t) : list nat :=
  List.filter (kbs_exists b) (seq 0 (length b)).

(** ** Data of a run *)

Record pair_t : Type := { iqry : nat; igt : nat }.

#[global] Instance pair_t_inhabited : Inhabited pair_t :=
  populate {| iqry := 0; igt := 0 |}.

(** A site record handed to the external sorter. *)
Record diff_sites_t : Type := {
  ds_ndiff : Z; ds_rid : Z; ds_pos : Z; ds_rand : Z;
  kbs_dat : kbitset_t
}.

(** What htslib returns for one FORMAT tag of one record: the return value
    of [bcf_get_genotypes] or [bcf_get_format_int32] (the number of values,
    or a value [<= 0] when the tag is absent) and the values. *)
Record fmt_t : Type := { fmt_ret : Z; fmt_arr : list Z }.

(** One record of one file; [rec_ac] is [Some (ac0, ac1)] when
    [bcf_calc_ac] returns 1. *)
Record bcf1_t : Type := {
  rec_GT : fmt_t; rec_PL : fmt_t;
  rec_ac : option (Z * Z);
  rec_rid : Z; rec_pos : Z
}.

(** One step of the synced reader: the return value of [bcf_sr_next_line]
    and the lines of the two readers. *)
Record line_t : Type := { sr_ret : Z; qry_rec : bcf1_t; gt_rec : bcf1_t }.

(** The fields of [args_t] that are fixed once the samples are set up. *)
Record config : Type := {
  two_files : bool;                 (* gt_hdr != NULL *)
  qry_nsamples : nat;               (* bcf_hdr_nsamples(qry_hdr) *)
  gt_nsamples : nat;                (* bcf_hdr_nsamples(gt_hdr) *)
  qry_use_GT : bool;
  gt_use_GT : bool;
  nqry_smpl : nat;
  ngt_smpl : nat;
  qry_smpl : option (list nat);
  gt_smpl : option (list nat);
  pairs : option (list pair_t);
  hom_only : bool;
  cross_check : bool;
  calc_hwe_prob : bool;
  sort_by_hwe : bool;
  ntop : nat;
  dry_run : bool;
  distinctive_sites : Z;            (* after diff_sites_init; 0 when off *)
  rand : nat -> Z                   (* the successive values of rand() *)
}.

(** The fields of [args_t] that [process_line] changes. *)
Record state : Type := {
  ndiff : list Z;
  ncnt : list Z;
  ncmp : Z;
  hwe_prob : list R;
  qry_arr : list Z;
  gt_arr : list Z;
  kbs_diff : option kbitset_t;
  es : list diff_sites_t;           (* the records pushed to the sorter *)
  nrand : nat                       (* the number of calls of rand() *)
}.

Definition set_ndiff (v : list Z) (st : state) : state :=
  {| ndiff := v; ncnt := ncnt st; ncmp := ncmp st; hwe_prob := hwe_prob st;
     qry_arr := qry_arr st; gt_arr := gt_arr st; kbs_diff := kbs_diff st;
     es := es st; nrand := nrand st |}.
Definition set_ncnt (v : list Z) (st : state) : state :=
  {| ndiff := ndiff st; ncnt := v; ncmp := ncmp st; hwe_prob := hwe_prob st;
     qry_arr := qry_arr st; gt_arr := gt_arr st; kbs_diff := kbs_diff st;
     es := es st; nrand := nrand st |}.
Definition set_ncmp (v : Z) (st : state) : state :=
  {| ndiff := ndiff st; ncnt := ncnt st; ncmp := v; hwe_prob := hwe_prob st;
     qry_arr := qry_arr st; gt_arr := gt_arr st; kbs_diff := kbs_diff st;
     es := es st; nrand := nrand st |}.
Definition set_hwe_prob (v : list R) (st : state) : state :=
  {| ndiff := ndiff st; ncnt := ncnt st; ncmp := ncmp st; hwe_prob := v;
     qry_arr := qry_arr st; gt_arr := gt_arr st; kbs_diff := kbs_diff st;
     es := es st; nrand := nrand st |}.
Definition set_qry_arr (v : list Z) (st : state) : state :=
  {| ndiff := ndiff st; ncnt := ncnt st; ncmp := ncmp st;
     hwe_prob := hwe_prob st; qry_arr := v; gt_arr := gt_arr st;
     kbs_diff := kbs_diff st; es := es st; nrand := nrand st |}.
Definition set_gt_arr (v : list Z) (st : state) : state :=
  {| ndiff := ndiff st; ncnt := ncnt st; ncmp := ncmp st;
     hwe_prob := hwe_prob st; qry_arr := qry_arr st; gt_arr := v;
     kbs_diff := kbs_diff st; es := es st; nrand := nrand st |}.
Definition set_kbs_diff (v : option kbitset_t) (st : state) : state :=
  {| ndiff := ndiff st; ncnt := ncnt st; ncmp := ncmp st;
     hwe_prob := hwe_prob st; qry_arr := qry_arr st; gt_arr := gt_arr st;
     kbs_diff := v; es := es st; nrand := nrand st |}.
Definition push_es (dat : diff_sites_t) (st : state) : state :=
  {| ndiff := ndiff st; ncnt := ncnt st; ncmp := ncmp st;
     hwe_prob := hwe_prob st; qry_arr := qry_arr st; gt_arr := gt_arr st;
     kbs_diff := kbs_diff st; es := es st ++ [dat]; nrand := S (nrand st) |}.

(** Fatal exits through [throw_and_clean]. *)
Inductive error : Type :=
| Calc_ac_failed                        (* "todo: bcf_calc_ac() failed" *)
| Corrupted_data (ndiff_dbg ndiff : Z). (* "Corrupted data, fixme: %d vs %d" *)

Inductive result (A : Type) : Type :=
| Done (a : A)
| Throw (e : error).
Arguments Done {A} a.
Arguments Throw {A} e.

(** ** Setting up the arrays ([init_data], "The data arrays") *)

(** The number of accumulators as a number: what [args->npairs] holds as
    long as the product that gives it stays in the range of [int]. *)
Definition npairs (cfg : config) : nat :=
  match pairs cfg with
  | Some ps => length ps
  | None =>
      if cross_check cfg
      then (nqry_smpl cfg * (nqry_smpl cfg + 1) / 2)%nat
      else (ngt_smpl cfg * nqry_smpl cfg)%nat
  end.

(** [args->npairs] as the machine computes it: the products and the
    division are on [int], and the result is stored in a [uint32_t]. *)
Definition npairs_int (cfg : config) : Z :=
  match pairs cfg with
  | Some ps => to_uint32 (Z.of_nat (length ps))
  | None =>
      let nqry := Z.of_nat (nqry_smpl cfg) in
      let ngt := Z.of_nat (ngt_smpl cfg) in
      to_uint32
        (if cross_check cfg
         then Z.quot (wrap_int (nqry * wrap_int (nqry + 1))) 2
         else wrap_int (ngt * nqry))
  end.

Definition init_state (cfg : config) : state :=
  {| ndiff := replicate (npairs cfg) 0;
     ncnt := replicate (npairs cfg) 0;
     ncmp := 0;
     hwe_prob := if calc_hwe_prob cfg then replicate (npairs cfg) 0%R else [];
     qry_arr := []; gt_arr := [];
     kbs_diff := if distinctive_sites cfg =? 0 then None
                 else Some (kbs_init (npairs cfg));
     es := []; nrand := 0 |}.

(** ** [process_line] *)

Definition bump_ndiff (i : nat) (st : state) : state :=
  set_ndiff (alter incr32 i (ndiff st)) st.
Definition bump_ncnt (i : nat) (st : state) : state :=
  set_ncnt (alter incr32 i (ncnt st)) st.
Definition add_hwe (i : nat) (x : R) (st : state) : state :=
  set_hwe_prob (alter (fun p => (p + x)%R) i (hwe_prob st)) st.

(** With one file [args->gt_arr] is set to [args->qry_arr]: the two names
    denote one buffer. *)
Definition gt_buf (cfg : config) (st : state) : list Z :=
  if two_files cfg then gt_arr st else qry_arr st.
Definition set_gt_buf (cfg : config) (v : list Z) (st : state) : state :=
  if two_files cfg then set_gt_arr v st else set_qry_arr v st.

(** Values per sample: [nqry1], [ngt1]. *)
Definition block_len (use_GT : bool) : nat := if use_GT then 2%nat else 3%nat.

Definition line_fmt (use_GT : bool) (r : bcf1_t) : fmt_t :=
  if use_GT then rec_GT r else rec_PL r.

(** [diff_sites_reset] and [diff_sites_push]. *)
Definition diff_sites_reset (st : state) : state :=
  set_kbs_diff (option_map kbs_clear (kbs_diff st)) st.

Definition diff_sites_push (cfg : config) (nd rid pos : Z) (st : state)
  : state :=
  push_es {| ds_ndiff := to_uint32 nd;
             ds_rid := to_uint32 rid;
             ds_pos := to_uint32 pos;
             ds_rand := to_uint32 (rand cfg (nrand st));
             kbs_dat := default [] (kbs_diff st) |} st.

(** One iteration of a loop over the explicit pairs; [nd] is the local
    [ndiff] of the source. *)
Definition pairs_body (cfg : config) (c : comparator) (hwe : list R)
    (ps : list pair_t) (nqry1 ngt1 : nat) (acc : state * Z) (i : nat)
  : state * Z :=
  let '(st, nd) := acc in
  let aptr := at_off (qry_arr st) (iqry (ps !!! i) * nqry1) in
  let bptr := at_off (gt_buf cfg st) (igt (ps !!! i) * ngt1) in
  match compare c (hom_only cfg) aptr bptr with
  | NoData => (st, nd)
  | Mismatch =>
      let st := bump_ndiff i st in
      let '(st, nd) :=
        match kbs_diff st with
        | Some b => (set_kbs_diff (Some (kbs_insert b i)) st, nd + 1)
        | None => (st, nd)
        end in
      (bump_ncnt i st, nd)
  | Match =>
      let st :=
        if calc_hwe_prob cfg
        then add_hwe i (hwe !!! Z.to_nat (dsg_a c aptr (VAL_a c aptr))) st
        else st in
      (bump_ncnt i st, nd)
  end.

Definition pairs_loop (cfg : config) (c : comparator) (hwe : list R)
    (ps : list pair_t) (nqry1 ngt1 : nat) (rid pos : Z) (st : state) : state :=
  let st := match kbs_diff st with
            | Some _ => diff_sites_reset st
            | None => st
            end in
  let '(st, nd) :=
    fold_left (pairs_body cfg c hwe ps nqry1 ngt1) (seq 0 (npairs cfg))
              (st, 0) in
  if nd =? 0 then st else diff_sites_push cfg nd rid pos st.

(** [args->qry_smpl ? args->qry_smpl[i] : i], and the same for [gt_smpl]. *)
Definition smpl (l : option (list nat)) (i : nat) : nat :=
  match l with Some l => l !!! i | None => i end.

(** The inner loop of a matrix mode, one genotype sample [j]; [idx] runs
    along. The query block is read again at each use: with one file the
    write to [bptr[0]] goes to the buffer the query block lives in. *)
Definition inner_body (cfg : config) (c : comparator) (hwe : list R)
    (iqry nqry1 ngt1 : nat) (aval qry_dsg : Z) (acc : state * nat) (j : nat)
  : state * nat :=
  let '(st, idx) := acc in
  let igt := smpl (gt_smpl cfg) j in
  let aptr := at_off (qry_arr st) (iqry * nqry1) in
  let bptr := at_off (gt_buf cfg st) (igt * ngt1) in
  if negb (HAS_b c bptr)
  then (set_gt_buf cfg (<[(igt * ngt1)%nat := miss_b c]> (gt_buf cfg st)) st,
        S idx)
  else
    let bval := VAL_b c bptr in
    if hom_only cfg && het_b c bptr bval then (st, S idx)
    else
      let st :=
        if differ c aptr aval bptr bval then bump_ndiff idx st
        else if calc_hwe_prob cfg
             then add_hwe idx (hwe !!! Z.to_nat qry_dsg) st
             else st in
      (bump_ncnt idx st, S idx).

(** The outer loop, one query sample [i]. *)
Definition outer_body (cfg : config) (c : comparator) (hwe : list R)
    (nqry1 ngt1 : nat) (acc : state * nat) (i : nat) : state * nat :=
  let '(st, idx) := acc in
  let iqry := smpl (qry_smpl cfg) i in
  let ngt := if cross_check cfg then i else ngt_smpl cfg in
  let aptr := at_off (qry_arr st) (iqry * nqry1) in
  if negb (HAS_a c aptr) then (st, (idx + ngt)%nat)
  else
    let aval := VAL_a c aptr in
    let qry_dsg := dsg_a c aptr aval in
    fold_left (inner_body cfg c hwe iqry nqry1 ngt1 aval qry_dsg)
              (seq 0 ngt) (st, idx).

Definition matrix_loop (cfg : config) (c : comparator) (hwe : list R)
    (nqry1 ngt1 : nat) (st : state) : state :=
  fst (fold_left (outer_body cfg c hwe nqry1 ngt1) (seq 0 (nqry_smpl cfg))
                 (st, 0%nat)).

(** A value block is usable when the tag is present ([> 0] values) and
    holds [nqry1] (or [ngt1]) values for each sample of the header. *)
Definition diploid (use_GT : bool) (nsamples : nat) (f : fmt_t) : bool :=
  (0 <? fmt_ret f)
  && (fmt_ret f =? Z.of_nat (block_len use_GT) * Z.of_nat nsamples).

(** The getters fill the buffer of [args_t] when they return values. *)
Definition fill (f : fmt_t) (old : list Z) : list Z :=
  if 0 <? fmt_ret f then fmt_arr f else old.

Definition process_line (cfg : config) (st : state) (l : line_t)
  : result state :=
  let qf := line_fmt (qry_use_GT cfg) (qry_rec l) in
  let st := set_qry_arr (fill qf (qry_arr st)) st in
  if negb (diploid (qry_use_GT cfg) (qry_nsamples cfg) qf) then Done st else
  let nqry1 := block_len (qry_use_GT cfg) in
  let gf := line_fmt (gt_use_GT cfg) (gt_rec l) in
  let st := if two_files cfg then set_gt_arr (fill gf (gt_arr st)) st
            else st in
  if two_files cfg && negb (diploid (gt_use_GT cfg) (gt_nsamples cfg) gf)
  then Done st else
  let ngt1 := if two_files cfg then block_len (gt_use_GT cfg) else nqry1 in
  let st := set_ncmp (incr32 (ncmp st)) st in
  let ac := rec_ac (if two_files cfg then gt_rec l else qry_rec l) in
  match (if calc_hwe_prob cfg then ac else Some (0, 0)) with
  | None => Throw Calc_ac_failed
  | Some ac =>
      let hwe := if calc_hwe_prob cfg then hwe_of_ac ac else [] in
      let c := select_cmp (qry_use_GT cfg) (gt_use_GT cfg) in
      match pairs cfg with
      | Some ps =>
          Done (pairs_loop cfg c hwe ps nqry1 ngt1
                           (rec_rid (qry_rec l)) (rec_pos (qry_rec l)) st)
      | None => Done (matrix_loop cfg c hwe nqry1 ngt1 st)
      end
  end.

(** The reading loop of [main_vcfgtcheck]. *)
Fixpoint main_loop (cfg : config) (st : state) (ls : list line_t)
  : result state :=
  match ls with
  | [] => Done st
  | l :: ls =>
      if two_files cfg && negb (sr_ret l =? 2) then main_loop cfg st ls
      else
        match process_line cfg st l with
        | Throw e => Throw e
        | Done st' =>
            if (ncmp st' =? 1) && dry_run cfg then Done st'
            else main_loop cfg st' ls
        end
  end.

(** ** Distinctive sites: sorting and draining *)

Definition diff_sites_cmp (a b : diff_sites_t) : Z :=
  if ds_ndiff a <? ds_ndiff b then 1          (* descending order *)
  else if ds_ndiff b <? ds_ndiff a then -1
  else if ds_rand a <? ds_rand b then -1
  else if ds_rand b <? ds_rand a then 1
  else 0.

(** Modelled from the spec: the external sorter ([extsort.c] is not under
    src/). It takes the records pushed to it and hands them back in the
    order of the comparison function; an insertion sort stands for the
    spill-and-merge machinery. *)
Fixpoint extsort_insert {A : Type} (cmp : A -> A -> Z) (x : A) (l : list A)
  : list A :=
  match l with
  | [] => [x]
  | y :: l' => if cmp x y <=? 0 then x :: l else y :: extsort_insert cmp x l'
  end.

Definition extsort_sort {A : Type} (cmp : A -> A -> Z) (l : list A) : list A :=
  fold_right (extsort_insert cmp) [] l.

(** A line of the DS section: chromosome (by its id), 1-based position,
    cumulative number of pairs of the block, block id. *)
Record ds_line : Type := {
  DS_rid : Z; DS_pos : Z; DS_tot : Z; DS_block : Z
}.

(** The locals of [report_distinctive_sites] that live across records. *)
Record drain_t : Type := {
  kbs_blk : kbitset_t;
  ndiff_tot : Z;
  iblock : Z;
  ds_out : list ds_line
}.

(** The inner [while] over the set bits of the record: one bit [i], and the
    whole loop. The accumulator is the block bit set, [ndiff_new] and
    [ndiff_dbg]. *)
Definition scan_bit (acc : kbitset_t * Z * Z) (i : nat) : kbitset_t * Z * Z :=
  let '(blk, ndiff_new, ndiff_dbg) := acc in
  if kbs_exists blk i then (blk, ndiff_new, ndiff_dbg + 1)  (* already set *)
  else (kbs_insert blk i, ndiff_new + 1, ndiff_dbg + 1).

Definition drain_scan (blk : kbitset_t) (bits : kbitset_t)
  : kbitset_t * Z * Z :=
  fold_left scan_bit (kbs_elements bits) (blk, 0, 0).

(** The body of the outer [while], for the record [dat] that
    [diff_sites_shift] returns. *)
Definition drain_step (ndiff_min : Z) (d : drain_t) (dat : diff_sites_t)
  : result drain_t :=
  let ndiff := to_int32 (ds_ndiff dat) in
  let rid := to_int32 (ds_rid dat) in
  let pos := to_int32 (ds_pos dat) in
  let '(blk, ndiff_new, ndiff_dbg) := drain_scan (kbs_blk d) (kbs_dat dat) in
  if negb (ndiff_dbg =? ndiff) then Throw (Corrupted_data ndiff_dbg ndiff)
  else if ndiff_new =? 0
  then Done {| kbs_blk := blk; ndiff_tot := ndiff_tot d; iblock := iblock d;
               ds_out := ds_out d |}
  else
    let tot := ndiff_tot d + ndiff_new in
    let out := ds_out d ++ [ {| DS_rid := rid; DS_pos := wrap_int (pos + 1);
                                DS_tot := tot; DS_block := iblock d |} ] in
    if tot <? ndiff_min
    then Done {| kbs_blk := blk; ndiff_tot := tot; iblock := iblock d;
                 ds_out := out |}
    else Done {| kbs_blk := kbs_clear blk; ndiff_tot := 0;
                 iblock := iblock d + 1; ds_out := out |}.

Fixpoint drain (ndiff_min : Z) (d : drain_t) (recs : list diff_sites_t)
  : result drain_t :=
  match recs with
  | [] => Done d
  | dat :: recs =>
      match drain_step ndiff_min d dat with
      | Throw e => Throw e
      | Done d' => drain ndiff_min d' recs
      end
  end.

Definition drain_init (cfg : config) : drain_t :=
  {| kbs_blk := kbs_init (npairs cfg); ndiff_tot := 0; iblock := 0;
     ds_out := [] |}.

Definition report_distinctive_sites (cfg : config) (st : state)
  : result drain_t :=
  drain (distinctive_sites cfg) (drain_init cfg)
        (extsort_sort diff_sites_cmp (es st)).

(** ** The DC report: sort keys of the top-K selection *)

Record idbl_t : Type := { ism : nat; idx : nat; val : R }.


(** [(double)n/d] for two [uint32_t], with the reals for the doubles: the
    quotient, and nothing for [d = 0], where the double is an infinity or
    not a number. *)
Definition ratio (n d : Z) : option R :=
  if d =? 0 then None else Some (IZR n / IZR d)%R.

(** The value stored in [arr[.].val] for the accumulators at the [int]
    [idx]. There is none where the run does not get to one: where an
    array is read outside its elements (through the [NULL] [hwe_prob] of a
    run without HWE scores in particular, which kills the process), or
    where the value is not a real number. *)
Definition sort_key (cfg : config) (st : state) (idx : Z) : option R :=
  if sort_by_hwe cfg
  then
    match read (hwe_prob st) idx with
    | Some h => Some (- h)%R
    | None => None
    end
  else
    match read (ncnt st) idx with
    | Some c =>
        if c =? 0 then Some 0%R
        else
          match read (ndiff st) idx with
          | Some d => ratio d c
          | None => None
          end
    | None => None
    end.

Definition candidate (cfg : config) (st : state) (ism : nat) (idx : Z)
  : option idbl_t :=
  match sort_key cfg st idx with
  | Some v => Some {| ism := ism; idx := Z.to_nat idx; val := v |}
  | None => None
  end.

(** [arr] for the query sample [i], two files or [-s gt:] given: [idx]
    starts at [i*args->ngt_smpl] and is incremented, on [int]. *)
Definition rect_row (cfg : config) (st : state) (i : nat)
  : option (list idbl_t) :=
  let idx0 := wrap_int (Z.of_nat i * Z.of_nat (ngt_smpl cfg)) in
  mapM (fun j => candidate cfg st j (wrap_int (idx0 + Z.of_nat j)))
       (seq 0 (ngt_smpl cfg)).

(** [a*b/2] on [int]. *)
Definition half_int (a b : Z) : Z := Z.quot (wrap_int (a * b)) 2.

(** [arr] for the query sample [i] in a cross-check: the samples below [i]
    from row [i] of the triangle, which starts at [i*(i-1)/2], the samples
    above from their own rows, at [j*(j+1)/2 + i]. *)
Definition cross_row (cfg : config) (st : state) (i : nat)
  : option (list idbl_t) :=
  let narr := (nqry_smpl cfg - 1)%nat in
  let idx0 := half_int (Z.of_nat i) (wrap_int (Z.of_nat i - 1)) in
  below ← mapM (fun j => candidate cfg st j (wrap_int (idx0 + Z.of_nat j)))
               (seq 0 i);
  above ← mapM (fun j =>
                  candidate cfg st (j + 1)
                    (wrap_int (half_int (Z.of_nat j)
                                        (wrap_int (Z.of_nat j + 1))
                               + Z.of_nat i)))
               (seq i (narr - i));
  Some (below ++ above).

(** A DC line: indices of the two samples and the three numbers. *)
Record dc_line : Type := {
  DC_qry : nat; DC_gt : nat; DC_ndiff : Z; DC_hwe : R; DC_ncnt : Z
}.

Definition dc_of (cfg : config) (st : state) (iqry igt idx : nat) : dc_line :=
  {| DC_qry := iqry; DC_gt := igt;
     DC_ndiff := ndiff st !!! idx;
     DC_hwe := if calc_hwe_prob cfg then hwe_prob st !!! idx else 0%R;
     DC_ncnt := ncnt st !!! idx |}.

(** The lines printed for query sample [i] from the sorted [arr]. *)
Definition rect_top (cfg : config) (st : state) (i : nat)
    (sorted : list idbl_t) : list dc_line :=
  map (fun e => dc_of cfg st (smpl (qry_smpl cfg) i)
                      (smpl (gt_smpl cfg) (ism e)) (idx e))
      (take (ntop cfg) sorted).

Definition cross_top (cfg : config) (st : state) (i : nat)
    (sorted : list idbl_t) : list dc_line :=
  map (fun e => dc_of cfg st (smpl (qry_smpl cfg) i)
                      (smpl (qry_smpl cfg) (ism e)) (idx e))
      (List.filter (fun e => negb (i <=? ism e)%nat) (take (ntop cfg) sorted)).


(** ** The triangular index *)

(** The value of [idx] at the start of row [i] of the triangle, and the
    index of the pair [(i, j)]. *)
Definition tri_base (i : nat) : nat := (i * (i - 1) / 2)%nat.
Definition tri_index (i j : nat) : nat := (tri_base i + j)%nat.

(** The pairs a cross-check of [n] samples walks through, each with the
    value [idx] has when the pair is reached: the two [for] loops of the
    default branch with every statement but [idx++] left out. *)
Definition cross_enum (n : nat) : list (nat * nat * nat) :=
  snd (fold_left
         (fun (acc : nat * list (nat * nat * nat)) (i : nat) =>
            fold_left
              (fun (acc : nat * list (nat * nat * nat)) (j : nat) =>
                 (S (fst acc), snd acc ++ [(i, j, fst acc)]))
              (seq 0 i) acc)
         (seq 0 n) (0%nat, [])).

(** ** Predicates on the input *)

(** The value block the run reads on the query side and on the genotype
    side of a line. *)
Definition qry_fmt (cfg : config) (l : line_t) : fmt_t :=
  line_fmt (qry_use_GT cfg) (qry_rec l).
Definition gt_fmt (cfg : config) (l : line_t) : fmt_t :=
  line_fmt (gt_use_GT cfg) (gt_rec l).

(** The site lacks diploid data for this run: the tag in use is absent or
    does not hold 2 (GT) or 3 (PL) values per sample, on the query side or,
    with two files, on the genotype side. *)
Definition bad_shape (cfg : config) (l : line_t) : Prop :=
  diploid (qry_use_GT cfg) (qry_nsamples cfg) (qry_fmt cfg l) = false
  \/ (two_files cfg = true
      /\ diploid (gt_use_GT cfg) (gt_nsamples cfg) (gt_fmt cfg l) = false).


(** ** Predicates on the counters *)

(** The two counters of the pair [p]. *)
Definition cell (st : state) (p : nat) : Z * Z :=
  (ndiff st !!! p, ncnt st !!! p).

(** What one site may do to the counters of a pair: nothing, count a
    compared site, or count a compared site that differs. *)
Definition cell_step (c c' : Z * Z) : Prop :=
  c' = c
  \/ c' = (fst c, incr32 (snd c))
  \/ c' = (incr32 (fst c), incr32 (snd c)).

Definition same_shape (st0 st : state) : Prop :=
  length (ndiff st) = length (ndiff st0)
  /\ length (ncnt st) = length (ncnt st0).

(** Relative to the state [st0] at the start of the site, the pairs below
    [idx] have made at most one step and the others are untouched. *)
Definition touched_below (st0 st : state) (idx : nat) : Prop :=
  same_shape st0 st
  /\ forall p : nat,
       ((p < idx)%nat -> cell_step (cell st0 p) (cell st p))
       /\ ((idx <= p)%nat -> cell st p = cell st0 p).

(** Every counter is within the number [n] of sites seen, and no pair has
    more differing than compared sites. *)
Definition counters_ok (n : Z) (st : state) : Prop :=
  length (ndiff st) = length (ncnt st)
  /\ forall p : nat,
       (p < length (ncnt st))%nat ->
       0 <= ndiff st !!! p <= ncnt st !!! p /\ ncnt st !!! p <= n.

(** The effect of one site on the counters: every pair makes at most one
    step. *)
Definition line_step (st st' : state) : Prop :=
  same_shape st st' /\ forall p : nat, cell_step (cell st p) (cell st' p).

(** ** Predicates on the records of the sorter *)

(** The number of set bits, as the iteration with [kbs_next] counts it. *)
Definition popcount (b : kbitset_t) : Z := Z.of_nat (length (kbs_elements b)).

(** The stored count of a record agrees with its bit set. *)
Definition consistent (dat : diff_sites_t) : Prop :=
  ds_ndiff dat = popcount (kbs_dat dat).

(** A record as its C type allows: an unsigned 32-bit count, and a bit set
    whose width an [int] can hold. *)
Definition well_typed (dat : diff_sites_t) : Prop :=
  0 <= ds_ndiff dat < 2 ^ 32 /\ Z.of_nat (length (kbs_dat dat)) < 2 ^ 31.

(** The pair [p] differs at the site of the record. *)
Definition discordant (dat : diff_sites_t) (p : nat) : Prop :=
  kbs_exists (kbs_dat dat) p = true.

(** A record as the collecting phase makes them for [n] pairs: a bit set of
    width [n], not empty, and its number of set bits as the count. *)
Definition collected (n : nat) (dat : diff_sites_t) : Prop :=
  length (kbs_dat dat) = n /\ consistent dat /\ 0 < ds_ndiff dat.

(** What [report_distinctive_sites] holds while only block 0 has been
    written to, after the records [seen]. *)
Definition first_block (n : nat) (seen : list diff_sites_t) (d : drain_t)
  : Prop :=
  iblock d = 0
  /\ length (kbs_blk d) = n
  /\ ndiff_tot d = popcount (kbs_blk d)
  /\ Forall (fun ln => DS_block ln = 0) (ds_out d)
  /\ (seen <> [] -> ds_out d <> [])
  /\ (forall q : nat,
        kbs_exists (kbs_blk d) q = true
        <-> exists dat : diff_sites_t, In dat seen /\ discordant dat q).

(** ** The accumulation rule *)

(** What an outcome does to the accumulators of the pair [idx]: nothing
    for no data; one more differing and one more compared site for a
    mismatch; one more compared site, and the HWE score of class [dsg] when
    scoring is on, for a match. *)
Definition tally (cfg : config) (hwe : list R) (idx : nat) (dsg : Z)
    (o : outcome) (st : state) : state :=
  match o with
  | NoData => st
  | Mismatch => bump_ncnt idx (bump_ndiff idx st)
  | Match =>
      bump_ncnt idx (if calc_hwe_prob cfg
                     then add_hwe idx (hwe !!! Z.to_nat dsg) st
                     else st)
  end.

Definition same_accumulators (st st' : state) : Prop :=
  ndiff st = ndiff st' /\ ncnt st = ncnt st' /\ hwe_prob st = hwe_prob st'.

(** ** Discordance of a pair at a site of the input *)

(** The site has diploid data on the sides the run reads. *)
Definition diploid_line (cfg : config) (l : line_t) : bool :=
  diploid (qry_use_GT cfg) (qry_nsamples cfg) (qry_fmt cfg l)
  && negb (two_files cfg
           && negb (diploid (gt_use_GT cfg) (gt_nsamples cfg) (gt_fmt cfg l))).

(** The site is handed to [process_line] and compared there. *)
Definition compared_line (cfg : config) (l : line_t) : bool :=
  negb (two_files cfg && negb (sr_ret l =? 2)) && diploid_line cfg l.

(** The values of the genotype side of a line: those of the second file,
    or with one file those of the query side. *)
Definition gt_vals (cfg : config) (l : line_t) : list Z :=
  if two_files cfg then fmt_arr (gt_fmt cfg l) else fmt_arr (qry_fmt cfg l).

Definition ngt1_of (cfg : config) : nat :=
  if two_files cfg then block_len (gt_use_GT cfg)
  else block_len (qry_use_GT cfg).

(** The outcome of the explicit pair [i] at the line [l]. *)
Definition pair_outcome (cfg : config) (ps : list pair_t) (l : line_t)
    (i : nat) : outcome :=
  compare (select_cmp (qry_use_GT cfg) (gt_use_GT cfg)) (hom_only cfg)
          (at_off (fmt_arr (qry_fmt cfg l))
                  (iqry (ps !!! i) * block_len (qry_use_GT cfg)))
          (at_off (gt_vals cfg l) (igt (ps !!! i) * ngt1_of cfg)).

(** The pair [p] is discordant at the site [l]. *)
Definition differs_at (cfg : config) (ps : list pair_t) (l : line_t)
    (p : nat) : Prop :=
  compared_line cfg l = true
  /\ (p < length ps)%nat
  /\ pair_outcome cfg ps l p = Mismatch.

(** The bit set [b] holds the pairs below [i] that are a mismatch for the
    blocks read through [out]. *)
Definition marks (out : nat -> outcome) (i : nat) (b : kbitset_t) : Prop :=
  forall q : nat,
    kbs_exists b q = true <-> (q < i)%nat /\ out q = Mismatch.

(** The state while the explicit pairs of one site are compared: the
    buffers, the sorter and the random numbers are those of [st0], and the
    site bit set marks the mismatches found so far, [nd] in number. *)
Definition collecting (cfg : config) (n : nat) (out : nat -> outcome)
    (st0 : state) (i : nat) (acc : state * Z) : Prop :=
  qry_arr (fst acc) = qry_arr st0
  /\ gt_arr (fst acc) = gt_arr st0
  /\ es (fst acc) = es st0
  /\ nrand (fst acc) = nrand st0
  /\ exists b : kbitset_t,
       kbs_diff (fst acc) = Some b /\ length b = n
       /\ snd acc = popcount b /\ marks out i b.

(** The sorter after the lines [seen]: its records are well made and hold
    the discordances of these lines. *)
Definition collected_from (cfg : config) (ps : list pair_t)
    (seen : list line_t) (st : state) : Prop :=
  (exists b : kbitset_t, kbs_diff st = Some b /\ length b = length ps)
  /\ Forall (collected (length ps)) (es st)
  /\ (forall p : nat,
         (exists dat : diff_sites_t, In dat (es st) /\ discordant dat p)
         <-> (exists l : line_t, In l seen /\ differs_at cfg ps l p)).

(** ** Concrete runs *)

(** A two-sample query file read on GT, and a site whose GT holds three
    values per sample. *)
Definition cfg_cross2 : config :=
  {| two_files := false; qry_nsamples := 2; gt_nsamples := 0;
     qry_use_GT := true; gt_use_GT := true;
     nqry_smpl := 2; ngt_smpl := 2; qry_smpl := None; gt_smpl := None;
     pairs := None; hom_only := false; cross_check := true;
     calc_hwe_prob := false; sort_by_hwe := false; ntop := 0;
     dry_run := false; distinctive_sites := 0; rand := fun _ => 0 |}.

Definition no_fmt : fmt_t := {| fmt_ret := -1; fmt_arr := [] |}.

Definition triploid_rec : bcf1_t :=
  {| rec_GT := {| fmt_ret := 6; fmt_arr := [2; 2; 4; 2; 4; 4] |};
     rec_PL := no_fmt; rec_ac := Some (3, 3); rec_rid := 0; rec_pos := 99 |}.

Definition triploid_line : line_t :=
  {| sr_ret := 1; qry_rec := triploid_rec; gt_rec := triploid_rec |}.


(** Two diploid sites of that file: at the first the samples are 0/0 and
    0/1, at the second both are 0/0. *)
Definition gt_rec_of (vals : list Z) : bcf1_t :=
  {| rec_GT := {| fmt_ret := Z.of_nat (length vals); fmt_arr := vals |};
     rec_PL := no_fmt; rec_ac := Some (3, 1); rec_rid := 0; rec_pos := 99 |}.

Definition line_of (r : bcf1_t) : line_t :=
  {| sr_ret := 1; qry_rec := r; gt_rec := r |}.

Definition mismatch_line : line_t := line_of (gt_rec_of [2; 2; 2; 4]).
Definition match_line : line_t := line_of (gt_rec_of [2; 2; 2; 2]).

Definition two_sites : list line_t := [mismatch_line; match_line].

(** The state after the first of the two sites, and after both. *)
Definition one_site_state : state :=
  {| ndiff := [1; 0; 0]; ncnt := [1; 0; 0]; ncmp := 1; hwe_prob := [];
     qry_arr := [2; 2; 2; 4]; gt_arr := []; kbs_diff := None;
     es := []; nrand := 0 |}.

Definition two_sites_state : state :=
  {| ndiff := [1; 0; 0]; ncnt := [2; 0; 0]; ncmp := 2; hwe_prob := [];
     qry_arr := [2; 2; 2; 2]; gt_arr := []; kbs_diff := None;
     es := []; nrand := 0 |}.

(** A site that differs followed by [2^32 - 1] sites that agree. *)
Definition long_stream : list line_t :=
  mismatch_line :: replicate (Z.to_nat (2 ^ 32 - 1)) match_line.

(** The state after one more site at which the two samples agree. *)
Definition after_match (st : state) : state :=
  bump_ncnt 0 (set_ncmp (incr32 (ncmp st)) (set_qry_arr [2; 2; 2; 2] st)).

(** A cross-check of four samples. *)
Definition cfg_cross4 : config :=
  {| two_files := false; qry_nsamples := 4; gt_nsamples := 0;
     qry_use_GT := true; gt_use_GT := true;
     nqry_smpl := 4; ngt_smpl := 4; qry_smpl := None; gt_smpl := None;
     pairs := None; hom_only := false; cross_check := true;
     calc_hwe_prob := false; sort_by_hwe := false; ntop := 0;
     dry_run := false; distinctive_sites := 0; rand := fun _ => 0 |}.

(** The same file with the explicit pair (sample 0, sample 1) and
    distinctive sites asked for one pair, which is all pairs. *)
Definition cfg_pairs1 : config :=
  {| two_files := false; qry_nsamples := 2; gt_nsamples := 0;
     qry_use_GT := true; gt_use_GT := true;
     nqry_smpl := 2; ngt_smpl := 0; qry_smpl := None; gt_smpl := None;
     pairs := Some [ {| iqry := 0; igt := 1 |} ];
     hom_only := false; cross_check := false;
     calc_hwe_prob := false; sort_by_hwe := false; ntop := 0;
     dry_run := false; distinctive_sites := 1;
     rand := fun k => Z.of_nat k |}.

(** Two pairs, the second of which sets sample 0 against itself and so
    never differs; distinctive sites asked for two pairs, which is all
    pairs. *)
Definition cfg_pairs2 : config :=
  {| two_files := false; qry_nsamples := 2; gt_nsamples := 0;
     qry_use_GT := true; gt_use_GT := true;
     nqry_smpl := 2; ngt_smpl := 0; qry_smpl := None; gt_smpl := None;
     pairs := Some [ {| iqry := 0; igt := 1 |}; {| iqry := 0; igt := 0 |} ];
     hom_only := false; cross_check := false;
     calc_hwe_prob := false; sort_by_hwe := false; ntop := 0;
     dry_run := false; distinctive_sites := 2;
     rand := fun k => Z.of_nat k |}.

Definition three_sites : list line_t :=
  [mismatch_line; match_line; mismatch_line].

(** The state of that run after the three sites: two records in the
    sorter, each with the bit of the first pair. *)
Definition three_sites_state : state :=
  {| ndiff := [2; 0]; ncnt := [3; 3]; ncmp := 3; hwe_prob := [];
     qry_arr := [2; 2; 2; 4]; gt_arr := [];
     kbs_diff := Some [true; false];
     es := [ {| ds_ndiff := 1; ds_rid := 0; ds_pos := 99; ds_rand := 0;
                kbs_dat := [true; false] |};
             {| ds_ndiff := 1; ds_rid := 0; ds_pos := 99; ds_rand := 1;
                kbs_dat := [true; false] |} ];
     nrand := 2 |}.

(** The state of the run with one pair after two sites at which the pair
    differs, and after a single site at which it agrees. *)
Definition twice_state : state :=
  {| ndiff := [2]; ncnt := [2]; ncmp := 2; hwe_prob := [];
     qry_arr := [2; 2; 2; 4]; gt_arr := [];
     kbs_diff := Some [true];
     es := [ {| ds_ndiff := 1; ds_rid := 0; ds_pos := 99; ds_rand := 0;
                kbs_dat := [true] |};
             {| ds_ndiff := 1; ds_rid := 0; ds_pos := 99; ds_rand := 1;
                kbs_dat := [true] |} ];
     nrand := 2 |}.

Definition quiet_state : state :=
  {| ndiff := [0]; ncnt := [1]; ncmp := 1; hwe_prob := [];
     qry_arr := [2; 2; 2; 2]; gt_arr := [];
     kbs_diff := Some [false]; es := []; nrand := 0 |}.

(** A sorter that holds one record whose count (2) disagrees with its bit
    set (one bit). *)
Definition corrupt_state : state :=
  {| ndiff := [0]; ncnt := [0]; ncmp := 0; hwe_prob := [];
     qry_arr := []; gt_arr := []; kbs_diff := Some [false];
     es := [ {| ds_ndiff := 2; ds_rid := 0; ds_pos := 99; ds_rand := 0;
                kbs_dat := [true] |} ];
     nrand := 1 |}.

(** A query file with one sample against a genotype file with two, the
    second of which has no call at any site; the best match is asked for. *)
Definition cfg_rect : config :=
  {| two_files := true; qry_nsamples := 1; gt_nsamples := 2;
     qry_use_GT := true; gt_use_GT := true;
     nqry_smpl := 1; ngt_smpl := 2; qry_smpl := None; gt_smpl := None;
     pairs := None; hom_only := false; cross_check := false;
     calc_hwe_prob := false; sort_by_hwe := false; ntop := 1;
     dry_run := false; distinctive_sites := 0; rand := fun _ => 0 |}.

Definition rect_sites : list line_t :=
  [ {| sr_ret := 2; qry_rec := gt_rec_of [2; 2];
       gt_rec := gt_rec_of [2; 4; 0; 0] |};
    {| sr_ret := 2; qry_rec := gt_rec_of [2; 2];
       gt_rec := gt_rec_of [2; 2; 0; 0] |} ].

Definition rect_state : state :=
  {| ndiff := [1; 0]; ncnt := [2; 0]; ncmp := 2; hwe_prob := [];
     qry_arr := [2; 2]; gt_arr := [2; 2; 0; 0]; kbs_diff := None;
     es := []; nrand := 0 |}.

(** The candidates of the only query sample, in an order that [qsort] may
    return. *)
Definition rect_sorted : list idbl_t :=
  [ {| ism := 1; idx := 1; val := 0%R |};
    {| ism := 0; idx := 0; val := (IZR 1 / IZR 2)%R |} ].

(** ** The pairs of a matrix mode and their accumulators *)

(** [ngt] of the matrix loops: the number of genotype samples the query
    sample [i] is compared with. *)
Definition row_width (cfg : config) (i : nat) : nat :=
  if cross_check cfg then i else ngt_smpl cfg.

(** The value of [idx] when the outer loop reaches the query sample [i],
    and the value at which the pair [(i, j)] is compared. *)
Definition row_base (cfg : config) (i : nat) : nat :=
  if cross_check cfg then tri_base i else (i * ngt_smpl cfg)%nat.
Definition matrix_index (cfg : config) (i j : nat) : nat :=
  (row_base cfg i + j)%nat.

(** The outcome of the query sample [i] against the genotype sample [j] on
    the values of the line [l], as the getters return them. *)
Definition matrix_outcome (cfg : config) (l : line_t) (i j : nat) : outcome :=
  compare (select_cmp (qry_use_GT cfg) (gt_use_GT cfg)) (hom_only cfg)
          (at_off (fmt_arr (qry_fmt cfg l))
                  (smpl (qry_smpl cfg) i * block_len (qry_use_GT cfg)))
          (at_off (gt_vals cfg l) (smpl (gt_smpl cfg) j * ngt1_of cfg)).

(** The scores [hwe[]] of the line: those of the allele counts of the
    genotype file, or with one file of the query file. *)
Definition line_scores (cfg : config) (l : line_t) : list R :=
  match rec_ac (if two_files cfg then gt_rec l else qry_rec l) with
  | Some ac => hwe_of_ac ac
  | None => []
  end.

(** The score a match of the query block at [off] adds: [hwe[qry_dsg]]. *)
Definition match_score (cfg : config) (l : line_t) (off : nat) : R :=
  let c := select_cmp (qry_use_GT cfg) (gt_use_GT cfg) in
  let aptr := at_off (fmt_arr (qry_fmt cfg l)) off in
  line_scores cfg l !!! Z.to_nat (dsg_a c aptr (VAL_a c aptr)).

(** The three accumulators of the pair [p]. *)
Definition accum (st : state) (p : nat) : Z * Z * R :=
  (ndiff st !!! p, ncnt st !!! p, hwe_prob st !!! p).

(** What an outcome makes of the accumulators of a pair; [score] is added
    on a match when the HWE score is computed. *)
Definition accum_step (calc : bool) (score : R) (o : outcome)
    (a : Z * Z * R) : Z * Z * R :=
  match o with
  | NoData => a
  | Mismatch => (incr32 (fst (fst a)), incr32 (snd (fst a)), snd a)
  | Match =>
      (fst (fst a), incr32 (snd (fst a)),
       if calc then (snd a + score)%R else snd a)
  end.

(** The arrays of the accumulators have the size [init_data] gives them. *)
Definition allocated (cfg : config) (st : state) : Prop :=
  length (ndiff st) = npairs cfg
  /\ length (ncnt st) = npairs cfg
  /\ (calc_hwe_prob cfg = true -> length (hwe_prob st) = npairs cfg).

(** ** The value buffers during the matrix loops *)

(** The validity test and the sentinel of a tag: [HAS_GT] and
    [bcf_gt_missing], or [HAS_PL] and [bcf_int32_missing]. *)
Definition HAS (use_GT : bool) (p : ptr) : bool :=
  if use_GT then HAS_GT p else HAS_PL p.
Definition miss_of (use_GT : bool) : Z :=
  if use_GT then bcf_gt_missing else bcf_int32_missing.

(** [cur] is the buffer [orig] after the matrix loops have written the
    sentinel to the first value of some blocks that hold no data. *)
Definition marked (use_GT : bool) (orig cur : list Z) : Prop :=
  length cur = length orig
  /\ forall pos : nat,
       cur !!! pos = orig !!! pos
       \/ (exists k : nat,
             pos = (k * block_len use_GT)%nat
             /\ HAS use_GT (at_off orig pos) = false
             /\ cur !!! pos = miss_of use_GT).

(** A block of the current buffer against the same block of the line: the
    values the comparison reads are the same, or neither block holds
    data. *)
Definition same_block (use_GT : bool) (p p' : ptr) : Prop :=
  (forall t : nat, (t < block_len use_GT)%nat -> p t = p' t)
  \/ (HAS use_GT p = false /\ HAS use_GT p' = false).

(** The buffers of the state against the values [qorig] and [gorig] the
    getters returned for the line: with two files the query buffer is
    untouched; with one file the two names denote one buffer. *)
Definition buffers_ok (cfg : config) (qorig gorig : list Z) (st : state)
  : Prop :=
  if two_files cfg
  then qry_arr st = qorig /\ marked (gt_use_GT cfg) gorig (gt_arr st)
  else qorig = gorig /\ marked (gt_use_GT cfg) gorig (qry_arr st).

(** The pair [(i', j')] is compared before the loops reach [(i, j)]. *)
Definition before (cfg : config) (i j i' j' : nat) : Prop :=
  ((i' < i)%nat /\ (j' < row_width cfg i')%nat)
  \/ (i' = i /\ (j' < j)%nat).

(** The state of the matrix loops at the pair [(i, j)], against the state
    [st0] at the start of the line and the values of the line: [idx] is the
    index of the pair, the buffers differ from the values of the line by
    marks only, the accumulators from [idx] on are those of [st0], and each
    pair compared so far has made the step of its outcome on the values of
    the line. *)
Definition matrix_inv (cfg : config) (hwe : list R) (qorig gorig : list Z)
    (st0 : state) (i j : nat) (acc : state * nat) : Prop :=
  let c := select_cmp (qry_use_GT cfg) (gt_use_GT cfg) in
  let a0 := fun i' : nat =>
    at_off qorig (smpl (qry_smpl cfg) i' * block_len (qry_use_GT cfg)) in
  let b0 := fun j' : nat =>
    at_off gorig (smpl (gt_smpl cfg) j' * block_len (gt_use_GT cfg)) in
  snd acc = matrix_index cfg i j
  /\ length (ndiff (fst acc)) = length (ndiff st0)
  /\ length (ncnt (fst acc)) = length (ncnt st0)
  /\ length (hwe_prob (fst acc)) = length (hwe_prob st0)
  /\ buffers_ok cfg qorig gorig (fst acc)
  /\ (forall p : nat, (snd acc <= p)%nat -> accum (fst acc) p = accum st0 p)
  /\ (forall i' j' : nat,
         before cfg i j i' j' ->
         accum (fst acc) (matrix_index cfg i' j')
         = accum_step (calc_hwe_prob cfg)
                      (hwe !!! Z.to_nat (dsg_a c (a0 i') (VAL_a c (a0 i'))))
                      (compare c (hom_only cfg) (a0 i') (b0 j'))
                      (accum st0 (matrix_index cfg i' j'))).

(** ** Reading back a site record *)

(** [diff_sites_shift]: the next record of the sorted sequence, with its
    three numbers converted to [int] and its bit set, or nothing when the
    sorter is empty. *)
Definition diff_sites_shift (sorted : list diff_sites_t)
  : option (Z * Z * Z * kbitset_t * list diff_sites_t) :=
  match sorted with
  | [] => None
  | dat :: rest =>
      Some (to_int32 (ds_ndiff dat), to_int32 (ds_rid dat),
            to_int32 (ds_pos dat), kbs_dat dat, rest)
  end.

(** ** Further concrete runs *)

(** A cross-check of three samples, and a site at which the first sample
    has a call with one allele missing; the other two are 0/0 and 0/1.
    The loops mark the block of the first sample on their way. *)
Definition cfg_cross3 : config :=
  {| two_files := false; qry_nsamples := 3; gt_nsamples := 0;
     qry_use_GT := true; gt_use_GT := true;
     nqry_smpl := 3; ngt_smpl := 3; qry_smpl := None; gt_smpl := None;
     pairs := None; hom_only := false; cross_check := true;
     calc_hwe_prob := false; sort_by_hwe := false; ntop := 0;
     dry_run := false; distinctive_sites := 0; rand := fun _ => 0 |}.

Definition half_call_line : line_t := line_of (gt_rec_of [2; 0; 2; 2; 2; 4]).

Definition half_call_state : state :=
  {| ndiff := [0; 0; 1; 0; 0; 0]; ncnt := [0; 0; 1; 0; 0; 0]; ncmp := 1;
     hwe_prob := []; qry_arr := [0; 0; 2; 2; 2; 4]; gt_arr := [];
     kbs_diff := None; es := []; nrand := 0 |}.

(** The run with two explicit pairs after its first site: the first pair
    differs there and the second agrees. *)
Definition pairs2_state : state :=
  {| ndiff := [1; 0]; ncnt := [1; 1]; ncmp := 1; hwe_prob := [];
     qry_arr := [2; 2; 2; 4]; gt_arr := [];
     kbs_diff := Some [true; false];
     es := [ {| ds_ndiff := 1; ds_rid := 0; ds_pos := 99; ds_rand := 0;
                kbs_dat := [true; false] |} ];
     nrand := 1 |}.

(** What the drain leaves for one pair, threshold one, after two sites at
    which the pair differs: two blocks of one line. *)
Definition twice_drained : drain_t :=
  {| kbs_blk := [false]; ndiff_tot := 0; iblock := 2;
     ds_out :=
       [ {| DS_rid := 0; DS_pos := 100; DS_tot := 1; DS_block := 0 |};
         {| DS_rid := 0; DS_pos := 100; DS_tot := 1; DS_block := 1 |} ] |}.

(** The cross-check of two samples as a dry run. *)
Definition cfg_dry : config :=
  {| two_files := false; qry_nsamples := 2; gt_nsamples := 0;
     qry_use_GT := true; gt_use_GT := true;
     nqry_smpl := 2; ngt_smpl := 2; qry_smpl := None; gt_smpl := None;
     pairs := None; hom_only := false; cross_check := true;
     calc_hwe_prob := false; sort_by_hwe := false; ntop := 0;
     dry_run := true; distinctive_sites := 0; rand := fun _ => 0 |}.

(** ** The numbers of a whole run *)

Definition is_mismatch (o : outcome) : bool :=
  match o with Mismatch => true | _ => false end.
Definition is_match (o : outcome) : bool :=
  match o with Match => true | _ => false end.
Definition has_data (o : outcome) : bool :=
  match o with NoData => false | _ => true end.

(** The outcome of a pair at a line of the stream: the outcome [out l] on
    the values of the line when the line is compared, and no data when the
    line is passed over. *)
Definition stream_outcome (cfg : config) (out : line_t -> outcome)
    (l : line_t) : outcome :=
  if compared_line cfg l then out l else NoData.

(** The number of lines of [ls] at which the outcome of the pair
    satisfies [f]. *)
Definition count_lines (cfg : config) (out : line_t -> outcome)
    (f : outcome -> bool) (ls : list line_t) : Z :=
  Z.of_nat (length (List.filter (fun l => f (stream_outcome cfg out l)) ls)).

(** The sum, in the order of the stream, of the scores of the lines at
    which the pair matches. *)
Definition sum_scores (cfg : config) (out : line_t -> outcome)
    (score : line_t -> R) (ls : list line_t) : R :=
  fold_left (fun (s : R) (l : line_t) =>
               if is_match (stream_outcome cfg out l) then (s + score l)%R
               else s)
            ls 0%R.

(** The accumulators of a pair after the lines [ls], from the step of each
    line. *)
Definition run_accum (cfg : config) (out : line_t -> outcome)
    (score : line_t -> R) (ls : list line_t) (a : Z * Z * R) : Z * Z * R :=
  fold_left (fun (a : Z * Z * R) (l : line_t) =>
               accum_step (calc_hwe_prob cfg) (score l)
                          (stream_outcome cfg out l) a)
            ls a.

(** ** [report]: the DC section *)

(** [trim]: how many matches per query sample are printed, [0] for all. *)
Definition trim (cfg : config) : nat :=
  let trim := ntop cfg in
  match pairs cfg with
  | Some _ => trim
  | None =>
      let trim :=
        if (ngt_smpl cfg =? 0)%nat && (nqry_smpl cfg <=? ntop cfg)%nat
        then 0%nat else trim in
      let trim :=
        if negb (ngt_smpl cfg =? 0)%nat && (ngt_smpl cfg <=? ntop cfg)%nat
        then 0%nat else trim in
      trim
  end.

(** The branch of the explicit pairs: one line for each pair, in the order
    of the array. *)
Definition report_pairs (cfg : config) (st : state) (ps : list pair_t)
  : list dc_line :=
  map (fun i => dc_of cfg st (iqry (ps !!! i)) (igt (ps !!! i)) i)
      (seq 0 (npairs cfg)).

(** The branch [!trim]: the two loops of the matrix with [idx] running
    along; the accumulator is [idx] and the lines printed so far. *)
Definition report_all (cfg : config) (st : state) : list dc_line :=
  snd (fold_left
         (fun (acc : nat * list dc_line) (i : nat) =>
            fold_left
              (fun (acc : nat * list dc_line) (j : nat) =>
                 (S (fst acc),
                  snd acc ++ [dc_of cfg st (smpl (qry_smpl cfg) i)
                                    (smpl (gt_smpl cfg) j) (fst acc)]))
              (seq 0 (if cross_check cfg then i else ngt_smpl cfg)) acc)
         (seq 0 (nqry_smpl cfg)) (0%nat, [])).

Section Report.

(** [qsort] of [arr] with [cmp_idbl], whatever order it gives to the
    entries that compare equal. *)
Variable qsort_idbl : list idbl_t -> list idbl_t.

(** The lines of the DC section, or nothing when the run does not get
    through the rows of candidates of a trimmed report (see [sort_key]). *)
Definition report (cfg : config) (st : state) : option (list dc_line) :=
  match pairs cfg with
  | Some ps => Some (report_pairs cfg st ps)
  | None =>
      if (trim cfg =? 0)%nat then Some (report_all cfg st)
      else if negb (cross_check cfg)
      then
        rows ← mapM (fun i => arr ← rect_row cfg st i;
                              Some (rect_top cfg st i (qsort_idbl arr)))
                    (seq 0 (nqry_smpl cfg));
        Some (concat rows)
      else
        rows ← mapM (fun i => arr ← cross_row cfg st i;
                              Some (cross_top cfg st i (qsort_idbl arr)))
                    (seq 0 (nqry_smpl cfg));
        Some (concat rows)
  end.

End Report.

(** The lines of the matrix in closed form: the pair [(i, j)] with the
    accumulators at the index at which [process_line] counts it. *)
Definition matrix_lines (cfg : config) (st : state) : list dc_line :=
  flat_map (fun i =>
              map (fun j => dc_of cfg st (smpl (qry_smpl cfg) i)
                                  (smpl (gt_smpl cfg) j)
                                  (matrix_index cfg i j))
                  (seq 0 (row_width cfg i)))
           (seq 0 (nqry_smpl cfg)).

(** ** The shape of the DS section *)

(** Two consecutive DS lines: the second stays in the block of the first,
    with a larger cumulative count, when the first is below the threshold;
    it opens the next block when the first has reached it. *)
Definition ds_next (ndiff_min : Z) (a b : ds_line) : Prop :=
  (DS_block b = DS_block a /\ DS_tot a < DS_tot b /\ DS_tot a < ndiff_min)
  \/ (DS_block b = DS_block a + 1 /\ ndiff_min <= DS_tot a).

Fixpoint ds_chain (ndiff_min : Z) (l : list ds_line) : Prop :=
  match l with
  | a :: l' =>
      match l' with
      | b :: _ => ds_next ndiff_min a b /\ ds_chain ndiff_min l'
      | [] => True
      end
  | [] => True
  end.

(** The number of lines that close a block. *)
Definition closed_blocks (ndiff_min : Z) (l : list ds_line) : Z :=
  Z.of_nat (length (List.filter (fun ln => ndiff_min <=? DS_tot ln) l)).

(** The locals of [report_distinctive_sites] against the lines written so
    far. *)
Definition drain_inv (ndiff_min : Z) (d : drain_t) : Prop :=
  0 <= ndiff_tot d < ndiff_min
  /\ ds_chain ndiff_min (ds_out d)
  /\ Forall (fun ln => 1 <= DS_tot ln) (ds_out d)
  /\ iblock d = closed_blocks ndiff_min (ds_out d)
  /\ (forall a : ds_line, head (ds_out d) = Some a -> DS_block a = 0)
  /\ match list.last (ds_out d) with
     | None => iblock d = 0 /\ ndiff_tot d = 0
     | Some a =>
         (DS_block a = iblock d /\ DS_tot a = ndiff_tot d)
         \/ (DS_block a + 1 = iblock d /\ ndiff_tot d = 0
             /\ ndiff_min <= DS_tot a)
     end.

(** ** Setting up a run: the checks of [main_vcfgtcheck] and [init_data] *)

(** A C string, without its terminating NUL. *)
Abbreviation cstring := (list Ascii.ascii).

(** Modelled from the spec: what [init_data] asks of a VCF header through
    htslib ([vcf.h] is not under src/): the number of samples, the index of
    a sample name ([bcf_hdr_id2int] with [BCF_DT_SAMPLE], negative when the
    name is unknown), and whether the tags PL and GT are declared
    ([bcf_hdr_id2int] with [BCF_DT_ID] is not negative). *)
Record bcf_hdr_t : Type := {
  hdr_nsamples : nat;
  hdr_sample_id : cstring -> Z;
  hdr_has_PL : bool;
  hdr_has_GT : bool
}.

(** The fields of [args_t] as the option loop of [main_vcfgtcheck] leaves
    them. A list of names is what [hts_readlist] returns for the option's
    argument: [None] for [NULL]. *)
Record args_t : Type := {
  arg_gt_fname : bool;                              (* -g given *)
  arg_qry_use_GT : Z;                               (* -1 unless -u *)
  arg_gt_use_GT : Z;
  arg_qry_samples : option (option (list cstring)); (* -s/-S qry: *)
  arg_gt_samples : option (option (list cstring));  (* -s/-S gt: *)
  arg_pair_samples : option (option (list cstring)); (* -p/-P *)
  arg_pair_samples_is_file : bool;
  arg_ntop : Z;
  arg_sort_by_hwe : bool;
  arg_hom_only : bool;
  arg_calc_hwe_prob : bool;
  arg_dry_run : bool;
  arg_distinctive_sites : R;
  arg_rand : nat -> Z
}.

(** The exits through [throw_and_clean] before the first line is read. *)
Inductive init_error : Type :=
| Pairs_with_samples        (* "The -p/-P option cannot be combined ..." *)
| Pairs_with_n_matches      (* "The --n-matches option cannot be ..." *)
| Sites_without_pairs       (* "... --distinctive-sites requires -p/-P" *)
| Homs_without_genotypes    (* "The option --homs-only requires ..." *)
| No_samples (gt_file : bool)              (* "No samples in %s?" *)
| Neither_tag (gt_file : bool)   (* "Neither PL nor GT tag is present" *)
| GT_not_present (gt_file : bool)
| PL_not_present (gt_file : bool)
| Failed_to_parse                          (* "Failed to parse %s" *)
| No_such_sample (name : cstring)          (* "No such sample in %s" *)
| Odd_pairs                      (* "Expected even number of ..." *)
| Could_not_parse (line : cstring)         (* "Could not parse %s: %s" *)
| Sites_too_low (nsites : Z).    (* "... was set too low: %d" *)

Inductive setup (A : Type) : Type :=
| Ready (a : A)
| Fail (e : init_error).
Arguments Ready {A} a.
Arguments Fail {A} e.

Definition bind {A B : Type} (m : setup A) (k : A -> setup B) : setup B :=
  match m with
  | Ready a => k a
  | Fail e => Fail e
  end.

Notation "'let*' x := m 'in' k" := (bind m (fun x => k))
  (at level 10, x name, m at level 200, k at level 200).

(** ** The comparison functions of the sample arrays *)

Definition cmp_int (a b : Z) : Z :=
  if a <? b then -1 else if b <? a then 1 else 0.

Definition cmp_pair (a b : pair_t) : Z :=
  if (iqry a <? iqry b)%nat then -1
  else if (iqry b <? iqry a)%nat then 1
  else if (igt a <? igt b)%nat then -1
  else if (igt b <? igt a)%nat then 1
  else 0.

(** Modelled from the spec: libc's [qsort]. With [cmp_int] and [cmp_pair],
    total orders in which only equal values compare equal, its contract
    leaves one result, which an insertion sort computes. *)
Definition qsort {A : Type} (cmp : A -> A -> Z) (l : list A) : list A :=
  extsort_sort cmp l.

(** ** GT or PL *)

(** "Determine whether GT or PL will be used": the query file. *)
Definition qry_tag (use_GT : Z) (hdr : bcf_hdr_t) : setup bool :=
  if use_GT =? -1
  then (if hdr_has_PL hdr then Ready false
        else if hdr_has_GT hdr then Ready true
        else Fail (Neither_tag false))
  else if use_GT =? 1
  then (if hdr_has_GT hdr then Ready true else Fail (GT_not_present false))
  else if hdr_has_PL hdr then Ready false else Fail (PL_not_present false).

(** The same for the genotype file. *)
Definition gt_tag (use_GT : Z) (hdr : bcf_hdr_t) : setup bool :=
  if use_GT =? -1
  then (if hdr_has_GT hdr then Ready true
        else if hdr_has_PL hdr then Ready false
        else Fail (Neither_tag true))
  else if use_GT =? 1
  then (if hdr_has_GT hdr then Ready true else Fail (GT_not_present true))
  else if hdr_has_PL hdr then Ready false else Fail (PL_not_present true).

(** ** Lists of samples *)

(** The loop over the names of a list: the index of each in the header. *)
Fixpoint sample_ids (hdr : bcf_hdr_t) (names : list cstring)
  : setup (list Z) :=
  match names with
  | [] => Ready []
  | name :: rest =>
      let idx := hdr_sample_id hdr name in
      if idx <? 0 then Fail (No_such_sample name)
      else let* ids := sample_ids hdr rest in Ready (idx :: ids)
  end.

(** A list of samples given with [-s] or [-S]: read, looked up, sorted. *)
Definition read_samples (hdr : bcf_hdr_t) (tmp : option (list cstring))
  : setup (list nat) :=
  match tmp with
  | None => Fail Failed_to_parse
  | Some [] => Fail Failed_to_parse
  | Some names =>
      let* ids := sample_ids hdr names in
      Ready (map Z.to_nat (qsort cmp_int ids))
  end.

(** ** Lists of pairs *)

(** [isspace] in the C locale. *)
Definition isspace (c : Ascii.ascii) : bool :=
  let n := Ascii.nat_of_ascii c in
  (n =? 32)%nat || ((9 <=? n)%nat && (n <=? 13)%nat).

(** [while ( *ptr && f( *ptr) ) ptr++]: the characters passed over, and
    where [ptr] ends up. *)
Fixpoint span_while (f : Ascii.ascii -> bool) (s : cstring)
  : cstring * cstring :=
  match s with
  | [] => ([], [])
  | c :: rest =>
      if f c
      then let '(skipped, ptr) := span_while f rest in (c :: skipped, ptr)
      else ([], s)
  end.

(** A line of the file given with [-P]: the name up to the first white
    space, and what follows the run of white space after it. *)
Definition split_pair_line (line : cstring) : option (cstring * cstring) :=
  let '(name, ptr) := span_while (fun c => negb (isspace c)) line in
  match ptr with
  | [] => None
  | _ :: ptr => Some (name, snd (span_while isspace ptr))
  end.

(** The loop over the pairs of a comma-separated list ([-p]). *)
Fixpoint pairs_of_list (qry_hdr gt_hdr : bcf_hdr_t) (tmp : list cstring)
  : setup (list pair_t) :=
  match tmp with
  | a :: b :: rest =>
      let iq := hdr_sample_id qry_hdr a in
      let ig := hdr_sample_id gt_hdr b in
      if iq <? 0 then Fail (No_such_sample a)
      else if ig <? 0 then Fail (No_such_sample b)
      else let* ps := pairs_of_list qry_hdr gt_hdr rest in
           Ready ({| iqry := Z.to_nat iq; igt := Z.to_nat ig |} :: ps)
  | _ => Ready []
  end.

(** The loop over the lines of a file of pairs ([-P]). *)
Fixpoint pairs_of_file (qry_hdr gt_hdr : bcf_hdr_t) (tmp : list cstring)
  : setup (list pair_t) :=
  match tmp with
  | [] => Ready []
  | line :: rest =>
      match split_pair_line line with
      | None => Fail (Could_not_parse line)
      | Some (a, b) =>
          let iq := hdr_sample_id qry_hdr a in
          if iq <? 0 then Fail (No_such_sample a)
          else
            let ig := hdr_sample_id gt_hdr b in
            if ig <? 0 then Fail (No_such_sample b)
            else let* ps := pairs_of_file qry_hdr gt_hdr rest in
                 Ready ({| iqry := Z.to_nat iq; igt := Z.to_nat ig |} :: ps)
      end
  end.

Definition read_pairs (is_file : bool) (qry_hdr gt_hdr : bcf_hdr_t)
    (tmp : option (list cstring)) : setup (list pair_t) :=
  match tmp with
  | None => Fail Failed_to_parse
  | Some [] => Fail Failed_to_parse
  | Some names =>
      if negb is_file && negb (length names mod 2 =? 0)%nat
      then Fail Odd_pairs
      else
        let* ps := (if is_file then pairs_of_file qry_hdr gt_hdr names
                    else pairs_of_list qry_hdr gt_hdr names) in
        Ready (qsort cmp_pair ps)
  end.

(** ** The threshold of the distinctive sites ([diff_sites_init]) *)

(** A real number without its fraction. *)
Definition trunc (x : R) : Z :=
  if Rltb x 0 then - Int_part (- x) else Int_part x.

(** The conversion of a [double] to [int]: the fraction is dropped. For a
    value outside the range of [int] the C standard leaves the result
    open; the value taken here is what the conversion gives on x86-64,
    the smallest [int]. *)
Definition double_to_int (x : R) : Z :=
  let t := trunc x in
  if (- 2 ^ 31 <=? t) && (t <=? INT_MAX) then t else - 2 ^ 31.

(** A [double] used as a condition. *)
Definition nonzero (x : R) : bool := Rltb x 0 || Rltb 0 x.

(** What is asked of the product of two doubles, which the machine
    rounds: the rounded product is on the same side as the exact one of
    every integer that a double holds exactly. Rounding to nearest is
    monotone and leaves these integers in place, so it has this property;
    so has the exact product. *)
Definition rounds (fmul : R -> R -> R) : Prop :=
  forall (a b : R) (k : Z),
    Z.abs k <= 2 ^ 53 ->
    ((IZR k <= a * b)%R -> (IZR k <= fmul a b)%R)
    /\ ((a * b <= IZR k)%R -> (fmul a b <= IZR k)%R).

Section Setup.

(** The product of two doubles as the machine rounds it. *)
Variable fmul : R -> R -> R.

(** [nsites] as [diff_sites_init] stores it back in
    [args->distinctive_sites]: a value up to 1 is a fraction of the pairs,
    a larger one a number of pairs. *)
Definition diff_sites_init (npairs : nat) (distinctive_sites : R)
  : setup Z :=
  let nsites :=
    double_to_int
      (if Rltb 1 distinctive_sites then distinctive_sites
       else fmul (IZR (Z.of_nat npairs)) distinctive_sites) in
  if nsites <=? 0 then Fail (Sites_too_low nsites)
  else Ready (if Z.of_nat npairs <? nsites then Z.of_nat npairs else nsites).

(** ** [main_vcfgtcheck]: the checks after the option loop *)

Definition given {A : Type} (o : option A) : bool :=
  match o with Some _ => true | None => false end.

Definition check_args (args : args_t) : setup unit :=
  if given (arg_pair_samples args)
     && (given (arg_gt_samples args) || given (arg_qry_samples args))
  then Fail Pairs_with_samples
  else if given (arg_pair_samples args) && negb (arg_ntop args =? 0)
  then Fail Pairs_with_n_matches
  else if nonzero (arg_distinctive_sites args)
          && negb (given (arg_pair_samples args))
  then Fail Sites_without_pairs
  else if arg_hom_only args && negb (arg_gt_fname args)
  then Fail Homs_without_genotypes
  else Ready tt.

(** ** [init_data] *)

(** What "Prepare samples" leaves in [args_t]. *)
Record samples_t : Type := {
  s_ngt_smpl : nat;
  s_gt_smpl : option (list nat);
  s_pairs : option (list pair_t);
  s_cross_check : bool
}.

(** The chain that sets up the genotype samples, the pairs or the
    cross-check; [nqry] and [qry_smpl] are the query samples set up before
    it. *)
Definition prepare_samples (args : args_t) (qry_hdr gt_hdr : bcf_hdr_t)
    (nqry : nat) (qry_smpl : option (list nat)) : setup samples_t :=
  if arg_gt_fname args
  then
    match arg_gt_samples args with
    | Some tmp =>
        let* l := read_samples gt_hdr tmp in
        Ready {| s_ngt_smpl := length l; s_gt_smpl := Some l;
                 s_pairs := None; s_cross_check := false |}
    | None =>
        Ready {| s_ngt_smpl := hdr_nsamples gt_hdr; s_gt_smpl := None;
                 s_pairs := None; s_cross_check := false |}
    end
  else
    match arg_gt_samples args with
    | Some tmp =>
        let* l := read_samples qry_hdr tmp in
        Ready {| s_ngt_smpl := length l; s_gt_smpl := Some l;
                 s_pairs := None; s_cross_check := false |}
    | None =>
        match arg_pair_samples args with
        | Some tmp =>
            let* ps := read_pairs (arg_pair_samples_is_file args) qry_hdr
                                  (if arg_gt_fname args then gt_hdr
                                   else qry_hdr) tmp in
            Ready {| s_ngt_smpl := 0; s_gt_smpl := None;
                     s_pairs := Some ps; s_cross_check := false |}
        | None =>
            Ready {| s_ngt_smpl := nqry; s_gt_smpl := qry_smpl;
                     s_pairs := None; s_cross_check := true |}
        end
    end.

(** [nqry_smpl]: the length of the list of query samples, or all samples
    of the query file. *)
Definition nqry_of (qry_hdr : bcf_hdr_t) (qs : option (list nat)) : nat :=
  match qs with
  | Some l => length l
  | None => hdr_nsamples qry_hdr
  end.

(** The fields of [args_t] once the samples are set up, with the
    threshold [ds] of the distinctive sites. *)
Definition make_config (args : args_t) (qry_hdr gt_hdr : bcf_hdr_t)
    (q g : bool) (qs : option (list nat)) (s : samples_t) (ds : Z)
  : config :=
  {| two_files := arg_gt_fname args;
     qry_nsamples := hdr_nsamples qry_hdr;
     gt_nsamples := if arg_gt_fname args then hdr_nsamples gt_hdr
                    else 0%nat;
     qry_use_GT := q; gt_use_GT := g;
     nqry_smpl := nqry_of qry_hdr qs; ngt_smpl := s_ngt_smpl s;
     qry_smpl := qs; gt_smpl := s_gt_smpl s;
     pairs := s_pairs s;
     hom_only := arg_hom_only args;
     cross_check := s_cross_check s;
     calc_hwe_prob := arg_calc_hwe_prob args;
     sort_by_hwe := arg_sort_by_hwe args;
     ntop := Z.to_nat (arg_ntop args);
     dry_run := arg_dry_run args;
     distinctive_sites := ds;
     rand := arg_rand args |}.

Definition init_data (args : args_t) (qry_hdr gt_hdr : bcf_hdr_t)
  : setup config :=
  if (hdr_nsamples qry_hdr =? 0)%nat then Fail (No_samples false)
  else if arg_gt_fname args && (hdr_nsamples gt_hdr =? 0)%nat
  then Fail (No_samples true)
  else
    let* q := qry_tag (arg_qry_use_GT args) qry_hdr in
    let* g := (if arg_gt_fname args then gt_tag (arg_gt_use_GT args) gt_hdr
               else Ready q) in
    let* qs := match arg_qry_samples args with
               | Some tmp => let* l := read_samples qry_hdr tmp in
                             Ready (Some l)
               | None => Ready None
               end in
    let* s := prepare_samples args qry_hdr gt_hdr (nqry_of qry_hdr qs) qs in
    let* ds := (if nonzero (arg_distinctive_sites args)
                then diff_sites_init
                       (npairs (make_config args qry_hdr gt_hdr q g qs s 0))
                       (arg_distinctive_sites args)
                else Ready 0) in
    Ready (make_config args qry_hdr gt_hdr q g qs s ds).

(** The run up to the first line: the checks, then [init_data]. *)
Definition set_up (args : args_t) (qry_hdr gt_hdr : bcf_hdr_t)
  : setup config :=
  let* _ := check_args args in init_data args qry_hdr gt_hdr.

End Setup.

(** ** A concrete set-up *)

(** A file with the samples "A" and "B" that declares GT only. *)
Definition hdr_AB : bcf_hdr_t :=
  {| hdr_nsamples := 2;
     hdr_sample_id := fun name =>
       match name with
       | [c] => if (Ascii.nat_of_ascii c =? 65)%nat then 0
                else if (Ascii.nat_of_ascii c =? 66)%nat then 1 else -1
       | _ => -1
       end;
     hdr_has_PL := false; hdr_has_GT := true |}.

(** [bcftools gtcheck --no-HWE-prob file.vcf] *)
Definition args_plain : args_t :=
  {| arg_gt_fname := false; arg_qry_use_GT := -1; arg_gt_use_GT := -1;
     arg_qry_samples := None; arg_gt_samples := None;
     arg_pair_samples := None; arg_pair_samples_is_file := false;
     arg_ntop := 0; arg_sort_by_hwe := false; arg_hom_only := false;
     arg_calc_hwe_prob := false; arg_dry_run := false;
     arg_distinctive_sites := 0; arg_rand := fun _ => 0 |}.

(** The same with [-P pairs.txt], a file with the one line "A<TAB>B". *)
Definition args_pair_file : args_t :=
  {| arg_gt_fname := false; arg_qry_use_GT := -1; arg_gt_use_GT := -1;
     arg_qry_samples := None; arg_gt_samples := None;
     arg_pair_samples :=
       Some (Some [ [Ascii.ascii_of_nat 65; Ascii.ascii_of_nat 9;
                     Ascii.ascii_of_nat 66] ]);
     arg_pair_samples_is_file := true;
     arg_ntop := 0; arg_sort_by_hwe := false; arg_hom_only := false;
     arg_calc_hwe_prob := false; arg_dry_run := false;
     arg_distinctive_sites := 0; arg_rand := fun _ => 0 |}.

(** The set-up of the second run. *)
Definition cfg_pair_file : config :=
  {| two_files := false; qry_nsamples := 2; gt_nsamples := 0;
     qry_use_GT := true; gt_use_GT := true;
     nqry_smpl := 2; ngt_smpl := 0; qry_smpl := None; gt_smpl := None;
     pairs := Some [ {| iqry := 0; igt := 1 |} ];
     hom_only := false; cross_check := false;
     calc_hwe_prob := false; sort_by_hwe := false; ntop := 0;
     dry_run := false; distinctive_sites := 0; rand := fun _ => 0 |}.

(** ** [main_vcfgtcheck] *)

(** How a run ends: with a message of [throw_and_clean] before the first
    line, while the lines are read, or while the DS section is written
    (the DC section is out by then); without getting through the rows of
    candidates of a trimmed report; or with the two sections. *)
Inductive run_t : Type :=
| Exit_init (e : init_error)
| Exit_loop (e : error)
| Killed_in_report
| Exit_report (dc : list dc_line) (e : error)
| Finished (dc : list dc_line) (ds : list ds_line).

Section Main.

Variable fmul : R -> R -> R.
Variable qsort_idbl : list idbl_t -> list idbl_t.

Definition main_vcfgtcheck (args : args_t) (qry_hdr gt_hdr : bcf_hdr_t)
    (lines : list line_t) : run_t :=
  match set_up fmul args qry_hdr gt_hdr with
  | Fail e => Exit_init e
  | Ready cfg =>
      match main_loop cfg (init_state cfg) lines with
      | Throw e => Exit_loop e
      | Done st =>
          if dry_run cfg then Finished [] []
          else
            match report qsort_idbl cfg st with
            | None => Killed_in_report
            | Some dc =>
                if distinctive_sites cfg =? 0 then Finished dc []
                else
                  match report_distinctive_sites cfg st with
                  | Throw e => Exit_report dc e
                  | Done d => Finished dc (ds_out d)
                  end
            end
      end
  end.

End Main.

(** The DC line of a pair as the lines of the input determine it: the
    number of compared lines at which the pair is a mismatch, the sum of
    the scores of the lines at which it matches, and the number of lines at
    which it is compared, the two counts modulo [2^32]. *)
Definition counted_line (cfg : config) (ls : list line_t) (iq ig : nat)
    (out : line_t -> outcome) (score : line_t -> R) : dc_line :=
  {| DC_qry := iq; DC_gt := ig;
     DC_ndiff := count_lines cfg out is_mismatch ls mod 2 ^ 32;
     DC_hwe := if calc_hwe_prob cfg then sum_scores cfg out score ls
               else 0%R;
     DC_ncnt := count_lines cfg out has_data ls mod 2 ^ 32 |}.

(** The DC section of a run with explicit pairs, and of a run over the
    whole matrix. *)
Definition pairs_section (cfg : config) (ps : list pair_t)
    (ls : list line_t) : list dc_line :=
  map (fun p =>
         counted_line cfg ls (iqry (ps !!! p)) (igt (ps !!! p))
                      (fun l => pair_outcome cfg ps l p)
                      (fun l => match_score cfg l
                                  (iqry (ps !!! p)
                                   * block_len (qry_use_GT cfg))))
      (seq 0 (length ps)).

Definition matrix_section (cfg : config) (ls : list line_t) : list dc_line :=
  flat_map (fun i =>
              map (fun j =>
                     counted_line cfg ls (smpl (qry_smpl cfg) i)
                                  (smpl (gt_smpl cfg) j)
                                  (fun l => matrix_outcome cfg l i j)
                                  (fun l => match_score cfg l
                                              (smpl (qry_smpl cfg) i
                                               * block_len (qry_use_GT cfg))))
                  (seq 0 (row_width cfg i)))
           (seq 0 (nqry_smpl cfg)).

(** ** Reading the sorter to its end *)

(** The loop [while ( diff_sites_shift(args,&ndiff,&rid,&pos) )]: what the
    successive calls return, with the number of records in the sorter as
    the bound of the recursion. *)
Fixpoint shift_all (fuel : nat) (sorted : list diff_sites_t)
  : list (Z * Z * Z * kbitset_t) :=
  match fuel with
  | O => []
  | S fuel =>
      match diff_sites_shift sorted with
      | None => []
      | Some (nd, rid, pos, b, rest) => (nd, rid, pos, b) :: shift_all fuel rest
      end
  end.

(** ** The disabled [_SLOWER_BRANCH] *)

(** [min = ptr[0]; for (i=1; i<3; i++) if ( min > ptr[i] ) { min = ptr[i];
    dsg = i; }]: the minimum and the first position that holds it. *)
Definition scan_min (p : ptr) : Z * Z :=
  fold_left (fun (acc : Z * Z) (i : nat) =>
               if p i <? fst acc then (p i, Z.of_nat i) else acc)
            [1%nat; 2%nat] (p 0%nat, 0).

(** The three [match_*] functions: the return value (-1 on missing data, 0
    on mismatch, 1 on match) and the dosages written to [*adsg] and
    [*bdsg], if the function got that far. *)
Definition match_GT_GT (aptr bptr : ptr) : Z * option (Z * Z) :=
  if bcf_gt_is_missing (aptr 0%nat) || bcf_gt_is_missing (aptr 1%nat)
     || (aptr 1%nat =? bcf_int32_vector_end)
  then (-1, None)
  else if bcf_gt_is_missing (bptr 0%nat) || bcf_gt_is_missing (bptr 1%nat)
          || (bptr 1%nat =? bcf_int32_vector_end)
  then (-1, None)
  else
    let adsg := (if bcf_gt_allele (aptr 0%nat) =? 0 then 0 else 1)
                + (if bcf_gt_allele (aptr 1%nat) =? 0 then 0 else 1) in
    let bdsg := (if bcf_gt_allele (bptr 0%nat) =? 0 then 0 else 1)
                + (if bcf_gt_allele (bptr 1%nat) =? 0 then 0 else 1) in
    (if adsg =? bdsg then 1 else 0, Some (adsg, bdsg)).

Definition match_GT_PL (aptr bptr : ptr) : Z * option (Z * Z) :=
  if bcf_gt_is_missing (aptr 0%nat) || bcf_gt_is_missing (aptr 1%nat)
     || (aptr 1%nat =? bcf_int32_vector_end)
  then (-1, None)
  else if (bptr 0%nat =? bcf_int32_missing) || (bptr 1%nat =? bcf_int32_missing)
          || (bptr 2%nat =? bcf_int32_missing)
          || (bptr 1%nat =? bcf_int32_vector_end)
          || (bptr 2%nat =? bcf_int32_vector_end)
  then (-1, None)
  else
    let adsg := (if bcf_gt_allele (aptr 0%nat) =? 0 then 0 else 1)
                + (if bcf_gt_allele (aptr 1%nat) =? 0 then 0 else 1) in
    let '(min, bdsg) := scan_min bptr in
    (if min =? bptr (Z.to_nat adsg) then 1 else 0, Some (adsg, bdsg)).

Definition match_PL_PL (aptr bptr : ptr) : Z * option (Z * Z) :=
  if (aptr 0%nat =? bcf_int32_missing) || (aptr 1%nat =? bcf_int32_missing)
     || (aptr 2%nat =? bcf_int32_missing)
     || (aptr 1%nat =? bcf_int32_vector_end)
     || (aptr 2%nat =? bcf_int32_vector_end)
  then (-1, None)
  else if (bptr 0%nat =? bcf_int32_missing) || (bptr 1%nat =? bcf_int32_missing)
          || (bptr 2%nat =? bcf_int32_missing)
          || (bptr 1%nat =? bcf_int32_vector_end)
          || (bptr 2%nat =? bcf_int32_vector_end)
  then (-1, None)
  else
    let '(amin, adsg) := scan_min aptr in
    let '(bmin, bdsg) := scan_min bptr in
    match List.find (fun i => (aptr i =? amin) && (bptr i =? bmin)) (seq 0 3)
    with
    | Some i => (1, Some (Z.of_nat i, Z.of_nat i))
    | None => (0, Some (adsg, bdsg))
    end.

(** The [if / else if] chain of the slower loop: [match] and [qry_dsg]. *)
Definition slow_match (qry_use_GT gt_use_GT : bool) (aptr bptr : ptr)
  : Z * option Z :=
  if qry_use_GT && gt_use_GT
  then let '(m, d) := match_GT_GT aptr bptr in (m, option_map fst d)
  else if negb qry_use_GT && negb gt_use_GT
  then let '(m, d) := match_PL_PL aptr bptr in (m, option_map fst d)
  else if qry_use_GT
  then let '(m, d) := match_GT_PL aptr bptr in (m, option_map fst d)
  else let '(m, d) := match_GT_PL bptr aptr in (m, option_map snd d).

(** The rest of the body of the slower loop, on the three accumulators of
    the pair. *)
Definition slow_step (calc : bool) (hwe : list R)
    (qry_use_GT gt_use_GT : bool) (aptr bptr : ptr) (a : Z * Z * R)
  : Z * Z * R :=
  let '(m, qry_dsg) := slow_match qry_use_GT gt_use_GT aptr bptr in
  if 0 <=? m
  then
    if m =? 0 then (incr32 (fst (fst a)), incr32 (snd (fst a)), snd a)
    else
      (fst (fst a), incr32 (snd (fst a)),
       if calc
       then Rplus (snd a) (hwe !!! Z.to_nat (default 0 qry_dsg))
       else snd a)
  else a.
(** ** Properties of the genotype view *)

(** Case split on every comparison between two entries of the block [p]. *)
Ltac split_lt p :=
  repeat match goal with
         | |- context [Z.ltb (p ?i) (p ?j)] =>
             destruct (Z.ltb_spec (p i) (p j)); simpl
         end;
  rewrite ?Nat2Z.id;
  change (Z.to_nat 0) with 0%nat; change (Z.to_nat 1) with 1%nat;
  change (Z.to_nat 2) with 2%nat.

Ltac three_cases k :=
  let H := fresh in
  assert (k = 0 \/ k = 1 \/ k = 2)%nat as H by lia;
  destruct H as [-> | [-> | ->]].

Lemma MIN_PL_min3 (p : ptr) : MIN_PL p = min3 p.
Proof. unfold MIN_PL, min3. split_lt p; lia. Qed.

Lemma DSG_PL_range (p : ptr) : 0 <= DSG_PL p <= 2.
Proof. unfold DSG_PL. split_lt p; lia. Qed.

Lemma DSG_PL_attains (p : ptr) : p (Z.to_nat (DSG_PL p)) = min3 p.
Proof. unfold DSG_PL, min3. split_lt p; lia. Qed.

Lemma DSG_PL_last (p : ptr) (k : nat) :
  (k <= 2)%nat -> p k = min3 p -> Z.of_nat k <= DSG_PL p.
Proof. intros Hk. unfold DSG_PL, min3. three_cases k; split_lt p; lia. Qed.

Lemma DSG_GT_range (p : ptr) : 0 <= DSG_GT p <= 2.
Proof.
  unfold DSG_GT.
  repeat match goal with |- context [?a =? ?b] => destruct (Z.eqb_spec a b) end;
    lia.
Qed.

(** The call 0/1 in htslib's encoding, and its dosage. *)
Example DSG_GT_het :
  pair_of (bcf_gt_unphased 0) (bcf_gt_unphased 1) = pair_of 2 4
  /\ HAS_GT (pair_of 2 4) = true /\ DSG_GT (pair_of 2 4) = 1.
Proof. repeat split; reflexivity. Qed.

Lemma spec_dosage_PL_range (p : ptr) : 0 <= spec_dosage_PL p <= 2.
Proof. unfold spec_dosage_PL. simpl. split_lt p; lia. Qed.

Lemma spec_dosage_PL_attains (p : ptr) :
  p (Z.to_nat (spec_dosage_PL p)) = min3 p.
Proof. unfold spec_dosage_PL, min3. simpl. split_lt p; lia. Qed.

Lemma spec_dosage_PL_first (p : ptr) (k : nat) :
  (k <= 2)%nat -> p k = min3 p -> spec_dosage_PL p <= Z.of_nat k.
Proof.
  intros Hk. unfold spec_dosage_PL, min3. simpl.
  three_cases k; split_lt p; lia.
Qed.

(** The scan of the likelihood-vs-likelihood loop finds a position where
    both blocks hold their minimum. *)
Lemma common_min_scan (a b : ptr) :
  existsb (fun k => (a k =? MIN_PL a) && (b k =? MIN_PL b)) (seq 0 3) = true
  <-> exists k, (k <= 2)%nat /\ a k = min3 a /\ b k = min3 b.
Proof.
  rewrite !MIN_PL_min3, existsb_exists. split.
  - intros (k & Hin & Hk). apply in_seq in Hin.
    apply andb_true_iff in Hk as [Ha Hb].
    exists k. apply Z.eqb_eq in Ha, Hb. repeat split; [lia | done | done].
  - intros (k & Hk & Ha & Hb). exists k. split; [apply in_seq; lia |].
    apply andb_true_iff. split; by apply Z.eqb_eq.
Qed.

(** C1 (as the code has it). For a likelihood triple with all three entries
    present, [DSG_PL] is an index in {0,1,2} that holds the minimum of the
    three values, and among the positions that tie for the minimum it is the
    highest one: the nested [<] tests of the macro leave position 0 only for
    a value strictly below the two others, and position 1 only for a value
    strictly below the third. *)
Theorem DSG_PL_index_of_minimum (p : ptr) :
  HAS_PL p = true ->
  0 <= DSG_PL p <= 2 /\
  p (Z.to_nat (DSG_PL p)) = min3 p /\
  (forall k : nat, (k <= 2)%nat -> p k = min3 p -> Z.of_nat k <= DSG_PL p).
Proof.
  intros _. split; [apply DSG_PL_range |]. split; [apply DSG_PL_attains |].
  intros k. apply DSG_PL_last.
Qed.

Lemma DSG_PL_index_of_minimum_witness :
  HAS_PL (triple 3 3 5) = true /\
  0 <= DSG_PL (triple 3 3 5) <= 2 /\
  triple 3 3 5 (Z.to_nat (DSG_PL (triple 3 3 5))) = min3 (triple 3 3 5) /\
  (forall k : nat, (k <= 2)%nat -> triple 3 3 5 k = min3 (triple 3 3 5) ->
                   Z.of_nat k <= DSG_PL (triple 3 3 5)).
Proof.
  split; [reflexivity |].
  apply (DSG_PL_index_of_minimum (triple 3 3 5)). reflexivity.
Defined.

(** C1, counterexample. With all three values equal the specification asks
    for dosage 0 (the first position checked in the order 0,1,2); the macro
    yields 2. With [3,3,5] the lowest tied index is 0; the macro yields 1. *)
Lemma DSG_PL_ties_not_lowest :
  (HAS_PL (triple 5 5 5) = true /\
   spec_dosage_PL (triple 5 5 5) = 0 /\ DSG_PL (triple 5 5 5) = 2) /\
  (HAS_PL (triple 3 3 5) = true /\
   spec_dosage_PL (triple 3 3 5) = 0 /\ DSG_PL (triple 3 3 5) = 1).
Proof. repeat split; reflexivity. Qed.

(** ** Properties of the comparison *)

Lemma compare_Match (c : comparator) (hom_only : bool) (a b : ptr) :
  compare c hom_only a b = Match <->
  HAS_a c a = true /\ HAS_b c b = true /\
  (hom_only && het_b c b (VAL_b c b)) = false /\
  differ c a (VAL_a c a) b (VAL_b c b) = false.
Proof.
  unfold compare.
  destruct (HAS_a c a), (HAS_b c b), (hom_only && het_b c b (VAL_b c b)),
    (differ c a (VAL_a c a) b (VAL_b c b)); simpl; intuition congruence.
Qed.

Lemma compare_Mismatch (c : comparator) (hom_only : bool) (a b : ptr) :
  compare c hom_only a b = Mismatch <->
  HAS_a c a = true /\ HAS_b c b = true /\
  (hom_only && het_b c b (VAL_b c b)) = false /\
  differ c a (VAL_a c a) b (VAL_b c b) = true.
Proof.
  unfold compare.
  destruct (HAS_a c a), (HAS_b c b), (hom_only && het_b c b (VAL_b c b)),
    (differ c a (VAL_a c a) b (VAL_b c b)); simpl; intuition congruence.
Qed.

Lemma hom_filter_off (hom_only het : bool) :
  (hom_only && het) = false <-> hom_only = false \/ het = false.
Proof. destruct hom_only, het; simpl; intuition congruence. Qed.

(** * Arithmetic on [int] *)

Lemma to_uint32_small (z : Z) : 0 <= z < 2 ^ 32 -> to_uint32 z = z.
Proof. intros H. unfold to_uint32. by apply Z.mod_small. Qed.

Lemma to_int32_to_uint32 (z : Z) :
  - 2 ^ 31 <= z < 2 ^ 31 -> to_int32 (to_uint32 z) = z.
Proof.
  intros Hz. unfold to_int32, to_uint32.
  change (2 ^ 31) with 2147483648 in *.
  change (2 ^ 32) with 4294967296 in *.
  destruct (Z_lt_le_dec z 0) as [Hneg | Hpos].
  - assert (z mod 4294967296 = z + 4294967296) as ->.
    { symmetry. apply (Z.mod_unique z 4294967296 (-1)); lia. }
    destruct (Z.ltb_spec (z + 4294967296) 2147483648); lia.
  - rewrite Z.mod_small by lia.
    destruct (Z.ltb_spec z 2147483648); lia.
Qed.

(** An operation whose result is in the range of [int] gives that
    result. *)
Lemma wrap_int_small (z : Z) : - 2 ^ 31 <= z <= INT_MAX -> wrap_int z = z.
Proof.
  intros Hz. unfold wrap_int. apply to_int32_to_uint32.
  unfold INT_MAX in Hz. lia.
Qed.

Lemma half_int_small (a b : Z) :
  0 <= a * b <= INT_MAX -> half_int a b = a * b / 2.
Proof.
  intros H. unfold half_int. rewrite wrap_int_small by lia.
  apply Z.quot_div_nonneg; lia.
Qed.

Lemma tri_base_Z (i : nat) :
  Z.of_nat (tri_base i) = Z.of_nat i * (Z.of_nat i - 1) / 2.
Proof.
  unfold tri_base. destruct i as [| i]; [done |].
  rewrite Nat2Z.inj_div, Nat2Z.inj_mul, Nat2Z.inj_sub by lia. done.
Qed.

Lemma tri_base_le_mul (i n : nat) :
  (i <= n)%nat ->
  0 <= Z.of_nat i * (Z.of_nat i - 1) <= Z.of_nat n * (Z.of_nat n + 1).
Proof. intros Hi. destruct i; nia. Qed.

(** The start of row [i] of the triangle as [report] computes it. *)
Lemma half_int_tri_base (i : nat) :
  Z.of_nat i * (Z.of_nat i + 1) <= INT_MAX ->
  half_int (Z.of_nat i) (wrap_int (Z.of_nat i - 1)) = Z.of_nat (tri_base i).
Proof.
  intros Hi. unfold INT_MAX in Hi.
  rewrite wrap_int_small by (unfold INT_MAX; nia).
  rewrite half_int_small by (unfold INT_MAX; destruct i; nia).
  by rewrite tri_base_Z.
Qed.

(** The start of the row of sample [j + 1]: [j*(j+1)/2]. *)
Lemma half_int_tri_base_succ (j : nat) :
  Z.of_nat j * (Z.of_nat j + 1) <= INT_MAX ->
  half_int (Z.of_nat j) (wrap_int (Z.of_nat j + 1))
  = Z.of_nat (tri_base (S j)).
Proof.
  intros Hj. unfold INT_MAX in Hj.
  rewrite wrap_int_small by (unfold INT_MAX; nia).
  rewrite half_int_small by (unfold INT_MAX; nia).
  rewrite tri_base_Z. f_equal. lia.
Qed.

(** [args->npairs] is the number of accumulators as long as the product
    of line 365 stays in the range of [int]. *)
Lemma npairs_int_cross (cfg : config) :
  cross_check cfg = true -> pairs cfg = None ->
  Z.of_nat (nqry_smpl cfg) * (Z.of_nat (nqry_smpl cfg) + 1) <= INT_MAX ->
  npairs_int cfg = Z.of_nat (npairs cfg).
Proof.
  intros Hc Hp Hn. unfold npairs_int, npairs. rewrite Hc, Hp.
  cbv zeta. unfold INT_MAX in Hn.
  rewrite (wrap_int_small (_ + 1)) by (unfold INT_MAX; nia).
  rewrite wrap_int_small by (unfold INT_MAX; nia).
  rewrite Z.quot_div_nonneg by lia.
  rewrite Nat2Z.inj_div, Nat2Z.inj_mul, Nat2Z.inj_add.
  change (Z.of_nat 1) with 1. change (Z.of_nat 2) with 2.
  apply to_uint32_small. split; [apply Z.div_pos; lia |].
  apply Z.div_lt_upper_bound; lia.
Qed.

Lemma npairs_int_rect (cfg : config) :
  cross_check cfg = false -> pairs cfg = None ->
  Z.of_nat (ngt_smpl cfg) * Z.of_nat (nqry_smpl cfg) <= INT_MAX ->
  npairs_int cfg = Z.of_nat (npairs cfg).
Proof.
  intros Hc Hp Hn. unfold npairs_int, npairs. rewrite Hc, Hp.
  cbv zeta. unfold INT_MAX in Hn.
  rewrite wrap_int_small by (unfold INT_MAX; nia).
  rewrite Nat2Z.inj_mul. apply to_uint32_small. nia.
Qed.

(** C2 (as the code has it). For a valid hard call and a valid likelihood
    triple the comparison is a match exactly when the likelihood found at
    the position of the call's dosage equals the minimum of the triple: a
    tie for the minimum matches a call on any of the tied positions. The
    same holds with the two sides swapped. The homozygous-only filter, when
    on, drops the pair beforehand if the genotype side is heterozygous. *)
Theorem call_vs_likelihood_match (hom : bool) (g l : ptr) :
  HAS_GT g = true -> HAS_PL l = true ->
  (compare GT_PL hom g l = Match <->
     (hom = false \/ l 1%nat <> min3 l) /\ l (Z.to_nat (DSG_GT g)) = min3 l)
  /\
  (compare PL_GT hom l g = Match <->
     (hom = false \/ DSG_GT g <> 1) /\ l (Z.to_nat (DSG_GT g)) = min3 l).
Proof.
  intros Hg Hl. split.
  - rewrite compare_Match. simpl. rewrite Hg, Hl, hom_filter_off.
    rewrite MIN_PL_min3, negb_false_iff, !Z.eqb_eq, Z.eqb_neq. tauto.
  - rewrite compare_Match. simpl. rewrite Hg, Hl, hom_filter_off.
    rewrite MIN_PL_min3, negb_false_iff, !Z.eqb_eq, Z.eqb_neq.
    intuition congruence.
Qed.

Lemma call_vs_likelihood_match_witness :
  HAS_GT (pair_of 2 4) = true /\ HAS_PL (triple 3 3 5) = true /\
  (compare GT_PL false (pair_of 2 4) (triple 3 3 5) = Match <->
     (false = false \/ triple 3 3 5 1%nat <> min3 (triple 3 3 5)) /\
     triple 3 3 5 (Z.to_nat (DSG_GT (pair_of 2 4))) = min3 (triple 3 3 5))
  /\
  (compare PL_GT false (triple 3 3 5) (pair_of 2 4) = Match <->
     (false = false \/ DSG_GT (pair_of 2 4) <> 1) /\
     triple 3 3 5 (Z.to_nat (DSG_GT (pair_of 2 4))) = min3 (triple 3 3 5)).
Proof.
  split; [reflexivity |]. split; [reflexivity |].
  apply (call_vs_likelihood_match false (pair_of 2 4) (triple 3 3 5));
    reflexivity.
Defined.

(** C2, counterexample. The call 0/1 has dosage 1; the triple [3,3,5] has
    its first minimum at position 0, so C2 announces a mismatch. The
    code finds the value 3 at position 1, equal to the minimum: a match, in
    both orders of the two sides. *)
Lemma call_vs_tied_likelihood_matches :
  HAS_GT (pair_of 2 4) = true /\ HAS_PL (triple 3 3 5) = true /\
  DSG_GT (pair_of 2 4) = 1 /\ spec_dosage_PL (triple 3 3 5) = 0 /\
  compare GT_PL false (pair_of 2 4) (triple 3 3 5) = Match /\
  compare PL_GT false (triple 3 3 5) (pair_of 2 4) = Match.
Proof. repeat split; reflexivity. Qed.

(** C7 (as the code has it). For two valid likelihood triples the
    comparison is a match exactly when some position holds the minimum of
    both (the homozygous-only filter, when on, first drops the pair if the
    genotype side has its minimum at position 1). A match can occur with
    different dosage indices. A mismatch cannot occur with equal dosage
    indices, whichever way ties are broken: a common index of the two minima
    is a position where both are attained. *)
Theorem likelihood_vs_likelihood_match (hom : bool) (a b : ptr) :
  HAS_PL a = true -> HAS_PL b = true ->
  (compare PL_PL hom a b = Match <->
     (hom = false \/ b 1%nat <> min3 b) /\
     exists k : nat, (k <= 2)%nat /\ a k = min3 a /\ b k = min3 b)
  /\
  (compare PL_PL hom a b = Mismatch ->
     DSG_PL a <> DSG_PL b /\ spec_dosage_PL a <> spec_dosage_PL b).
Proof.
  intros Ha Hb. split.
  - rewrite compare_Match. cbn [HAS_a HAS_b VAL_a VAL_b het_b differ PL_PL].
    rewrite Ha, Hb, hom_filter_off.
    rewrite negb_false_iff, common_min_scan, MIN_PL_min3, Z.eqb_neq. tauto.
  - rewrite compare_Mismatch. cbn [HAS_a HAS_b VAL_a VAL_b het_b differ PL_PL].
    intros (_ & _ & _ & Hd).
    apply negb_true_iff in Hd.
    assert (~ exists k : nat, (k <= 2)%nat /\ a k = min3 a /\ b k = min3 b)
      as Hno.
    { rewrite <- common_min_scan. congruence. }
    split; intros Heq; apply Hno.
    + exists (Z.to_nat (DSG_PL a)). pose proof (DSG_PL_range a).
      split; [lia |]. split; [apply DSG_PL_attains |].
      rewrite Heq. apply DSG_PL_attains.
    + exists (Z.to_nat (spec_dosage_PL a)).
      pose proof (spec_dosage_PL_range a).
      split; [lia |]. split; [apply spec_dosage_PL_attains |].
      rewrite Heq. apply spec_dosage_PL_attains.
Qed.

Lemma likelihood_vs_likelihood_match_witness :
  HAS_PL (triple 3 3 5) = true /\ HAS_PL (triple 5 3 3) = true /\
  (compare PL_PL false (triple 3 3 5) (triple 5 3 3) = Match <->
     (false = false \/ triple 5 3 3 1%nat <> min3 (triple 5 3 3)) /\
     exists k : nat, (k <= 2)%nat /\ triple 3 3 5 k = min3 (triple 3 3 5)
                     /\ triple 5 3 3 k = min3 (triple 5 3 3))
  /\
  (compare PL_PL false (triple 3 3 5) (triple 5 3 3) = Mismatch ->
     DSG_PL (triple 3 3 5) <> DSG_PL (triple 5 3 3) /\
     spec_dosage_PL (triple 3 3 5) <> spec_dosage_PL (triple 5 3 3)).
Proof.
  split; [reflexivity |]. split; [reflexivity |].
  apply (likelihood_vs_likelihood_match false (triple 3 3 5) (triple 5 3 3));
    reflexivity.
Defined.

(** C7, counterexample. The last part of C7 asks for a mismatch
    that a comparison of the dosage indices would miss. There is none: no
    two valid triples are a mismatch with equal dosage indices, be the ties
    broken to the first or to the last position. The part before it does
    hold: [3,3,5] and [5,3,3] match, with different dosage indices. *)
Lemma no_mismatch_with_equal_dosage :
  (HAS_PL (triple 3 3 5) = true /\ HAS_PL (triple 5 3 3) = true /\
   compare PL_PL false (triple 3 3 5) (triple 5 3 3) = Match /\
   DSG_PL (triple 3 3 5) <> DSG_PL (triple 5 3 3) /\
   spec_dosage_PL (triple 3 3 5) <> spec_dosage_PL (triple 5 3 3))
  /\
  ~ (exists (hom : bool) (a b : ptr),
       HAS_PL a = true /\ HAS_PL b = true /\
       compare PL_PL hom a b = Mismatch /\
       (DSG_PL a = DSG_PL b \/ spec_dosage_PL a = spec_dosage_PL b)).
Proof.
  split; [repeat split; (reflexivity || discriminate) |].
  intros (hom & a & b & Ha & Hb & Hmis & Heq).
  assert (exists k : nat, (k <= 2)%nat /\ a k = min3 a /\ b k = min3 b)
    as Hk.
  { destruct Heq as [Heq | Heq].
    - exists (Z.to_nat (DSG_PL a)). pose proof (DSG_PL_range a).
      split; [lia |]. split; [apply DSG_PL_attains |].
      rewrite Heq. apply DSG_PL_attains.
    - exists (Z.to_nat (spec_dosage_PL a)).
      pose proof (spec_dosage_PL_range a).
      split; [lia |]. split; [apply spec_dosage_PL_attains |].
      rewrite Heq. apply spec_dosage_PL_attains. }
  apply common_min_scan in Hk.
  apply compare_Mismatch in Hmis as (_ & _ & _ & Hd).
  cbn [VAL_a VAL_b differ PL_PL] in Hd.
  rewrite Hk in Hd. discriminate.
Qed.

(** ** Properties of the HWE scorer *)

Lemma Rltb_true (x y : R) : Rltb x y = true <-> (x < y)%R.
Proof. unfold Rltb. destruct (Rlt_dec x y); intuition congruence. Qed.

Lemma Rltb_false (x y : R) : Rltb x y = false <-> (y <= x)%R.
Proof.
  unfold Rltb. destruct (Rlt_dec x y); split; intros; try congruence; lra.
Qed.

Ltac rltb_hyps :=
  repeat match goal with
         | H : Rltb _ _ = true |- _ => apply Rltb_true in H
         | H : Rltb _ _ = false |- _ => apply Rltb_false in H
         end.

Lemma min_af_bounds : (0 < min_af < 1 / 2)%R.
Proof. unfold min_af. lra. Qed.

Lemma clamp_inside (x lo hi : R) :
  (lo <= x <= hi)%R -> clamp x lo hi = x.
Proof.
  intros H. unfold clamp. rewrite Rmin_left by lra. apply Rmax_right. lra.
Qed.

Lemma clamp_below (x lo hi : R) :
  (x <= lo <= hi)%R -> clamp x lo hi = lo.
Proof.
  intros H. unfold clamp. rewrite Rmin_left by lra. apply Rmax_left. lra.
Qed.

Lemma clamp_above (x lo hi : R) :
  (lo <= hi <= x)%R -> clamp x lo hi = hi.
Proof.
  intros H. unfold clamp. rewrite Rmin_right by lra. apply Rmax_right. lra.
Qed.

(** Equality of two triples of scores whose arguments of [ln] are equal as
    polynomials. *)
Lemma scores_ext (x0 x1 x2 y0 y1 y2 : R) :
  x0 = y0 -> x1 = y1 -> x2 = y2 ->
  [ (- ln x0)%R ; (- ln x1)%R ; (- ln x2)%R ]
  = [ (- ln y0)%R ; (- ln y1)%R ; (- ln y2)%R ].
Proof. by intros -> -> ->. Qed.

Ltac scores_eq := apply scores_ext; simpl; ring.

(** The three scores in the closed form of the specification. *)
Lemma hwe_closed_form (af : R) :
  hwe_of_af af =
  [ (- ln (Rmax af min_af ^ 2))%R ;
    (- ln (2 * clamp af min_af (1 - min_af)
             * clamp (1 - af) min_af (1 - min_af)))%R ;
    (- ln (Rmax (1 - af) min_af ^ 2))%R ].
Proof.
  pose proof min_af_bounds as Hm.
  unfold hwe_of_af, hwe_with.
  destruct (Rltb min_af af) eqn:H1; destruct (Rltb af (1 - min_af)) eqn:H2;
    cbn [andb]; rltb_hyps.
  - rewrite (Rmax_left af), (Rmax_left (1 - af)) by lra.
    rewrite !clamp_inside by lra. scores_eq.
  - rewrite (Rmax_left af), (Rmax_right (1 - af)) by lra.
    rewrite (clamp_above af), (clamp_below (1 - af)) by lra.
    scores_eq.
  - rewrite (Rmax_right af), (Rmax_left (1 - af)) by lra.
    rewrite (clamp_below af), (clamp_above (1 - af)) by lra.
    scores_eq.
  - lra.
Qed.

(** [log] is only ever called on a positive argument: two logarithms that
    agree on the positive reals give the same scores. *)
Lemma hwe_log_positive (log1 log2 : R -> R) (af : R) :
  (forall x : R, (0 < x)%R -> log1 x = log2 x) ->
  hwe_with log1 af = hwe_with log2 af.
Proof.
  intros Hlog. pose proof min_af_bounds as Hm.
  assert (0 < min_af * min_af)%R by nra.
  assert (0 < 2 * min_af * (1 - min_af))%R by nra.
  unfold hwe_with.
  destruct (Rltb min_af af) eqn:H1; destruct (Rltb af (1 - min_af)) eqn:H2;
    cbn [andb]; rltb_hyps;
    repeat f_equal; apply Hlog; nra.
Qed.

Lemma hwe_at_half :
  hwe_of_af (1 / 2) =
  [ (- ln (1 / 4))%R ; (- ln (1 / 2))%R ; (- ln (1 / 4))%R ].
Proof.
  pose proof min_af_bounds as Hm.
  unfold hwe_of_af, hwe_with.
  assert (Rltb min_af (1 / 2) = true) as -> by (apply Rltb_true; lra).
  assert (Rltb (1 / 2) (1 - min_af) = true) as -> by (apply Rltb_true; lra).
  cbn [andb]. apply scores_ext; lra.
Qed.

(** C5. For an allele frequency in [0,1] the scorer yields
    [-log(max(af,e)^2)], [-log(2*clamp(af,e,1-e)*clamp(1-af,e,1-e))] and
    [-log(max(1-af,e)^2)] with [e = 1e-3]; every argument it hands to [log]
    is positive, however close [af] is to 0 or 1; and at [af = 0.5] the
    heterozygous score is below the two homozygous scores, which are
    equal. *)
Theorem hwe_scores (af : R) :
  (0 <= af <= 1)%R ->
  hwe_of_af af =
    [ (- ln (Rmax af min_af ^ 2))%R ;
      (- ln (2 * clamp af min_af (1 - min_af)
               * clamp (1 - af) min_af (1 - min_af)))%R ;
      (- ln (Rmax (1 - af) min_af ^ 2))%R ]
  /\ (forall log1 log2 : R -> R,
        (forall x : R, (0 < x)%R -> log1 x = log2 x) ->
        hwe_with log1 af = hwe_with log2 af)
  /\ (0 < Rmax af min_af ^ 2)%R
  /\ (0 < 2 * clamp af min_af (1 - min_af)
           * clamp (1 - af) min_af (1 - min_af))%R
  /\ (0 < Rmax (1 - af) min_af ^ 2)%R
  /\ (hwe_of_af (1 / 2) !!! 1%nat < hwe_of_af (1 / 2) !!! 0%nat)%R
  /\ hwe_of_af (1 / 2) !!! 0%nat = hwe_of_af (1 / 2) !!! 2%nat.
Proof.
  intros Haf. pose proof min_af_bounds as Hm.
  split; [apply hwe_closed_form |].
  split; [intros log1 log2; apply hwe_log_positive |].
  assert (min_af <= Rmax af min_af)%R by apply Rmax_r.
  assert (min_af <= Rmax (1 - af) min_af)%R by apply Rmax_r.
  assert (min_af <= clamp af min_af (1 - min_af))%R
    by (unfold clamp; apply Rmax_l).
  assert (min_af <= clamp (1 - af) min_af (1 - min_af))%R
    by (unfold clamp; apply Rmax_l).
  split; [nra |]. split; [nra |]. split; [nra |].
  rewrite hwe_at_half. split; [| reflexivity].
  change (- ln (1 / 2) < - ln (1 / 4))%R.
  apply Ropp_lt_contravar, ln_increasing; lra.
Qed.

Lemma hwe_scores_witness :
  (0 <= 1 / 2 <= 1)%R /\
  hwe_of_af (1 / 2) =
    [ (- ln (Rmax (1 / 2) min_af ^ 2))%R ;
      (- ln (2 * clamp (1 / 2) min_af (1 - min_af)
               * clamp (1 - 1 / 2) min_af (1 - min_af)))%R ;
      (- ln (Rmax (1 - 1 / 2) min_af ^ 2))%R ].
Proof.
  split; [lra |]. apply (hwe_scores (1 / 2)). lra.
Defined.

(** ** Sites without diploid data *)

(** C8. A site whose value block lacks the diploid shape is skipped:
    [process_line] returns normally, without a fatal exit, and the counters
    of every pair, the HWE sums, the number of compared sites and the
    records of the sorter are what they were. *)
Theorem non_diploid_site_skipped (cfg : config) (st : state) (l : line_t) :
  bad_shape cfg l ->
  exists st' : state,
    process_line cfg st l = Done st'
    /\ ndiff st' = ndiff st /\ ncnt st' = ncnt st
    /\ hwe_prob st' = hwe_prob st
    /\ ncmp st' = ncmp st /\ es st' = es st.
Proof.
  unfold bad_shape, qry_fmt, gt_fmt, process_line. intros Hbad.
  destruct (diploid (qry_use_GT cfg) (qry_nsamples cfg)
                    (line_fmt (qry_use_GT cfg) (qry_rec l))) eqn:Hq;
    cbn [negb].
  - destruct Hbad as [Hbad | [Htwo Hg]]; [discriminate |].
    rewrite Htwo, Hg. cbn [negb andb]. eexists. split; [reflexivity |].
    repeat split; reflexivity.
  - eexists. split; [reflexivity |]. repeat split; reflexivity.
Qed.

Lemma non_diploid_site_skipped_witness :
  bad_shape cfg_cross2 triploid_line /\
  exists st' : state,
    process_line cfg_cross2 (init_state cfg_cross2) triploid_line = Done st'
    /\ ndiff st' = ndiff (init_state cfg_cross2)
    /\ ncnt st' = ncnt (init_state cfg_cross2)
    /\ hwe_prob st' = hwe_prob (init_state cfg_cross2)
    /\ ncmp st' = ncmp (init_state cfg_cross2)
    /\ es st' = es (init_state cfg_cross2).
Proof.
  assert (bad_shape cfg_cross2 triploid_line) as Hbad by (left; reflexivity).
  split; [exact Hbad |].
  exact (non_diploid_site_skipped cfg_cross2 (init_state cfg_cross2)
                                  triploid_line Hbad).
Defined.

(** ** The counters along the stream *)

Lemma fold_left_seq_inv {A : Type} (f : A -> nat -> A)
    (P : nat -> A -> Prop) (n a : nat) (acc : A) :
  P a acc ->
  (forall (k : nat) (x : A), (a <= k < a + n)%nat -> P k x -> P (S k) (f x k)) ->
  P (a + n)%nat (fold_left f (seq a n) acc).
Proof.
  revert a acc. induction n as [| n IH]; intros a acc H0 Hstep; simpl.
  - by rewrite Nat.add_0_r.
  - replace (a + S n)%nat with (S a + n)%nat by lia. apply IH.
    + apply Hstep; [lia | done].
    + intros k x Hk. apply Hstep. lia.
Qed.

Lemma cell_step_refl (c : Z * Z) : cell_step c c.
Proof. by left. Qed.

Lemma touched_below_refl (st : state) (idx : nat) :
  touched_below st st idx.
Proof.
  split; [done |]. intros p. split; intros _; [apply cell_step_refl | done].
Qed.

(** A change of the state that leaves the two counter arrays alone. *)
Lemma touched_below_frame (st0 st st' : state) (idx : nat) :
  ndiff st' = ndiff st -> ncnt st' = ncnt st ->
  touched_below st0 st idx -> touched_below st0 st' idx.
Proof.
  intros Hd Hc [[Hl1 Hl2] H]. unfold touched_below, same_shape, cell.
  rewrite Hd, Hc. done.
Qed.

(** The pair [idx] is passed over. *)
Lemma touched_below_skip (st0 st : state) (idx n : nat) :
  touched_below st0 st idx -> touched_below st0 st (idx + n).
Proof.
  intros [Hs H]. split; [done |]. intros p. split.
  - intros Hp. destruct (decide (p < idx)%nat) as [Hlt | Hge].
    + by apply H.
    + destruct (H p) as [_ Hsame]. rewrite Hsame by lia.
      apply cell_step_refl.
  - intros Hp. apply H. lia.
Qed.

(** The pair [idx] is counted as compared, and as differing when [d]. *)
Lemma touched_below_count (d : bool) (st0 st st' : state) (idx : nat) :
  length (ndiff st0) = length (ncnt st0) ->
  ndiff st' = (if d then alter incr32 idx (ndiff st) else ndiff st) ->
  ncnt st' = alter incr32 idx (ncnt st) ->
  touched_below st0 st idx -> touched_below st0 st' (S idx).
Proof.
  intros Hlen Hd Hc [[Hl1 Hl2] H]. split.
  - unfold same_shape. rewrite Hd, Hc. destruct d; by rewrite ?length_alter.
  - intros p. unfold cell. rewrite Hd, Hc. split.
    + intros Hp. destruct (decide (p = idx)) as [-> | Hne].
      * destruct (H idx) as [_ Hsame]. specialize (Hsame ltac:(lia)).
        unfold cell in Hsame. injection Hsame as Hsd Hsc.
        rewrite (list_lookup_total_alter incr32 (ncnt st)).
        destruct d; rewrite ?(list_lookup_total_alter incr32 (ndiff st)).
        -- repeat case_decide; rewrite ?Hsd, ?Hsc;
             first [ by right; right | by left | exfalso; lia ].
        -- case_decide; rewrite ?Hsd, ?Hsc; [by right; left | by left].
      * destruct (H p) as [Hstep _]. specialize (Hstep ltac:(lia)).
        rewrite (list_lookup_total_alter_ne incr32 (ncnt st)) by done.
        destruct d;
          rewrite ?(list_lookup_total_alter_ne incr32 (ndiff st)) by done;
          exact Hstep.
    + intros Hp. destruct (H p) as [_ Hsame]. specialize (Hsame ltac:(lia)).
      rewrite (list_lookup_total_alter_ne incr32 (ncnt st)) by lia.
      destruct d;
        rewrite ?(list_lookup_total_alter_ne incr32 (ndiff st)) by lia;
        exact Hsame.
Qed.

Lemma touched_below_line_step (st0 st : state) (idx : nat) :
  touched_below st0 st idx -> line_step st0 st.
Proof.
  intros [Hs H]. split; [done |]. intros p.
  destruct (decide (p < idx)%nat) as [Hlt | Hge].
  - by apply H.
  - destruct (H p) as [_ Hsame]. rewrite Hsame by lia. apply cell_step_refl.
Qed.

Lemma pairs_body_inv (cfg : config) (c : comparator) (hwe : list R)
    (ps : list pair_t) (nqry1 ngt1 : nat) (st0 : state) (acc : state * Z)
    (i : nat) :
  length (ndiff st0) = length (ncnt st0) ->
  touched_below st0 (fst acc) i ->
  touched_below st0 (fst (pairs_body cfg c hwe ps nqry1 ngt1 acc i)) (S i).
Proof.
  intros Hlen. destruct acc as [st nd]. unfold pairs_body. cbn [fst].
  intros Hinv.
  destruct (compare c (hom_only cfg) _ _).
  - cbn [fst]. rewrite <- Nat.add_1_r. by apply touched_below_skip.
  - destruct (kbs_diff (bump_ndiff i st)); cbn [fst];
      by apply (touched_below_count true st0 st).
  - destruct (calc_hwe_prob cfg); cbn [fst];
      by apply (touched_below_count false st0 st).
Qed.

Lemma inner_body_inv (cfg : config) (c : comparator) (hwe : list R)
    (iqry nqry1 ngt1 : nat) (aval qry_dsg : Z) (st0 : state)
    (acc : state * nat) (j : nat) :
  length (ndiff st0) = length (ncnt st0) ->
  touched_below st0 (fst acc) (snd acc) ->
  let acc' := inner_body cfg c hwe iqry nqry1 ngt1 aval qry_dsg acc j in
  touched_below st0 (fst acc') (snd acc') /\ snd acc' = S (snd acc).
Proof.
  intros Hlen. destruct acc as [st idx]. unfold inner_body. cbn [fst snd].
  intros Hinv.
  destruct (HAS_b c _); cbn [negb].
  - destruct (hom_only cfg && het_b c _ _).
    + cbn [fst snd]. split; [| done].
      rewrite <- Nat.add_1_r. by apply touched_below_skip.
    + cbn [fst snd]. split; [| done].
      destruct (differ c _ aval _ _).
      * by apply (touched_below_count true st0 st).
      * destruct (calc_hwe_prob cfg);
          by apply (touched_below_count false st0 st).
  - cbn [fst snd]. split; [| done].
    rewrite <- Nat.add_1_r. apply touched_below_skip.
    apply (touched_below_frame st0 st); [| | done];
      unfold set_gt_buf; by destruct (two_files cfg).
Qed.

Lemma inner_loop_inv (cfg : config) (c : comparator) (hwe : list R)
    (iqry nqry1 ngt1 : nat) (aval qry_dsg : Z) (st0 : state)
    (acc : state * nat) (ngt : nat) :
  length (ndiff st0) = length (ncnt st0) ->
  touched_below st0 (fst acc) (snd acc) ->
  let acc' := fold_left (inner_body cfg c hwe iqry nqry1 ngt1 aval qry_dsg)
                        (seq 0 ngt) acc in
  touched_below st0 (fst acc') (snd acc') /\ snd acc' = (snd acc + ngt)%nat.
Proof.
  intros Hlen Hinv.
  apply (fold_left_seq_inv
           (inner_body cfg c hwe iqry nqry1 ngt1 aval qry_dsg)
           (fun k x => touched_below st0 (fst x) (snd x)
                       /\ snd x = (snd acc + k)%nat) ngt 0 acc).
  - split; [done | lia].
  - intros k x _ [Hx Hk].
    destruct (inner_body_inv cfg c hwe iqry nqry1 ngt1 aval qry_dsg
                             st0 x k Hlen Hx) as [H1 H2].
    split; [done | lia].
Qed.

Lemma outer_body_inv (cfg : config) (c : comparator) (hwe : list R)
    (nqry1 ngt1 : nat) (st0 : state) (acc : state * nat) (i : nat) :
  length (ndiff st0) = length (ncnt st0) ->
  touched_below st0 (fst acc) (snd acc) ->
  let acc' := outer_body cfg c hwe nqry1 ngt1 acc i in
  touched_below st0 (fst acc') (snd acc')
  /\ snd acc' = (snd acc + (if cross_check cfg then i else ngt_smpl cfg))%nat.
Proof.
  intros Hlen. destruct acc as [st idx]. unfold outer_body. cbn [fst snd].
  intros Hinv. destruct (HAS_a c _); cbn [negb].
  - by apply (inner_loop_inv cfg c hwe _ nqry1 ngt1 _ _ st0 (st, idx)).
  - cbn [fst snd]. split; [| done]. by apply touched_below_skip.
Qed.

Lemma matrix_loop_step (cfg : config) (c : comparator) (hwe : list R)
    (nqry1 ngt1 : nat) (st : state) :
  length (ndiff st) = length (ncnt st) ->
  line_step st (matrix_loop cfg c hwe nqry1 ngt1 st).
Proof.
  intros Hlen. unfold matrix_loop.
  pose proof (fold_left_seq_inv
                (outer_body cfg c hwe nqry1 ngt1)
                (fun _ x => touched_below st (fst x) (snd x))
                (nqry_smpl cfg) 0 (st, 0%nat)) as Hfold.
  cbv beta in Hfold.
  eapply touched_below_line_step. apply Hfold.
  - apply touched_below_refl.
  - intros k x _ Hx.
    by apply (outer_body_inv cfg c hwe nqry1 ngt1 st x k Hlen).
Qed.

Lemma pairs_loop_step (cfg : config) (c : comparator) (hwe : list R)
    (ps : list pair_t) (nqry1 ngt1 : nat) (rid pos : Z) (st : state) :
  length (ndiff st) = length (ncnt st) ->
  line_step st (pairs_loop cfg c hwe ps nqry1 ngt1 rid pos st).
Proof.
  intros Hlen. unfold pairs_loop.
  set (st1 := match kbs_diff st with
              | Some _ => diff_sites_reset st
              | None => st
              end).
  assert (ndiff st1 = ndiff st /\ ncnt st1 = ncnt st) as [Hd Hc]
    by (unfold st1; by destruct (kbs_diff st)).
  pose proof (fold_left_seq_inv
                (pairs_body cfg c hwe ps nqry1 ngt1)
                (fun k x => touched_below st (fst x) k)
                (npairs cfg) 0 (st1, 0)) as Hfold.
  cbv beta in Hfold.
  destruct (fold_left _ _ (st1, 0)) as [st2 nd].
  assert (touched_below st st2 (0 + npairs cfg)) as Hinv.
  { apply Hfold.
    - apply (touched_below_frame st st); [done | done |].
      apply touched_below_refl.
    - intros k x _ Hx. by apply pairs_body_inv. }
  destruct (nd =? 0).
  - by eapply touched_below_line_step.
  - eapply touched_below_line_step.
    by apply (touched_below_frame st st2 _ _ eq_refl eq_refl).
Qed.

Lemma line_step_frame_l (st0 st1 st : state) :
  ndiff st1 = ndiff st0 -> ncnt st1 = ncnt st0 ->
  line_step st1 st -> line_step st0 st.
Proof.
  intros Hd Hc [[Hl1 Hl2] H]. unfold line_step, same_shape, cell in *.
  rewrite Hd, Hc in *. done.
Qed.

Lemma line_step_same (st st' : state) :
  ndiff st' = ndiff st -> ncnt st' = ncnt st -> line_step st st'.
Proof.
  intros Hd Hc. unfold line_step, same_shape, cell. rewrite Hd, Hc.
  split; [done |]. intros p. apply cell_step_refl.
Qed.

(** Whatever [process_line] does to a site, each pair makes at most one
    step. *)
Lemma process_line_step (cfg : config) (st st' : state) (l : line_t) :
  length (ndiff st) = length (ncnt st) ->
  process_line cfg st l = Done st' -> line_step st st'.
Proof.
  intros Hlen. unfold process_line.
  destruct (diploid (qry_use_GT cfg) _ _); cbn [negb];
    [| intros [= <-]; by apply line_step_same].
  set (st1 := if two_files cfg then _ else _).
  assert (ndiff st1 = ndiff st /\ ncnt st1 = ncnt st) as [Hd Hc]
    by (unfold st1; by destruct (two_files cfg)).
  destruct (two_files cfg && negb _);
    [intros [= <-]; by apply line_step_same |].
  destruct (if calc_hwe_prob cfg then _ else _) as [ac |]; [| done].
  destruct (pairs cfg) as [ps |]; intros [= <-].
  - apply (line_step_frame_l st (set_ncmp (incr32 (ncmp st1)) st1));
      [done | done |].
    apply pairs_loop_step. cbn. by rewrite Hd, Hc.
  - apply (line_step_frame_l st (set_ncmp (incr32 (ncmp st1)) st1));
      [done | done |].
    apply matrix_loop_step. cbn. by rewrite Hd, Hc.
Qed.

Lemma incr32_small (x : Z) : 0 <= x -> x + 1 < 2 ^ 32 -> incr32 x = x + 1.
Proof. intros H0 H1. unfold incr32. apply Z.mod_small. lia. Qed.

Lemma counters_ok_mono (n m : Z) (st : state) :
  n <= m -> counters_ok n st -> counters_ok m st.
Proof.
  intros Hnm [Hlen H]. split; [done |]. intros p Hp.
  specialize (H p Hp). lia.
Qed.

Lemma counters_ok_step (n : Z) (st st' : state) :
  n + 1 < 2 ^ 32 ->
  counters_ok n st -> line_step st st' -> counters_ok (n + 1) st'.
Proof.
  intros Hn [Hlen H] [[Hl1 Hl2] Hstep]. split; [congruence |].
  intros p Hp. rewrite Hl2 in Hp. specialize (H p Hp).
  destruct (Hstep p) as [Hc | [Hc | Hc]]; unfold cell in Hc; cbn [fst snd] in Hc;
    injection Hc as -> ->; rewrite ?incr32_small by lia; lia.
Qed.

Lemma counters_ok_init (cfg : config) : counters_ok 0 (init_state cfg).
Proof.
  split; cbn [init_state ndiff ncnt]; [by rewrite !length_replicate |].
  intros p. rewrite length_replicate. intros Hp.
  rewrite !lookup_total_replicate_2 by done. lia.
Qed.

Lemma main_loop_counters (cfg : config) (ls : list line_t) :
  forall (n : Z) (st st' : state),
    counters_ok n st ->
    n + Z.of_nat (length ls) < 2 ^ 32 ->
    main_loop cfg st ls = Done st' ->
    counters_ok (n + Z.of_nat (length ls)) st'
    /\ length (ncnt st') = length (ncnt st).
Proof.
  induction ls as [| l ls IH]; intros n st st' Hok Hn; cbn [main_loop].
  - intros [= <-]. cbn [length]. by rewrite Z.add_0_r.
  - cbn [length] in *. rewrite Nat2Z.inj_succ in *.
    destruct (two_files cfg && negb (sr_ret l =? 2)).
    + intros Hrun. destruct (IH n st st') as [H1 H2]; [done | lia | done |].
      split; [| done].
      apply (counters_ok_mono (n + Z.of_nat (length ls))); [lia | done].
    + destruct (process_line cfg st l) as [st1 |] eqn:Hline; [| done].
      assert (line_step st st1) as Hstep
        by (apply (process_line_step cfg st st1 l); [apply Hok | done]).
      assert (counters_ok (n + 1) st1) as Hok1
        by (apply (counters_ok_step n st); [lia | done | done]).
      destruct Hstep as [[_ Hshape] _].
      destruct ((ncmp st1 =? 1) && dry_run cfg).
      * intros [= <-]. split; [| done].
        apply (counters_ok_mono (n + 1)); [lia | done].
      * intros Hrun.
        destruct (IH (n + 1) st1 st') as [H1 H2]; [done | lia | done |].
        split; [| congruence].
        replace (n + Z.succ (Z.of_nat (length ls)))
          with (n + 1 + Z.of_nat (length ls)) by lia. done.
Qed.

(** C6 (as the code has it). Start from the zeroed arrays of [init_data]
    and read any stream of fewer than [2^32] lines, in any mode (explicit
    pairs, two files, cross-check) and with any of the four comparisons: at
    the end, for every pair, the number of differing sites is at most the
    number of compared sites. The bound on the length is what keeps the
    32-bit counters from wrapping. And at any site, from any state, a pair
    is left alone, or counted as compared, or counted as compared and as
    differing: [ndiff[p]++] never goes without [ncnt[p]++]. *)
Theorem mismatch_le_compared (cfg : config) (ls : list line_t) (st : state)
    (p : nat) :
  Z.of_nat (length ls) < 2 ^ 32 ->
  main_loop cfg (init_state cfg) ls = Done st ->
  (p < npairs cfg)%nat ->
  0 <= ndiff st !!! p <= ncnt st !!! p
  /\ forall (st1 st2 : state) (l : line_t),
       length (ndiff st1) = length (ncnt st1) ->
       process_line cfg st1 l = Done st2 ->
       cell_step (cell st1 p) (cell st2 p).
Proof.
  intros Hlen Hrun Hp. split.
  - destruct (main_loop_counters cfg ls 0 (init_state cfg) st
                                 (counters_ok_init cfg)) as [[_ H] Hl];
      [lia | done |].
    apply H. rewrite Hl. cbn [init_state ncnt]. by rewrite length_replicate.
  - intros st1 st2 l Hl Hline.
    by destruct (process_line_step cfg st1 st2 l Hl Hline) as [_ Hstep].
Qed.

Example two_sites_counters :
  main_loop cfg_cross2 (init_state cfg_cross2) two_sites = Done two_sites_state
  /\ ndiff two_sites_state = [1; 0; 0] /\ ncnt two_sites_state = [2; 0; 0].
Proof. repeat split; reflexivity. Qed.

Lemma mismatch_le_compared_witness :
  Z.of_nat (length two_sites) < 2 ^ 32
  /\ main_loop cfg_cross2 (init_state cfg_cross2) two_sites
     = Done two_sites_state
  /\ (0 < npairs cfg_cross2)%nat
  /\ 0 <= ndiff two_sites_state !!! 0%nat <= ncnt two_sites_state !!! 0%nat.
Proof.
  assert (Z.of_nat (length two_sites) < 2 ^ 32) as H1 by reflexivity.
  assert (main_loop cfg_cross2 (init_state cfg_cross2) two_sites
          = Done two_sites_state) as H2 by reflexivity.
  assert (0 < npairs cfg_cross2)%nat as H3 by (vm_compute; lia).
  split; [exact H1 |]. split; [exact H2 |]. split; [exact H3 |].
  exact (proj1 (mismatch_le_compared cfg_cross2 two_sites two_sites_state
                                     0%nat H1 H2 H3)).
Defined.

(** *** The counters wrap *)

Lemma process_match_line (st : state) :
  process_line cfg_cross2 st match_line = Done (after_match st).
Proof. reflexivity. Qed.

Lemma incr32_iter (x : Z) (k : nat) :
  (incr32 x + Z.of_nat k) mod 2 ^ 32 = (x + Z.of_nat (S k)) mod 2 ^ 32.
Proof.
  unfold incr32. rewrite Zplus_mod_idemp_l. f_equal. lia.
Qed.

Lemma main_loop_match_lines (k : nat) :
  forall st : state,
    (0 < length (ncnt st))%nat ->
    0 <= ncnt st !!! 0%nat < 2 ^ 32 ->
    exists st' : state,
      main_loop cfg_cross2 st (replicate k match_line) = Done st'
      /\ ndiff st' = ndiff st
      /\ ncnt st' !!! 0%nat = (ncnt st !!! 0%nat + Z.of_nat k) mod 2 ^ 32.
Proof.
  induction k as [| k IH]; intros st Hlen Hrange.
  - exists st. cbn [replicate main_loop]. split; [done |]. split; [done |].
    rewrite Z.add_0_r, Z.mod_small; done.
  - cbn [replicate main_loop]. rewrite process_match_line.
    change (two_files cfg_cross2 && negb (sr_ret match_line =? 2))
      with false.
    change (dry_run cfg_cross2) with false. rewrite andb_false_r.
    assert (ncnt (after_match st) !!! 0%nat = incr32 (ncnt st !!! 0%nat))
      as Hnext.
    { cbn [after_match bump_ncnt set_ncnt ncnt].
      by rewrite list_lookup_total_alter_eq. }
    destruct (IH (after_match st)) as (st' & Hrun & Hd & Hc).
    + cbn. by rewrite length_alter.
    + rewrite Hnext. unfold incr32. apply Z.mod_pos_bound. lia.
    + exists st'. split; [done |]. split; [done |].
      rewrite Hc, Hnext. apply incr32_iter.
Qed.

(** C6, counterexample. The cross-check of two samples reads a site at
    which they differ and then [2^32 - 1] sites at which they agree. The
    compared-sites counter of the pair has wrapped to 0 and the
    differing-sites counter stands at 1. *)
Lemma counters_wrap_at_2_32_sites :
  exists st : state,
    main_loop cfg_cross2 (init_state cfg_cross2) long_stream = Done st
    /\ ndiff st !!! 0%nat = 1 /\ ncnt st !!! 0%nat = 0
    /\ ~ (ndiff st !!! 0%nat <= ncnt st !!! 0%nat).
Proof.
  unfold long_stream.
  assert (Z.of_nat (Z.to_nat (2 ^ 32 - 1)) = 2 ^ 32 - 1) as HK
    by (apply Z2Nat.id; lia).
  revert HK. generalize (Z.to_nat (2 ^ 32 - 1)) as K. intros K HK.
  cbn [main_loop].
  change (two_files cfg_cross2 && negb (sr_ret mismatch_line =? 2))
    with false.
  change (dry_run cfg_cross2) with false. cbv iota.
  assert (process_line cfg_cross2 (init_state cfg_cross2) mismatch_line
          = Done one_site_state) as -> by reflexivity.
  rewrite andb_false_r.
  destruct (main_loop_match_lines K one_site_state)
    as (st & Hrun & Hd & Hc).
  - vm_compute. lia.
  - vm_compute. split; [discriminate | reflexivity].
  - exists st. split; [done |].
    assert (ndiff st !!! 0%nat = 1) as H1 by (by rewrite Hd).
    assert (ncnt st !!! 0%nat = 0) as H0.
    { rewrite Hc, HK. reflexivity. }
    rewrite H1, H0. repeat split; lia.
Qed.

(** ** The pair index of the matrix modes *)

Lemma tri_base_succ (i : nat) : tri_base (S i) = (tri_base i + i)%nat.
Proof.
  unfold tri_base. replace (S i - 1)%nat with i by lia.
  replace (S i * i)%nat with (i * (i - 1) + i * 2)%nat
    by (destruct i; simpl; lia).
  by rewrite Nat.div_add.
Qed.

Lemma tri_base_mono (i i' : nat) :
  (i <= i')%nat -> (tri_base i <= tri_base i')%nat.
Proof.
  induction 1 as [| i' _ IH]; [done |]. rewrite tri_base_succ. lia.
Qed.

Lemma tri_index_lt (n i j : nat) :
  (j < i < n)%nat -> (tri_index i j < tri_base n)%nat.
Proof.
  intros H. unfold tri_index.
  pose proof (tri_base_succ i). pose proof (tri_base_mono (S i) n). lia.
Qed.

Lemma tri_index_inj (i j i' j' : nat) :
  (j < i)%nat -> (j' < i')%nat -> tri_index i j = tri_index i' j' ->
  i = i' /\ j = j'.
Proof.
  intros Hj Hj' Heq. unfold tri_index in Heq.
  pose proof (tri_base_succ i). pose proof (tri_base_succ i').
  destruct (Nat.lt_trichotomy i i') as [Hlt | [-> | Hgt]].
  - pose proof (tri_base_mono (S i) i'). lia.
  - lia.
  - pose proof (tri_base_mono (S i') i). lia.
Qed.

Lemma tri_index_surj (n k : nat) :
  (k < tri_base n)%nat ->
  exists i j : nat, (j < i < n)%nat /\ tri_index i j = k.
Proof.
  induction n as [| n IH]; [unfold tri_base; simpl; lia |].
  rewrite tri_base_succ. intros Hk.
  destruct (decide (k < tri_base n)%nat) as [Hlt | Hge].
  - destruct (IH Hlt) as (i & j & Hij & Heq). exists i, j. split; [lia | done].
  - exists n, (k - tri_base n)%nat. unfold tri_index. lia.
Qed.

(** [idx] moves by one at each iteration of the inner loop, and by the
    length of the row at each iteration of the outer loop, whatever the
    data are. *)
Lemma inner_body_idx (cfg : config) (c : comparator) (hwe : list R)
    (iqry nqry1 ngt1 : nat) (aval qry_dsg : Z) (acc : state * nat) (j : nat) :
  snd (inner_body cfg c hwe iqry nqry1 ngt1 aval qry_dsg acc j) = S (snd acc).
Proof.
  destruct acc as [st idx]. unfold inner_body.
  destruct (HAS_b c _); cbn [negb]; [| done].
  by destruct (hom_only cfg && het_b c _ _).
Qed.

Lemma inner_loop_idx (cfg : config) (c : comparator) (hwe : list R)
    (iqry nqry1 ngt1 : nat) (aval qry_dsg : Z) (acc : state * nat) (m : nat) :
  snd (fold_left (inner_body cfg c hwe iqry nqry1 ngt1 aval qry_dsg)
                 (seq 0 m) acc) = (snd acc + m)%nat.
Proof.
  apply (fold_left_seq_inv
           (inner_body cfg c hwe iqry nqry1 ngt1 aval qry_dsg)
           (fun k x => snd x = (snd acc + k)%nat) m 0 acc).
  - lia.
  - intros k x _ Hx. rewrite inner_body_idx. lia.
Qed.

Lemma outer_body_idx (cfg : config) (c : comparator) (hwe : list R)
    (nqry1 ngt1 : nat) (acc : state * nat) (i : nat) :
  snd (outer_body cfg c hwe nqry1 ngt1 acc i)
  = (snd acc + (if cross_check cfg then i else ngt_smpl cfg))%nat.
Proof.
  destruct acc as [st idx]. unfold outer_body.
  destruct (HAS_a c _); cbn [negb]; [| done]. by rewrite inner_loop_idx.
Qed.

Lemma outer_loop_idx_cross (cfg : config) (c : comparator) (hwe : list R)
    (nqry1 ngt1 : nat) (st : state) (i : nat) :
  cross_check cfg = true ->
  snd (fold_left (outer_body cfg c hwe nqry1 ngt1) (seq 0 i) (st, 0%nat))
  = tri_base i.
Proof.
  intros Hcross.
  apply (fold_left_seq_inv (outer_body cfg c hwe nqry1 ngt1)
                           (fun k x => snd x = tri_base k) i 0 (st, 0%nat)).
  - done.
  - intros k x _ Hx. rewrite outer_body_idx, Hcross, tri_base_succ. lia.
Qed.

Lemma npairs_cross (cfg : config) :
  cross_check cfg = true -> pairs cfg = None ->
  npairs cfg = (tri_base (nqry_smpl cfg) + nqry_smpl cfg)%nat.
Proof.
  intros Hc Hp. unfold npairs. rewrite Hc, Hp.
  rewrite <- tri_base_succ. unfold tri_base. f_equal.
  replace (S (nqry_smpl cfg) - 1)%nat with (nqry_smpl cfg) by lia. lia.
Qed.

(** C3 (as the code has it). In a cross-check of [n] samples the loops
    reach the pair [(i, j)], [j < i], with [idx = i*(i-1)/2 + j]: [idx] is
    [i*(i-1)/2] when row [i] starts and has moved by [j] when the inner
    loop reaches [j]. For four samples the six pairs get 0..5 in the order
    of the specification. The index is a bijection between the pairs
    [j < i < n] and [[0, n*(n-1)/2)]. As long as [n*(n+1)] is in the
    range of [int] (up to 46340 samples), [init_data] computes
    [n*(n+1)/2] for the number of accumulators, [n] more than there are
    pairs; the last [n] are never addressed. *)
Theorem cross_check_index (cfg : config) (c : comparator) (hwe : list R)
    (nqry1 ngt1 : nat) :
  cross_check cfg = true -> pairs cfg = None ->
  Z.of_nat (nqry_smpl cfg) * (Z.of_nat (nqry_smpl cfg) + 1) <= INT_MAX ->
  (forall (st : state) (i : nat),
      snd (fold_left (outer_body cfg c hwe nqry1 ngt1) (seq 0 i) (st, 0%nat))
      = (i * (i - 1) / 2)%nat)
  /\ (forall (st : state) (idx iqry : nat) (aval qry_dsg : Z) (j : nat),
         snd (fold_left (inner_body cfg c hwe iqry nqry1 ngt1 aval qry_dsg)
                        (seq 0 j) (st, idx)) = (idx + j)%nat)
  /\ cross_enum 4
     = [ (1, 0, 0); (2, 0, 1); (2, 1, 2); (3, 0, 3); (3, 1, 4); (3, 2, 5) ]%nat
  /\ (forall i j : nat,
         (j < i < nqry_smpl cfg)%nat ->
         (tri_index i j < tri_base (nqry_smpl cfg))%nat)
  /\ (forall i j i' j' : nat,
         (j < i)%nat -> (j' < i')%nat -> tri_index i j = tri_index i' j' ->
         i = i' /\ j = j')
  /\ (forall k : nat,
         (k < tri_base (nqry_smpl cfg))%nat ->
         exists i j : nat, (j < i < nqry_smpl cfg)%nat /\ tri_index i j = k)
  /\ npairs_int cfg
     = Z.of_nat (tri_base (nqry_smpl cfg) + nqry_smpl cfg)
  /\ npairs cfg = (tri_base (nqry_smpl cfg) + nqry_smpl cfg)%nat.
Proof.
  intros Hcross Hpairs Hint.
  split; [intros st i; by apply outer_loop_idx_cross |].
  split; [intros st idx iqry aval qry_dsg j;
          apply (inner_loop_idx cfg c hwe iqry nqry1 ngt1 aval qry_dsg
                                (st, idx) j) |].
  split; [reflexivity |].
  split; [intros i j; apply tri_index_lt |].
  split; [apply tri_index_inj |].
  split; [apply tri_index_surj |].
  split; [| by apply npairs_cross].
  rewrite npairs_int_cross by done. f_equal. by apply npairs_cross.
Qed.

Lemma cross_check_index_witness :
  cross_check cfg_cross4 = true /\ pairs cfg_cross4 = None
  /\ Z.of_nat (nqry_smpl cfg_cross4) * (Z.of_nat (nqry_smpl cfg_cross4) + 1)
     <= INT_MAX
  /\ npairs_int cfg_cross4 = 10
  /\ npairs cfg_cross4
     = (tri_base (nqry_smpl cfg_cross4) + nqry_smpl cfg_cross4)%nat.
Proof.
  assert (Z.of_nat (nqry_smpl cfg_cross4)
          * (Z.of_nat (nqry_smpl cfg_cross4) + 1) <= INT_MAX) as Hint
      by (vm_compute; discriminate).
  split; [reflexivity |]. split; [reflexivity |]. split; [exact Hint |].
  destruct (cross_check_index cfg_cross4 GT_GT [] 2 2 eq_refl eq_refl Hint)
    as (_ & _ & _ & _ & _ & _ & H1 & H2).
  split; [exact H1 | exact H2].
Defined.

(** The bound is the one of the machine: with 46341 samples the product
    leaves the range of [int], and [args->npairs] is not the number of
    accumulators that the pairs need, 1073767311. *)
Example npairs_int_past_the_bound :
  npairs_int {| two_files := false; qry_nsamples := Z.to_nat 46341;
                gt_nsamples := 0;
                qry_use_GT := true; gt_use_GT := true;
                nqry_smpl := Z.to_nat 46341; ngt_smpl := Z.to_nat 46341;
                qry_smpl := None; gt_smpl := None;
                pairs := None; hom_only := false; cross_check := true;
                calc_hwe_prob := false; sort_by_hwe := false; ntop := 0;
                dry_run := false; distinctive_sites := 0;
                rand := fun _ => 0 |}
  = 3221250959.
Proof. vm_compute. reflexivity. Qed.

(** C3, counterexample. A cross-check of four samples allocates ten
    accumulators for each counter; the six pairs take the indices 0..5, and
    no pair is mapped to 6 (nor to 7, 8, 9): the index is not onto
    [[0, n_pairs)]. *)
Lemma cross_check_index_not_onto :
  npairs cfg_cross4 = 10%nat
  /\ length (ndiff (init_state cfg_cross4)) = 10%nat
  /\ map snd (cross_enum 4) = [0; 1; 2; 3; 4; 5]%nat
  /\ (6 < npairs cfg_cross4)%nat
  /\ ~ (exists i j : nat, (j < i < 4)%nat /\ tri_index i j = 6%nat).
Proof.
  split; [reflexivity |]. split; [reflexivity |]. split; [reflexivity |].
  split; [vm_compute; lia |].
  intros (i & j & Hij & Heq).
  pose proof (tri_index_lt 4 i j Hij) as Hlt.
  change (tri_base 4) with 6%nat in Hlt. lia.
Qed.

(** ** Bit sets *)

Lemma filter_map_S (f : nat -> bool) (l : list nat) :
  List.filter f (map S l) = map S (List.filter (fun i => f (S i)) l).
Proof.
  induction l as [| x l IH]; [done |]. simpl.
  destruct (f (S x)); simpl; by rewrite IH.
Qed.

Lemma kbs_elements_cons (x : bool) (b : kbitset_t) :
  kbs_elements (x :: b)
  = (if x then [0%nat] else []) ++ map S (kbs_elements b).
Proof.
  unfold kbs_elements. cbn [length seq List.filter].
  rewrite <- seq_shift, filter_map_S.
  change (kbs_exists (x :: b) 0) with x.
  by destruct x.
Qed.

Lemma kbs_elements_In (b : kbitset_t) (p : nat) :
  In p (kbs_elements b) <-> kbs_exists b p = true.
Proof.
  unfold kbs_elements. rewrite filter_In, in_seq. split; [tauto |].
  intros H. split; [| done]. unfold kbs_exists in H.
  destruct (b !! p) eqn:Hp; [| done].
  apply lookup_lt_Some in Hp. lia.
Qed.

Lemma kbs_exists_lt (b : kbitset_t) (p : nat) :
  kbs_exists b p = true -> (p < length b)%nat.
Proof.
  unfold kbs_exists. destruct (b !! p) eqn:Hp; [| done].
  intros _. by apply lookup_lt_Some in Hp.
Qed.

Lemma popcount_cons (x : bool) (b : kbitset_t) :
  popcount (x :: b) = (if x then 1 else 0) + popcount b.
Proof.
  unfold popcount. rewrite kbs_elements_cons, length_app, length_map.
  destruct x; cbn [length]; lia.
Qed.

Lemma popcount_nonneg (b : kbitset_t) : 0 <= popcount b.
Proof. unfold popcount. lia. Qed.

Lemma popcount_le_width (b : kbitset_t) : popcount b <= Z.of_nat (length b).
Proof.
  induction b as [| x b IH]; [done |].
  rewrite popcount_cons. cbn [length]. destruct x; lia.
Qed.

(** A bit set with a clear bit has fewer set bits than its width. *)
Lemma popcount_lt_width (b : kbitset_t) (p : nat) :
  (p < length b)%nat -> kbs_exists b p = false ->
  popcount b < Z.of_nat (length b).
Proof.
  revert p. induction b as [| x b IH]; intros p Hp Hclear;
    [cbn in Hp; lia |].
  rewrite popcount_cons. cbn [length] in *.
  destruct p as [| p].
  - change (kbs_exists (x :: b) 0) with x in Hclear. subst x.
    pose proof (popcount_le_width b). lia.
  - change (kbs_exists (x :: b) (S p)) with (kbs_exists b p) in Hclear.
    specialize (IH p ltac:(lia) Hclear). destruct x; lia.
Qed.

Lemma popcount_insert (b : kbitset_t) (i : nat) :
  (i < length b)%nat -> kbs_exists b i = false ->
  popcount (kbs_insert b i) = popcount b + 1.
Proof.
  revert i. induction b as [| x b IH]; intros i Hi Hclear;
    [cbn in Hi; lia |].
  cbn [length] in Hi. destruct i as [| i].
  - change (kbs_exists (x :: b) 0) with x in Hclear. subst x.
    change (kbs_insert (false :: b) 0) with (true :: b).
    rewrite !popcount_cons. lia.
  - change (kbs_exists (x :: b) (S i)) with (kbs_exists b i) in Hclear.
    change (kbs_insert (x :: b) (S i)) with (x :: kbs_insert b i).
    rewrite !popcount_cons, IH by (done || lia). lia.
Qed.

Lemma kbs_exists_insert (b : kbitset_t) (i p : nat) :
  (i < length b)%nat ->
  kbs_exists (kbs_insert b i) p = true <-> p = i \/ kbs_exists b p = true.
Proof.
  intros Hi. unfold kbs_exists, kbs_insert.
  destruct (decide (i = p)) as [-> | Hne].
  - rewrite list_lookup_insert_eq by done. cbn. tauto.
  - rewrite list_lookup_insert_ne by done. split; [tauto |].
    intros [-> | H]; done.
Qed.

Lemma kbs_exists_init (n p : nat) : kbs_exists (kbs_init n) p = false.
Proof.
  unfold kbs_exists, kbs_init.
  destruct (replicate n false !! p) eqn:Hp; [| done].
  by apply lookup_replicate_1 in Hp as [-> _].
Qed.

Lemma popcount_clear (b : kbitset_t) :
  (forall q : nat, kbs_exists b q = false) -> popcount b = 0.
Proof.
  intros Hclear. unfold popcount.
  destruct (kbs_elements b) as [| x l] eqn:He; [done |].
  assert (In x (kbs_elements b)) as Hin by (rewrite He; by left).
  apply kbs_elements_In in Hin. by rewrite Hclear in Hin.
Qed.

Lemma popcount_pos (b : kbitset_t) (q : nat) :
  kbs_exists b q = true -> 0 < popcount b.
Proof.
  intros Hq. apply kbs_elements_In in Hq. unfold popcount.
  destruct (kbs_elements b); [done |]. cbn [length]. lia.
Qed.

(** ** Draining the sorted records *)

(** The inner loop over a list [l] of bits that lie within the block bit
    set: the bits of [l] are added, [ndiff_new] grows by the number of bits
    that are new, [ndiff_dbg] by the length of [l]. *)
Lemma scan_bits (l : list nat) :
  forall (blk : kbitset_t) (new dbg : Z),
    Forall (fun i => (i < length blk)%nat) l ->
    exists (blk' : kbitset_t) (new' : Z),
      fold_left scan_bit l (blk, new, dbg)
      = (blk', new', dbg + Z.of_nat (length l))
      /\ length blk' = length blk
      /\ popcount blk' - popcount blk = new' - new
      /\ new <= new'
      /\ (forall q : nat,
            kbs_exists blk' q = true <-> kbs_exists blk q = true \/ In q l).
Proof.
  induction l as [| i l IH]; intros blk new dbg Hl.
  - exists blk, new. cbn [fold_left length].
    rewrite Z.add_0_r. split; [done |]. split; [done |].
    split; [lia |]. split; [lia |]. intros q. cbn [In]. tauto.
  - inversion Hl as [| ? ? Hi Hl']; subst. cbn [fold_left scan_bit length].
    destruct (kbs_exists blk i) eqn:Hex.
    + destruct (IH blk new (dbg + 1) Hl')
        as (blk' & new' & Hf & Hlen & Hp & Hn & Hq).
      exists blk', new'. rewrite Hf. split; [f_equal; lia |].
      repeat split; try done.
      * intros H. apply Hq in H. cbn [In]. tauto.
      * intros [H | [<- | H]]; apply Hq; tauto.
    + assert (length (kbs_insert blk i) = length blk) as Hlen0
        by apply length_insert.
      destruct (IH (kbs_insert blk i) (new + 1) (dbg + 1))
        as (blk' & new' & Hf & Hlen & Hp & Hn & Hq).
      { by rewrite Hlen0. }
      exists blk', new'. rewrite Hf. split; [f_equal; lia |].
      rewrite popcount_insert in Hp by done.
      repeat split; try lia.
      * intros H. apply Hq in H. rewrite kbs_exists_insert in H by done.
        cbn [In]. intuition.
      * intros H. apply Hq. rewrite kbs_exists_insert by done.
        cbn [In] in H. intuition.
Qed.

Lemma drain_scan_spec (blk bits : kbitset_t) :
  length bits = length blk ->
  exists (blk' : kbitset_t) (new : Z),
    drain_scan blk bits = (blk', new, popcount bits)
    /\ length blk' = length blk
    /\ popcount blk' = popcount blk + new
    /\ 0 <= new
    /\ (forall q : nat,
          kbs_exists blk' q = true
          <-> kbs_exists blk q = true \/ kbs_exists bits q = true).
Proof.
  intros Hlen. unfold drain_scan.
  destruct (scan_bits (kbs_elements bits) blk 0 0)
    as (blk' & new & Hf & Hl & Hp & Hn & Hq).
  { apply Forall_forall. intros i Hi. apply kbs_elements_In in Hi.
    rewrite <- Hlen. by apply kbs_exists_lt. }
  exists blk', new. rewrite Hf. split; [done |].
  split; [done |]. split; [lia |]. split; [done |].
  intros q. rewrite Hq, kbs_elements_In. tauto.
Qed.

(** [ndiff_dbg] is the number of set bits of the record, whatever the
    widths. *)
Lemma scan_bits_dbg (l : list nat) :
  forall acc : kbitset_t * Z * Z,
    snd (fold_left scan_bit l acc) = snd acc + Z.of_nat (length l).
Proof.
  induction l as [| i l IH]; intros [[blk new] dbg].
  - cbn. lia.
  - cbn [fold_left length]. rewrite IH. unfold scan_bit.
    destruct (kbs_exists blk i); cbn [snd]; lia.
Qed.

Lemma drain_scan_dbg (blk bits : kbitset_t) :
  snd (drain_scan blk bits) = popcount bits.
Proof. unfold drain_scan. by rewrite scan_bits_dbg. Qed.

Lemma to_int32_consistent (dat : diff_sites_t) :
  well_typed dat ->
  popcount (kbs_dat dat) = to_int32 (ds_ndiff dat) <-> consistent dat.
Proof.
  intros [Hn Hw]. unfold consistent, to_int32.
  pose proof (popcount_le_width (kbs_dat dat)).
  pose proof (popcount_nonneg (kbs_dat dat)).
  destruct (Z.ltb_spec (ds_ndiff dat) (2 ^ 31)); lia.
Qed.

Lemma drain_step_throw (ndiff_min : Z) (d : drain_t) (dat : diff_sites_t) :
  well_typed dat ->
  (~ consistent dat ->
   drain_step ndiff_min d dat
   = Throw (Corrupted_data (popcount (kbs_dat dat))
                           (to_int32 (ds_ndiff dat))))
  /\ (consistent dat ->
      exists d' : drain_t, drain_step ndiff_min d dat = Done d').
Proof.
  intros Hwt. unfold drain_step.
  pose proof (drain_scan_dbg (kbs_blk d) (kbs_dat dat)) as Hdbg.
  destruct (drain_scan (kbs_blk d) (kbs_dat dat)) as [[blk new] dbg].
  cbn [snd] in Hdbg. subst dbg.
  pose proof (to_int32_consistent dat Hwt) as Hiff.
  destruct (Z.eqb_spec (popcount (kbs_dat dat)) (to_int32 (ds_ndiff dat)))
    as [Heq | Hne]; cbn [negb].
  - split; [tauto |]. intros _.
    destruct (new =? 0); [by eexists |].
    destruct (_ <? ndiff_min); by eexists.
  - split; [done | tauto].
Qed.

Lemma classic_consistent (dat : diff_sites_t) :
  consistent dat \/ ~ consistent dat.
Proof. unfold consistent. lia. Qed.

Lemma drain_throw_iff (ndiff_min : Z) (recs : list diff_sites_t) :
  forall d : drain_t,
    Forall well_typed recs ->
    (exists e : error, drain ndiff_min d recs = Throw e)
    <-> Exists (fun dat => ~ consistent dat) recs.
Proof.
  induction recs as [| dat recs IH]; intros d Hwt; cbn [drain].
  - split; [intros [e He]; done | intros H; inversion H].
  - inversion Hwt as [| ? ? Hdat Hwt']; subst.
    destruct (drain_step_throw ndiff_min d dat Hdat) as [Hbad Hgood].
    rewrite Exists_cons.
    destruct (classic_consistent dat) as [Hc | Hc].
    + destruct (Hgood Hc) as [d' ->]. rewrite (IH d' Hwt'). tauto.
    + rewrite (Hbad Hc). split; [tauto | by eexists].
Qed.

Lemma extsort_insert_perm {A : Type} (cmp : A -> A -> Z) (x : A) (l : list A) :
  Permutation (extsort_insert cmp x l) (x :: l).
Proof.
  induction l as [| y l IH]; cbn [extsort_insert]; [done |].
  destruct (cmp x y <=? 0); [done |].
  rewrite IH. apply perm_swap.
Qed.

Lemma extsort_sort_perm {A : Type} (cmp : A -> A -> Z) (l : list A) :
  Permutation (extsort_sort cmp l) l.
Proof.
  induction l as [| x l IH]; [done |].
  cbn [extsort_sort fold_right]. rewrite extsort_insert_perm.
  by apply perm_skip.
Qed.

(** C9. While the sorted records are drained, a record whose number of set
    bits differs from its stored count ends the run through
    [throw_and_clean] with the message "Corrupted data", and a record whose
    count agrees passes the check; so the drain ends on this check exactly
    when the sorter holds such a record. *)
Theorem corrupted_record_is_fatal (cfg : config) (st : state) :
  Forall well_typed (es st) ->
  (forall (d : drain_t) (dat : diff_sites_t),
      well_typed dat ->
      (~ consistent dat ->
       drain_step (distinctive_sites cfg) d dat
       = Throw (Corrupted_data (popcount (kbs_dat dat))
                               (to_int32 (ds_ndiff dat))))
      /\ (consistent dat ->
          exists d' : drain_t,
            drain_step (distinctive_sites cfg) d dat = Done d'))
  /\ ((exists e : error, report_distinctive_sites cfg st = Throw e)
      <-> Exists (fun dat => ~ consistent dat) (es st)).
Proof.
  intros Hwt. split.
  - intros d dat. apply drain_step_throw.
  - unfold report_distinctive_sites.
    pose proof (extsort_sort_perm diff_sites_cmp (es st)) as Hperm.
    rewrite drain_throw_iff.
    + split; intros H;
        [exact (Permutation_Exists Hperm H)
        | exact (Permutation_Exists (Permutation_sym Hperm) H)].
    + exact (Permutation_Forall (Permutation_sym Hperm) Hwt).
Qed.

(** One record under the invariant of the first block, when the pair [p]
    differs at no record. *)
Lemma drain_step_first_block (n : nat) (p : nat) (seen : list diff_sites_t)
    (d : drain_t) (dat : diff_sites_t) :
  Z.of_nat n < 2 ^ 31 -> (p < n)%nat ->
  first_block n seen d -> collected n dat ->
  (forall x : diff_sites_t, In x (seen ++ [dat]) -> ~ discordant x p) ->
  exists d' : drain_t,
    drain_step (Z.of_nat n) d dat = Done d'
    /\ first_block n (seen ++ [dat]) d'.
Proof.
  intros Hn Hp (Hblock & Hwidth & Htot & Hout & Hne & Hmem)
         (Hlen & Hcons & Hpos) Hnever.
  unfold drain_step.
  destruct (drain_scan_spec (kbs_blk d) (kbs_dat dat))
    as (blk & new & Hscan & Hl & Hpop & Hnew & Hq); [congruence |].
  rewrite Hscan.
  assert (well_typed dat) as Hwt.
  { pose proof (popcount_le_width (kbs_dat dat)).
    pose proof (popcount_nonneg (kbs_dat dat)).
    unfold consistent in Hcons. split; [lia | rewrite Hlen; lia]. }
  apply (to_int32_consistent dat Hwt) in Hcons as Heq.
  rewrite <- Heq, Z.eqb_refl. cbn [negb].
  assert (forall q : nat,
             kbs_exists blk q = true
             <-> exists x : diff_sites_t, In x (seen ++ [dat]) /\ discordant x q)
    as Hmem'.
  { intros q. rewrite Hq, Hmem. split.
    - intros [(x & Hx & Hd) | Hd].
      + exists x. split; [apply in_or_app; by left | done].
      + exists dat. split; [apply in_or_app; right; by left | done].
    - intros (x & Hx & Hd). apply in_app_or in Hx as [Hx | [<- | []]].
      + left. by exists x.
      + by right. }
  assert (kbs_exists blk p = false) as Hclear.
  { destruct (kbs_exists blk p) eqn:Hex; [| done].
    apply Hmem' in Hex as (x & Hx & Hd). by destruct (Hnever x Hx). }
  assert (popcount blk < Z.of_nat n) as Hlt
    by (rewrite <- Hwidth, <- Hl; apply (popcount_lt_width blk p);
        [lia | done]).
  assert (seen ++ [dat] <> []) as Hne' by (by destruct seen).
  destruct (Z.eqb_spec new 0) as [-> | Hnz].
  - eexists. split; [reflexivity |].
    unfold first_block. cbn [iblock kbs_blk ndiff_tot ds_out].
    split; [done |]. split; [congruence |]. split; [lia |].
    split; [done |]. split; [| done].
    intros _. apply Hne. intros ->.
    (* with nothing seen before, a record that is not empty brings bits *)
    assert (popcount (kbs_blk d) = 0) as Hz.
    { apply popcount_clear. intros q.
      destruct (kbs_exists (kbs_blk d) q) eqn:Hex; [| done].
      apply Hmem in Hex as (x & [] & _). }
    assert (0 < popcount blk); [| lia].
    unfold consistent in Hcons. rewrite Hcons in Hpos.
    unfold popcount in Hpos.
    destruct (kbs_elements (kbs_dat dat)) as [| q l] eqn:He;
      [cbn in Hpos; lia |].
    apply (popcount_pos blk q), Hq. right.
    apply kbs_elements_In. rewrite He. by left.
  - assert ((ndiff_tot d + new <? Z.of_nat n) = true) as ->
      by (apply Z.ltb_lt; lia).
    eexists. split; [reflexivity |].
    unfold first_block. cbn [iblock kbs_blk ndiff_tot ds_out].
    split; [done |]. split; [congruence |]. split; [lia |].
    split; [| split; [| done]].
    + apply Forall_app. split; [done |]. by repeat constructor.
    + intros _. by destruct (ds_out d).
Qed.

Lemma drain_first_block (n : nat) (p : nat) (recs : list diff_sites_t) :
  forall (seen : list diff_sites_t) (d : drain_t),
    Z.of_nat n < 2 ^ 31 -> (p < n)%nat ->
    first_block n seen d -> Forall (collected n) recs ->
    (forall x : diff_sites_t, In x (seen ++ recs) -> ~ discordant x p) ->
    exists d' : drain_t,
      drain (Z.of_nat n) d recs = Done d' /\ first_block n (seen ++ recs) d'.
Proof.
  induction recs as [| dat recs IH]; intros seen d Hn Hp Hinv Hrecs Hnever.
  - exists d. rewrite app_nil_r. done.
  - inversion Hrecs as [| ? ? Hdat Hrecs']; subst. cbn [drain].
    destruct (drain_step_first_block n p seen d dat Hn Hp Hinv Hdat)
      as (d1 & -> & Hinv1).
    { intros x Hx. apply Hnever.
      apply in_app_or in Hx as [Hx | [<- | []]]; apply in_or_app;
        [by left | right; by left]. }
    destruct (IH (seen ++ [dat]) d1 Hn Hp Hinv1 Hrecs') as (d' & Hrun & Hinv').
    { intros x Hx. apply Hnever. by rewrite <- app_assoc in Hx. }
    exists d'. split; [done |]. by rewrite <- app_assoc in Hinv'.
Qed.

Lemma first_block_init (cfg : config) :
  first_block (npairs cfg) [] (drain_init cfg).
Proof.
  unfold first_block, drain_init. cbn.
  split; [done |]. split; [apply length_replicate |].
  split; [symmetry; apply popcount_clear; intros q; apply kbs_exists_init |].
  split; [constructor |]. split; [done |].
  intros q. rewrite kbs_exists_init. split; [done | by intros (x & [] & _)].
Qed.

Lemma corrupted_record_is_fatal_witness :
  Forall well_typed (es corrupt_state)
  /\ ((exists e : error,
          report_distinctive_sites cfg_pairs1 corrupt_state = Throw e)
      <-> Exists (fun dat => ~ consistent dat) (es corrupt_state))
  /\ report_distinctive_sites cfg_pairs1 corrupt_state
     = Throw (Corrupted_data 1 2).
Proof.
  assert (Forall well_typed (es corrupt_state)) as Hwt.
  { repeat constructor; vm_compute; congruence. }
  split; [exact Hwt |]. split; [| reflexivity].
  apply (corrupted_record_is_fatal cfg_pairs1 corrupt_state Hwt).
Defined.

(** The drain of well-made records with the number of pairs as threshold,
    when some pair is in no record: it ends normally, every DS line carries
    the block id 0, there is a line as soon as there is a record, and the
    bit set of the block holds exactly the pairs of the records. *)
Lemma first_block_of_records (cfg : config) (st : state)
    (p : nat) :
  distinctive_sites cfg = Z.of_nat (npairs cfg) ->
  Z.of_nat (npairs cfg) < 2 ^ 31 ->
  Forall (collected (npairs cfg)) (es st) ->
  (p < npairs cfg)%nat ->
  (forall dat : diff_sites_t, In dat (es st) -> ~ discordant dat p) ->
  exists d : drain_t,
    report_distinctive_sites cfg st = Done d
    /\ iblock d = 0
    /\ Forall (fun ln => DS_block ln = 0) (ds_out d)
    /\ (es st <> [] -> ds_out d <> [])
    /\ (forall q : nat,
          kbs_exists (kbs_blk d) q = true
          <-> exists dat : diff_sites_t, In dat (es st) /\ discordant dat q).
Proof.
  intros Hthr Hn Hrecs Hp Hnever. unfold report_distinctive_sites.
  rewrite Hthr.
  pose proof (extsort_sort_perm diff_sites_cmp (es st)) as Hperm.
  destruct (drain_first_block (npairs cfg) p
              (extsort_sort diff_sites_cmp (es st)) [] (drain_init cfg)
              Hn Hp (first_block_init cfg))
    as (d & Hrun & Hblock & _ & _ & Hout & Hne & Hmem).
  - exact (Permutation_Forall (Permutation_sym Hperm) Hrecs).
  - intros x Hx. apply Hnever. exact (Permutation_in x Hperm Hx).
  - exists d. cbn [app] in *. split; [done |]. split; [done |].
    split; [done |]. split.
    + intros Hes. apply Hne. intros Hnil. rewrite Hnil in Hperm.
      apply Permutation_nil in Hperm. done.
    + intros q. rewrite Hmem. split; intros (x & Hx & Hd); exists x;
        (split; [| done]).
      * exact (Permutation_in x Hperm Hx).
      * exact (Permutation_in x (Permutation_sym Hperm) Hx).
Qed.


(** ** The sort keys of the report *)


Lemma read_Some {A : Type} (arr : list A) (i : Z) (x : A) :
  read arr i = Some x <-> 0 <= i /\ arr !! Z.to_nat i = Some x.
Proof.
  unfold read. destruct (Z.ltb_spec i 0); [| by intuition].
  split; [done | lia].
Qed.


Lemma read_in_bounds {A : Type} (arr : list A) (i : Z) :
  0 <= i < Z.of_nat (length arr) -> exists x : A, read arr i = Some x.
Proof.
  intros Hi.
  destruct (lookup_lt_is_Some_2 arr (Z.to_nat i)) as [x Hx]; [lia |].
  exists x. apply read_Some. split; [lia | done].
Qed.

Lemma read_out_of_bounds {A : Type} (arr : list A) (i : Z) :
  i < 0 \/ Z.of_nat (length arr) <= i -> read arr i = None.
Proof.
  intros Hi. unfold read. destruct (Z.ltb_spec i 0); [done |].
  apply lookup_ge_None. lia.
Qed.

Lemma sort_key_nonneg (cfg : config) (st : state) (k : Z) (v : R) :
  sort_key cfg st k = Some v -> 0 <= k.
Proof.
  unfold sort_key, read.
  destruct (Z.ltb_spec k 0); [| done]. by destruct (sort_by_hwe cfg).
Qed.

Lemma candidate_Some (cfg : config) (st : state) (m : nat) (k : Z)
    (e : idbl_t) :
  candidate cfg st m k = Some e ->
  ism e = m /\ idx e = Z.to_nat k /\ 0 <= k
  /\ sort_key cfg st (Z.of_nat (idx e)) = Some (val e).
Proof.
  unfold candidate.
  destruct (sort_key cfg st k) as [v |] eqn:Hkey; [| done].
  intros [= <-]. cbn [ism idx val].
  pose proof (sort_key_nonneg _ _ _ _ Hkey).
  rewrite Z2Nat.id by done. done.
Qed.

Lemma mapM_Forall {A B : Type} (f : A -> option B) (Q : B -> Prop)
    (l : list A) (k : list B) :
  mapM f l = Some k ->
  (forall (x : A) (y : B), In x l -> f x = Some y -> Q y) ->
  Forall Q k.
Proof.
  intros Hm. apply mapM_Some_1 in Hm.
  induction Hm as [| x y l k Hxy Hlk IH]; intros HQ; [constructor |].
  constructor.
  - apply (HQ x); [by left | done].
  - apply IH. intros x' y' Hx'. apply HQ. by right.
Qed.

Lemma cross_row_Some (cfg : config) (st : state) (i : nat)
    (row : list idbl_t) :
  cross_row cfg st i = Some row ->
  exists below above : list idbl_t,
    row = below ++ above
    /\ mapM (fun j =>
               candidate cfg st j
                 (wrap_int (half_int (Z.of_nat i) (wrap_int (Z.of_nat i - 1))
                            + Z.of_nat j)))
            (seq 0 i) = Some below
    /\ mapM (fun j =>
               candidate cfg st (j + 1)
                 (wrap_int (half_int (Z.of_nat j) (wrap_int (Z.of_nat j + 1))
                            + Z.of_nat i)))
            (seq i (nqry_smpl cfg - 1 - i)) = Some above.
Proof.
  unfold cross_row.
  destruct (mapM _ (seq 0 i)) as [below |]; [| done]. cbn.
  destruct (mapM _ (seq i (nqry_smpl cfg - 1 - i))) as [above |]; [| done].
  cbn. intros [= <-]. by exists below, above.
Qed.

(** Every entry of [arr] holds the key of its own index. *)
Lemma row_keys (cfg : config) (st : state) (i : nat) (row : list idbl_t) :
  rect_row cfg st i = Some row \/ cross_row cfg st i = Some row ->
  Forall (fun e => sort_key cfg st (Z.of_nat (idx e)) = Some (val e)) row.
Proof.
  intros [Hrow | Hrow].
  - unfold rect_row in Hrow. apply (mapM_Forall _ _ _ _ Hrow).
    intros j e _ He. by destruct (candidate_Some _ _ _ _ _ He) as (_ & _ & _ & H).
  - apply cross_row_Some in Hrow as (below & above & -> & Hb & Ha).
    apply Forall_app. split.
    + apply (mapM_Forall _ _ _ _ Hb). intros j e _ He.
      by destruct (candidate_Some _ _ _ _ _ He) as (_ & _ & _ & H).
    + apply (mapM_Forall _ _ _ _ Ha). intros j e _ He.
      by destruct (candidate_Some _ _ _ _ _ He) as (_ & _ & _ & H).
Qed.







Example rect_state_counters :
  main_loop cfg_rect (init_state cfg_rect) rect_sites = Done rect_state
  /\ ndiff rect_state = [1; 0] /\ ncnt rect_state = [2; 0].
Proof. repeat split; reflexivity. Qed.


(** The line printed for the best match of the query sample: the genotype
    sample that was never compared. *)
Example rect_best_match :
  rect_top cfg_rect rect_state 0 rect_sorted
  = [ {| DC_qry := 0; DC_gt := 1; DC_ndiff := 0; DC_hwe := 0%R;
         DC_ncnt := 0 |} ].
Proof. reflexivity. Qed.


(** ** The loops apply the comparison *)

(** An iteration over the explicit pairs leaves in the accumulators of the
    pair what [compare] says. *)
Lemma pairs_body_tally (cfg : config) (c : comparator) (hwe : list R)
    (ps : list pair_t) (nqry1 ngt1 : nat) (st : state) (nd : Z) (i : nat) :
  let aptr := at_off (qry_arr st) (iqry (ps !!! i) * nqry1) in
  let bptr := at_off (gt_buf cfg st) (igt (ps !!! i) * ngt1) in
  same_accumulators
    (fst (pairs_body cfg c hwe ps nqry1 ngt1 (st, nd) i))
    (tally cfg hwe i (dsg_a c aptr (VAL_a c aptr))
           (compare c (hom_only cfg) aptr bptr) st).
Proof.
  intros aptr bptr. unfold pairs_body. fold aptr bptr.
  destruct (compare c (hom_only cfg) aptr bptr); cbn [tally fst].
  - done.
  - by destruct (kbs_diff (bump_ndiff i st)).
  - done.
Qed.

(** An iteration of the inner loop of a matrix mode does the same, for a
    query block that passed the test of the outer loop. *)
Lemma inner_body_tally (cfg : config) (c : comparator) (hwe : list R)
    (iqry nqry1 ngt1 : nat) (st : state) (idx j : nat) :
  let igt := smpl (gt_smpl cfg) j in
  let aptr := at_off (qry_arr st) (iqry * nqry1) in
  let bptr := at_off (gt_buf cfg st) (igt * ngt1) in
  HAS_a c aptr = true ->
  same_accumulators
    (fst (inner_body cfg c hwe iqry nqry1 ngt1 (VAL_a c aptr)
                     (dsg_a c aptr (VAL_a c aptr)) (st, idx) j))
    (tally cfg hwe idx (dsg_a c aptr (VAL_a c aptr))
           (compare c (hom_only cfg) aptr bptr) st).
Proof.
  intros igt aptr bptr Ha. unfold inner_body, compare.
  fold igt. fold aptr bptr. rewrite Ha. cbn [negb].
  destruct (HAS_b c bptr); cbn [negb].
  - destruct (hom_only cfg && het_b c bptr (VAL_b c bptr)); [done |].
    by destruct (differ c aptr (VAL_a c aptr) bptr (VAL_b c bptr)).
  - cbn [fst tally]. unfold set_gt_buf. by destruct (two_files cfg).
Qed.

(** A query sample without data is no data for its whole row. *)
Lemma outer_body_no_data (cfg : config) (c : comparator) (hwe : list R)
    (nqry1 ngt1 : nat) (st : state) (idx i : nat) :
  HAS_a c (at_off (qry_arr st) (smpl (qry_smpl cfg) i * nqry1)) = false ->
  fst (outer_body cfg c hwe nqry1 ngt1 (st, idx) i) = st
  /\ forall bptr : ptr,
       compare c (hom_only cfg)
               (at_off (qry_arr st) (smpl (qry_smpl cfg) i * nqry1)) bptr
       = NoData.
Proof.
  intros Ha. unfold outer_body, compare.
  by rewrite Ha.
Qed.

(** ** Collecting the distinctive sites *)

Lemma kbs_exists_clear (b : kbitset_t) (q : nat) :
  kbs_exists (kbs_clear b) q = false.
Proof. unfold kbs_clear. apply (kbs_exists_init (length b) q). Qed.

(** One explicit pair. *)
Lemma pairs_body_collecting (cfg : config) (c : comparator) (hwe : list R)
    (ps : list pair_t) (nqry1 ngt1 n : nat) (st0 : state)
    (acc : state * Z) (i : nat) :
  (i < n)%nat ->
  let out := fun q =>
    compare c (hom_only cfg)
            (at_off (qry_arr st0) (iqry (ps !!! q) * nqry1))
            (at_off (gt_buf cfg st0) (igt (ps !!! q) * ngt1)) in
  collecting cfg n out st0 i acc ->
  collecting cfg n out st0 (S i) (pairs_body cfg c hwe ps nqry1 ngt1 acc i).
Proof.
  intros Hi out. destruct acc as [st nd].
  intros (Hq & Hg & He & Hr & b & Hb & Hlen & Hnd & Hmarks).
  cbn [fst snd] in *. unfold pairs_body.
  assert (gt_buf cfg st = gt_buf cfg st0) as Hbuf
    by (unfold gt_buf; by rewrite Hq, Hg).
  rewrite Hq, Hbuf. fold (out i).
  assert (kbs_exists b i = false) as Hclear.
  { destruct (kbs_exists b i) eqn:Hex; [| done].
    apply Hmarks in Hex. lia. }
  destruct (out i) eqn:Hout.
  - repeat (split; [done |]). exists b. repeat (split; [done |]).
    intros q. rewrite (Hmarks q). split.
    + intros [Hlt Hm]. split; [lia | done].
    + intros [Hlt Hm]. split; [| done].
      destruct (decide (q = i)) as [-> | Hne]; [congruence | lia].
  - change (kbs_diff (bump_ndiff i st)) with (kbs_diff st). rewrite Hb.
    repeat (split; [done |]). exists (kbs_insert b i).
    split; [done |]. split; [unfold kbs_insert; by rewrite length_insert |].
    split; [cbn [snd]; rewrite popcount_insert by (done || lia); lia |].
    intros q. rewrite kbs_exists_insert, (Hmarks q) by lia. split.
    + intros [-> | [Hlt Hm]]; (split; [lia | done]).
    + intros [Hlt Hm].
      destruct (decide (q = i)) as [-> | Hne]; [by left | right].
      split; [lia | done].
  - assert (forall st1 : state,
               qry_arr st1 = qry_arr st -> gt_arr st1 = gt_arr st ->
               es st1 = es st -> nrand st1 = nrand st ->
               kbs_diff st1 = kbs_diff st ->
               collecting cfg n out st0 (S i) (bump_ncnt i st1, nd)) as Hany.
    { intros st1 H1 H2 H3 H4 H5. cbn [collecting fst snd bump_ncnt].
      unfold collecting. cbn. rewrite H1, H2, H3, H4, H5.
      repeat (split; [done |]). exists b. repeat (split; [done |]).
      intros q. rewrite (Hmarks q). split.
      + intros [Hlt Hm]. split; [lia | done].
      + intros [Hlt Hm]. split; [| done].
        destruct (decide (q = i)) as [-> | Hne]; [congruence | lia]. }
    destruct (calc_hwe_prob cfg); by apply Hany.
Qed.

(** The loop over the explicit pairs of one site: either no pair is a
    mismatch and the sorter is left alone, or one record is pushed, well
    made, with the bits of the pairs that are a mismatch. *)
Lemma pairs_loop_collects (cfg : config) (c : comparator) (hwe : list R)
    (ps : list pair_t) (nqry1 ngt1 : nat) (rid pos : Z) (st : state)
    (b0 : kbitset_t) :
  kbs_diff st = Some b0 -> length b0 = npairs cfg ->
  Z.of_nat (npairs cfg) < 2 ^ 31 ->
  let out := fun q =>
    compare c (hom_only cfg)
            (at_off (qry_arr st) (iqry (ps !!! q) * nqry1))
            (at_off (gt_buf cfg st) (igt (ps !!! q) * ngt1)) in
  let st' := pairs_loop cfg c hwe ps nqry1 ngt1 rid pos st in
  (exists b : kbitset_t, kbs_diff st' = Some b /\ length b = npairs cfg)
  /\ ((es st' = es st
       /\ forall p : nat, ~ ((p < npairs cfg)%nat /\ out p = Mismatch))
      \/ (exists dat : diff_sites_t,
             es st' = es st ++ [dat]
             /\ collected (npairs cfg) dat
             /\ forall p : nat,
                  discordant dat p
                  <-> (p < npairs cfg)%nat /\ out p = Mismatch)).
Proof.
  intros Hb Hlen Hn out st'. subst st'. unfold pairs_loop. rewrite Hb.
  set (st1 := diff_sites_reset st).
  pose proof (fold_left_seq_inv
                (pairs_body cfg c hwe ps nqry1 ngt1)
                (collecting cfg (npairs cfg) out st1)
                (npairs cfg) 0 (st1, 0)) as Hfold.
  destruct (fold_left _ _ (st1, 0)) as [st2 nd].
  destruct Hfold as (Hq & Hg & He & Hr & b & Hb2 & Hlen2 & Hnd & Hmarks).
  - repeat (split; [done |]). exists (kbs_clear b0).
    split; [unfold st1, diff_sites_reset; cbn; by rewrite Hb |].
    split; [unfold kbs_clear; by rewrite length_replicate |].
    split; [cbn [snd]; symmetry; apply popcount_clear, kbs_exists_clear |].
    intros q. rewrite kbs_exists_clear. split; [done | lia].
  - intros k x Hk Hx.
    exact (pairs_body_collecting cfg c hwe ps nqry1 ngt1 (npairs cfg) st1
                                 x k ltac:(lia) Hx).
  - cbn [fst snd plus] in *. subst nd.
    destruct (Z.eqb_spec (popcount b) 0) as [Hz | Hnz].
    + split; [by exists b |]. left. split; [done |].
      intros p Hp. apply (Hmarks p) in Hp. apply popcount_pos in Hp. lia.
    + split; [exists b; by rewrite <- Hlen2 |]. right.
      pose proof (popcount_nonneg b). pose proof (popcount_le_width b).
      eexists. split; [cbn; by rewrite He |].
      unfold collected, consistent, discordant. cbn. rewrite Hb2. cbn.
      rewrite to_uint32_small by lia.
      split; [split; [done | split; [done | lia]] |].
      intros p. apply Hmarks.
Qed.

Lemma fill_diploid (use_GT : bool) (nsamples : nat) (f : fmt_t)
    (old : list Z) :
  diploid use_GT nsamples f = true -> fill f old = fmt_arr f.
Proof.
  unfold diploid, fill. intros H. apply andb_true_iff in H as [-> _]. done.
Qed.

(** [process_line] with explicit pairs and distinctive sites on. *)
Lemma process_line_collects (cfg : config) (ps : list pair_t)
    (seen : list line_t) (st st' : state) (l : line_t) :
  pairs cfg = Some ps -> Z.of_nat (length ps) < 2 ^ 31 ->
  collected_from cfg ps seen st ->
  two_files cfg && negb (sr_ret l =? 2) = false ->
  process_line cfg st l = Done st' ->
  collected_from cfg ps (seen ++ [l]) st'.
Proof.
  intros Hps Hn ((b0 & Hb0 & Hlen0) & Hrecs & Hmem) Hret.
  assert (npairs cfg = length ps) as Hnp by (unfold npairs; by rewrite Hps).
  assert (forall st1 : state,
             kbs_diff st1 = kbs_diff st -> es st1 = es st ->
             diploid_line cfg l = false ->
             collected_from cfg ps (seen ++ [l]) st1) as Hskip.
  { intros st1 Hk He Hd. unfold collected_from. rewrite Hk, He.
    split; [by exists b0 |]. split; [done |].
    intros p. rewrite (Hmem p). split.
    - intros (x & Hx & Hdx). exists x. split; [apply in_or_app; by left | done].
    - intros (x & Hx & Hdx). apply in_app_or in Hx as [Hx | [<- | []]].
      + exists x. by split.
      + destruct Hdx as (Hc & _). unfold compared_line in Hc.
        rewrite Hd, andb_false_r in Hc. done. }
  unfold process_line. fold (qry_fmt cfg l) (gt_fmt cfg l).
  destruct (diploid (qry_use_GT cfg) (qry_nsamples cfg) (qry_fmt cfg l))
    eqn:Hdq; cbn [negb].
  2: { intros [= <-]. apply Hskip; [done | done |].
       unfold diploid_line. by rewrite Hdq. }
  destruct (two_files cfg
            && negb (diploid (gt_use_GT cfg) (gt_nsamples cfg)
                             (gt_fmt cfg l))) eqn:Hdg.
  { intros [= <-]. apply Hskip.
    - by destruct (two_files cfg).
    - by destruct (two_files cfg).
    - unfold diploid_line. by rewrite Hdq, Hdg. }
  destruct (if calc_hwe_prob cfg then _ else _) as [ac |]; [| done].
  rewrite Hps. intros [= <-].
  set (st1 := set_ncmp _ _).
  assert (qry_arr st1 = fmt_arr (qry_fmt cfg l)) as Hqa.
  { unfold st1. destruct (two_files cfg); cbn;
      by apply (fill_diploid _ _ _ _ Hdq). }
  assert (gt_buf cfg st1 = gt_vals cfg l) as Hga.
  { unfold st1, gt_buf, gt_vals. destruct (two_files cfg) eqn:Htwo; cbn.
    - apply (fill_diploid (gt_use_GT cfg) (gt_nsamples cfg)).
      cbn in Hdg. by apply negb_false_iff in Hdg.
    - by apply (fill_diploid _ _ _ _ Hdq). }
  assert (kbs_diff st1 = Some b0 /\ es st1 = es st) as [Hk1 He1]
    by (unfold st1; by destruct (two_files cfg)).
  destruct (pairs_loop_collects
              cfg (select_cmp (qry_use_GT cfg) (gt_use_GT cfg))
              (if calc_hwe_prob cfg then hwe_of_ac ac else []) ps
              (block_len (qry_use_GT cfg)) (ngt1_of cfg)
              (rec_rid (qry_rec l)) (rec_pos (qry_rec l)) st1 b0)
    as [(b & Hb & Hlen) Hes]; [done | congruence | by rewrite Hnp |].
  rewrite Hqa, Hga, Hnp in Hes. fold (pair_outcome cfg ps l) in Hes.
  fold (ngt1_of cfg).
  assert (compared_line cfg l = true) as Hcl.
  { unfold compared_line, diploid_line. by rewrite Hret, Hdq, Hdg. }
  split; [exists b; by rewrite <- Hnp |].
  destruct Hes as [[-> Hnone] | (dat & -> & Hdat & Hbits)]; rewrite He1.
  - split; [done |]. intros p. rewrite (Hmem p). split.
    + intros (x & Hx & Hdx). exists x. split; [apply in_or_app; by left | done].
    + intros (x & Hx & Hdx). apply in_app_or in Hx as [Hx | [<- | []]].
      * exists x. by split.
      * destruct Hdx as (_ & Hp & Hm). by destruct (Hnone p).
  - split.
    { apply Forall_app. split; [done |]. constructor; [done | constructor]. }
    intros p. split.
    + intros (x & Hx & Hdx). apply in_app_or in Hx as [Hx | [<- | []]].
      * destruct (proj1 (Hmem p)) as (y & Hy & Hdy); [by exists x |].
        exists y. split; [apply in_or_app; by left | done].
      * exists l. split; [apply in_or_app; right; by left |].
        apply Hbits in Hdx as [Hp Hm]. done.
    + intros (x & Hx & Hdx). apply in_app_or in Hx as [Hx | [<- | []]].
      * destruct (proj2 (Hmem p)) as (y & Hy & Hdy); [by exists x |].
        exists y. split; [apply in_or_app; by left | done].
      * exists dat. split; [apply in_or_app; right; by left |].
        apply Hbits. by destruct Hdx as (_ & Hp & Hm).
Qed.

Lemma collected_from_skip (cfg : config) (ps : list pair_t)
    (seen : list line_t) (st : state) (l : line_t) :
  compared_line cfg l = false ->
  collected_from cfg ps seen st -> collected_from cfg ps (seen ++ [l]) st.
Proof.
  intros Hc (Hb & Hrecs & Hmem). split; [done |]. split; [done |].
  intros p. rewrite (Hmem p). split.
  - intros (x & Hx & Hdx). exists x. split; [apply in_or_app; by left | done].
  - intros (x & Hx & Hdx). apply in_app_or in Hx as [Hx | [<- | []]].
    + exists x. by split.
    + destruct Hdx as (Hc' & _). congruence.
Qed.

Lemma main_loop_collects (cfg : config) (ps : list pair_t)
    (ls : list line_t) :
  forall (seen : list line_t) (st st' : state),
    pairs cfg = Some ps -> Z.of_nat (length ps) < 2 ^ 31 ->
    dry_run cfg = false ->
    collected_from cfg ps seen st ->
    main_loop cfg st ls = Done st' ->
    collected_from cfg ps (seen ++ ls) st'.
Proof.
  induction ls as [| l ls IH]; intros seen st st' Hps Hn Hdry Hinv;
    cbn [main_loop].
  - intros [= <-]. by rewrite app_nil_r.
  - replace (seen ++ l :: ls) with ((seen ++ [l]) ++ ls)
      by (by rewrite <- app_assoc).
    destruct (two_files cfg && negb (sr_ret l =? 2)) eqn:Hret.
    + apply IH; [done | done | done |].
      apply collected_from_skip; [| done].
      unfold compared_line. by rewrite Hret.
    + destruct (process_line cfg st l) as [st1 |] eqn:Hline; [| done].
      rewrite Hdry, andb_false_r.
      apply IH; [done | done | done |].
      by apply (process_line_collects cfg ps seen st st1 l).
Qed.

Lemma collected_from_init (cfg : config) (ps : list pair_t) :
  pairs cfg = Some ps -> distinctive_sites cfg <> 0 ->
  collected_from cfg ps [] (init_state cfg).
Proof.
  intros Hps Hds. unfold collected_from, init_state. cbn.
  destruct (Z.eqb_spec (distinctive_sites cfg) 0) as [| _]; [done |].
  split.
  - eexists. split; [reflexivity |].
    unfold kbs_init, npairs. by rewrite length_replicate, Hps.
  - split; [constructor |]. intros p.
    split; [by intros (x & [] & _) | by intros (x & [] & _)].
Qed.

(** Explicit pairs, the threshold of the distinctive sites equal to the
    number of pairs, any stream of sites, and some pair that is discordant
    at no site. Then the report of the distinctive sites ends normally,
    every DS line carries the block id 0, there is a DS line as soon as
    some pair is discordant at some site, and the bit set of the block
    holds exactly the pairs that are discordant at some site of the
    input. *)
Lemma single_block_run (cfg : config)
    (ps : list pair_t) (ls : list line_t) (st : state) (p : nat) :
  pairs cfg = Some ps -> dry_run cfg = false ->
  distinctive_sites cfg = Z.of_nat (npairs cfg) ->
  Z.of_nat (npairs cfg) < 2 ^ 31 ->
  main_loop cfg (init_state cfg) ls = Done st ->
  (p < npairs cfg)%nat ->
  (forall l : line_t, In l ls -> ~ differs_at cfg ps l p) ->
  exists d : drain_t,
    report_distinctive_sites cfg st = Done d
    /\ iblock d = 0
    /\ Forall (fun ln => DS_block ln = 0) (ds_out d)
    /\ ((exists (l : line_t) (q : nat), In l ls /\ differs_at cfg ps l q)
        -> ds_out d <> [])
    /\ (forall q : nat,
          kbs_exists (kbs_blk d) q = true
          <-> exists l : line_t, In l ls /\ differs_at cfg ps l q).
Proof.
  intros Hps Hdry Hthr Hn Hrun Hp Hnever.
  assert (npairs cfg = length ps) as Hnp by (unfold npairs; by rewrite Hps).
  destruct (main_loop_collects cfg ps ls [] (init_state cfg) st)
    as (_ & Hrecs & Hmem); [done | by rewrite <- Hnp | done | | done |].
  { apply collected_from_init; [done | lia]. }
  cbn [app] in Hmem. rewrite <- Hnp in Hrecs.
  destruct (first_block_of_records cfg st p Hthr Hn Hrecs Hp)
    as (d & Hrep & Hblock & Hout & Hne & Hbits).
  { intros dat Hdat Hd. destruct (proj1 (Hmem p)) as (l & Hl & Hdl);
      [by exists dat |]. by apply (Hnever l). }
  exists d. split; [done |]. split; [done |]. split; [done |]. split.
  - intros (l & q & Hl & Hdl). apply Hne.
    destruct (proj2 (Hmem q)) as (dat & Hdat & _); [by exists l |].
    intros Hnil. by rewrite Hnil in Hdat.
  - intros q. by rewrite Hbits, Hmem.
Qed.

Example three_sites_report :
  main_loop cfg_pairs2 (init_state cfg_pairs2) three_sites
  = Done three_sites_state
  /\ report_distinctive_sites cfg_pairs2 three_sites_state
     = Done {| kbs_blk := [true; false]; ndiff_tot := 1; iblock := 0;
               ds_out := [ {| DS_rid := 0; DS_pos := 100; DS_tot := 1;
                              DS_block := 0 |} ] |}.
Proof. repeat split; reflexivity. Qed.

(** C4, counterexample. One pair, threshold one (the number of pairs), two
    sites at which the pair differs: the first site completes block 0, and
    the second, drained against the emptied bit set, is written as block 1.
    And with no site at which a pair differs no block is written at all. *)
Lemma second_block_after_full_cover :
  (distinctive_sites cfg_pairs1 = Z.of_nat (npairs cfg_pairs1)
   /\ main_loop cfg_pairs1 (init_state cfg_pairs1)
                [mismatch_line; mismatch_line]
      = Done twice_state
   /\ report_distinctive_sites cfg_pairs1 twice_state
      = Done {| kbs_blk := [false]; ndiff_tot := 0; iblock := 2;
                ds_out := [ {| DS_rid := 0; DS_pos := 100; DS_tot := 1;
                               DS_block := 0 |};
                            {| DS_rid := 0; DS_pos := 100; DS_tot := 1;
                               DS_block := 1 |} ] |})
  /\
  (main_loop cfg_pairs1 (init_state cfg_pairs1) [match_line]
   = Done quiet_state
   /\ report_distinctive_sites cfg_pairs1 quiet_state
      = Done {| kbs_blk := [false]; ndiff_tot := 0; iblock := 0;
                ds_out := [] |}).
Proof. repeat split; reflexivity. Qed.

(** * Further properties of the comparison and of [process_line] *)

(** ** Exchanging the two sides of a comparison *)

Lemma differ_PL_PL_sym (a b : ptr) :
  differ PL_PL a (MIN_PL a) b (MIN_PL b)
  = differ PL_PL b (MIN_PL b) a (MIN_PL a).
Proof.
  cbn [differ PL_PL]. f_equal. unfold existsb, seq.
  rewrite !(andb_comm (a _ =? _)). reflexivity.
Qed.

(** Without the homozygous-only filter the comparison does not depend on
    which side is the query: a call against a likelihood triple gives what
    the triple against the call gives, and the two same-representation loops
    are symmetric. The filter breaks the symmetry, as it looks at the
    genotype side only: a heterozygous call as query against a homozygous
    one is a mismatch, and no data the other way round. *)
Theorem compare_sides_exchange (g l a b : ptr) :
  compare GT_PL false g l = compare PL_GT false l g
  /\ compare GT_GT false a b = compare GT_GT false b a
  /\ compare PL_PL false a b = compare PL_PL false b a
  /\ compare GT_GT true (pair_of 2 4) (pair_of 2 2) = Mismatch
  /\ compare GT_GT true (pair_of 2 2) (pair_of 2 4) = NoData.
Proof.
  repeat split.
  - unfold compare. cbn [HAS_a HAS_b VAL_a VAL_b het_b differ GT_PL PL_GT andb].
    destruct (HAS_GT g), (HAS_PL l); cbn [negb]; try reflexivity.
    rewrite (Z.eqb_sym (MIN_PL l)). reflexivity.
  - unfold compare. cbn [HAS_a HAS_b VAL_a VAL_b het_b differ GT_GT andb].
    destruct (HAS_GT a), (HAS_GT b); cbn [negb]; try reflexivity.
    rewrite (Z.eqb_sym (DSG_GT a)). reflexivity.
  - unfold compare. cbn [HAS_a HAS_b VAL_a VAL_b het_b PL_PL andb].
    rewrite (differ_PL_PL_sym a b).
    destruct (HAS_PL a), (HAS_PL b); reflexivity.
Qed.

(** ** When [process_line] fails *)

(** The only fatal exit of [process_line] is the failure of [bcf_calc_ac] on
    a site that has diploid data, and it is taken only while the HWE score
    is computed: with [--no-HWE-prob] no site is fatal. *)
Theorem process_line_throws_iff (cfg : config) (st : state) (l : line_t)
    (e : error) :
  process_line cfg st l = Throw e
  <-> e = Calc_ac_failed
      /\ calc_hwe_prob cfg = true
      /\ diploid_line cfg l = true
      /\ rec_ac (if two_files cfg then gt_rec l else qry_rec l) = None.
Proof.
  unfold process_line, diploid_line, qry_fmt, gt_fmt.
  destruct (diploid (qry_use_GT cfg) (qry_nsamples cfg)
                    (line_fmt (qry_use_GT cfg) (qry_rec l))); cbn [negb andb].
  2: { split; [discriminate | intros (_ & _ & H & _); discriminate]. }
  destruct (two_files cfg && negb (diploid (gt_use_GT cfg) (gt_nsamples cfg)
              (line_fmt (gt_use_GT cfg) (gt_rec l)))); cbn [negb].
  { split; [discriminate | intros (_ & _ & H & _); discriminate]. }
  destruct (calc_hwe_prob cfg).
  2: { destruct (pairs cfg);
       (split; [discriminate | intros (_ & H & _); discriminate]). }
  destruct (rec_ac (if two_files cfg then gt_rec l else qry_rec l)) as [ac |].
  - destruct (pairs cfg);
      (split; [discriminate | intros (_ & _ & _ & H); discriminate]).
  - split.
    + intros [= <-]. auto.
    + intros (-> & _). reflexivity.
Qed.

(** ** The range of the HWE scores *)

Lemma ln_monotone (x y : R) : (0 < x)%R -> (x <= y)%R -> (ln x <= ln y)%R.
Proof.
  intros Hx [Hlt | ->]; [| lra].
  left. apply ln_increasing; assumption.
Qed.

Lemma neg_ln_bounds (x : R) :
  (min_af * min_af <= x <= 1)%R ->
  (0 <= - ln x <= - ln (min_af * min_af))%R.
Proof.
  intros [Hlo Hhi].
  pose proof min_af_bounds as [Hm0 Hm1].
  assert (0 < min_af * min_af)%R as Hmm by nra.
  assert (ln x <= ln 1)%R as H1 by (apply ln_monotone; lra).
  assert (ln (min_af * min_af) <= ln x)%R as H2 by (apply ln_monotone; lra).
  rewrite ln_1 in H1. lra.
Qed.

Lemma hwe_of_af_bounded (af : R) :
  (0 <= af <= 1)%R ->
  Forall (fun x => (0 <= x <= - ln (min_af * min_af))%R) (hwe_of_af af).
Proof.
  intros [H0 H1].
  pose proof min_af_bounds as [Hm0 Hm1].
  unfold hwe_of_af, hwe_with.
  constructor; [| constructor; [| constructor; [| constructor]]].
  - destruct (Rltb min_af af) eqn:E; rltb_hyps; apply neg_ln_bounds; nra.
  - destruct (Rltb min_af af) eqn:E1, (Rltb af (1 - min_af)) eqn:E2;
      cbn [andb]; rltb_hyps; apply neg_ln_bounds; nra.
  - destruct (Rltb af (1 - min_af)) eqn:E; rltb_hyps; apply neg_ln_bounds; nra.
Qed.

Lemma allele_frequency_range (ac0 ac1 : Z) :
  0 <= ac0 -> 0 <= ac1 -> ac0 + ac1 <> 0 ->
  (0 <= IZR ac1 / IZR (ac0 + ac1) <= 1)%R.
Proof.
  intros H0 H1 Hs.
  assert (0 < IZR (ac0 + ac1))%R as Hpos by (apply IZR_lt; lia).
  assert (0 <= IZR ac1)%R as Ha by (apply IZR_le; lia).
  assert (IZR ac1 <= IZR (ac0 + ac1))%R as Hb by (apply IZR_le; lia).
  split.
  - apply Rmult_le_reg_r with (IZR (ac0 + ac1)); [assumption |].
    unfold Rdiv. rewrite Rmult_assoc, Rinv_l by lra. lra.
  - apply Rmult_le_reg_r with (IZR (ac0 + ac1)); [assumption |].
    unfold Rdiv. rewrite Rmult_assoc, Rinv_l by lra. lra.
Qed.

(** For the allele counts of a site (two counts that are not negative) the
    scorer yields three scores, each between 0 and [-log(min_af^2)]: a
    match never lowers the accumulated score of a pair, and no single site
    adds more than [-log(1e-6)]. This holds also at a site with no allele
    counted, where the frequency of the source is not a number. *)
Theorem hwe_scores_bounded (ac : Z * Z) :
  0 <= fst ac -> 0 <= snd ac ->
  length (hwe_of_ac ac) = 3%nat
  /\ Forall (fun x => (0 <= x <= - ln (min_af * min_af))%R) (hwe_of_ac ac).
Proof.
  intros H0 H1. unfold hwe_of_ac.
  destruct (Z.eqb_spec (fst ac + snd ac) 0) as [E | E].
  - split; [reflexivity |].
    pose proof min_af_bounds as [Hm0 Hm1].
    constructor; [| constructor; [| constructor; [| constructor]]];
      apply neg_ln_bounds; nra.
  - split; [reflexivity |].
    apply hwe_of_af_bounded, allele_frequency_range; assumption.
Qed.

Lemma hwe_scores_bounded_witness :
  0 <= fst (3, 1) /\ 0 <= snd (3, 1)
  /\ length (hwe_of_ac (3, 1)) = 3%nat
  /\ Forall (fun x => (0 <= x <= - ln (min_af * min_af))%R) (hwe_of_ac (3, 1)).
Proof.
  split; [simpl; lia |]. split; [simpl; lia |].
  apply (hwe_scores_bounded (3, 1)); simpl; lia.
Defined.

(** ** The order of the sorted site records *)

Section Sorting.

Context {A : Type} (cmp : A -> A -> Z).
Hypothesis cmp_total : forall a b : A, cmp a b <= 0 \/ cmp b a <= 0.
Hypothesis cmp_trans :
  forall a b c : A, cmp a b <= 0 -> cmp b c <= 0 -> cmp a c <= 0.

Lemma extsort_insert_sorted (x : A) (l : list A) :
  StronglySorted (fun a b => cmp a b <= 0) l ->
  StronglySorted (fun a b => cmp a b <= 0) (extsort_insert cmp x l).
Proof.
  induction l as [| y l IH]; intros Hs; cbn [extsort_insert].
  - repeat constructor.
  - inversion Hs as [| ? ? Hl Hy]; subst.
    destruct (Z.leb_spec (cmp x y) 0) as [Hxy | Hxy].
    + constructor; [assumption |].
      constructor; [assumption |].
      eapply List.Forall_impl; [| exact Hy].
      intros z Hz. exact (cmp_trans x y z Hxy Hz).
    + constructor; [exact (IH Hl) |].
      apply (Permutation_Forall (Permutation_sym (extsort_insert_perm cmp x l))).
      constructor; [| assumption].
      destruct (cmp_total x y); [lia | assumption].
Qed.

Lemma extsort_sort_sorted (l : list A) :
  StronglySorted (fun a b => cmp a b <= 0) (extsort_sort cmp l).
Proof.
  induction l as [| x l IH]; cbn [extsort_sort fold_right].
  - constructor.
  - apply extsort_insert_sorted. exact IH.
Qed.

End Sorting.

Lemma diff_sites_cmp_le (a b : diff_sites_t) :
  diff_sites_cmp a b <= 0
  <-> ds_ndiff b < ds_ndiff a
      \/ (ds_ndiff a = ds_ndiff b /\ ds_rand a <= ds_rand b).
Proof.
  unfold diff_sites_cmp.
  destruct (Z.ltb_spec (ds_ndiff a) (ds_ndiff b));
    destruct (Z.ltb_spec (ds_ndiff b) (ds_ndiff a));
    destruct (Z.ltb_spec (ds_rand a) (ds_rand b));
    destruct (Z.ltb_spec (ds_rand b) (ds_rand a)); lia.
Qed.

Lemma StronglySorted_impl {A : Type} (R1 R2 : A -> A -> Prop) (l : list A) :
  (forall a b : A, R1 a b -> R2 a b) ->
  StronglySorted R1 l -> StronglySorted R2 l.
Proof.
  intros Himp Hs. induction Hs as [| x l Hs IH Hx]; constructor.
  - exact IH.
  - eapply List.Forall_impl; [| exact Hx]. intros b. apply Himp.
Qed.

(** [diff_sites_cmp] puts the record with more differing pairs first and,
    among records with the same number, the one with the smaller random tag;
    exchanging its arguments negates the result, and the order is
    transitive. The sorter therefore hands the records to the drain with
    the number of differing pairs never increasing. *)
Theorem diff_sites_cmp_order (a b c : diff_sites_t)
    (recs : list diff_sites_t) :
  (diff_sites_cmp a b <= 0
   <-> ds_ndiff b < ds_ndiff a
       \/ (ds_ndiff a = ds_ndiff b /\ ds_rand a <= ds_rand b))
  /\ (diff_sites_cmp a b = 0
      <-> ds_ndiff a = ds_ndiff b /\ ds_rand a = ds_rand b)
  /\ diff_sites_cmp b a = - diff_sites_cmp a b
  /\ (diff_sites_cmp a b <= 0 -> diff_sites_cmp b c <= 0 ->
      diff_sites_cmp a c <= 0)
  /\ StronglySorted (fun x y => ds_ndiff y <= ds_ndiff x)
                    (extsort_sort diff_sites_cmp recs).
Proof.
  split; [apply diff_sites_cmp_le |].
  split.
  { unfold diff_sites_cmp.
    destruct (Z.ltb_spec (ds_ndiff a) (ds_ndiff b));
      destruct (Z.ltb_spec (ds_ndiff b) (ds_ndiff a));
      destruct (Z.ltb_spec (ds_rand a) (ds_rand b));
      destruct (Z.ltb_spec (ds_rand b) (ds_rand a)); lia. }
  split.
  { unfold diff_sites_cmp.
    destruct (Z.ltb_spec (ds_ndiff a) (ds_ndiff b));
      destruct (Z.ltb_spec (ds_ndiff b) (ds_ndiff a));
      destruct (Z.ltb_spec (ds_rand a) (ds_rand b));
      destruct (Z.ltb_spec (ds_rand b) (ds_rand a)); lia. }
  split.
  { rewrite !diff_sites_cmp_le. lia. }
  apply (StronglySorted_impl (fun x y => diff_sites_cmp x y <= 0)).
  { intros x y. rewrite diff_sites_cmp_le. lia. }
  apply extsort_sort_sorted.
  - intros x y. rewrite !diff_sites_cmp_le. lia.
  - intros x y z. rewrite !diff_sites_cmp_le. lia.
Qed.

(** ** The pair index of the rectangular mode *)

Lemma row_base_succ (cfg : config) (i : nat) :
  row_base cfg (S i) = (row_base cfg i + row_width cfg i)%nat.
Proof.
  unfold row_base, row_width. destruct (cross_check cfg).
  - apply tri_base_succ.
  - lia.
Qed.

Lemma row_base_mono (cfg : config) (i i' : nat) :
  (i <= i')%nat -> (row_base cfg i <= row_base cfg i')%nat.
Proof.
  induction 1 as [| i' _ IH]; [done |]. rewrite row_base_succ. lia.
Qed.

Lemma outer_loop_idx (cfg : config) (c : comparator) (hwe : list R)
    (nqry1 ngt1 : nat) (st : state) (i : nat) :
  snd (fold_left (outer_body cfg c hwe nqry1 ngt1) (seq 0 i) (st, 0%nat))
  = row_base cfg i.
Proof.
  apply (fold_left_seq_inv (outer_body cfg c hwe nqry1 ngt1)
                           (fun k x => snd x = row_base cfg k) i 0 (st, 0%nat)).
  - unfold row_base, tri_base. by destruct (cross_check cfg).
  - intros k x _ Hx. rewrite outer_body_idx, row_base_succ. unfold row_width.
    lia.
Qed.

Lemma matrix_index_lt (cfg : config) (n i j : nat) :
  (i < n)%nat -> (j < row_width cfg i)%nat ->
  (matrix_index cfg i j < row_base cfg n)%nat.
Proof.
  intros Hi Hj. unfold matrix_index.
  pose proof (row_base_succ cfg i). pose proof (row_base_mono cfg (S i) n).
  lia.
Qed.

Lemma matrix_index_inj (cfg : config) (i j i' j' : nat) :
  (j < row_width cfg i)%nat -> (j' < row_width cfg i')%nat ->
  matrix_index cfg i j = matrix_index cfg i' j' -> i = i' /\ j = j'.
Proof.
  intros Hj Hj' Heq. unfold matrix_index in Heq.
  pose proof (row_base_succ cfg i). pose proof (row_base_succ cfg i').
  destruct (Nat.lt_trichotomy i i') as [Hlt | [-> | Hgt]].
  - pose proof (row_base_mono cfg (S i) i'). lia.
  - lia.
  - pose proof (row_base_mono cfg (S i') i). lia.
Qed.

Lemma matrix_index_surj (cfg : config) (n k : nat) :
  (k < row_base cfg n)%nat ->
  exists i j : nat,
    (i < n)%nat /\ (j < row_width cfg i)%nat /\ matrix_index cfg i j = k.
Proof.
  induction n as [| n IH].
  - unfold row_base, tri_base. destruct (cross_check cfg); simpl; lia.
  - rewrite row_base_succ. intros Hk.
    destruct (decide (k < row_base cfg n)%nat) as [Hlt | Hge].
    + destruct (IH Hlt) as (i & j & Hi & Hj & Heq). exists i, j.
      split; [lia | done].
    + exists n, (k - row_base cfg n)%nat. unfold matrix_index. lia.
Qed.

(** With two files, or with one file and [-s gt:], the pair of the query
    sample [i] and the genotype sample [j] is compared at
    [idx = i*ngt_smpl + j], whatever the data are. As long as the product
    [ngt_smpl*nqry_smpl] is in the range of [int], [init_data] computes
    this product for the number of accumulators, and the index is a
    one-to-one map of the pairs onto them: every accumulator belongs to
    exactly one pair. *)
Theorem rectangular_index (cfg : config) (c : comparator) (hwe : list R)
    (nqry1 ngt1 : nat) :
  cross_check cfg = false -> pairs cfg = None ->
  Z.of_nat (ngt_smpl cfg) * Z.of_nat (nqry_smpl cfg) <= INT_MAX ->
  npairs_int cfg = Z.of_nat (nqry_smpl cfg * ngt_smpl cfg)
  /\ (forall (st : state) (i : nat),
      snd (fold_left (outer_body cfg c hwe nqry1 ngt1) (seq 0 i) (st, 0%nat))
      = (i * ngt_smpl cfg)%nat)
  /\ (forall (st : state) (idx iqry : nat) (aval qry_dsg : Z) (j : nat),
         snd (fold_left (inner_body cfg c hwe iqry nqry1 ngt1 aval qry_dsg)
                        (seq 0 j) (st, idx)) = (idx + j)%nat)
  /\ (forall i j : nat,
         (i < nqry_smpl cfg)%nat -> (j < ngt_smpl cfg)%nat ->
         Z.of_nat (i * ngt_smpl cfg + j) < npairs_int cfg)
  /\ (forall i j i' j' : nat,
         (j < ngt_smpl cfg)%nat -> (j' < ngt_smpl cfg)%nat ->
         (i * ngt_smpl cfg + j = i' * ngt_smpl cfg + j')%nat ->
         i = i' /\ j = j')
  /\ (forall k : nat,
         Z.of_nat k < npairs_int cfg ->
         exists i j : nat,
           (i < nqry_smpl cfg)%nat /\ (j < ngt_smpl cfg)%nat
           /\ (i * ngt_smpl cfg + j)%nat = k).
Proof.
  intros Hc Hp Hint.
  assert (forall i, row_base cfg i = (i * ngt_smpl cfg)%nat) as Hbase
      by (intros i; unfold row_base; by rewrite Hc).
  assert (forall i, row_width cfg i = ngt_smpl cfg) as Hwidth
      by (intros i; unfold row_width; by rewrite Hc).
  assert (npairs cfg = row_base cfg (nqry_smpl cfg)) as Hn
      by (unfold npairs; rewrite Hp, Hc, Hbase; lia).
  rewrite (npairs_int_rect cfg Hc Hp Hint), Hn, Hbase.
  split; [done |].
  setoid_rewrite <- Nat2Z.inj_lt. rewrite <- Hbase, <- Hn.
  split; [intros st i; by rewrite outer_loop_idx, Hbase |].
  split; [intros st idx iqry aval qry_dsg j; by rewrite inner_loop_idx |].
  split.
  { intros i j Hi Hj. rewrite Hn, <- Hbase.
    apply (matrix_index_lt cfg); [done | by rewrite Hwidth]. }
  split.
  { intros i j i' j' Hj Hj' Heq.
    apply (matrix_index_inj cfg); rewrite ?Hwidth; try done.
    unfold matrix_index. by rewrite !Hbase. }
  intros k Hk. rewrite Hn in Hk.
  destruct (matrix_index_surj cfg _ k Hk) as (i & j & Hi & Hj & Heq).
  exists i, j. rewrite Hwidth in Hj. unfold matrix_index in Heq.
  rewrite Hbase in Heq. done.
Qed.

Lemma rectangular_index_witness :
  cross_check cfg_rect = false /\ pairs cfg_rect = None
  /\ Z.of_nat (ngt_smpl cfg_rect) * Z.of_nat (nqry_smpl cfg_rect) <= INT_MAX
  /\ npairs_int cfg_rect = 2
  /\ (forall k : nat,
         Z.of_nat k < npairs_int cfg_rect ->
         exists i j : nat,
           (i < nqry_smpl cfg_rect)%nat /\ (j < ngt_smpl cfg_rect)%nat
           /\ (i * ngt_smpl cfg_rect + j)%nat = k).
Proof.
  assert (Z.of_nat (ngt_smpl cfg_rect) * Z.of_nat (nqry_smpl cfg_rect)
          <= INT_MAX) as Hint by (vm_compute; discriminate).
  destruct (rectangular_index cfg_rect GT_GT [] 2 2 eq_refl eq_refl Hint)
    as (H1 & _ & _ & _ & _ & H2).
  split; [reflexivity |]. split; [reflexivity |]. split; [exact Hint |].
  split; [exact H1 | exact H2].
Defined.

(** ** The marks of the matrix loops leave every outcome as it was *)

Lemma HAS_miss (use_GT : bool) (p : ptr) :
  p 0%nat = miss_of use_GT -> HAS use_GT p = false.
Proof.
  intros H. destruct use_GT; unfold HAS, HAS_GT, HAS_PL, miss_of in *;
    rewrite H; reflexivity.
Qed.

Lemma HAS_ext (use_GT : bool) (p p' : ptr) :
  (forall t : nat, (t < block_len use_GT)%nat -> p t = p' t) ->
  HAS use_GT p = HAS use_GT p'.
Proof.
  intros H. destruct use_GT; cbn [block_len] in H; unfold HAS, HAS_GT, HAS_PL.
  - rewrite (H 0%nat), (H 1%nat) by lia. reflexivity.
  - rewrite (H 0%nat), (H 1%nat), (H 2%nat) by lia. reflexivity.
Qed.

Lemma select_cmp_HAS_a (q g : bool) : HAS_a (select_cmp q g) = HAS q.
Proof. by destruct q, g. Qed.

Lemma select_cmp_HAS_b (q g : bool) : HAS_b (select_cmp q g) = HAS g.
Proof. by destruct q, g. Qed.

Lemma select_cmp_miss_b (q g : bool) : miss_b (select_cmp q g) = miss_of g.
Proof. by destruct q, g. Qed.

Lemma compare_invalid_a (q g hom : bool) (a b : ptr) :
  HAS q a = false -> compare (select_cmp q g) hom a b = NoData.
Proof.
  intros H. unfold compare. by rewrite select_cmp_HAS_a, H.
Qed.

Lemma compare_invalid_b (q g hom : bool) (a b : ptr) :
  HAS g b = false -> compare (select_cmp q g) hom a b = NoData.
Proof.
  intros H. unfold compare. rewrite select_cmp_HAS_b, H.
  by destruct (HAS_a _ a).
Qed.

Lemma DSG_GT_ext (p p' : ptr) :
  (forall t : nat, (t < 2)%nat -> p t = p' t) -> DSG_GT p = DSG_GT p'.
Proof.
  intros H. unfold DSG_GT. by rewrite (H 0%nat), (H 1%nat) by lia.
Qed.

Lemma MIN_PL_ext (p p' : ptr) :
  (forall t : nat, (t < 3)%nat -> p t = p' t) -> MIN_PL p = MIN_PL p'.
Proof.
  intros H. unfold MIN_PL. by rewrite (H 0%nat), (H 1%nat), (H 2%nat) by lia.
Qed.

Lemma DSG_PL_ext (p p' : ptr) :
  (forall t : nat, (t < 3)%nat -> p t = p' t) -> DSG_PL p = DSG_PL p'.
Proof.
  intros H. unfold DSG_PL. by rewrite (H 0%nat), (H 1%nat), (H 2%nat) by lia.
Qed.

Lemma dosage_index (p : ptr) (d : Z) (p' : ptr) :
  0 <= d <= 2 ->
  (forall t : nat, (t < 3)%nat -> p t = p' t) ->
  p (Z.to_nat d) = p' (Z.to_nat d).
Proof. intros Hd H. apply H. lia. Qed.

(** The comparison reads the first two values of a GT block and the first
    three of a PL block, and nothing else. *)
Lemma compare_ext (q g hom : bool) (a a' b b' : ptr) :
  (forall t : nat, (t < block_len q)%nat -> a t = a' t) ->
  (forall t : nat, (t < block_len g)%nat -> b t = b' t) ->
  compare (select_cmp q g) hom a b = compare (select_cmp q g) hom a' b'.
Proof.
  intros Ha Hb. unfold compare.
  rewrite select_cmp_HAS_a, select_cmp_HAS_b.
  rewrite (HAS_ext q a a' Ha), (HAS_ext g b b' Hb).
  destruct (HAS q a'); cbn [negb]; [| done].
  destruct (HAS g b'); cbn [negb]; [| done].
  destruct q, g; cbn [block_len] in Ha, Hb;
    cbn [select_cmp andb negb VAL_a VAL_b het_b differ GT_GT PL_PL GT_PL PL_GT].
  - by rewrite (DSG_GT_ext a a' Ha), (DSG_GT_ext b b' Hb).
  - rewrite (DSG_GT_ext a a' Ha), (MIN_PL_ext b b' Hb).
    rewrite (dosage_index b (DSG_GT a') b' (DSG_GT_range a') Hb).
    by rewrite (Hb 1%nat) by lia.
  - rewrite (DSG_GT_ext b b' Hb), (MIN_PL_ext a a' Ha).
    by rewrite (dosage_index a (DSG_GT b') a' (DSG_GT_range b') Ha).
  - rewrite (MIN_PL_ext a a' Ha), (MIN_PL_ext b b' Hb).
    unfold existsb, seq.
    by rewrite (Ha 0%nat), (Ha 1%nat), (Ha 2%nat), (Hb 0%nat), (Hb 1%nat),
      (Hb 2%nat) by lia.
Qed.

Lemma dsg_a_ext (q g : bool) (a a' : ptr) :
  (forall t : nat, (t < block_len q)%nat -> a t = a' t) ->
  VAL_a (select_cmp q g) a = VAL_a (select_cmp q g) a'
  /\ dsg_a (select_cmp q g) a (VAL_a (select_cmp q g) a)
     = dsg_a (select_cmp q g) a' (VAL_a (select_cmp q g) a').
Proof.
  intros Ha.
  destruct q, g; cbn [block_len] in Ha;
    cbn [select_cmp andb negb VAL_a dsg_a GT_GT PL_PL GT_PL PL_GT];
    rewrite ?(DSG_GT_ext a a' Ha), ?(MIN_PL_ext a a' Ha),
      ?(DSG_PL_ext a a' Ha); done.
Qed.

Lemma compare_same_block (q g hom : bool) (a a' b b' : ptr) :
  same_block q a a' -> same_block g b b' ->
  compare (select_cmp q g) hom a b = compare (select_cmp q g) hom a' b'.
Proof.
  intros [Ha | [Ha Ha']] [Hb | [Hb Hb']].
  - by apply compare_ext.
  - by rewrite !compare_invalid_b.
  - by rewrite !compare_invalid_a.
  - by rewrite !compare_invalid_a.
Qed.

Lemma same_block_valid (use_GT : bool) (p p' : ptr) :
  same_block use_GT p p' -> HAS use_GT p = true ->
  forall t : nat, (t < block_len use_GT)%nat -> p t = p' t.
Proof. intros [H | [H _]] Hv; [done | congruence]. Qed.

Lemma same_block_HAS (use_GT : bool) (p p' : ptr) :
  same_block use_GT p p' -> HAS use_GT p = HAS use_GT p'.
Proof. intros [H | [H H']]; [by apply HAS_ext | congruence]. Qed.

Lemma marked_refl (use_GT : bool) (l : list Z) : marked use_GT l l.
Proof. split; [done | intros pos; by left]. Qed.

Lemma block_offset (n k k' t : nat) :
  (0 < t < n)%nat -> (k * n + t)%nat <> (k' * n)%nat.
Proof.
  intros Ht Heq. apply (f_equal (fun x => x mod n)%nat) in Heq.
  rewrite Nat.add_comm, Nat.Div0.mod_add, Nat.Div0.mod_mul in Heq.
  rewrite Nat.mod_small in Heq by lia. lia.
Qed.

(** Block by block, a marked buffer is the buffer of the line. *)
Lemma marked_block (use_GT : bool) (orig cur : list Z) (k : nat) :
  marked use_GT orig cur ->
  same_block use_GT (at_off cur (k * block_len use_GT))
             (at_off orig (k * block_len use_GT)).
Proof.
  intros [_ Hpos]. set (n := block_len use_GT).
  assert (0 < n)%nat as Hn by (unfold n; destruct use_GT; simpl; lia).
  destruct (Hpos (k * n)%nat) as [Heq | (k' & _ & Hinv & Hmiss)].
  - left. intros t Ht. unfold at_off.
    destruct (decide (t = 0%nat)) as [-> | Hne].
    + by rewrite Nat.add_0_r.
    + destruct (Hpos (k * n + t)%nat) as [Heq' | (k' & Hk' & _)]; [done |].
      exfalso. apply (block_offset n k k' t); [lia | done].
  - right. split; [| done].
    apply HAS_miss. unfold at_off. by rewrite Nat.add_0_r.
Qed.

(** Writing the sentinel to the first value of a block that holds no data
    keeps the buffer marked. *)
Lemma marked_insert (use_GT : bool) (orig cur : list Z) (k : nat) :
  marked use_GT orig cur ->
  HAS use_GT (at_off cur (k * block_len use_GT)) = false ->
  marked use_GT orig (<[(k * block_len use_GT)%nat := miss_of use_GT]> cur).
Proof.
  intros Hm Hinv. pose proof (marked_block use_GT orig cur k Hm) as Hblk.
  destruct Hm as [Hlen Hpos]. split; [by rewrite length_insert |].
  intros pos. rewrite list_lookup_total_insert.
  destruct (decide (_ /\ _)) as [[<- Hlt] | _]; [| apply Hpos].
  right. exists k. split; [done |]. split; [| done].
  by rewrite <- (same_block_HAS _ _ _ Hblk).
Qed.

Lemma buffers_ok_blocks (cfg : config) (qorig gorig : list Z) (st : state)
    (i k : nat) :
  (two_files cfg = false -> gt_use_GT cfg = qry_use_GT cfg) ->
  buffers_ok cfg qorig gorig st ->
  same_block (qry_use_GT cfg)
             (at_off (qry_arr st) (i * block_len (qry_use_GT cfg)))
             (at_off qorig (i * block_len (qry_use_GT cfg)))
  /\ same_block (gt_use_GT cfg)
                (at_off (gt_buf cfg st) (k * block_len (gt_use_GT cfg)))
                (at_off gorig (k * block_len (gt_use_GT cfg))).
Proof.
  unfold buffers_ok, gt_buf. intros Htag.
  destruct (two_files cfg).
  - intros [-> Hm]. split; [by left | by apply marked_block].
  - intros [-> Hm]. rewrite <- (Htag eq_refl).
    split; by apply marked_block.
Qed.

Lemma buffers_ok_insert (cfg : config) (qorig gorig : list Z) (st : state)
    (k : nat) :
  buffers_ok cfg qorig gorig st ->
  HAS (gt_use_GT cfg) (at_off (gt_buf cfg st) (k * block_len (gt_use_GT cfg)))
  = false ->
  buffers_ok cfg qorig gorig
    (set_gt_buf cfg (<[(k * block_len (gt_use_GT cfg))%nat
                       := miss_of (gt_use_GT cfg)]> (gt_buf cfg st)) st).
Proof.
  unfold buffers_ok, gt_buf, set_gt_buf.
  destruct (two_files cfg); intros [Hq Hm] Hinv; cbn.
  - split; [done | by apply marked_insert].
  - split; [done | by apply marked_insert].
Qed.

Lemma buffers_ok_frame (cfg : config) (qorig gorig : list Z) (st st' : state) :
  qry_arr st' = qry_arr st -> gt_arr st' = gt_arr st ->
  buffers_ok cfg qorig gorig st -> buffers_ok cfg qorig gorig st'.
Proof. unfold buffers_ok. by intros -> ->. Qed.

(** ** What one line does to every pair of a matrix mode *)

Lemma accum_tally (cfg : config) (hwe : list R) (idx : nat) (dsg : Z)
    (o : outcome) (st : state) (p : nat) :
  (idx < length (ndiff st))%nat -> (idx < length (ncnt st))%nat ->
  (calc_hwe_prob cfg = true -> (idx < length (hwe_prob st))%nat) ->
  accum (tally cfg hwe idx dsg o st) p
  = if decide (p = idx)
    then accum_step (calc_hwe_prob cfg) (hwe !!! Z.to_nat dsg) o (accum st p)
    else accum st p.
Proof.
  intros H1 H2 H3. unfold accum.
  destruct (decide (p = idx)) as [-> | Hne].
  - destruct o; cbn [tally accum_step fst snd]; [done | |].
    + cbn. by rewrite !list_lookup_total_alter_eq.
    + destruct (calc_hwe_prob cfg); cbn.
      * by rewrite !list_lookup_total_alter_eq by auto.
      * by rewrite !list_lookup_total_alter_eq.
  - destruct o; cbn [tally]; [done | |].
    + cbn. by rewrite !list_lookup_total_alter_ne.
    + destruct (calc_hwe_prob cfg); cbn;
        by rewrite !list_lookup_total_alter_ne.
Qed.

Lemma tally_length (cfg : config) (hwe : list R) (idx : nat) (dsg : Z)
    (o : outcome) (st : state) :
  length (ndiff (tally cfg hwe idx dsg o st)) = length (ndiff st)
  /\ length (ncnt (tally cfg hwe idx dsg o st)) = length (ncnt st)
  /\ length (hwe_prob (tally cfg hwe idx dsg o st)) = length (hwe_prob st).
Proof.
  destruct o; cbn [tally]; [done | |].
  - cbn. by rewrite !length_alter.
  - destruct (calc_hwe_prob cfg); cbn; by rewrite !length_alter.
Qed.

Lemma before_lt (cfg : config) (i j i' j' : nat) :
  before cfg i j i' j' ->
  (matrix_index cfg i' j' < matrix_index cfg i j)%nat.
Proof.
  unfold before, matrix_index. intros [[Hi Hj] | [-> Hj]]; [| lia].
  pose proof (row_base_succ cfg i'). pose proof (row_base_mono cfg (S i') i).
  lia.
Qed.

Lemma before_S (cfg : config) (i j i' j' : nat) :
  before cfg i (S j) i' j' <-> before cfg i j i' j' \/ (i' = i /\ j' = j).
Proof. unfold before. lia. Qed.

Lemma before_row (cfg : config) (i i' j' : nat) :
  before cfg (S i) 0 i' j' <-> before cfg i (row_width cfg i) i' j'.
Proof.
  unfold before. split.
  - intros [[Hi Hj] | [_ Hj]]; [| lia].
    destruct (decide (i' = i)) as [-> | Hne]; [by right | left; lia].
  - intros [[Hi Hj] | [-> Hj]]; left; lia.
Qed.

(** The buffers after one pair: untouched, or marked at a block without
    data. *)
Lemma inner_body_buffers (cfg : config) (hwe : list R) (qorig gorig : list Z)
    (iqry nqry1 : nat) (aval qry_dsg : Z) (st : state) (idx j : nat) :
  buffers_ok cfg qorig gorig st ->
  buffers_ok cfg qorig gorig
    (fst (inner_body cfg (select_cmp (qry_use_GT cfg) (gt_use_GT cfg)) hwe
                     iqry nqry1 (block_len (gt_use_GT cfg)) aval qry_dsg
                     (st, idx) j)).
Proof.
  intros Hbuf. unfold inner_body.
  rewrite select_cmp_HAS_b, select_cmp_miss_b.
  destruct (HAS (gt_use_GT cfg) _) eqn:Hv; cbn [negb fst].
  2: { by apply buffers_ok_insert. }
  destruct (hom_only cfg && _); [done |]. cbn [fst].
  eapply buffers_ok_frame; [| | exact Hbuf];
    destruct (differ _ _ _ _ _); try destruct (calc_hwe_prob cfg); done.
Qed.

Lemma inner_body_matrix (cfg : config) (hwe : list R) (qorig gorig : list Z)
    (st0 : state) (i j : nat) (acc : state * nat) :
  let c := select_cmp (qry_use_GT cfg) (gt_use_GT cfg) in
  let a0 := at_off qorig
                   (smpl (qry_smpl cfg) i * block_len (qry_use_GT cfg)) in
  (two_files cfg = false -> gt_use_GT cfg = qry_use_GT cfg) ->
  (matrix_index cfg i j < length (ndiff st0))%nat ->
  (matrix_index cfg i j < length (ncnt st0))%nat ->
  (calc_hwe_prob cfg = true ->
   (matrix_index cfg i j < length (hwe_prob st0))%nat) ->
  HAS (qry_use_GT cfg) a0 = true ->
  matrix_inv cfg hwe qorig gorig st0 i j acc ->
  matrix_inv cfg hwe qorig gorig st0 i (S j)
    (inner_body cfg c hwe (smpl (qry_smpl cfg) i)
                (block_len (qry_use_GT cfg)) (block_len (gt_use_GT cfg))
                (VAL_a c a0) (dsg_a c a0 (VAL_a c a0)) acc j).
Proof.
  intros c a0 Htag Hn1 Hn2 Hn3 Hva.
  destruct acc as [st idx].
  intros (Hidx & Hl1 & Hl2 & Hl3 & Hbuf & Hge & Hdone). cbn [fst snd] in *.
  destruct (buffers_ok_blocks cfg qorig gorig st (smpl (qry_smpl cfg) i)
              (smpl (gt_smpl cfg) j) Htag Hbuf) as [Ha Hb].
  fold a0 in Ha.
  set (aptr := at_off (qry_arr st) _) in Ha.
  set (bptr := at_off (gt_buf cfg st) _) in Hb.
  assert (HAS (qry_use_GT cfg) aptr = true) as Hvcur
      by (by rewrite (same_block_HAS _ _ _ Ha)).
  pose proof (same_block_valid _ _ _ Ha Hvcur) as Heqa.
  destruct (dsg_a_ext (qry_use_GT cfg) (gt_use_GT cfg) aptr a0 Heqa)
    as [Eval Edsg].
  fold c in Eval, Edsg.
  pose proof (inner_body_tally cfg c hwe (smpl (qry_smpl cfg) i)
                (block_len (qry_use_GT cfg)) (block_len (gt_use_GT cfg))
                st idx j) as Htally.
  cbn zeta in Htally. fold aptr bptr in Htally.
  rewrite Edsg, Eval in Htally.
  unfold c in Htally at 1. rewrite select_cmp_HAS_a in Htally.
  specialize (Htally Hvcur). fold c in Htally.
  rewrite (compare_same_block _ _ _ _ _ _ _ Ha Hb) in Htally.
  fold c in Htally.
  set (acc' := inner_body cfg c hwe _ _ _ _ _ (st, idx) j) in *.
  set (t := tally cfg hwe idx _ _ st) in Htally.
  destruct Htally as (Hnd & Hnc & Hhw).
  assert (forall p : nat, accum (fst acc') p = accum t p) as Hacc
      by (intros p; unfold accum; by rewrite Hnd, Hnc, Hhw).
  destruct (tally_length cfg hwe idx
              (dsg_a c a0 (VAL_a c a0))
              (compare c (hom_only cfg) a0
                 (at_off gorig (smpl (gt_smpl cfg) j
                                * block_len (gt_use_GT cfg)))) st)
    as (Ht1 & Ht2 & Ht3).
  fold t in Ht1, Ht2, Ht3.
  assert (forall p : nat,
             accum t p
             = if decide (p = idx)
               then accum_step (calc_hwe_prob cfg)
                      (hwe !!! Z.to_nat (dsg_a c a0 (VAL_a c a0)))
                      (compare c (hom_only cfg) a0
                         (at_off gorig (smpl (gt_smpl cfg) j
                                        * block_len (gt_use_GT cfg))))
                      (accum st p)
               else accum st p) as Hstep.
  { intros p. unfold t. apply accum_tally.
    - rewrite Hl1, Hidx. exact Hn1.
    - rewrite Hl2, Hidx. exact Hn2.
    - intros Hc. rewrite Hl3, Hidx. by apply Hn3. }
  unfold matrix_inv. cbn zeta. fold c.
  split.
  { unfold acc'. rewrite inner_body_idx. cbn [snd]. rewrite Hidx.
    unfold matrix_index. lia. }
  split; [by rewrite Hnd, Ht1 |].
  split; [by rewrite Hnc, Ht2 |].
  split; [by rewrite Hhw, Ht3 |].
  split; [unfold acc', c; by apply inner_body_buffers |].
  assert (snd acc' = S idx) as Hidx'
      by (unfold acc'; by rewrite inner_body_idx).
  split.
  { intros p Hp. rewrite Hidx' in Hp. rewrite Hacc, Hstep.
    destruct (decide (p = idx)); [lia |]. apply Hge. lia. }
  intros i' j' Hbef. apply before_S in Hbef as [Hbef | [-> ->]].
  - pose proof (before_lt _ _ _ _ _ Hbef) as Hlt.
    rewrite Hacc, Hstep.
    destruct (decide (_ = idx)) as [E | _]; [lia |]. by apply Hdone.
  - rewrite Hacc, Hstep, <- Hidx.
    destruct (decide (idx = idx)) as [_ | E]; [| done].
    fold a0. f_equal. apply Hge. lia.
Qed.

Lemma outer_body_matrix (cfg : config) (hwe : list R) (qorig gorig : list Z)
    (st0 : state) (i : nat) (acc : state * nat) :
  let c := select_cmp (qry_use_GT cfg) (gt_use_GT cfg) in
  (two_files cfg = false -> gt_use_GT cfg = qry_use_GT cfg) ->
  (row_base cfg (S i) <= length (ndiff st0))%nat ->
  (row_base cfg (S i) <= length (ncnt st0))%nat ->
  (calc_hwe_prob cfg = true ->
   (row_base cfg (S i) <= length (hwe_prob st0))%nat) ->
  matrix_inv cfg hwe qorig gorig st0 i 0 acc ->
  matrix_inv cfg hwe qorig gorig st0 (S i) 0
    (outer_body cfg c hwe (block_len (qry_use_GT cfg))
                (block_len (gt_use_GT cfg)) acc i).
Proof.
  intros c Htag Hn1 Hn2 Hn3 Hinv.
  pose proof (row_base_succ cfg i) as Hsucc.
  assert (forall x : state * nat,
             matrix_inv cfg hwe qorig gorig st0 i (row_width cfg i) x ->
             matrix_inv cfg hwe qorig gorig st0 (S i) 0 x) as Hrow.
  { intros x (Hidx & Hl1 & Hl2 & Hl3 & Hbuf & Hge & Hdone).
    repeat (split; [done || (rewrite Hidx; unfold matrix_index; lia) |]).
    intros i' j' Hbef. apply Hdone. by apply before_row. }
  destruct acc as [st idx]. unfold outer_body.
  fold (row_width cfg i).
  set (aptr := at_off (qry_arr st) _).
  unfold c at 1. rewrite select_cmp_HAS_a.
  pose proof Hinv as (Hidx & Hl1 & Hl2 & Hl3 & Hbuf & Hge & Hdone).
  cbn [fst snd] in *.
  destruct (buffers_ok_blocks cfg qorig gorig st (smpl (qry_smpl cfg) i)
              0 Htag Hbuf) as [Ha _].
  fold aptr in Ha.
  set (a0 := at_off qorig _) in Ha.
  destruct (HAS (qry_use_GT cfg) aptr) eqn:Hv; cbn [negb].
  - pose proof (same_block_valid _ _ _ Ha Hv) as Heqa.
    destruct (dsg_a_ext (qry_use_GT cfg) (gt_use_GT cfg) aptr a0 Heqa)
      as [Eval Edsg].
    fold c in Eval, Edsg. rewrite Edsg, Eval.
    apply Hrow.
    apply (fold_left_seq_inv
             (inner_body cfg c hwe (smpl (qry_smpl cfg) i)
                         (block_len (qry_use_GT cfg))
                         (block_len (gt_use_GT cfg))
                         (VAL_a c a0) (dsg_a c a0 (VAL_a c a0)))
             (fun k x => matrix_inv cfg hwe qorig gorig st0 i k x)
             (row_width cfg i) 0 (st, idx)); [exact Hinv |].
    intros k x Hk Hx.
    assert (matrix_index cfg i k < row_base cfg (S i))%nat as Hlt
        by (unfold matrix_index; lia).
    apply inner_body_matrix; try done; try lia.
    + intros Hc. specialize (Hn3 Hc). lia.
    + fold a0. by rewrite <- (same_block_HAS _ _ _ Ha).
  - apply Hrow. unfold matrix_inv. cbn zeta. cbn [fst snd].
    split; [rewrite Hidx; unfold matrix_index; lia |].
    repeat (split; [done |]).
    split; [intros p Hp; apply Hge; lia |].
    intros i' j' [[Hi Hj] | [-> Hj]].
    + apply Hdone. left. by split.
    + fold a0. fold c.
      rewrite (compare_invalid_a (qry_use_GT cfg) (gt_use_GT cfg)).
      2: { by rewrite <- (same_block_HAS _ _ _ Ha). }
      cbn [accum_step]. apply Hge. rewrite Hidx. unfold matrix_index. lia.
Qed.

Lemma matrix_loop_inv (cfg : config) (hwe : list R) (qorig gorig : list Z)
    (st0 : state) (n : nat) :
  let c := select_cmp (qry_use_GT cfg) (gt_use_GT cfg) in
  (two_files cfg = false -> gt_use_GT cfg = qry_use_GT cfg) ->
  (row_base cfg n <= length (ndiff st0))%nat ->
  (row_base cfg n <= length (ncnt st0))%nat ->
  (calc_hwe_prob cfg = true ->
   (row_base cfg n <= length (hwe_prob st0))%nat) ->
  buffers_ok cfg qorig gorig st0 ->
  matrix_inv cfg hwe qorig gorig st0 n 0
    (fold_left (outer_body cfg c hwe (block_len (qry_use_GT cfg))
                           (block_len (gt_use_GT cfg)))
               (seq 0 n) (st0, 0%nat)).
Proof.
  intros c Htag Hn1 Hn2 Hn3 Hbuf.
  apply (fold_left_seq_inv
           (outer_body cfg c hwe (block_len (qry_use_GT cfg))
                       (block_len (gt_use_GT cfg)))
           (fun k x => matrix_inv cfg hwe qorig gorig st0 k 0 x)
           n 0 (st0, 0%nat)).
  - unfold matrix_inv. cbn zeta. cbn [fst snd].
    split; [unfold matrix_index, row_base, tri_base;
            by destruct (cross_check cfg) |].
    repeat (split; [done |]).
    intros i' j' [[Hi _] | [_ Hj]]; lia.
  - intros k x Hk Hx.
    pose proof (row_base_mono cfg (S k) n ltac:(lia)) as Hmono.
    apply outer_body_matrix; try done; try lia.
    intros Hc. specialize (Hn3 Hc). lia.
Qed.

Lemma row_base_le_npairs (cfg : config) :
  pairs cfg = None -> (row_base cfg (nqry_smpl cfg) <= npairs cfg)%nat.
Proof.
  intros Hp. unfold row_base. destruct (cross_check cfg) eqn:Hc.
  - rewrite (npairs_cross cfg Hc Hp). lia.
  - unfold npairs. rewrite Hp, Hc. lia.
Qed.

Lemma accum_step_no_score (s s' : R) (o : outcome) (a : Z * Z * R) :
  accum_step false s o a = accum_step false s' o a.
Proof. by destruct o. Qed.

Lemma matrix_line_step (cfg : config) (st st' : state) (l : line_t) :
  pairs cfg = None ->
  (two_files cfg = false -> gt_use_GT cfg = qry_use_GT cfg) ->
  allocated cfg st ->
  diploid_line cfg l = true ->
  process_line cfg st l = Done st' ->
  (forall i j : nat,
      (i < nqry_smpl cfg)%nat -> (j < row_width cfg i)%nat ->
      accum st' (matrix_index cfg i j)
      = accum_step (calc_hwe_prob cfg)
                   (match_score cfg l (smpl (qry_smpl cfg) i
                                       * block_len (qry_use_GT cfg)))
                   (matrix_outcome cfg l i j)
                   (accum st (matrix_index cfg i j)))
  /\ (forall p : nat,
         (row_base cfg (nqry_smpl cfg) <= p)%nat -> accum st' p = accum st p)
  /\ ncmp st' = incr32 (ncmp st)
  /\ allocated cfg st'.
Proof.
  intros Hps Htag (Ha1 & Ha2 & Ha3) Hdl.
  pose proof (row_base_le_npairs cfg Hps) as Hnp.
  unfold diploid_line in Hdl. apply andb_true_iff in Hdl as [Hdq Hdg].
  apply negb_true_iff in Hdg.
  unfold process_line. fold (qry_fmt cfg l) (gt_fmt cfg l).
  rewrite Hdq, Hdg. cbn [negb].
  destruct (if calc_hwe_prob cfg then _ else _) as [ac |] eqn:Hac; [| done].
  rewrite Hps. intros [= <-].
  set (st1 := set_ncmp _ _).
  set (hwe := if calc_hwe_prob cfg then hwe_of_ac ac else []).
  assert (qry_arr st1 = fmt_arr (qry_fmt cfg l)) as Hqa.
  { unfold st1. destruct (two_files cfg); cbn;
      by apply (fill_diploid _ _ _ _ Hdq). }
  assert (gt_buf cfg st1 = gt_vals cfg l) as Hga.
  { unfold st1, gt_buf, gt_vals. destruct (two_files cfg) eqn:Htwo; cbn.
    - apply (fill_diploid (gt_use_GT cfg) (gt_nsamples cfg)).
      cbn in Hdg. by apply negb_false_iff in Hdg.
    - by apply (fill_diploid _ _ _ _ Hdq). }
  assert (ndiff st1 = ndiff st /\ ncnt st1 = ncnt st
          /\ hwe_prob st1 = hwe_prob st /\ ncmp st1 = incr32 (ncmp st))
    as (Hn1 & Hn2 & Hn3 & Hn4)
      by (unfold st1; by destruct (two_files cfg)).
  assert (forall p : nat, accum st1 p = accum st p) as Hacc1
      by (intros p; unfold accum; by rewrite Hn1, Hn2, Hn3).
  assert (buffers_ok cfg (fmt_arr (qry_fmt cfg l)) (gt_vals cfg l) st1)
    as Hbuf.
  { unfold buffers_ok. unfold gt_buf in Hga.
    destruct (two_files cfg) eqn:Htwo.
    - split; [done |]. rewrite Hga. apply marked_refl.
    - split; [by rewrite <- Hqa, Hga |]. rewrite Hga. apply marked_refl. }
  assert ((if two_files cfg then block_len (gt_use_GT cfg)
           else block_len (qry_use_GT cfg)) = block_len (gt_use_GT cfg))
    as Hlen.
  { destruct (two_files cfg); [done |]. by rewrite Htag. }
  rewrite Hlen.
  pose proof (matrix_loop_inv cfg hwe (fmt_arr (qry_fmt cfg l))
                (gt_vals cfg l) st1 (nqry_smpl cfg) Htag) as Hinv.
  cbn zeta in Hinv.
  destruct Hinv as (Hidx & Hl1 & Hl2 & Hl3 & _ & Hge & Hdone).
  { rewrite Hn1. lia. }
  { rewrite Hn2. lia. }
  { intros Hc. rewrite Hn3, (Ha3 Hc). lia. }
  { exact Hbuf. }
  unfold matrix_loop.
  set (final := fold_left _ _ _) in *.
  split.
  { intros i j Hi Hj. rewrite (Hdone i j) by (left; by split).
    rewrite Hacc1. unfold matrix_outcome, ngt1_of. rewrite Hlen.
    destruct (calc_hwe_prob cfg) eqn:Hc.
    - unfold match_score, line_scores. rewrite Hac. reflexivity.
    - apply accum_step_no_score. }
  split.
  { intros p Hp. rewrite <- Hacc1. apply Hge. rewrite Hidx.
    unfold matrix_index. lia. }
  split.
  2: { unfold allocated. rewrite Hl1, Hl2, Hl3, Hn1, Hn2, Hn3. done. }
  rewrite <- Hn4.
  apply (fold_left_seq_inv
           (outer_body cfg (select_cmp (qry_use_GT cfg) (gt_use_GT cfg)) hwe
                       (block_len (qry_use_GT cfg))
                       (block_len (gt_use_GT cfg)))
           (fun _ x => ncmp (fst x) = ncmp st1)
           (nqry_smpl cfg) 0 (st1, 0%nat)); [done |].
  intros k [s ix] _ Hs. cbn [fst] in *. rewrite <- Hs.
  unfold outer_body. destruct (HAS_a _ _); cbn [negb fst]; [| done].
  apply (fold_left_seq_inv
           (inner_body cfg (select_cmp (qry_use_GT cfg) (gt_use_GT cfg)) hwe
                       _ _ _ _ _)
           (fun _ x => ncmp (fst x) = ncmp s)
           (row_width cfg k) 0 (s, ix)); [done |].
  intros k' [s' ix'] _ Hs'. cbn [fst] in *. rewrite <- Hs'.
  unfold inner_body. destruct (HAS_b _ _); cbn [negb fst].
  2: { unfold set_gt_buf. by destruct (two_files cfg). }
  destruct (hom_only cfg && _); [done |]. cbn [fst].
  destruct (differ _ _ _ _ _); try destruct (calc_hwe_prob cfg); done.
Qed.

(** A site with diploid data, in a matrix mode (two files, [-s gt:], or a
    cross-check). Whatever marks the loops leave in the buffers on their
    way, the pair of the query sample [i] and the genotype sample [j] ends
    with the step of its outcome on the values of the line, at the
    accumulators [idx(i,j)]: nothing when a side has no data or the filter
    drops the pair, one more compared site for a match (with the HWE score
    of the query dosage when scores are kept), one more compared and one
    more differing site for a mismatch. The accumulators past the last
    pair stay as they are, and the site is counted in [ncmp]. *)
Theorem matrix_line_effect (cfg : config) (st st' : state) (l : line_t) :
  pairs cfg = None ->
  (two_files cfg = false -> gt_use_GT cfg = qry_use_GT cfg) ->
  allocated cfg st ->
  diploid_line cfg l = true ->
  process_line cfg st l = Done st' ->
  (forall i j : nat,
      (i < nqry_smpl cfg)%nat -> (j < row_width cfg i)%nat ->
      accum st' (matrix_index cfg i j)
      = accum_step (calc_hwe_prob cfg)
                   (match_score cfg l (smpl (qry_smpl cfg) i
                                       * block_len (qry_use_GT cfg)))
                   (matrix_outcome cfg l i j)
                   (accum st (matrix_index cfg i j)))
  /\ (forall p : nat,
         (row_base cfg (nqry_smpl cfg) <= p)%nat -> accum st' p = accum st p)
  /\ ncmp st' = incr32 (ncmp st)
  /\ allocated cfg st'.
Proof. apply matrix_line_step. Qed.

Lemma matrix_line_effect_witness :
  pairs cfg_cross3 = None
  /\ allocated cfg_cross3 (init_state cfg_cross3)
  /\ diploid_line cfg_cross3 half_call_line = true
  /\ process_line cfg_cross3 (init_state cfg_cross3) half_call_line
     = Done half_call_state
  /\ matrix_outcome cfg_cross3 half_call_line 2 0 = NoData
  /\ matrix_outcome cfg_cross3 half_call_line 2 1 = Mismatch
  /\ (forall i j : nat,
         (i < nqry_smpl cfg_cross3)%nat -> (j < row_width cfg_cross3 i)%nat ->
         accum half_call_state (matrix_index cfg_cross3 i j)
         = accum_step (calc_hwe_prob cfg_cross3)
                      (match_score cfg_cross3 half_call_line
                         (smpl (qry_smpl cfg_cross3) i
                          * block_len (qry_use_GT cfg_cross3)))
                      (matrix_outcome cfg_cross3 half_call_line i j)
                      (accum (init_state cfg_cross3)
                             (matrix_index cfg_cross3 i j))).
Proof.
  split; [reflexivity |].
  split; [split; [reflexivity | split; [reflexivity | discriminate]] |].
  split; [reflexivity |]. split; [reflexivity |].
  split; [reflexivity |]. split; [reflexivity |].
  apply (matrix_line_effect cfg_cross3 (init_state cfg_cross3)
                            half_call_state half_call_line).
  - reflexivity.
  - reflexivity.
  - split; [reflexivity | split; [reflexivity | discriminate]].
  - reflexivity.
  - reflexivity.
Defined.

(** ** What one line does to every explicit pair *)

Lemma pairs_body_buffers (cfg : config) (c : comparator) (hwe : list R)
    (ps : list pair_t) (nqry1 ngt1 : nat) (st : state) (nd : Z) (i : nat) :
  qry_arr (fst (pairs_body cfg c hwe ps nqry1 ngt1 (st, nd) i)) = qry_arr st
  /\ gt_arr (fst (pairs_body cfg c hwe ps nqry1 ngt1 (st, nd) i)) = gt_arr st
  /\ ncmp (fst (pairs_body cfg c hwe ps nqry1 ngt1 (st, nd) i)) = ncmp st.
Proof.
  unfold pairs_body. destruct (compare c _ _ _); [done | |].
  - change (kbs_diff (bump_ndiff i st)) with (kbs_diff st).
    by destruct (kbs_diff st).
  - by destruct (calc_hwe_prob cfg).
Qed.

Lemma pairs_body_effect (cfg : config) (c : comparator) (hwe : list R)
    (ps : list pair_t) (nqry1 ngt1 : nat) (st0 : state) (acc : state * Z)
    (i : nat) :
  let out := fun p : nat =>
    compare c (hom_only cfg)
            (at_off (qry_arr st0) (iqry (ps !!! p) * nqry1))
            (at_off (gt_buf cfg st0) (igt (ps !!! p) * ngt1)) in
  let score := fun p : nat =>
    let aptr := at_off (qry_arr st0) (iqry (ps !!! p) * nqry1) in
    hwe !!! Z.to_nat (dsg_a c aptr (VAL_a c aptr)) in
  let inv := fun (k : nat) (x : state * Z) =>
    qry_arr (fst x) = qry_arr st0 /\ gt_arr (fst x) = gt_arr st0
    /\ ncmp (fst x) = ncmp st0
    /\ length (ndiff (fst x)) = length (ndiff st0)
    /\ length (ncnt (fst x)) = length (ncnt st0)
    /\ length (hwe_prob (fst x)) = length (hwe_prob st0)
    /\ (forall p : nat, (k <= p)%nat -> accum (fst x) p = accum st0 p)
    /\ (forall p : nat,
           (p < k)%nat ->
           accum (fst x) p
           = accum_step (calc_hwe_prob cfg) (score p) (out p) (accum st0 p)) in
  (i < length (ndiff st0))%nat -> (i < length (ncnt st0))%nat ->
  (calc_hwe_prob cfg = true -> (i < length (hwe_prob st0))%nat) ->
  inv i acc -> inv (S i) (pairs_body cfg c hwe ps nqry1 ngt1 acc i).
Proof.
  intros out score inv Hn1 Hn2 Hn3. destruct acc as [st nd].
  intros (Hq & Hg & Hc & Hl1 & Hl2 & Hl3 & Hge & Hdone). cbn [fst] in *.
  destruct (pairs_body_buffers cfg c hwe ps nqry1 ngt1 st nd i)
    as (Hq' & Hg' & Hc').
  pose proof (pairs_body_tally cfg c hwe ps nqry1 ngt1 st nd i) as Htally.
  cbn zeta in Htally.
  assert (gt_buf cfg st = gt_buf cfg st0) as Hbuf
      by (unfold gt_buf; by rewrite Hq, Hg).
  rewrite Hq, Hbuf in Htally. fold (out i) in Htally.
  set (acc' := pairs_body cfg c hwe ps nqry1 ngt1 (st, nd) i) in *.
  set (dsg := dsg_a c _ _) in Htally.
  destruct Htally as (Hnd & Hnc & Hhw).
  destruct (tally_length cfg hwe i dsg (out i) st) as (Ht1 & Ht2 & Ht3).
  assert (forall p : nat,
             accum (fst acc') p
             = if decide (p = i)
               then accum_step (calc_hwe_prob cfg) (score i) (out i)
                               (accum st p)
               else accum st p) as Hstep.
  { intros p. transitivity (accum (tally cfg hwe i dsg (out i) st) p).
    - unfold accum. by rewrite Hnd, Hnc, Hhw.
    - apply accum_tally; [by rewrite Hl1 | by rewrite Hl2 |].
      intros H. rewrite Hl3. by apply Hn3. }
  unfold inv.
  split; [by rewrite Hq' |]. split; [by rewrite Hg' |].
  split; [by rewrite Hc' |].
  split; [by rewrite Hnd, Ht1 |]. split; [by rewrite Hnc, Ht2 |].
  split; [by rewrite Hhw, Ht3 |].
  split.
  - intros p Hp. rewrite Hstep. destruct (decide (p = i)); [lia |].
    apply Hge. lia.
  - intros p Hp. rewrite Hstep. destruct (decide (p = i)) as [-> | Hne].
    + f_equal. by apply Hge.
    + apply Hdone. lia.
Qed.

Lemma pairs_line_step (cfg : config) (ps : list pair_t) (st st' : state)
    (l : line_t) :
  pairs cfg = Some ps ->
  allocated cfg st ->
  diploid_line cfg l = true ->
  process_line cfg st l = Done st' ->
  (forall p : nat,
      (p < length ps)%nat ->
      accum st' p
      = accum_step (calc_hwe_prob cfg)
                   (match_score cfg l (iqry (ps !!! p)
                                       * block_len (qry_use_GT cfg)))
                   (pair_outcome cfg ps l p) (accum st p))
  /\ (forall p : nat, (length ps <= p)%nat -> accum st' p = accum st p)
  /\ ncmp st' = incr32 (ncmp st)
  /\ allocated cfg st'.
Proof.
  intros Hps (Ha1 & Ha2 & Ha3) Hdl.
  assert (npairs cfg = length ps) as Hnp by (unfold npairs; by rewrite Hps).
  unfold diploid_line in Hdl. apply andb_true_iff in Hdl as [Hdq Hdg].
  apply negb_true_iff in Hdg.
  unfold process_line. fold (qry_fmt cfg l) (gt_fmt cfg l).
  rewrite Hdq, Hdg. cbn [negb].
  destruct (if calc_hwe_prob cfg then _ else _) as [ac |] eqn:Hac; [| done].
  rewrite Hps. intros [= <-].
  set (st1 := set_ncmp _ _).
  set (hwe := if calc_hwe_prob cfg then hwe_of_ac ac else []).
  assert (qry_arr st1 = fmt_arr (qry_fmt cfg l)) as Hqa.
  { unfold st1. destruct (two_files cfg); cbn;
      by apply (fill_diploid _ _ _ _ Hdq). }
  assert (gt_buf cfg st1 = gt_vals cfg l) as Hga.
  { unfold st1, gt_buf, gt_vals. destruct (two_files cfg) eqn:Htwo; cbn.
    - apply (fill_diploid (gt_use_GT cfg) (gt_nsamples cfg)).
      cbn in Hdg. by apply negb_false_iff in Hdg.
    - by apply (fill_diploid _ _ _ _ Hdq). }
  assert (ndiff st1 = ndiff st /\ ncnt st1 = ncnt st
          /\ hwe_prob st1 = hwe_prob st /\ ncmp st1 = incr32 (ncmp st))
    as (Hn1 & Hn2 & Hn3 & Hn4)
      by (unfold st1; by destruct (two_files cfg)).
  assert (forall p : nat, accum st1 p = accum st p) as Hacc1
      by (intros p; unfold accum; by rewrite Hn1, Hn2, Hn3).
  fold (ngt1_of cfg).
  unfold pairs_loop.
  set (st2 := match kbs_diff st1 with
              | Some _ => diff_sites_reset st1
              | None => st1
              end).
  assert (qry_arr st2 = qry_arr st1 /\ gt_arr st2 = gt_arr st1
          /\ ncmp st2 = ncmp st1 /\ ndiff st2 = ndiff st1
          /\ ncnt st2 = ncnt st1 /\ hwe_prob st2 = hwe_prob st1)
    as (Hq2 & Hg2 & Hc2 & Hd2 & Ht2 & Hh2)
      by (unfold st2; by destruct (kbs_diff st1)).
  assert (gt_buf cfg st2 = gt_vals cfg l) as Hga2
      by (rewrite <- Hga; unfold gt_buf; by rewrite Hq2, Hg2).
  pose proof (fold_left_seq_inv
                (pairs_body cfg (select_cmp (qry_use_GT cfg) (gt_use_GT cfg))
                            hwe ps (block_len (qry_use_GT cfg)) (ngt1_of cfg))
                (fun k x =>
                   qry_arr (fst x) = qry_arr st2
                   /\ gt_arr (fst x) = gt_arr st2
                   /\ ncmp (fst x) = ncmp st2
                   /\ length (ndiff (fst x)) = length (ndiff st2)
                   /\ length (ncnt (fst x)) = length (ncnt st2)
                   /\ length (hwe_prob (fst x)) = length (hwe_prob st2)
                   /\ (forall p : nat,
                          (k <= p)%nat -> accum (fst x) p = accum st2 p)
                   /\ (forall p : nat,
                          (p < k)%nat ->
                          accum (fst x) p
                          = accum_step (calc_hwe_prob cfg)
                              (let aptr :=
                                 at_off (qry_arr st2)
                                        (iqry (ps !!! p)
                                         * block_len (qry_use_GT cfg)) in
                               hwe !!! Z.to_nat
                                 (dsg_a (select_cmp (qry_use_GT cfg)
                                                    (gt_use_GT cfg)) aptr
                                    (VAL_a (select_cmp (qry_use_GT cfg)
                                                       (gt_use_GT cfg)) aptr)))
                              (compare (select_cmp (qry_use_GT cfg)
                                                   (gt_use_GT cfg))
                                       (hom_only cfg)
                                       (at_off (qry_arr st2)
                                               (iqry (ps !!! p)
                                                * block_len (qry_use_GT cfg)))
                                       (at_off (gt_buf cfg st2)
                                               (igt (ps !!! p) * ngt1_of cfg)))
                              (accum st2 p)))
                (npairs cfg) 0 (st2, 0)) as Hfold.
  cbn beta in Hfold.
  destruct Hfold as (_ & _ & Hc & Hl1 & Hl2 & Hl3 & Hge & Hdone).
  { repeat (split; [done |]). intros p Hp. lia. }
  { intros k x Hk Hx.
    apply (pairs_body_effect cfg _ hwe ps _ _ st2 x k); try done.
    - rewrite Hd2, Hn1, Ha1. lia.
    - rewrite Ht2, Hn2, Ha2. lia.
    - intros H. rewrite Hh2, Hn3, (Ha3 H). lia. }
  destruct (fold_left _ _ _) as [st3 nd] eqn:Hres. cbn [fst] in *.
  assert (forall p : nat, accum st2 p = accum st p) as Hacc2
      by (intros p; rewrite <- Hacc1; unfold accum; by rewrite Hd2, Ht2, Hh2).
  assert (forall st4 : state,
             ndiff st4 = ndiff st3 -> ncnt st4 = ncnt st3 ->
             hwe_prob st4 = hwe_prob st3 -> ncmp st4 = ncmp st3 ->
             (forall p : nat,
                 (p < length ps)%nat ->
                 accum st4 p
                 = accum_step (calc_hwe_prob cfg)
                     (match_score cfg l (iqry (ps !!! p)
                                         * block_len (qry_use_GT cfg)))
                     (pair_outcome cfg ps l p) (accum st p))
             /\ (forall p : nat,
                    (length ps <= p)%nat -> accum st4 p = accum st p)
             /\ ncmp st4 = incr32 (ncmp st)
             /\ allocated cfg st4) as Hany.
  { intros st4 E1 E2 E3 E4.
    assert (forall p : nat, accum st4 p = accum st3 p) as Hacc4
        by (intros p; unfold accum; by rewrite E1, E2, E3).
    split.
    - intros p Hp. rewrite Hacc4, Hdone by lia.
      rewrite Hacc2, Hq2, Hqa, Hga2. unfold pair_outcome.
      destruct (calc_hwe_prob cfg) eqn:Hcalc.
      + unfold match_score, line_scores. rewrite Hac. reflexivity.
      + apply accum_step_no_score.
    - split.
      + intros p Hp. rewrite Hacc4, Hge by lia. apply Hacc2.
      + split; [by rewrite E4, Hc, Hc2 |].
        unfold allocated.
        rewrite E1, E2, E3, Hl1, Hl2, Hl3, Hd2, Ht2, Hh2, Hn1, Hn2, Hn3.
        done. }
  destruct (nd =? 0); by apply Hany.
Qed.

(** A site with diploid data and a list of explicit pairs. The accumulators
    of the pair [p] make the step of its outcome on the values of the line:
    nothing when a side has no data or the filter drops the pair, one more
    compared site for a match (with the HWE score of the query dosage when
    scores are kept), one more compared and one more differing site for a
    mismatch. The site is counted in [ncmp]. *)
Theorem pairs_line_effect (cfg : config) (ps : list pair_t) (st st' : state)
    (l : line_t) :
  pairs cfg = Some ps ->
  allocated cfg st ->
  diploid_line cfg l = true ->
  process_line cfg st l = Done st' ->
  (forall p : nat,
      (p < length ps)%nat ->
      accum st' p
      = accum_step (calc_hwe_prob cfg)
                   (match_score cfg l (iqry (ps !!! p)
                                       * block_len (qry_use_GT cfg)))
                   (pair_outcome cfg ps l p) (accum st p))
  /\ (forall p : nat, (length ps <= p)%nat -> accum st' p = accum st p)
  /\ ncmp st' = incr32 (ncmp st)
  /\ allocated cfg st'.
Proof. apply pairs_line_step. Qed.

Lemma pairs_line_effect_witness :
  let ps := [ {| iqry := 0; igt := 1 |}; {| iqry := 0; igt := 0 |} ]%nat in
  pairs cfg_pairs2 = Some ps
  /\ allocated cfg_pairs2 (init_state cfg_pairs2)
  /\ diploid_line cfg_pairs2 mismatch_line = true
  /\ process_line cfg_pairs2 (init_state cfg_pairs2) mismatch_line
     = Done pairs2_state
  /\ pair_outcome cfg_pairs2 ps mismatch_line 0 = Mismatch
  /\ pair_outcome cfg_pairs2 ps mismatch_line 1 = Match
  /\ (forall p : nat,
         (p < length ps)%nat ->
         accum pairs2_state p
         = accum_step (calc_hwe_prob cfg_pairs2)
                      (match_score cfg_pairs2 mismatch_line
                         (iqry (ps !!! p) * block_len (qry_use_GT cfg_pairs2)))
                      (pair_outcome cfg_pairs2 ps mismatch_line p)
                      (accum (init_state cfg_pairs2) p)).
Proof.
  cbv zeta.
  split; [reflexivity |].
  split; [split; [reflexivity | split; [reflexivity | discriminate]] |].
  split; [reflexivity |]. split; [reflexivity |].
  split; [reflexivity |]. split; [reflexivity |].
  apply (pairs_line_effect cfg_pairs2 _ (init_state cfg_pairs2)
                           pairs2_state mismatch_line).
  - reflexivity.
  - split; [reflexivity | split; [reflexivity | discriminate]].
  - reflexivity.
  - reflexivity.
Defined.

(** ** The numbers of a whole run *)

Lemma process_line_passes (cfg : config) (st st' : state) (l : line_t) :
  diploid_line cfg l = false ->
  process_line cfg st l = Done st' ->
  ndiff st' = ndiff st /\ ncnt st' = ncnt st /\ hwe_prob st' = hwe_prob st
  /\ ncmp st' = ncmp st.
Proof.
  unfold diploid_line, process_line. fold (qry_fmt cfg l) (gt_fmt cfg l).
  destruct (diploid (qry_use_GT cfg) _ (qry_fmt cfg l)); cbn [negb andb].
  2: { intros _ [= <-]. done. }
  intros Hd. apply negb_false_iff in Hd. rewrite Hd.
  intros [= <-]. by destruct (two_files cfg).
Qed.

(** The accumulators of one pair along the stream, from what one compared
    line does to them. *)
Lemma main_loop_run (cfg : config) (p : nat) (out : line_t -> outcome)
    (score : line_t -> R) :
  dry_run cfg = false ->
  (forall (st st' : state) (l : line_t),
      allocated cfg st -> diploid_line cfg l = true ->
      process_line cfg st l = Done st' ->
      accum st' p
      = accum_step (calc_hwe_prob cfg) (score l) (out l) (accum st p)
      /\ allocated cfg st') ->
  forall (ls : list line_t) (st st' : state),
    allocated cfg st -> main_loop cfg st ls = Done st' ->
    accum st' p = run_accum cfg out score ls (accum st p)
    /\ allocated cfg st'.
Proof.
  intros Hdry Hline. unfold run_accum.
  induction ls as [| l ls IH]; intros st st' Hal; cbn [main_loop fold_left].
  { intros [= <-]. done. }
  unfold stream_outcome at 2, compared_line.
  destruct (two_files cfg && negb (sr_ret l =? 2)) eqn:Hret; cbn [negb andb].
  { by apply IH. }
  destruct (process_line cfg st l) as [st1 |] eqn:Hpl; [| done].
  rewrite Hdry, andb_false_r.
  destruct (diploid_line cfg l) eqn:Hd.
  - destruct (Hline st st1 l Hal Hd Hpl) as [Hacc Hal1].
    rewrite <- Hacc. by apply IH.
  - destruct (process_line_passes cfg st st1 l Hd Hpl) as (E1 & E2 & E3 & _).
    cbn [accum_step].
    assert (accum st1 p = accum st p) as <-
        by (unfold accum; by rewrite E1, E2, E3).
    apply IH. unfold allocated. by rewrite E1, E2, E3.
Qed.

Lemma count_lines_cons (cfg : config) (out : line_t -> outcome)
    (f : outcome -> bool) (l : line_t) (ls : list line_t) :
  count_lines cfg out f (l :: ls)
  = (if f (stream_outcome cfg out l) then 1 else 0) + count_lines cfg out f ls.
Proof.
  unfold count_lines. cbn [List.filter].
  destruct (f _); cbn [length]; lia.
Qed.

Lemma count_lines_bounds (cfg : config) (out : line_t -> outcome)
    (f : outcome -> bool) (ls : list line_t) :
  0 <= count_lines cfg out f ls <= Z.of_nat (length ls).
Proof.
  unfold count_lines. pose proof (List.filter_length_le
    (fun l => f (stream_outcome cfg out l)) ls). lia.
Qed.

(** The counters hold the numbers of lines modulo [2^32], and the score
    the sum over the matching lines. *)
Lemma run_accum_counts (cfg : config) (out : line_t -> outcome)
    (score : line_t -> R) (ls : list line_t) :
  forall (d c : Z) (h : R),
    run_accum cfg out score ls (d mod 2 ^ 32, c mod 2 ^ 32, h)
    = ((d + count_lines cfg out is_mismatch ls) mod 2 ^ 32,
       (c + count_lines cfg out has_data ls) mod 2 ^ 32,
       if calc_hwe_prob cfg
       then fold_left (fun (s : R) (l : line_t) =>
                         if is_match (stream_outcome cfg out l)
                         then (s + score l)%R else s) ls h
       else h).
Proof.
  unfold run_accum.
  induction ls as [| l ls IH]; intros d c h; cbn [fold_left].
  { unfold count_lines. cbn. rewrite !Z.add_0_r.
    by destruct (calc_hwe_prob cfg). }
  rewrite !count_lines_cons.
  destruct (stream_outcome cfg out l);
    cbn [accum_step fst snd is_mismatch has_data is_match].
  - rewrite IH. by rewrite !Z.add_0_l.
  - unfold incr32. rewrite !Zplus_mod_idemp_l, IH.
    by rewrite !Z.add_assoc.
  - unfold incr32. rewrite !Zplus_mod_idemp_l, IH.
    rewrite Z.add_0_l, !Z.add_assoc.
    by destruct (calc_hwe_prob cfg).
Qed.

Lemma allocated_init (cfg : config) : allocated cfg (init_state cfg).
Proof.
  unfold allocated, init_state. cbn.
  rewrite !length_replicate. split; [done |]. split; [done |].
  intros ->. by rewrite length_replicate.
Qed.

Lemma accum_init (cfg : config) (p : nat) :
  (p < npairs cfg)%nat -> accum (init_state cfg) p = (0 mod 2 ^ 32, 0 mod 2 ^ 32, 0%R).
Proof.
  intros Hp. unfold accum, init_state. cbn [ndiff ncnt hwe_prob].
  rewrite !lookup_total_replicate_2 by done.
  destruct (calc_hwe_prob cfg).
  - by rewrite lookup_total_replicate_2.
  - by rewrite lookup_total_nil.
Qed.

(** The accumulators of a pair after a run from the zeroed arrays. *)
Lemma run_from_init (cfg : config) (p : nat) (out : line_t -> outcome)
    (score : line_t -> R) (ls : list line_t) (st : state) :
  (p < npairs cfg)%nat ->
  accum st p = run_accum cfg out score ls (accum (init_state cfg) p) ->
  ndiff st !!! p = count_lines cfg out is_mismatch ls mod 2 ^ 32
  /\ ncnt st !!! p = count_lines cfg out has_data ls mod 2 ^ 32
  /\ (calc_hwe_prob cfg = true ->
      hwe_prob st !!! p = sum_scores cfg out score ls)
  /\ (Z.of_nat (length ls) < 2 ^ 32 ->
      ndiff st !!! p = count_lines cfg out is_mismatch ls
      /\ ncnt st !!! p = count_lines cfg out has_data ls).
Proof.
  intros Hp. rewrite (accum_init cfg p Hp), run_accum_counts.
  rewrite !Z.add_0_l. unfold accum. intros [= E1 E2 E3].
  split; [done |]. split; [done |].
  split; [intros Hc; by rewrite E3, Hc |].
  intros Hlen. rewrite E1, E2.
  pose proof (count_lines_bounds cfg out is_mismatch ls).
  pose proof (count_lines_bounds cfg out has_data ls).
  split; apply Z.mod_small; lia.
Qed.

(** A run with explicit pairs, from the zeroed arrays over the lines [ls]
    (no dry run). For the pair [p], [ndiff[p]] is the number of compared
    lines at which the pair is a mismatch and [ncnt[p]] the number of
    compared lines at which both sides have data and the filter keeps the
    pair, both modulo [2^32] and exact for fewer than [2^32] lines; with
    HWE scores kept, [hwe_prob[p]] is the sum of the scores of the query
    dosage over the lines at which the pair matches. *)
Theorem pairs_run_counts (cfg : config) (ps : list pair_t)
    (ls : list line_t) (st : state) (p : nat) :
  pairs cfg = Some ps -> dry_run cfg = false ->
  main_loop cfg (init_state cfg) ls = Done st ->
  (p < length ps)%nat ->
  let out := fun l : line_t => pair_outcome cfg ps l p in
  let score := fun l : line_t =>
    match_score cfg l (iqry (ps !!! p) * block_len (qry_use_GT cfg)) in
  ndiff st !!! p = count_lines cfg out is_mismatch ls mod 2 ^ 32
  /\ ncnt st !!! p = count_lines cfg out has_data ls mod 2 ^ 32
  /\ (calc_hwe_prob cfg = true ->
      hwe_prob st !!! p = sum_scores cfg out score ls)
  /\ (Z.of_nat (length ls) < 2 ^ 32 ->
      ndiff st !!! p = count_lines cfg out is_mismatch ls
      /\ ncnt st !!! p = count_lines cfg out has_data ls).
Proof.
  intros Hps Hdry Hrun Hp out score.
  assert (npairs cfg = length ps) as Hnp by (unfold npairs; by rewrite Hps).
  apply run_from_init; [lia |].
  apply (main_loop_run cfg p out score Hdry); [| apply allocated_init | done].
  intros st1 st2 l Hal Hd Hpl.
  destruct (pairs_line_step cfg ps st1 st2 l Hps Hal Hd Hpl)
    as (Hin & _ & _ & Hal2).
  split; [by apply Hin | done].
Qed.

Lemma pairs_run_counts_witness :
  let ps := [ {| iqry := 0; igt := 1 |}; {| iqry := 0; igt := 0 |} ]%nat in
  let out := fun l : line_t => pair_outcome cfg_pairs2 ps l 0 in
  pairs cfg_pairs2 = Some ps /\ dry_run cfg_pairs2 = false
  /\ main_loop cfg_pairs2 (init_state cfg_pairs2) three_sites
     = Done three_sites_state
  /\ (0 < length ps)%nat
  /\ count_lines cfg_pairs2 out is_mismatch three_sites = 2
  /\ count_lines cfg_pairs2 out has_data three_sites = 3
  /\ ndiff three_sites_state !!! 0%nat
     = count_lines cfg_pairs2 out is_mismatch three_sites mod 2 ^ 32
  /\ ncnt three_sites_state !!! 0%nat
     = count_lines cfg_pairs2 out has_data three_sites mod 2 ^ 32.
Proof.
  cbv zeta.
  split; [reflexivity |]. split; [reflexivity |]. split; [reflexivity |].
  split; [simpl; lia |]. split; [reflexivity |]. split; [reflexivity |].
  pose proof (pairs_run_counts cfg_pairs2
                [ {| iqry := 0; igt := 1 |}; {| iqry := 0; igt := 0 |} ]%nat
                three_sites three_sites_state 0
                eq_refl eq_refl eq_refl (Nat.lt_0_succ 1)) as H.
  cbv zeta in H. destruct H as (H1 & H2 & _). split; [exact H1 | exact H2].
Defined.

(** A run in a matrix mode, from the zeroed arrays over the lines [ls] (no
    dry run). For the query sample [i] and the genotype sample [j], the
    accumulators at [idx(i,j)] hold the number of compared lines at which
    the two samples are a mismatch and the number at which both have data
    and the filter keeps the pair, both modulo [2^32] and exact for fewer
    than [2^32] lines; with HWE scores kept, the score is the sum over the
    lines at which they match. The marks that one line leaves in the
    buffers never reach the outcome of another pair or another line. *)
Theorem matrix_run_counts (cfg : config) (ls : list line_t) (st : state)
    (i j : nat) :
  pairs cfg = None -> dry_run cfg = false ->
  (two_files cfg = false -> gt_use_GT cfg = qry_use_GT cfg) ->
  main_loop cfg (init_state cfg) ls = Done st ->
  (i < nqry_smpl cfg)%nat -> (j < row_width cfg i)%nat ->
  let out := fun l : line_t => matrix_outcome cfg l i j in
  let score := fun l : line_t =>
    match_score cfg l (smpl (qry_smpl cfg) i * block_len (qry_use_GT cfg)) in
  let p := matrix_index cfg i j in
  ndiff st !!! p = count_lines cfg out is_mismatch ls mod 2 ^ 32
  /\ ncnt st !!! p = count_lines cfg out has_data ls mod 2 ^ 32
  /\ (calc_hwe_prob cfg = true ->
      hwe_prob st !!! p = sum_scores cfg out score ls)
  /\ (Z.of_nat (length ls) < 2 ^ 32 ->
      ndiff st !!! p = count_lines cfg out is_mismatch ls
      /\ ncnt st !!! p = count_lines cfg out has_data ls).
Proof.
  intros Hps Hdry Htag Hrun Hi Hj out score p.
  pose proof (row_base_le_npairs cfg Hps) as Hnp.
  pose proof (matrix_index_lt cfg (nqry_smpl cfg) i j Hi Hj) as Hlt.
  apply run_from_init; [unfold p; lia |].
  apply (main_loop_run cfg p out score Hdry); [| apply allocated_init | done].
  intros st1 st2 l Hal Hd Hpl.
  destruct (matrix_line_step cfg st1 st2 l Hps Htag Hal Hd Hpl)
    as (Hin & _ & _ & Hal2).
  split; [by apply Hin | done].
Qed.

Lemma matrix_run_counts_witness :
  let out := fun l : line_t => matrix_outcome cfg_cross2 l 1 0 in
  pairs cfg_cross2 = None /\ dry_run cfg_cross2 = false
  /\ main_loop cfg_cross2 (init_state cfg_cross2) two_sites
     = Done two_sites_state
  /\ (1 < nqry_smpl cfg_cross2)%nat /\ (0 < row_width cfg_cross2 1)%nat
  /\ matrix_index cfg_cross2 1 0 = 0%nat
  /\ count_lines cfg_cross2 out is_mismatch two_sites = 1
  /\ count_lines cfg_cross2 out has_data two_sites = 2
  /\ ndiff two_sites_state !!! matrix_index cfg_cross2 1 0
     = count_lines cfg_cross2 out is_mismatch two_sites mod 2 ^ 32
  /\ ncnt two_sites_state !!! matrix_index cfg_cross2 1 0
     = count_lines cfg_cross2 out has_data two_sites mod 2 ^ 32.
Proof.
  cbv zeta.
  split; [reflexivity |]. split; [reflexivity |]. split; [reflexivity |].
  split; [exact (Nat.lt_succ_diag_r 1) |].
  split; [exact (Nat.lt_0_succ 0) |].
  split; [reflexivity |]. split; [reflexivity |]. split; [reflexivity |].
  pose proof (matrix_run_counts cfg_cross2 two_sites two_sites_state 1 0
                eq_refl eq_refl (fun _ => eq_refl) eq_refl
                (Nat.lt_succ_diag_r 1) (Nat.lt_0_succ 0)) as H.
  cbv zeta in H. destruct H as (H1 & H2 & _). split; [exact H1 | exact H2].
Defined.

(** ** The dry run *)

Lemma process_line_not_diploid (cfg : config) (st : state) (l : line_t) :
  diploid_line cfg l = false ->
  exists st' : state,
    process_line cfg st l = Done st' /\ ncmp st' = ncmp st.
Proof.
  unfold diploid_line, process_line. fold (qry_fmt cfg l) (gt_fmt cfg l).
  destruct (diploid (qry_use_GT cfg) _ (qry_fmt cfg l)); cbn [negb andb].
  2: { intros _. eexists. split; [reflexivity | done]. }
  intros Hd. apply negb_false_iff in Hd. rewrite Hd.
  eexists. split; [reflexivity |]. by destruct (two_files cfg).
Qed.

Lemma inner_body_ncmp (cfg : config) (c : comparator) (hwe : list R)
    (iqry nqry1 ngt1 : nat) (aval qry_dsg : Z) (acc : state * nat) (j : nat) :
  ncmp (fst (inner_body cfg c hwe iqry nqry1 ngt1 aval qry_dsg acc j))
  = ncmp (fst acc).
Proof.
  destruct acc as [st idx]. unfold inner_body.
  destruct (HAS_b c _); cbn [negb fst].
  2: { unfold set_gt_buf. by destruct (two_files cfg). }
  destruct (hom_only cfg && _); [done |]. cbn [fst].
  destruct (differ _ _ _ _ _); try destruct (calc_hwe_prob cfg); done.
Qed.

Lemma matrix_loop_ncmp (cfg : config) (c : comparator) (hwe : list R)
    (nqry1 ngt1 : nat) (st : state) :
  ncmp (matrix_loop cfg c hwe nqry1 ngt1 st) = ncmp st.
Proof.
  unfold matrix_loop.
  apply (fold_left_seq_inv (outer_body cfg c hwe nqry1 ngt1)
           (fun _ x => ncmp (fst x) = ncmp st) (nqry_smpl cfg) 0 (st, 0%nat));
    [done |].
  intros k [s ix] _ Hs. cbn [fst] in *. rewrite <- Hs.
  unfold outer_body. destruct (HAS_a _ _); cbn [negb fst]; [| done].
  apply (fold_left_seq_inv (inner_body cfg c hwe _ _ _ _ _)
           (fun _ x => ncmp (fst x) = ncmp s)
           (if cross_check cfg then k else ngt_smpl cfg) 0 (s, ix)); [done |].
  intros k' x _ Hx. by rewrite inner_body_ncmp.
Qed.

Lemma pairs_loop_ncmp (cfg : config) (c : comparator) (hwe : list R)
    (ps : list pair_t) (nqry1 ngt1 : nat) (rid pos : Z) (st : state) :
  ncmp (pairs_loop cfg c hwe ps nqry1 ngt1 rid pos st) = ncmp st.
Proof.
  unfold pairs_loop.
  set (st2 := match kbs_diff st with
              | Some _ => diff_sites_reset st
              | None => st
              end).
  assert (ncmp st2 = ncmp st) as <- by (unfold st2; by destruct (kbs_diff st)).
  pose proof (fold_left_seq_inv (pairs_body cfg c hwe ps nqry1 ngt1)
                (fun _ x => ncmp (fst x) = ncmp st2)
                (npairs cfg) 0 (st2, 0)) as H.
  destruct (fold_left _ _ _) as [st3 nd]. cbn [fst] in H.
  assert (ncmp st3 = ncmp st2) as <-.
  { apply H; [done |]. intros k [s n] _ Hs.
    destruct (pairs_body_buffers cfg c hwe ps nqry1 ngt1 s n k)
      as (_ & _ & E). cbn [fst] in *. by rewrite E. }
  by destruct (nd =? 0).
Qed.

(** A line with diploid data is counted in [ncmp], whatever the mode. *)
Lemma process_line_ncmp (cfg : config) (st st' : state) (l : line_t) :
  diploid_line cfg l = true ->
  process_line cfg st l = Done st' -> ncmp st' = incr32 (ncmp st).
Proof.
  intros Hdl. unfold diploid_line in Hdl.
  apply andb_true_iff in Hdl as [Hdq Hdg]. apply negb_true_iff in Hdg.
  unfold process_line. fold (qry_fmt cfg l) (gt_fmt cfg l).
  rewrite Hdq, Hdg. cbn [negb].
  destruct (if calc_hwe_prob cfg then _ else _) as [ac |]; [| done].
  destruct (pairs cfg) as [ps |]; intros [= <-].
  - rewrite pairs_loop_ncmp. by destruct (two_files cfg).
  - rewrite matrix_loop_ncmp. by destruct (two_files cfg).
Qed.

Lemma dry_run_prefix (cfg : config) (l : line_t) (l2 : list line_t) :
  dry_run cfg = true -> compared_line cfg l = true ->
  forall (l1 : list line_t) (st : state),
    ncmp st = 0 ->
    Forall (fun x => compared_line cfg x = false) l1 ->
    main_loop cfg st (l1 ++ l :: l2) = main_loop cfg st (l1 ++ [l])
    /\ (forall st' : state,
           main_loop cfg st (l1 ++ l :: l2) = Done st' -> ncmp st' = 1).
Proof.
  intros Hdry Hl. unfold compared_line in Hl.
  apply andb_true_iff in Hl as [Hret Hd]. apply negb_true_iff in Hret.
  induction l1 as [| x l1 IH]; intros st Hn Hall.
  - cbn [app main_loop]. rewrite Hret.
    destruct (process_line cfg st l) as [st1 |] eqn:Hpl; [| done].
    rewrite (process_line_ncmp cfg st st1 l Hd Hpl), Hn, Hdry.
    split; [done |]. intros st' [= <-].
    by rewrite (process_line_ncmp cfg st st1 l Hd Hpl), Hn.
  - inversion Hall as [| ? ? Hx Hall']; subst.
    cbn [app main_loop].
    destruct (two_files cfg && negb (sr_ret x =? 2)) eqn:Hrx.
    { by apply IH. }
    unfold compared_line in Hx. rewrite Hrx in Hx. cbn [negb andb] in Hx.
    destruct (process_line_not_diploid cfg st x Hx) as (st1 & -> & Hn1).
    rewrite Hn1, Hn. cbn [Z.eqb andb].
    apply IH; [by rewrite Hn1 | done].
Qed.

(** With [--dry-run] the reading loop stops at the first line that is
    compared: the lines after it are never looked at, whatever they hold,
    and the run ends with [ncmp = 1]. Lines before it that are passed over
    (not in both files, or without diploid data) do not stop the loop. *)
Theorem dry_run_stops_after_first_site (cfg : config) (st : state)
    (l1 : list line_t) (l : line_t) (l2 : list line_t) :
  dry_run cfg = true -> ncmp st = 0 ->
  Forall (fun x => compared_line cfg x = false) l1 ->
  compared_line cfg l = true ->
  main_loop cfg st (l1 ++ l :: l2) = main_loop cfg st (l1 ++ [l])
  /\ (forall st' : state,
         main_loop cfg st (l1 ++ l :: l2) = Done st' -> ncmp st' = 1).
Proof.
  intros Hdry Hn Hall Hl. by apply dry_run_prefix.
Qed.

Lemma dry_run_stops_after_first_site_witness :
  dry_run cfg_dry = true /\ ncmp (init_state cfg_dry) = 0
  /\ Forall (fun x => compared_line cfg_dry x = false) [triploid_line]
  /\ compared_line cfg_dry mismatch_line = true
  /\ main_loop cfg_dry (init_state cfg_dry)
               ([triploid_line] ++ mismatch_line :: [match_line; mismatch_line])
     = main_loop cfg_dry (init_state cfg_dry)
                 ([triploid_line] ++ [mismatch_line]).
Proof.
  split; [reflexivity |]. split; [reflexivity |].
  split; [constructor; [reflexivity | constructor] |].
  split; [reflexivity |].
  apply (dry_run_stops_after_first_site cfg_dry (init_state cfg_dry)
           [triploid_line] mismatch_line [match_line; mismatch_line]).
  - reflexivity.
  - reflexivity.
  - constructor; [reflexivity | constructor].
  - reflexivity.
Defined.

(** ** The lines of the DC section *)

Lemma report_inner_lines (dc : nat -> nat -> dc_line) (m : nat) :
  forall (b : nat) (out : list dc_line),
    fold_left (fun (acc : nat * list dc_line) (j : nat) =>
                 (S (fst acc), snd acc ++ [dc j (fst acc)]))
              (seq 0 m) (b, out)
    = ((b + m)%nat, out ++ map (fun j => dc j (b + j)%nat) (seq 0 m)).
Proof.
  induction m as [| m IH]; intros b out.
  - cbn. by rewrite Nat.add_0_r, app_nil_r.
  - rewrite seq_S, fold_left_app, IH. cbn [fold_left fst snd].
    rewrite map_app, app_assoc. cbn [map Nat.add]. f_equal. lia.
Qed.

Lemma report_outer_lines (cfg : config) (st : state) (n : nat) :
  fold_left
    (fun (acc : nat * list dc_line) (i : nat) =>
       fold_left
         (fun (acc : nat * list dc_line) (j : nat) =>
            (S (fst acc),
             snd acc ++ [dc_of cfg st (smpl (qry_smpl cfg) i)
                               (smpl (gt_smpl cfg) j) (fst acc)]))
         (seq 0 (if cross_check cfg then i else ngt_smpl cfg)) acc)
    (seq 0 n) (0%nat, [])
  = (row_base cfg n,
     flat_map (fun i =>
                 map (fun j => dc_of cfg st (smpl (qry_smpl cfg) i)
                                     (smpl (gt_smpl cfg) j)
                                     (matrix_index cfg i j))
                     (seq 0 (row_width cfg i)))
              (seq 0 n)).
Proof.
  induction n as [| n IH].
  - cbn. unfold row_base, tri_base. by destruct (cross_check cfg).
  - rewrite seq_S, fold_left_app, IH. cbn [fold_left Nat.add].
    rewrite (report_inner_lines
               (fun j k => dc_of cfg st (smpl (qry_smpl cfg) n)
                                 (smpl (gt_smpl cfg) j) k)).
    rewrite flat_map_app. cbn [flat_map]. rewrite app_nil_r.
    fold (row_width cfg n). by rewrite row_base_succ.
Qed.

Lemma matrix_lines_length (cfg : config) (st : state) (n : nat) :
  length (flat_map (fun i =>
                      map (fun j => dc_of cfg st (smpl (qry_smpl cfg) i)
                                          (smpl (gt_smpl cfg) j)
                                          (matrix_index cfg i j))
                          (seq 0 (row_width cfg i)))
                   (seq 0 n))
  = row_base cfg n.
Proof.
  induction n as [| n IH].
  - cbn. unfold row_base, tri_base. by destruct (cross_check cfg).
  - rewrite seq_S, flat_map_app, length_app, IH. cbn [flat_map Nat.add].
    by rewrite app_nil_r, length_map, length_seq, row_base_succ.
Qed.

(** When all matches are printed (no [--n-matches], or one that covers
    every genotype sample), the report walks the matrix as [process_line]
    does: the line of the query sample [i] and the genotype sample [j]
    shows the accumulators at the index at which that pair was counted,
    and there is one line for each pair, [nqry_smpl*ngt_smpl] of them, or
    [n(n-1)/2] in a cross-check. The sort function is not called. *)
Theorem report_untrimmed (qsort_idbl : list idbl_t -> list idbl_t)
    (cfg : config) (st : state) :
  pairs cfg = None -> trim cfg = 0%nat ->
  report qsort_idbl cfg st = Some (matrix_lines cfg st)
  /\ length (matrix_lines cfg st) = row_base cfg (nqry_smpl cfg).
Proof.
  intros Hp Ht. unfold report. rewrite Hp, Ht. cbn [Nat.eqb].
  unfold report_all, matrix_lines. rewrite report_outer_lines. cbn [snd].
  split; [done | apply matrix_lines_length].
Qed.

Lemma report_untrimmed_witness :
  pairs cfg_cross3 = None /\ trim cfg_cross3 = 0%nat
  /\ report (fun l => l) cfg_cross3 half_call_state
     = Some (matrix_lines cfg_cross3 half_call_state)
  /\ map (fun ln => (DC_qry ln, DC_gt ln, DC_ndiff ln, DC_ncnt ln))
         (matrix_lines cfg_cross3 half_call_state)
     = [ (1%nat, 0%nat, 0, 0); (2%nat, 0%nat, 0, 0); (2%nat, 1%nat, 1, 1) ].
Proof.
  split; [reflexivity |]. split; [reflexivity |].
  split; [| reflexivity].
  apply (report_untrimmed (fun l => l) cfg_cross3 half_call_state);
    reflexivity.
Defined.

(** ** The candidates of the top matches *)

Lemma mapM_ext_Some {A B : Type} (f : A -> option B) (g : A -> B)
    (l : list A) :
  (forall x : A, In x l -> f x = Some (g x)) -> mapM f l = Some (map g l).
Proof.
  induction l as [| x l IH]; intros Hf; [done |].
  cbn [mapM map]. rewrite (Hf x (or_introl eq_refl)). cbn.
  rewrite IH; [done |]. intros y Hy. apply Hf. by right.
Qed.

Lemma mapM_head_None {A B : Type} (f : A -> option B) (x : A) (l : list A) :
  f x = None -> mapM f (x :: l) = None.
Proof. intros Hx. cbn [mapM]. by rewrite Hx. Qed.

(** Where the arrays are there to be read, there is a key. *)
Lemma sort_key_defined (cfg : config) (st : state) (k : nat) :
  allocated cfg st ->
  (sort_by_hwe cfg = true -> calc_hwe_prob cfg = true) ->
  (k < npairs cfg)%nat ->
  exists v : R, sort_key cfg st (Z.of_nat k) = Some v.
Proof.
  intros (Hd & Hc & Hh) Hhwe Hk. unfold sort_key.
  destruct (sort_by_hwe cfg).
  - destruct (read_in_bounds (hwe_prob st) (Z.of_nat k)) as [h ->];
      [rewrite Hh by (by apply Hhwe); lia |].
    by eexists.
  - destruct (read_in_bounds (ncnt st) (Z.of_nat k)) as [c ->];
      [rewrite Hc; lia |].
    destruct (read_in_bounds (ndiff st) (Z.of_nat k)) as [d ->];
      [rewrite Hd; lia |].
    destruct (Z.eqb_spec c 0) as [| Hne]; [by eexists |].
    unfold ratio. destruct (Z.eqb_spec c 0); [done |]. by eexists.
Qed.

Lemma candidate_at (cfg : config) (st : state) (m k : nat) :
  allocated cfg st ->
  (sort_by_hwe cfg = true -> calc_hwe_prob cfg = true) ->
  (k < npairs cfg)%nat ->
  candidate cfg st m (Z.of_nat k)
  = Some {| ism := m; idx := k;
            val := default 0%R (sort_key cfg st (Z.of_nat k)) |}.
Proof.
  intros Hal Hhwe Hk. unfold candidate.
  destruct (sort_key_defined cfg st k Hal Hhwe Hk) as [v ->].
  cbn [default]. by rewrite Nat2Z.id.
Qed.

(** Through the [NULL] array of a run without HWE scores there is no
    key. *)
Lemma candidate_null (cfg : config) (st : state) (m : nat) (k : Z) :
  sort_by_hwe cfg = true -> hwe_prob st = [] -> candidate cfg st m k = None.
Proof.
  intros Hs Hnull. unfold candidate, sort_key. rewrite Hs, Hnull.
  by rewrite read_out_of_bounds by (cbn [length]; lia).
Qed.

(** The rows of candidates in closed form, as long as the indices are in
    the range of [int]. *)
Lemma rect_row_entries (cfg : config) (st : state) (i : nat) :
  cross_check cfg = false -> pairs cfg = None -> allocated cfg st ->
  (sort_by_hwe cfg = true -> calc_hwe_prob cfg = true) ->
  Z.of_nat (ngt_smpl cfg) * Z.of_nat (nqry_smpl cfg) <= INT_MAX ->
  (i < nqry_smpl cfg)%nat ->
  rect_row cfg st i
  = Some (map (fun j =>
                 {| ism := j; idx := (i * ngt_smpl cfg + j)%nat;
                    val := default 0%R
                             (sort_key cfg st
                                (Z.of_nat (i * ngt_smpl cfg + j))) |})
              (seq 0 (ngt_smpl cfg))).
Proof.
  intros Hc Hp Hal Hhwe Hint Hi. unfold rect_row.
  apply mapM_ext_Some. intros j Hj. apply in_seq in Hj.
  assert (i * ngt_smpl cfg + j < npairs cfg)%nat as Hlt
      by (unfold npairs; rewrite Hp, Hc; nia).
  assert (Z.of_nat (npairs cfg) <= INT_MAX) as Hnp
      by (unfold npairs; rewrite Hp, Hc; lia).
  unfold INT_MAX in *.
  rewrite (wrap_int_small (_ * _)) by (unfold INT_MAX; nia).
  rewrite wrap_int_small by (unfold INT_MAX; nia).
  replace (Z.of_nat i * Z.of_nat (ngt_smpl cfg) + Z.of_nat j)
    with (Z.of_nat (i * ngt_smpl cfg + j)) by lia.
  by apply candidate_at.
Qed.

Lemma cross_row_entries (cfg : config) (st : state) (i : nat) :
  cross_check cfg = true -> pairs cfg = None -> allocated cfg st ->
  (sort_by_hwe cfg = true -> calc_hwe_prob cfg = true) ->
  Z.of_nat (nqry_smpl cfg) * (Z.of_nat (nqry_smpl cfg) + 1) <= INT_MAX ->
  (i < nqry_smpl cfg)%nat ->
  cross_row cfg st i
  = Some (map (fun j =>
                 {| ism := j; idx := tri_index i j;
                    val := default 0%R
                             (sort_key cfg st (Z.of_nat (tri_index i j))) |})
              (seq 0 i)
          ++ map (fun j =>
                    {| ism := (j + 1)%nat; idx := tri_index (S j) i;
                       val := default 0%R
                                (sort_key cfg st
                                   (Z.of_nat (tri_index (S j) i))) |})
                 (seq i (nqry_smpl cfg - 1 - i))).
Proof.
  intros Hc Hp Hal Hhwe Hint Hi. unfold cross_row.
  pose proof (npairs_cross cfg Hc Hp) as Hnp.
  assert (Z.of_nat (npairs cfg) <= INT_MAX) as Hmax.
  { unfold npairs. rewrite Hp, Hc, Nat2Z.inj_div, Nat2Z.inj_mul,
      Nat2Z.inj_add.
    change (Z.of_nat 1) with 1. change (Z.of_nat 2) with 2.
    unfold INT_MAX in *. apply Z.div_le_upper_bound; nia. }
  assert (forall k : nat,
             (k <= nqry_smpl cfg)%nat ->
             Z.of_nat k * (Z.of_nat k + 1) <= INT_MAX) as Hbound.
  { intros k Hk. assert (Z.of_nat k <= Z.of_nat (nqry_smpl cfg)) by lia.
    unfold INT_MAX in *. nia. }
  rewrite (mapM_ext_Some _
             (fun j => {| ism := j; idx := tri_index i j;
                          val := default 0%R
                                   (sort_key cfg st
                                      (Z.of_nat (tri_index i j))) |})
             (seq 0 i)).
  2: { intros j Hj. apply in_seq in Hj.
       pose proof (tri_index_lt (nqry_smpl cfg) i j ltac:(lia)) as Hlt.
       pose proof Hlt as Hlt'. unfold tri_index in Hlt'.
       rewrite half_int_tri_base by (apply Hbound; lia).
       rewrite wrap_int_small by (unfold INT_MAX in *; lia).
       replace (Z.of_nat (tri_base i) + Z.of_nat j)
         with (Z.of_nat (tri_index i j)) by (unfold tri_index; lia).
       apply candidate_at; [done | done | lia]. }
  cbn.
  rewrite (mapM_ext_Some _
             (fun j => {| ism := (j + 1)%nat; idx := tri_index (S j) i;
                          val := default 0%R
                                   (sort_key cfg st
                                      (Z.of_nat (tri_index (S j) i))) |})
             (seq i (nqry_smpl cfg - 1 - i))).
  2: { intros j Hj. apply in_seq in Hj.
       pose proof (tri_index_lt (nqry_smpl cfg) (S j) i ltac:(lia)) as Hlt.
       pose proof Hlt as Hlt'. unfold tri_index in Hlt'.
       rewrite half_int_tri_base_succ by (apply Hbound; lia).
       rewrite wrap_int_small by (unfold INT_MAX in *; lia).
       replace (Z.of_nat (tri_base (S j)) + Z.of_nat i)
         with (Z.of_nat (tri_index (S j) i)) by (unfold tri_index; lia).
       apply candidate_at; [done | done | lia]. }
  done.
Qed.

Lemma In_take {A : Type} (x : A) (n : nat) (l : list A) :
  In x (take n l) -> In x l.
Proof.
  revert n. induction l as [| y l IH]; intros [| n]; cbn; try done.
  intros [-> | H]; [by left | right; by apply (IH n)].
Qed.

(** What the closed form of a row of a cross-check says of its entries. *)
Lemma cross_row_shape (cfg : config) (st : state) (i : nat)
    (row : list idbl_t) :
  cross_check cfg = true -> pairs cfg = None -> allocated cfg st ->
  (sort_by_hwe cfg = true -> calc_hwe_prob cfg = true) ->
  Z.of_nat (nqry_smpl cfg) * (Z.of_nat (nqry_smpl cfg) + 1) <= INT_MAX ->
  (i < nqry_smpl cfg)%nat ->
  cross_row cfg st i = Some row ->
  map ism row = seq 0 i ++ seq (S i) (nqry_smpl cfg - 1 - i)
  /\ length row = (nqry_smpl cfg - 1)%nat
  /\ Forall (fun e =>
               idx e = tri_index (Nat.max i (ism e)) (Nat.min i (ism e))
               /\ sort_key cfg st (Z.of_nat (idx e)) = Some (val e)
               /\ ism e <> i /\ (ism e < nqry_smpl cfg)%nat)
            row.
Proof.
  intros Hc Hp Hal Hhwe Hint Hi Hrow.
  pose proof (row_keys cfg st i row (or_intror Hrow)) as Hkeys.
  rewrite (cross_row_entries cfg st i Hc Hp Hal Hhwe Hint Hi) in Hrow.
  injection Hrow as <-.
  assert (map ism
            (map (fun j =>
                    {| ism := j; idx := tri_index i j;
                       val := default 0%R
                                (sort_key cfg st
                                   (Z.of_nat (tri_index i j))) |})
                 (seq 0 i)
             ++ map (fun j =>
                       {| ism := (j + 1)%nat; idx := tri_index (S j) i;
                          val := default 0%R
                                   (sort_key cfg st
                                      (Z.of_nat (tri_index (S j) i))) |})
                    (seq i (nqry_smpl cfg - 1 - i)))
          = seq 0 i ++ seq (S i) (nqry_smpl cfg - 1 - i)) as Hism.
  { rewrite map_app, !map_map. cbn [ism]. f_equal.
    - apply map_id.
    - rewrite <- seq_shift. apply map_ext. intros j. lia. }
  split; [done |]. split.
  { rewrite <- (length_map ism), Hism, length_app, !length_seq. lia. }
  rewrite List.Forall_forall in Hkeys. apply List.Forall_forall.
  intros e He. split; [| split; [by apply Hkeys |]].
  - apply in_app_iff in He. rewrite !in_map_iff in He.
    destruct He as [(j & <- & Hj) | (j & <- & Hj)]; apply in_seq in Hj;
      cbn [ism idx].
    + by rewrite Nat.max_l, Nat.min_r by lia.
    + rewrite Nat.max_r, Nat.min_l by lia. f_equal. lia.
  - assert (In (ism e) (seq 0 i ++ seq (S i) (nqry_smpl cfg - 1 - i)))
      as Hin by (rewrite <- Hism; by apply in_map).
    apply in_app_iff in Hin as [Hin | Hin]; apply in_seq in Hin; lia.
Qed.

(** In a trimmed cross-check with the arrays allocated for it (a sort by
    HWE score only with the scores kept) and the number of samples within
    the bound of [int] arithmetic, the row of candidates of the query
    sample [i] is filled: the candidates are the other samples, each once
    and in ascending order, and the candidate for the sample [k] holds
    the index of the unordered pair, with the larger of [i] and [k] as row
    of the triangle and the smaller as column, and the key of the
    accumulators at this index. *)
Theorem cross_check_candidates (cfg : config) (st : state) (i : nat) :
  cross_check cfg = true -> pairs cfg = None -> allocated cfg st ->
  (sort_by_hwe cfg = true -> calc_hwe_prob cfg = true) ->
  Z.of_nat (nqry_smpl cfg) * (Z.of_nat (nqry_smpl cfg) + 1) <= INT_MAX ->
  (i < nqry_smpl cfg)%nat ->
  exists row : list idbl_t,
    cross_row cfg st i = Some row
    /\ map ism row = seq 0 i ++ seq (S i) (nqry_smpl cfg - 1 - i)
    /\ length row = (nqry_smpl cfg - 1)%nat
    /\ Forall (fun e =>
                 idx e = tri_index (Nat.max i (ism e)) (Nat.min i (ism e))
                 /\ sort_key cfg st (Z.of_nat (idx e)) = Some (val e)
                 /\ ism e <> i /\ (ism e < nqry_smpl cfg)%nat)
              row.
Proof.
  intros Hc Hp Hal Hhwe Hint Hi.
  pose proof (cross_row_entries cfg st i Hc Hp Hal Hhwe Hint Hi) as Hrow.
  eexists. split; [exact Hrow |].
  by apply (cross_row_shape cfg st i _ Hc Hp Hal Hhwe Hint Hi).
Qed.

Lemma cross_check_candidates_witness :
  cross_check cfg_cross4 = true /\ pairs cfg_cross4 = None
  /\ allocated cfg_cross4 (init_state cfg_cross4)
  /\ Z.of_nat (nqry_smpl cfg_cross4) * (Z.of_nat (nqry_smpl cfg_cross4) + 1)
     <= INT_MAX
  /\ (2 < nqry_smpl cfg_cross4)%nat
  /\ exists row : list idbl_t,
       cross_row cfg_cross4 (init_state cfg_cross4) 2 = Some row
       /\ map ism row = seq 0 2 ++ seq 3 (nqry_smpl cfg_cross4 - 1 - 2)
       /\ length row = (nqry_smpl cfg_cross4 - 1)%nat
       /\ Forall (fun e =>
                    idx e = tri_index (Nat.max 2 (ism e)) (Nat.min 2 (ism e))
                    /\ sort_key cfg_cross4 (init_state cfg_cross4)
                                (Z.of_nat (idx e)) = Some (val e)
                    /\ ism e <> 2%nat /\ (ism e < nqry_smpl cfg_cross4)%nat)
                 row.
Proof.
  assert (allocated cfg_cross4 (init_state cfg_cross4)) as Hal
      by apply allocated_init.
  assert (Z.of_nat (nqry_smpl cfg_cross4)
          * (Z.of_nat (nqry_smpl cfg_cross4) + 1) <= INT_MAX) as Hint
      by (vm_compute; discriminate).
  assert (2 < nqry_smpl cfg_cross4)%nat as Hi by (simpl; lia).
  split; [reflexivity |]. split; [reflexivity |]. split; [exact Hal |].
  split; [exact Hint |]. split; [exact Hi |].
  exact (cross_check_candidates cfg_cross4 (init_state cfg_cross4) 2
           eq_refl eq_refl Hal (fun H => H) Hint Hi).
Defined.

(** The candidates of sample 2 of four, with the indices they read. *)
Example cross_row_of_four :
  option_map (map (fun e => (ism e, idx e)))
             (cross_row cfg_cross4 (init_state cfg_cross4) 2)
  = Some [ (0, 1); (1, 2); (3, 5) ]%nat.
Proof. reflexivity. Qed.

(** ** The top matches stay inside the array *)

Lemma trim_positive (cfg : config) :
  pairs cfg = None -> trim cfg <> 0%nat -> ngt_smpl cfg <> 0%nat ->
  (ntop cfg < ngt_smpl cfg)%nat.
Proof.
  unfold trim. intros -> Ht Hg.
  destruct (Nat.eqb_spec (ngt_smpl cfg) 0) as [E | _]; [done |].
  cbn [negb andb] in Ht.
  destruct (Nat.leb_spec (ngt_smpl cfg) (ntop cfg)) as [H | H]; [done | lia].
Qed.

Lemma trim_ntop (cfg : config) :
  pairs cfg = None -> trim cfg <> 0%nat -> ntop cfg <> 0%nat.
Proof.
  unfold trim. intros -> Ht.
  destruct ((ngt_smpl cfg =? 0)%nat && (nqry_smpl cfg <=? ntop cfg)%nat);
    destruct (negb (ngt_smpl cfg =? 0)%nat
              && (ngt_smpl cfg <=? ntop cfg)%nat); done.
Qed.

(** A trimmed report sorted by HWE score in a run that keeps no scores:
    the first candidate of the first query sample is read through the
    [NULL] array. *)
Lemma report_null (qsort_idbl : list idbl_t -> list idbl_t) (cfg : config)
    (st : state) :
  pairs cfg = None -> trim cfg <> 0%nat -> ngt_smpl cfg <> 0%nat ->
  (cross_check cfg = true -> ngt_smpl cfg = nqry_smpl cfg) ->
  (1 <= nqry_smpl cfg)%nat ->
  sort_by_hwe cfg = true -> hwe_prob st = [] ->
  report qsort_idbl cfg st = None.
Proof.
  intros Hp Ht Hg Hmode Hn Hs Hnull.
  pose proof (trim_positive cfg Hp Ht Hg) as Hlt.
  pose proof (trim_ntop cfg Hp Ht) as Hntop.
  unfold report. rewrite Hp.
  destruct (Nat.eqb_spec (trim cfg) 0) as [| _]; [done |].
  destruct (nqry_smpl cfg) as [| n] eqn:Hnq; [lia |].
  rewrite <- cons_seq.
  destruct (cross_check cfg) eqn:Hc; cbn [negb].
  - specialize (Hmode eq_refl).
    rewrite mapM_head_None; [done |].
    unfold cross_row. cbn [seq mapM]. cbn.
    rewrite Hnq. replace (S n - 1 - 0)%nat with n by lia.
    destruct n as [| n]; [lia |]. rewrite <- cons_seq.
    rewrite mapM_head_None; [done |]. by apply candidate_null.
  - rewrite mapM_head_None; [done |].
    unfold rect_row. destruct (ngt_smpl cfg) as [| g]; [done |].
    rewrite <- cons_seq. rewrite mapM_head_None; [done |].
    by apply candidate_null.
Qed.

(** When the report is trimmed to the top [ntop] matches, [ntop] is below
    the number of genotype samples. With the arrays allocated for it (a
    sort by HWE score only with the scores kept) and the number of pairs
    within the bound of [int] arithmetic, the row of candidates of each
    query sample is filled and the loop over [arr[0..ntop-1]] stays inside
    it. With two files each query sample gets exactly [ntop] lines. In a
    cross-check the query sample [i] gets at most [ntop] lines, and only
    for samples [j < i] among its [ntop] best candidates, each with the
    accumulators of the pair [(i, j)]: a pair is never printed from the
    side of its smaller sample. A report sorted by HWE score in a run that
    keeps no scores ([--n-matches] negative with [--no-HWE-prob]) reads
    its first key through the [NULL] array and prints no line. *)
Theorem top_matches_in_bounds (qsort_idbl : list idbl_t -> list idbl_t)
    (cfg : config) (st : state) (i : nat) :
  pairs cfg = None -> trim cfg <> 0%nat -> ngt_smpl cfg <> 0%nat ->
  (cross_check cfg = true -> ngt_smpl cfg = nqry_smpl cfg) ->
  allocated cfg st ->
  (if cross_check cfg
   then Z.of_nat (nqry_smpl cfg) * (Z.of_nat (nqry_smpl cfg) + 1)
   else Z.of_nat (ngt_smpl cfg) * Z.of_nat (nqry_smpl cfg)) <= INT_MAX ->
  (i < nqry_smpl cfg)%nat ->
  (ntop cfg < ngt_smpl cfg)%nat
  /\ ((sort_by_hwe cfg = true -> calc_hwe_prob cfg = true) ->
      (cross_check cfg = false ->
       exists row : list idbl_t,
         rect_row cfg st i = Some row
         /\ (ntop cfg <= length row)%nat
         /\ forall sorted : list idbl_t,
              Permutation row sorted ->
              length (rect_top cfg st i sorted) = ntop cfg)
      /\ (cross_check cfg = true ->
          exists row : list idbl_t,
            cross_row cfg st i = Some row
            /\ (ntop cfg <= length row)%nat
            /\ forall sorted : list idbl_t,
                 Permutation row sorted ->
                 (length (cross_top cfg st i sorted) <= ntop cfg)%nat
                 /\ Forall (fun ln =>
                              exists j : nat,
                                (j < i)%nat
                                /\ ln = dc_of cfg st (smpl (qry_smpl cfg) i)
                                              (smpl (qry_smpl cfg) j)
                                              (tri_index i j))
                           (cross_top cfg st i sorted)))
  /\ (sort_by_hwe cfg = true -> hwe_prob st = [] ->
      report qsort_idbl cfg st = None).
Proof.
  intros Hp Ht Hg Hmode Hal Hint Hi.
  pose proof (trim_positive cfg Hp Ht Hg) as Hlt.
  split; [done |]. split.
  2: { intros Hs Hnull.
       apply report_null; try done. lia. }
  intros Hhwe. split.
  - intros Hc. rewrite Hc in Hint.
    pose proof (rect_row_entries cfg st i Hc Hp Hal Hhwe Hint Hi) as Hrow.
    eexists. split; [exact Hrow |].
    rewrite length_map, length_seq. split; [lia |].
    intros sorted Hperm. unfold rect_top.
    rewrite length_map, length_take, <- (Permutation_length Hperm),
      length_map, length_seq. lia.
  - intros Hc. rewrite Hc in Hint. specialize (Hmode Hc).
    pose proof (cross_row_entries cfg st i Hc Hp Hal Hhwe Hint Hi) as Hrow.
    destruct (cross_row_shape cfg st i _ Hc Hp Hal Hhwe Hint Hi Hrow)
      as (_ & Hlen & Hall).
    eexists. split; [exact Hrow |]. split; [lia |].
    intros sorted Hperm. unfold cross_top. split.
    + rewrite length_map.
      pose proof (List.filter_length_le
                    (fun e => negb (i <=? ism e)%nat) (take (ntop cfg) sorted)).
      pose proof (length_take_le sorted (ntop cfg)). rewrite length_take in *.
      lia.
    + apply List.Forall_forall. intros ln Hln.
      apply in_map_iff in Hln as (e & <- & He).
      apply List.filter_In in He as [He Hism].
      apply negb_true_iff, Nat.leb_gt in Hism.
      rewrite List.Forall_forall in Hall.
      destruct (Hall e) as (Heq & _).
      { apply (Permutation_in e (Permutation_sym Hperm)).
        by apply (In_take e (ntop cfg)). }
      rewrite Nat.max_l, Nat.min_r in Heq by lia.
      exists (ism e). split; [done |]. by rewrite Heq.
Qed.

Lemma top_matches_in_bounds_witness :
  pairs cfg_rect = None /\ trim cfg_rect <> 0%nat /\ ngt_smpl cfg_rect <> 0%nat
  /\ allocated cfg_rect rect_state
  /\ (if cross_check cfg_rect
      then Z.of_nat (nqry_smpl cfg_rect) * (Z.of_nat (nqry_smpl cfg_rect) + 1)
      else Z.of_nat (ngt_smpl cfg_rect) * Z.of_nat (nqry_smpl cfg_rect))
     <= INT_MAX
  /\ (0 < nqry_smpl cfg_rect)%nat
  /\ (ntop cfg_rect < ngt_smpl cfg_rect)%nat
  /\ exists row : list idbl_t,
       rect_row cfg_rect rect_state 0 = Some row
       /\ (ntop cfg_rect <= length row)%nat
       /\ forall sorted : list idbl_t,
            Permutation row sorted ->
            length (rect_top cfg_rect rect_state 0 sorted) = ntop cfg_rect.
Proof.
  assert (allocated cfg_rect rect_state) as Hal.
  { split; [reflexivity |]. split; [reflexivity | discriminate]. }
  assert ((if cross_check cfg_rect
           then Z.of_nat (nqry_smpl cfg_rect)
                * (Z.of_nat (nqry_smpl cfg_rect) + 1)
           else Z.of_nat (ngt_smpl cfg_rect) * Z.of_nat (nqry_smpl cfg_rect))
          <= INT_MAX) as Hint by (vm_compute; discriminate).
  assert (0 < nqry_smpl cfg_rect)%nat as Hi by (simpl; lia).
  destruct (top_matches_in_bounds (fun l => l) cfg_rect rect_state 0
              eq_refl ltac:(discriminate) ltac:(discriminate)
              ltac:(discriminate) Hal Hint Hi) as (H1 & H2 & _).
  destruct (H2 ltac:(discriminate)) as [H3 _].
  split; [reflexivity |]. split; [discriminate |]. split; [discriminate |].
  split; [exact Hal |]. split; [exact Hint |]. split; [exact Hi |].
  split; [exact H1 |]. exact (H3 eq_refl).
Defined.

(** ** The blocks of the DS section *)

Lemma scan_bit_new_mono (l : list nat) :
  forall acc : kbitset_t * Z * Z,
    snd (fst acc) <= snd (fst (fold_left scan_bit l acc)).
Proof.
  induction l as [| i l IH]; intros acc; cbn [fold_left]; [lia |].
  etransitivity; [| apply IH].
  destruct acc as [[blk new] dbg]. unfold scan_bit.
  destruct (kbs_exists blk i); cbn; lia.
Qed.

Lemma ds_chain_snoc (ndiff_min : Z) (l : list ds_line) (b : ds_line) :
  ds_chain ndiff_min l ->
  (forall a : ds_line, list.last l = Some a -> ds_next ndiff_min a b) ->
  ds_chain ndiff_min (l ++ [b]).
Proof.
  induction l as [| a l IH]; [done |].
  destruct l as [| c l].
  - intros _ Hlast. cbn. split; [by apply Hlast | done].
  - intros [Hac Hch] Hlast. split; [done |]. by apply IH.
Qed.

Lemma closed_blocks_snoc (ndiff_min : Z) (l : list ds_line) (b : ds_line) :
  closed_blocks ndiff_min (l ++ [b])
  = closed_blocks ndiff_min l + (if ndiff_min <=? DS_tot b then 1 else 0).
Proof.
  unfold closed_blocks. rewrite List.filter_app, length_app. cbn [List.filter].
  destruct (ndiff_min <=? DS_tot b); cbn [length]; lia.
Qed.

Lemma head_snoc (l : list ds_line) (b a : ds_line) :
  head (l ++ [b]) = Some a -> head l = Some a \/ (l = [] /\ a = b).
Proof. destruct l; cbn; [intros [= ->]; by right | by left]. Qed.

Lemma drain_step_inv (ndiff_min : Z) (d d' : drain_t) (dat : diff_sites_t) :
  1 <= ndiff_min -> drain_inv ndiff_min d ->
  drain_step ndiff_min d dat = Done d' ->
  drain_inv ndiff_min d'
  /\ (length (ds_out d') <= S (length (ds_out d)))%nat.
Proof.
  intros Hmin (Htot & Hch & Hall & Hib & Hhead & Hlast). unfold drain_step.
  pose proof (scan_bit_new_mono (kbs_elements (kbs_dat dat)) (kbs_blk d, 0, 0))
    as Hnew.
  fold (drain_scan (kbs_blk d) (kbs_dat dat)) in Hnew.
  destruct (drain_scan (kbs_blk d) (kbs_dat dat)) as [[blk new] dbg].
  cbn [fst snd] in Hnew.
  destruct (negb (dbg =? to_int32 (ds_ndiff dat))); [done |].
  destruct (Z.eqb_spec new 0) as [-> | Hne].
  { intros [= <-]. cbn [ds_out]. split; [| lia].
    unfold drain_inv. cbn [ds_out ndiff_tot iblock].
    repeat (split; [assumption |]). assumption. }
  set (ln := {| DS_rid := _; DS_pos := _; DS_tot := _; DS_block := _ |}).
  assert (ds_chain ndiff_min (ds_out d ++ [ln])) as Hch'.
  { apply ds_chain_snoc; [done |]. intros a Ha. rewrite Ha in Hlast.
    unfold ds_next, ln. cbn [DS_block DS_tot].
    destruct Hlast as [[E1 E2] | (E1 & E2 & E3)]; [left | right]; lia. }
  assert (Forall (fun x => 1 <= DS_tot x) (ds_out d ++ [ln])) as Hall'.
  { apply Forall_app. split; [done |].
    constructor; [unfold ln; cbn; lia | constructor]. }
  assert (forall a : ds_line,
             head (ds_out d ++ [ln]) = Some a -> DS_block a = 0) as Hhead'.
  { intros a Ha. apply head_snoc in Ha as [Ha | [Hnil ->]]; [by apply Hhead |].
    rewrite Hnil in Hlast. cbn in Hlast. unfold ln. cbn. lia. }
  destruct (Z.ltb_spec (ndiff_tot d + new) ndiff_min) as [Hlt | Hge];
    intros [= <-]; cbn [ds_out ndiff_tot iblock kbs_blk].
  - split; [| rewrite length_app; cbn; lia].
    unfold drain_inv. cbn [ds_out ndiff_tot iblock].
    split; [lia |]. split; [done |]. split; [done |].
    split.
    { rewrite closed_blocks_snoc.
      destruct (Z.leb_spec ndiff_min (DS_tot ln)) as [H | H];
        [unfold ln in H; cbn in H; lia | lia]. }
    split; [done |]. rewrite last_snoc. left. by unfold ln.
  - split; [| rewrite length_app; cbn; lia].
    unfold drain_inv. cbn [ds_out ndiff_tot iblock].
    split; [lia |]. split; [done |]. split; [done |].
    split.
    { rewrite closed_blocks_snoc.
      destruct (Z.leb_spec ndiff_min (DS_tot ln)) as [H | H];
        [lia | unfold ln in H; cbn in H; lia]. }
    split; [done |]. rewrite last_snoc. right. unfold ln. cbn. lia.
Qed.

Lemma drain_inv_run (ndiff_min : Z) (recs : list diff_sites_t) :
  1 <= ndiff_min ->
  forall d d' : drain_t,
    drain_inv ndiff_min d -> drain ndiff_min d recs = Done d' ->
    drain_inv ndiff_min d'
    /\ (length (ds_out d') <= length (ds_out d) + length recs)%nat.
Proof.
  intros Hmin. induction recs as [| dat recs IH]; intros d d' Hinv;
    cbn [drain].
  - intros [= <-]. split; [done | lia].
  - destruct (drain_step ndiff_min d dat) as [d1 |] eqn:Hstep; [| done].
    intros Hrun.
    destruct (drain_step_inv ndiff_min d d1 dat Hmin Hinv Hstep) as [H1 L1].
    destruct (IH d1 d' H1 Hrun) as [H2 L2]. split; [done |]. cbn [length]. lia.
Qed.

Lemma drain_inv_init (cfg : config) (ndiff_min : Z) :
  1 <= ndiff_min -> drain_inv ndiff_min (drain_init cfg).
Proof.
  intros Hmin. unfold drain_inv, drain_init. cbn.
  split; [lia |]. repeat (split; [done |]). done.
Qed.

Lemma report_distinctive_sites_inv (cfg : config) (st : state) (d : drain_t) :
  1 <= distinctive_sites cfg ->
  report_distinctive_sites cfg st = Done d ->
  drain_inv (distinctive_sites cfg) d
  /\ (length (ds_out d) <= length (es st))%nat.
Proof.
  intros Hmin Hrun. unfold report_distinctive_sites in Hrun.
  destruct (drain_inv_run (distinctive_sites cfg) _ Hmin _ d
              (drain_inv_init cfg _ Hmin) Hrun) as [Hinv Hlen].
  split; [done |].
  rewrite (Permutation_length (extsort_sort_perm diff_sites_cmp (es st)))
    in Hlen.
  cbn in Hlen. lia.
Qed.

(** The DS section, for a threshold of at least one pair. The first line
    is in block 0. A line is followed by a line of the same block, with a
    larger cumulative count, as long as it is below the threshold, and by
    a line of the next block once it has reached it: block ids go up by
    steps of one and each block but the last ends with the line that
    reaches the threshold. Every line adds at least one new pair, there is
    at most one line for each site pushed to the sorter, and the number of
    closed blocks is the final value of [iblock]. *)
Theorem ds_section_blocks (cfg : config) (st : state) (d : drain_t) :
  1 <= distinctive_sites cfg ->
  report_distinctive_sites cfg st = Done d ->
  ds_chain (distinctive_sites cfg) (ds_out d)
  /\ (forall a : ds_line, head (ds_out d) = Some a -> DS_block a = 0)
  /\ Forall (fun ln => 1 <= DS_tot ln) (ds_out d)
  /\ iblock d = closed_blocks (distinctive_sites cfg) (ds_out d)
  /\ (length (ds_out d) <= length (es st))%nat.
Proof.
  intros Hmin Hrun.
  destruct (report_distinctive_sites_inv cfg st d Hmin Hrun)
    as [(_ & Hch & Hall & Hib & Hhead & _) Hlen].
  done.
Qed.

(** ** The threshold of all pairs *)

Lemma popcount_full (b : kbitset_t) :
  (forall q : nat, (q < length b)%nat -> kbs_exists b q = true) ->
  popcount b = Z.of_nat (length b).
Proof.
  induction b as [| x b IH]; intros Hall; [done |].
  rewrite popcount_cons. cbn [length].
  pose proof (Hall 0%nat ltac:(cbn; lia)) as H0.
  change (kbs_exists (x :: b) 0) with x in H0. subst x.
  rewrite IH; [lia |].
  intros q Hq. apply (Hall (S q)). cbn [length]. lia.
Qed.

Lemma collected_well_typed (n : nat) (dat : diff_sites_t) :
  Z.of_nat n < 2 ^ 31 -> collected n dat -> well_typed dat.
Proof.
  intros Hn (Hlen & Hcons & Hpos).
  pose proof (popcount_le_width (kbs_dat dat)).
  pose proof (popcount_nonneg (kbs_dat dat)).
  unfold consistent in Hcons. split; [lia | rewrite Hlen; lia].
Qed.

(** A record of the collecting phase holds a pair. *)
Lemma collected_discordant (n : nat) (dat : diff_sites_t) :
  collected n dat -> exists q : nat, discordant dat q.
Proof.
  intros (_ & Hcons & Hpos). unfold consistent in Hcons.
  rewrite Hcons in Hpos. unfold popcount in Hpos.
  destruct (kbs_elements (kbs_dat dat)) as [| q l] eqn:He;
    [cbn in Hpos; lia |].
  exists q. apply kbs_elements_In. rewrite He. by left.
Qed.

(** One record drained in block 0: the block stays open when its count
    stays below the number of pairs, and is closed by a line that carries
    this number when the count reaches it. *)
Lemma drain_step_cover (n : nat) (seen : list diff_sites_t) (d : drain_t)
    (dat : diff_sites_t) :
  Z.of_nat n < 2 ^ 31 ->
  first_block n seen d -> ndiff_tot d < Z.of_nat n -> collected n dat ->
  exists d' : drain_t,
    drain_step (Z.of_nat n) d dat = Done d'
    /\ ((first_block n (seen ++ [dat]) d' /\ ndiff_tot d' < Z.of_nat n)
        \/ (iblock d' = 1
            /\ exists a : ds_line,
                 In a (ds_out d') /\ DS_block a = 0
                 /\ DS_tot a = Z.of_nat n)).
Proof.
  intros Hn (Hblock & Hwidth & Htot & Hout & Hne & Hmem) Hopen Hdat.
  pose proof (collected_well_typed n dat Hn Hdat) as Hwt.
  destruct Hdat as (Hlen & Hcons & Hpos).
  unfold drain_step.
  destruct (drain_scan_spec (kbs_blk d) (kbs_dat dat))
    as (blk & new & Hscan & Hl & Hpop & Hnew & Hq); [congruence |].
  rewrite Hscan.
  apply (to_int32_consistent dat Hwt) in Hcons as Heq.
  rewrite <- Heq, Z.eqb_refl. cbn [negb].
  assert (forall q : nat,
             kbs_exists blk q = true
             <-> exists x : diff_sites_t, In x (seen ++ [dat]) /\ discordant x q)
    as Hmem'.
  { intros q. rewrite Hq, Hmem. split.
    - intros [(x & Hx & Hd) | Hd].
      + exists x. split; [apply in_or_app; by left | done].
      + exists dat. split; [apply in_or_app; right; by left | done].
    - intros (x & Hx & Hd). apply in_app_or in Hx as [Hx | [<- | []]].
      + left. by exists x.
      + by right. }
  pose proof (popcount_le_width blk) as Hle. rewrite Hl, Hwidth in Hle.
  assert (seen ++ [dat] <> []) as Hne' by (by destruct seen).
  destruct (Z.eqb_spec new 0) as [-> | Hnz].
  - eexists. split; [reflexivity |]. left.
    unfold first_block. cbn [iblock kbs_blk ndiff_tot ds_out].
    split; [| done].
    split; [done |]. split; [congruence |]. split; [lia |].
    split; [done |]. split; [| done].
    intros _. apply Hne. intros ->.
    assert (popcount (kbs_blk d) = 0) as Hz.
    { apply popcount_clear. intros q.
      destruct (kbs_exists (kbs_blk d) q) eqn:Hex; [| done].
      apply Hmem in Hex as (x & [] & _). }
    assert (0 < popcount blk); [| lia].
    unfold consistent in Hcons. rewrite Hcons in Hpos.
    unfold popcount in Hpos.
    destruct (kbs_elements (kbs_dat dat)) as [| q l] eqn:He;
      [cbn in Hpos; lia |].
    apply (popcount_pos blk q), Hq. right.
    apply kbs_elements_In. rewrite He. by left.
  - destruct (Z.ltb_spec (ndiff_tot d + new) (Z.of_nat n)) as [Hlt | Hge].
    + eexists. split; [reflexivity |]. left.
      unfold first_block. cbn [iblock kbs_blk ndiff_tot ds_out].
      split; [| done].
      split; [done |]. split; [congruence |]. split; [lia |].
      split; [| split; [| done]].
      * apply Forall_app. split; [done |]. by repeat constructor.
      * intros _. by destruct (ds_out d).
    + eexists. split; [reflexivity |]. right.
      cbn [iblock ds_out]. split; [lia |].
      eexists. split; [apply in_or_app; right; by left |].
      cbn [DS_block DS_tot]. split; [done | lia].
Qed.

(** A record of the collecting phase never stops the drain, which only
    adds lines and blocks. *)
Lemma drain_step_collected (n : nat) (ndiff_min : Z) (d : drain_t)
    (dat : diff_sites_t) :
  Z.of_nat n < 2 ^ 31 -> collected n dat ->
  exists d' : drain_t,
    drain_step ndiff_min d dat = Done d'
    /\ iblock d <= iblock d'
    /\ forall a : ds_line, In a (ds_out d) -> In a (ds_out d').
Proof.
  intros Hn Hdat.
  pose proof (collected_well_typed n dat Hn Hdat) as Hwt.
  destruct Hdat as (_ & Hcons & _).
  destruct (drain_step_throw ndiff_min d dat Hwt) as [_ Hgood].
  destruct (Hgood Hcons) as [d' Hstep]. exists d'. split; [done |].
  unfold drain_step in Hstep.
  destruct (drain_scan (kbs_blk d) (kbs_dat dat)) as [[blk new] dbg].
  destruct (negb (dbg =? to_int32 (ds_ndiff dat))); [done |].
  destruct (new =? 0).
  { injection Hstep as <-. cbn [iblock ds_out]. split; [lia | done]. }
  destruct (ndiff_tot d + new <? ndiff_min); injection Hstep as <-;
    cbn [iblock ds_out]; (split; [lia |]);
    intros a Ha; apply in_or_app; by left.
Qed.

Lemma drain_collected (n : nat) (ndiff_min : Z) (recs : list diff_sites_t) :
  Z.of_nat n < 2 ^ 31 -> Forall (collected n) recs ->
  forall d : drain_t,
    exists d' : drain_t,
      drain ndiff_min d recs = Done d'
      /\ iblock d <= iblock d'
      /\ forall a : ds_line, In a (ds_out d) -> In a (ds_out d').
Proof.
  intros Hn. induction 1 as [| dat recs Hdat Hrecs IH]; intros d;
    cbn [drain].
  - exists d. split; [done |]. split; [lia | done].
  - destruct (drain_step_collected n ndiff_min d dat Hn Hdat)
      as (d1 & -> & Hb1 & Hl1).
    destruct (IH d1) as (d' & Hrun & Hb & Hl).
    exists d'. split; [done |]. split; [lia |].
    intros a Ha. by apply Hl, Hl1.
Qed.

(** The drain with the number of pairs as threshold: block 0 stays open
    and holds the pairs of all records, or it has been closed by a line
    that carries the number of pairs. *)
Lemma drain_cover (n : nat) (recs : list diff_sites_t) :
  Z.of_nat n < 2 ^ 31 -> Forall (collected n) recs ->
  forall (seen : list diff_sites_t) (d : drain_t),
    first_block n seen d -> ndiff_tot d < Z.of_nat n ->
    exists d' : drain_t,
      drain (Z.of_nat n) d recs = Done d'
      /\ ((first_block n (seen ++ recs) d' /\ ndiff_tot d' < Z.of_nat n)
          \/ (1 <= iblock d'
              /\ exists a : ds_line,
                   In a (ds_out d') /\ DS_block a = 0
                   /\ DS_tot a = Z.of_nat n)).
Proof.
  intros Hn. induction 1 as [| dat recs Hdat Hrecs IH]; intros seen d Hinv Hopen.
  - exists d. split; [done |]. left. by rewrite app_nil_r.
  - cbn [drain].
    destruct (drain_step_cover n seen d dat Hn Hinv Hopen Hdat)
      as (d1 & -> & [[Hinv1 Hopen1] | (Hb1 & a & Ha & Hblk & Htot)]).
    + destruct (IH (seen ++ [dat]) d1 Hinv1 Hopen1) as (d' & Hrun & H).
      exists d'. split; [done |]. by rewrite <- app_assoc in H.
    + destruct (drain_collected n (Z.of_nat n) recs Hn Hrecs d1)
        as (d' & Hrun & Hb & Hl).
      exists d'. split; [done |]. right. split; [lia |].
      exists a. split; [by apply Hl | done].
Qed.

(** C4 (as the code has it). Explicit pairs, the threshold of the
    distinctive sites equal to the number of pairs, any stream of sites.
    The report of the distinctive sites ends normally. It writes no line
    exactly when no pair is discordant at any site. As long as some pair
    is discordant at no site, every DS line carries the block id 0 and the
    bit set of the block holds exactly the pairs that are discordant at
    some site. When every pair is discordant at some site, block 0 is
    closed by a line whose cumulative count is the number of pairs, and
    the drain goes on: a line that follows a line with this count opens
    the next block, and the number of closed blocks is the number of such
    lines, one at least. *)
Theorem blocks_at_full_threshold (cfg : config) (ps : list pair_t)
    (ls : list line_t) (st : state) :
  pairs cfg = Some ps -> dry_run cfg = false ->
  (1 <= npairs cfg)%nat ->
  distinctive_sites cfg = Z.of_nat (npairs cfg) ->
  Z.of_nat (npairs cfg) < 2 ^ 31 ->
  main_loop cfg (init_state cfg) ls = Done st ->
  exists d : drain_t,
    report_distinctive_sites cfg st = Done d
    /\ (ds_out d = []
        <-> forall (l : line_t) (q : nat),
              In l ls -> ~ differs_at cfg ps l q)
    /\ ((exists p : nat,
            (p < npairs cfg)%nat
            /\ forall l : line_t, In l ls -> ~ differs_at cfg ps l p) ->
        iblock d = 0
        /\ Forall (fun ln => DS_block ln = 0) (ds_out d)
        /\ forall q : nat,
             kbs_exists (kbs_blk d) q = true
             <-> exists l : line_t, In l ls /\ differs_at cfg ps l q)
    /\ ((forall p : nat,
            (p < npairs cfg)%nat ->
            exists l : line_t, In l ls /\ differs_at cfg ps l p) ->
        1 <= iblock d
        /\ exists a : ds_line,
             In a (ds_out d) /\ DS_block a = 0
             /\ DS_tot a = Z.of_nat (npairs cfg))
    /\ ds_chain (Z.of_nat (npairs cfg)) (ds_out d)
    /\ (forall a : ds_line, head (ds_out d) = Some a -> DS_block a = 0)
    /\ iblock d = closed_blocks (Z.of_nat (npairs cfg)) (ds_out d).
Proof.
  intros Hps Hdry Hone Hthr Hn Hrun.
  assert (npairs cfg = length ps) as Hnp by (unfold npairs; by rewrite Hps).
  destruct (main_loop_collects cfg ps ls [] (init_state cfg) st)
    as (_ & Hrecs & Hmem); [done | by rewrite <- Hnp | done | | done |].
  { apply collected_from_init; [done | lia]. }
  cbn [app] in Hmem. rewrite <- Hnp in Hrecs.
  pose proof (extsort_sort_perm diff_sites_cmp (es st)) as Hperm.
  destruct (drain_cover (npairs cfg) (extsort_sort diff_sites_cmp (es st))
              Hn (Permutation_Forall (Permutation_sym Hperm) Hrecs)
              [] (drain_init cfg) (first_block_init cfg))
    as (d & Hdrain & Hcase); [cbn; lia |].
  cbn [app] in Hcase.
  assert (report_distinctive_sites cfg st = Done d) as Hrep
      by (unfold report_distinctive_sites; by rewrite Hthr).
  destruct (report_distinctive_sites_inv cfg st d ltac:(lia) Hrep)
    as [(_ & Hch & _ & Hib & Hhead & _) Hlen].
  rewrite Hthr in Hch, Hib.
  exists d. split; [done |]. split.
  { split.
    - intros Hnil l q Hl Hdq.
      destruct (proj2 (Hmem q)) as (dat & Hdat & _); [by exists l |].
      assert (In dat (extsort_sort diff_sites_cmp (es st))) as Hin
          by exact (Permutation_in dat (Permutation_sym Hperm) Hdat).
      destruct Hcase as [[(_ & _ & _ & _ & Hne & _) _]
                        | (_ & a & Ha & _)].
      + apply Hne; [| done]. intros E. by rewrite E in Hin.
      + by rewrite Hnil in Ha.
    - intros Hquiet.
      assert (es st = []) as Hes.
      { destruct (es st) as [| dat rest] eqn:E; [done |].
        inversion Hrecs as [| ? ? Hdat _]; subst.
        destruct (collected_discordant _ _ Hdat) as [q Hq].
        destruct (proj1 (Hmem q)) as (l & Hl & Hdl);
          [exists dat; split; [by left | done] |].
        by destruct (Hquiet l q Hl). }
      rewrite Hes in Hlen.
      destruct (ds_out d); [done | cbn [length] in Hlen; lia]. }
  split.
  { intros (p & Hp & Hnever).
    destruct (single_block_run cfg ps ls st p Hps Hdry Hthr Hn Hrun Hp
                Hnever) as (d0 & Hrep0 & H1 & H2 & _ & H4).
    rewrite Hrep in Hrep0. injection Hrep0 as <-. done. }
  split; [| done].
  intros Hall.
  destruct Hcase as [[(_ & Hwidth & Htot & _ & _ & Hbits) Hopen]
                    | (Hb & a & Ha & Hblk & Hta)].
  - assert (popcount (kbs_blk d) = Z.of_nat (length (kbs_blk d))) as Hfull.
    { apply popcount_full. intros q Hq. rewrite Hwidth in Hq.
      destruct (Hall q Hq) as (l & Hl & Hdl).
      destruct (proj2 (Hmem q)) as (dat & Hdat & Hd); [by exists l |].
      apply Hbits. exists dat. split; [| done].
      exact (Permutation_in dat (Permutation_sym Hperm) Hdat). }
    rewrite Hwidth in Hfull. lia.
  - split; [done |]. by exists a.
Qed.

Lemma blocks_at_full_threshold_witness :
  pairs cfg_pairs1 = Some [ {| iqry := 0; igt := 1 |} ]
  /\ distinctive_sites cfg_pairs1 = Z.of_nat (npairs cfg_pairs1)
  /\ main_loop cfg_pairs1 (init_state cfg_pairs1)
               [mismatch_line; mismatch_line]
     = Done twice_state
  /\ exists d : drain_t,
       report_distinctive_sites cfg_pairs1 twice_state = Done d
       /\ ((forall p : nat,
               (p < npairs cfg_pairs1)%nat ->
               exists l : line_t,
                 In l [mismatch_line; mismatch_line]
                 /\ differs_at cfg_pairs1 [ {| iqry := 0; igt := 1 |} ] l p) ->
           1 <= iblock d
           /\ exists a : ds_line,
                In a (ds_out d) /\ DS_block a = 0
                /\ DS_tot a = Z.of_nat (npairs cfg_pairs1))
       /\ iblock d
          = closed_blocks (Z.of_nat (npairs cfg_pairs1)) (ds_out d).
Proof.
  set (ps := [ {| iqry := 0%nat; igt := 1%nat |} ]).
  assert (pairs cfg_pairs1 = Some ps) as H1 by reflexivity.
  assert (dry_run cfg_pairs1 = false) as H2 by reflexivity.
  assert (1 <= npairs cfg_pairs1)%nat as H3 by (vm_compute; lia).
  assert (distinctive_sites cfg_pairs1 = Z.of_nat (npairs cfg_pairs1))
    as H4 by reflexivity.
  assert (Z.of_nat (npairs cfg_pairs1) < 2 ^ 31) as H5 by reflexivity.
  assert (main_loop cfg_pairs1 (init_state cfg_pairs1)
                    [mismatch_line; mismatch_line]
          = Done twice_state) as H6 by reflexivity.
  destruct (blocks_at_full_threshold cfg_pairs1 ps
              [mismatch_line; mismatch_line] twice_state
              H1 H2 H3 H4 H5 H6)
    as (d & Hrep & _ & _ & Hall & _ & _ & Hib).
  split; [exact H1 |]. split; [exact H4 |]. split; [exact H6 |].
  exists d. split; [exact Hrep |]. split; [exact Hall | exact Hib].
Defined.

Lemma ds_section_blocks_witness :
  1 <= distinctive_sites cfg_pairs1
  /\ report_distinctive_sites cfg_pairs1 twice_state = Done twice_drained
  /\ ds_chain (distinctive_sites cfg_pairs1) (ds_out twice_drained)
  /\ iblock twice_drained
     = closed_blocks (distinctive_sites cfg_pairs1) (ds_out twice_drained).
Proof.
  split; [discriminate |]. split; [reflexivity |].
  destruct (ds_section_blocks cfg_pairs1 twice_state twice_drained)
    as (H1 & _ & _ & H2 & _).
  - discriminate.
  - reflexivity.
  - split; [exact H1 | exact H2].
Defined.

(** ** A threshold of one pair *)

Lemma ds_chain_consecutive (l : list ds_line) :
  forall b0 : Z,
    ds_chain 1 l -> Forall (fun ln => 1 <= DS_tot ln) l ->
    (forall a : ds_line, head l = Some a -> DS_block a = b0) ->
    forall (k : nat) (ln : ds_line),
      l !! k = Some ln -> DS_block ln = b0 + Z.of_nat k.
Proof.
  induction l as [| a l IH]; intros b0 Hch Hall Hhead k ln Hk; [done |].
  inversion Hall as [| ? ? Ha Hall']; subst.
  destruct k as [| k].
  - cbn in Hk. injection Hk as <-. rewrite (Hhead a eq_refl). lia.
  - cbn in Hk. rewrite (IH (b0 + 1)) with (k := k) (ln := ln); [lia | | | |].
    + destruct l as [| c l]; [done |]. by destruct Hch.
    + done.
    + intros c Hc. destruct l as [| c' l]; [done |].
      cbn in Hc. injection Hc as ->. destruct Hch as [Hnext _].
      rewrite <- (Hhead a eq_refl).
      destruct Hnext as [(_ & _ & Hlt) | [Hblk _]]; lia.
    + done.
Qed.

Lemma filter_all {A : Type} (f : A -> bool) (l : list A) :
  Forall (fun x => f x = true) l -> List.filter f l = l.
Proof.
  induction 1 as [| x l Hx _ IH]; [done |]. cbn. by rewrite Hx, IH.
Qed.

(** With a threshold of one pair every DS line closes its block: the
    [k]-th line carries the block id [k], and there are as many blocks as
    lines, one for each site that brings a pair not yet in the block. *)
Theorem threshold_one_blocks (cfg : config) (st : state) (d : drain_t) :
  distinctive_sites cfg = 1 ->
  report_distinctive_sites cfg st = Done d ->
  (forall (k : nat) (ln : ds_line),
      ds_out d !! k = Some ln -> DS_block ln = Z.of_nat k)
  /\ iblock d = Z.of_nat (length (ds_out d)).
Proof.
  intros Hone Hrun.
  destruct (report_distinctive_sites_inv cfg st d ltac:(lia) Hrun)
    as [(_ & Hch & Hall & Hib & Hhead & _) _].
  rewrite Hone in *. split.
  - intros k ln Hk.
    rewrite (ds_chain_consecutive (ds_out d) 0 Hch Hall Hhead k ln Hk). lia.
  - rewrite Hib. unfold closed_blocks. rewrite filter_all; [done |].
    eapply List.Forall_impl; [| exact Hall]. intros ln Hln. cbn beta in *.
    by apply Z.leb_le.
Qed.

Lemma threshold_one_blocks_witness :
  distinctive_sites cfg_pairs1 = 1
  /\ report_distinctive_sites cfg_pairs1 twice_state = Done twice_drained
  /\ map DS_block (ds_out twice_drained) = [0; 1]
  /\ iblock twice_drained = Z.of_nat (length (ds_out twice_drained)).
Proof.
  split; [reflexivity |]. split; [reflexivity |]. split; [reflexivity |].
  apply (threshold_one_blocks cfg_pairs1 twice_state twice_drained);
    reflexivity.
Defined.

(** * Setting up a run *)

Lemma bind_Ready {A B : Type} (m : setup A) (k : A -> setup B) (b : B) :
  bind m k = Ready b <-> exists a : A, m = Ready a /\ k a = Ready b.
Proof.
  destruct m as [a | e]; cbn.
  - split; [intros H; by exists a | by intros (a' & [= <-] & H)].
  - split; [done | by intros (a' & [=] & _)].
Qed.

(** What a successful [init_data] went through. *)
Lemma init_data_inv (fmul : R -> R -> R) (args : args_t)
    (qry_hdr gt_hdr : bcf_hdr_t) (cfg : config) :
  init_data fmul args qry_hdr gt_hdr = Ready cfg ->
  exists (q g : bool) (qs : option (list nat)) (s : samples_t) (ds : Z),
    hdr_nsamples qry_hdr <> 0%nat
    /\ (arg_gt_fname args = true -> hdr_nsamples gt_hdr <> 0%nat)
    /\ qry_tag (arg_qry_use_GT args) qry_hdr = Ready q
    /\ (if arg_gt_fname args then gt_tag (arg_gt_use_GT args) gt_hdr
        else Ready q) = Ready g
    /\ match arg_qry_samples args with
       | Some tmp => exists l : list nat,
                       read_samples qry_hdr tmp = Ready l /\ qs = Some l
       | None => qs = None
       end
    /\ prepare_samples args qry_hdr gt_hdr (nqry_of qry_hdr qs) qs = Ready s
    /\ (if nonzero (arg_distinctive_sites args)
        then diff_sites_init fmul
               (npairs (make_config args qry_hdr gt_hdr q g qs s 0))
               (arg_distinctive_sites args)
        else Ready 0) = Ready ds
    /\ cfg = make_config args qry_hdr gt_hdr q g qs s ds.
Proof.
  unfold init_data.
  destruct (Nat.eqb_spec (hdr_nsamples qry_hdr) 0) as [| Hnq]; [done |].
  destruct (arg_gt_fname args && (hdr_nsamples gt_hdr =? 0)%nat) eqn:Hng;
    [done |].
  intros H.
  apply bind_Ready in H as (q & Hq & H).
  apply bind_Ready in H as (g & Hg & H).
  apply bind_Ready in H as (qs & Hqs & H).
  apply bind_Ready in H as (s & Hs & H).
  apply bind_Ready in H as (ds & Hds & H).
  injection H as <-.
  exists q, g, qs, s, ds.
  split; [done |]. split.
  { intros Hgt. rewrite Hgt in Hng. cbn in Hng.
    by apply Nat.eqb_neq in Hng. }
  split; [done |]. split; [done |]. split.
  { destruct (arg_qry_samples args) as [tmp |].
    - apply bind_Ready in Hqs as (l & Hl & [= <-]). by exists l.
    - by injection Hqs as <-. }
  done.
Qed.

Lemma qry_tag_Ready (use_GT : Z) (hdr : bcf_hdr_t) (q : bool) :
  qry_tag use_GT hdr = Ready q ->
  (if q then hdr_has_GT hdr else hdr_has_PL hdr) = true
  /\ (use_GT = -1 -> q = negb (hdr_has_PL hdr))
  /\ (use_GT = 1 -> q = true)
  /\ (use_GT <> -1 -> use_GT <> 1 -> q = false).
Proof.
  unfold qry_tag.
  destruct (Z.eqb_spec use_GT (-1)) as [E1 | E1];
    [| destruct (Z.eqb_spec use_GT 1) as [E2 | E2]];
    destruct (hdr_has_PL hdr) eqn:HPL, (hdr_has_GT hdr) eqn:HGT;
    intros [= <-] || intros [=]; rewrite ?HPL, ?HGT; repeat split;
    intros; cbn [negb]; congruence || lia.
Qed.

Lemma gt_tag_Ready (use_GT : Z) (hdr : bcf_hdr_t) (g : bool) :
  gt_tag use_GT hdr = Ready g ->
  (if g then hdr_has_GT hdr else hdr_has_PL hdr) = true
  /\ (use_GT = -1 -> g = hdr_has_GT hdr)
  /\ (use_GT = 1 -> g = true)
  /\ (use_GT <> -1 -> use_GT <> 1 -> g = false).
Proof.
  unfold gt_tag.
  destruct (Z.eqb_spec use_GT (-1)) as [E1 | E1];
    [| destruct (Z.eqb_spec use_GT 1) as [E2 | E2]];
    destruct (hdr_has_PL hdr) eqn:HPL, (hdr_has_GT hdr) eqn:HGT;
    intros [= <-] || intros [=]; rewrite ?HPL, ?HGT; repeat split;
    intros; cbn [negb]; congruence || lia.
Qed.

(** When [init_data] succeeds, the tag each side is read on is declared in
    the header of its file. Without [-u] the query file is read on PL if
    it declares PL and on GT otherwise, and the genotype file on GT if it
    declares GT and on PL otherwise; with [-u] the tag asked for is the
    one in use, for the query file and for the genotype file; with one
    file both sides read the tag of the query file. *)
Theorem tags_in_use_are_declared (fmul : R -> R -> R) (args : args_t)
    (qry_hdr gt_hdr : bcf_hdr_t) (cfg : config) :
  init_data fmul args qry_hdr gt_hdr = Ready cfg ->
  (if qry_use_GT cfg then hdr_has_GT qry_hdr else hdr_has_PL qry_hdr) = true
  /\ (arg_gt_fname args = true ->
      (if gt_use_GT cfg then hdr_has_GT gt_hdr else hdr_has_PL gt_hdr) = true)
  /\ (arg_gt_fname args = false -> gt_use_GT cfg = qry_use_GT cfg)
  /\ (arg_qry_use_GT args = -1 ->
      qry_use_GT cfg = negb (hdr_has_PL qry_hdr))
  /\ (arg_qry_use_GT args = 1 -> qry_use_GT cfg = true)
  /\ (arg_qry_use_GT args <> -1 -> arg_qry_use_GT args <> 1 ->
      qry_use_GT cfg = false)
  /\ (arg_gt_fname args = true -> arg_gt_use_GT args = -1 ->
      gt_use_GT cfg = hdr_has_GT gt_hdr)
  /\ (arg_gt_fname args = true -> arg_gt_use_GT args = 1 ->
      gt_use_GT cfg = true)
  /\ (arg_gt_fname args = true -> arg_gt_use_GT args <> -1 ->
      arg_gt_use_GT args <> 1 -> gt_use_GT cfg = false).
Proof.
  intros H.
  destruct (init_data_inv _ _ _ _ _ H)
    as (q & g & qs & s & ds & _ & _ & Hq & Hg & _ & _ & _ & ->).
  cbn [make_config qry_use_GT gt_use_GT].
  destruct (qry_tag_Ready _ _ _ Hq) as (Q1 & Q2 & Q3 & Q4).
  split; [done |]. split.
  { intros Hgt. rewrite Hgt in Hg. by destruct (gt_tag_Ready _ _ _ Hg). }
  split.
  { intros Hgt. rewrite Hgt in Hg. by injection Hg as <-. }
  split; [done |]. split; [done |]. split; [done |].
  split.
  { intros Hgt. rewrite Hgt in Hg.
    by destruct (gt_tag_Ready _ _ _ Hg) as (_ & G2 & _). }
  split.
  { intros Hgt. rewrite Hgt in Hg.
    by destruct (gt_tag_Ready _ _ _ Hg) as (_ & _ & G3 & _). }
  intros Hgt. rewrite Hgt in Hg.
  by destruct (gt_tag_Ready _ _ _ Hg) as (_ & _ & _ & G4).
Qed.

(** ** The threshold of the distinctive sites *)

Lemma Int_part_IZR (z : Z) : Int_part (IZR z) = z.
Proof.
  unfold Int_part.
  assert (z + 1 = up (IZR z)) as <-; [| lia].
  apply tech_up.
  - apply IZR_lt. lia.
  - rewrite plus_IZR. lra.
Qed.

Lemma trunc_IZR (z : Z) : trunc (IZR z) = z.
Proof.
  unfold trunc. destruct (Rltb (IZR z) 0) eqn:E; [| apply Int_part_IZR].
  rewrite <- opp_IZR, Int_part_IZR. lia.
Qed.

(** For a value that is not negative the fraction is dropped; a negative
    value is never made positive. *)
Lemma trunc_bounds (x : R) :
  ((0 <= x)%R -> (IZR (trunc x) <= x < IZR (trunc x) + 1)%R)
  /\ ((x < 0)%R -> (IZR (trunc x) - 1 < x <= IZR (trunc x))%R).
Proof.
  unfold trunc. split.
  - intros Hx. assert (Rltb x 0 = false) as -> by (apply Rltb_false; lra).
    destruct (base_Int_part x). lra.
  - intros Hx. assert (Rltb x 0 = true) as -> by (by apply Rltb_true).
    destruct (base_Int_part (- x)) as [H1 H2].
    rewrite opp_IZR. lra.
Qed.

(** Truncation does not cross an integer. *)
Lemma trunc_ge (x : R) (k : Z) : (IZR k <= x)%R -> k <= trunc x.
Proof.
  intros Hk. destruct (Rlt_le_dec x 0) as [Hneg | Hpos].
  - destruct (trunc_bounds x) as [_ H]. specialize (H Hneg).
    apply le_IZR. lra.
  - destruct (trunc_bounds x) as [H _]. specialize (H Hpos).
    assert (k < trunc x + 1); [| lia]. apply lt_IZR. rewrite plus_IZR. lra.
Qed.

Lemma trunc_le (x : R) (k : Z) : (x <= IZR k)%R -> trunc x <= k.
Proof.
  intros Hk. destruct (Rlt_le_dec x 0) as [Hneg | Hpos].
  - destruct (trunc_bounds x) as [_ H]. specialize (H Hneg).
    assert (trunc x - 1 < k); [| lia]. apply lt_IZR. rewrite minus_IZR. lra.
  - destruct (trunc_bounds x) as [H _]. specialize (H Hpos).
    apply le_IZR. lra.
Qed.

Lemma double_to_int_in_range (x : R) :
  - 2 ^ 31 <= trunc x <= INT_MAX -> double_to_int x = trunc x.
Proof.
  intros H. unfold double_to_int. cbv zeta.
  destruct (Z.leb_spec (- 2 ^ 31) (trunc x)); [| lia].
  destruct (Z.leb_spec (trunc x) INT_MAX); [done | lia].
Qed.

Lemma double_to_int_out_of_range (x : R) :
  trunc x < - 2 ^ 31 \/ INT_MAX < trunc x -> double_to_int x = - 2 ^ 31.
Proof.
  intros H. unfold double_to_int. cbv zeta.
  destruct (Z.leb_spec (- 2 ^ 31) (trunc x)); [| done].
  destruct (Z.leb_spec (trunc x) INT_MAX); [lia | done].
Qed.

Lemma double_to_int_nonpos (x : R) : (x <= 0)%R -> double_to_int x <= 0.
Proof.
  intros Hx. pose proof (trunc_le x 0 Hx) as Ht.
  unfold double_to_int. cbv zeta.
  destruct ((- 2 ^ 31 <=? trunc x) && (trunc x <=? INT_MAX)); lia.
Qed.

Lemma diff_sites_init_bounds (fmul : R -> R -> R) (npairs : nat) (ds : R)
    (n : Z) :
  (1 <= npairs)%nat ->
  diff_sites_init fmul npairs ds = Ready n -> 1 <= n <= Z.of_nat npairs.
Proof.
  unfold diff_sites_init. intros Hn. set (nsites := double_to_int _).
  destruct (Z.leb_spec nsites 0) as [H | H]; [done |].
  destruct (Z.ltb_spec (Z.of_nat npairs) nsites); intros [= <-]; lia.
Qed.

(** The exact product has what is asked of the rounded one. *)
Lemma rounds_exact : rounds Rmult.
Proof. intros a b k _. by split. Qed.

(** The fraction of the pairs that is taken: the rounded product without
    its fraction, which is less than one pair away from the exact
    product. *)
Lemma fraction_of_pairs (fmul : R -> R -> R) (npairs : nat) (ds : R) :
  rounds fmul -> Z.of_nat npairs <= INT_MAX ->
  (0 < ds <= 1)%R -> (1 <= IZR (Z.of_nat npairs) * ds)%R ->
  exists n : Z,
    diff_sites_init fmul npairs ds = Ready n
    /\ 1 <= n <= Z.of_nat npairs
    /\ (IZR n - 1 < IZR (Z.of_nat npairs) * ds < IZR n + 1)%R.
Proof.
  intros Hr Hmax [Hpos Hle] Hone. unfold diff_sites_init.
  assert (Rltb 1 ds = false) as -> by (apply Rltb_false; lra).
  set (x := (IZR (Z.of_nat npairs) * ds)%R) in *.
  set (r := fmul (IZR (Z.of_nat npairs)) ds).
  set (t := trunc r).
  assert (forall k : Z,
             - 2 ^ 31 <= k <= 2 ^ 31 ->
             ((IZR k <= x)%R -> (IZR k <= r)%R)
             /\ ((x <= IZR k)%R -> (r <= IZR k)%R)) as Hround.
  { intros k Hk. apply Hr. lia. }
  unfold INT_MAX in Hmax.
  assert (0 <= IZR (Z.of_nat npairs))%R as Hnn by (apply IZR_le; lia).
  assert (x <= IZR (Z.of_nat npairs))%R as Hxn by (unfold x; nra).
  assert (1 <= r)%R as Hr1 by (apply (Hround 1); [lia | done]).
  assert (r <= IZR (Z.of_nat npairs))%R as Hrn
      by (apply (Hround (Z.of_nat npairs)); [lia | done]).
  assert (1 <= t) as Ht1 by (by apply trunc_ge).
  assert (t <= Z.of_nat npairs) as Htn by (by apply trunc_le).
  destruct (trunc_bounds r) as [Hb _]. specialize (Hb ltac:(lra)).
  fold t in Hb.
  rewrite double_to_int_in_range by (fold t; unfold INT_MAX; lia).
  fold t. exists t.
  destruct (Z.leb_spec t 0); [lia |].
  destruct (Z.ltb_spec (Z.of_nat npairs) t); [lia |].
  split; [done |]. split; [lia |]. split.
  - destruct (Rlt_le_dec (IZR t - 1) x) as [| Hlow]; [done |].
    assert (r <= IZR (t - 1))%R; [| rewrite minus_IZR in *; lra].
    apply (Hround (t - 1)); [lia |]. rewrite minus_IZR. lra.
  - destruct (Rlt_le_dec x (IZR t + 1)) as [| Hhigh]; [done |].
    assert (IZR (t + 1) <= r)%R; [| rewrite plus_IZR in *; lra].
    apply (Hround (t + 1)); [lia |]. rewrite plus_IZR. lra.
Qed.

(** The threshold [diff_sites_init] stores for [npairs] pairs, with the
    product of doubles rounded. A value up to 1 is taken as a fraction of
    the pairs: the run stops with "set too low" when the fraction is not
    positive, and when the exact product is at least one pair the
    threshold is this product up to less than one pair, and the product
    itself when it is a whole number of pairs; the value 1 means all
    pairs. A whole number above 1 is taken as a number of pairs, lowered
    to [npairs] if it is above; a number past the range of [int] stops the
    run with "set too low" (with the conversion of x86-64). A threshold
    that is stored is between 1 and [npairs]. *)
Theorem diff_sites_init_threshold (fmul : R -> R -> R) (npairs : nat)
    (ds : R) :
  rounds fmul -> Z.of_nat npairs <= INT_MAX ->
  ((1 <= npairs)%nat ->
   forall n : Z,
     diff_sites_init fmul npairs ds = Ready n -> 1 <= n <= Z.of_nat npairs)
  /\ ((ds <= 1)%R -> (IZR (Z.of_nat npairs) * ds <= 0)%R ->
      exists n : Z,
        n <= 0 /\ diff_sites_init fmul npairs ds = Fail (Sites_too_low n))
  /\ ((0 < ds <= 1)%R -> (1 <= IZR (Z.of_nat npairs) * ds)%R ->
      exists n : Z,
        diff_sites_init fmul npairs ds = Ready n
        /\ (IZR n - 1 < IZR (Z.of_nat npairs) * ds < IZR n + 1)%R
        /\ (forall k : Z, (IZR (Z.of_nat npairs) * ds)%R = IZR k -> n = k))
  /\ (ds = 1%R -> (1 <= npairs)%nat ->
      diff_sites_init fmul npairs ds = Ready (Z.of_nat npairs))
  /\ (forall k : Z,
         1 < k <= INT_MAX -> ds = IZR k ->
         diff_sites_init fmul npairs ds = Ready (Z.min k (Z.of_nat npairs)))
  /\ (forall k : Z,
         INT_MAX < k -> ds = IZR k ->
         diff_sites_init fmul npairs ds = Fail (Sites_too_low (- 2 ^ 31))).
Proof.
  intros Hr Hmax. split.
  { intros Hn n. by apply diff_sites_init_bounds. }
  split.
  { intros Hle Hlow. unfold diff_sites_init.
    assert (Rltb 1 ds = false) as -> by (apply Rltb_false; lra).
    set (r := fmul (IZR (Z.of_nat npairs)) ds).
    assert (r <= 0)%R as Hr0 by (apply (Hr _ _ 0); [lia | done]).
    pose proof (double_to_int_nonpos r Hr0) as Ht.
    exists (double_to_int r). split; [done |].
    by destruct (Z.leb_spec (double_to_int r) 0); [| lia]. }
  split.
  { intros Hds Hone.
    destruct (fraction_of_pairs fmul npairs ds Hr Hmax Hds Hone)
      as (n & Hn & _ & Hb).
    exists n. split; [done |]. split; [done |].
    intros k Hk. rewrite Hk in Hb.
    assert (n - 1 < k) by (apply lt_IZR; rewrite minus_IZR; lra).
    assert (k < n + 1) by (apply lt_IZR; rewrite plus_IZR; lra).
    lia. }
  split.
  { intros -> Hn.
    assert (1 <= IZR (Z.of_nat npairs) * 1)%R as Hone.
    { rewrite Rmult_1_r. apply IZR_le. lia. }
    destruct (fraction_of_pairs fmul npairs 1 Hr Hmax ltac:(lra) Hone)
      as (n & -> & _ & Hb).
    rewrite Rmult_1_r in Hb. f_equal.
    assert (n - 1 < Z.of_nat npairs)
        by (apply lt_IZR; rewrite minus_IZR; lra).
    assert (Z.of_nat npairs < n + 1)
        by (apply lt_IZR; rewrite plus_IZR; lra).
    lia. }
  split.
  { intros k Hk ->. unfold diff_sites_init.
    assert (Rltb 1 (IZR k) = true) as ->
        by (apply Rltb_true; apply IZR_lt; lia).
    rewrite double_to_int_in_range by (rewrite trunc_IZR; lia).
    rewrite trunc_IZR.
    destruct (Z.leb_spec k 0); [lia |].
    destruct (Z.ltb_spec (Z.of_nat npairs) k); f_equal; lia. }
  intros k Hk ->. unfold diff_sites_init.
  assert (Rltb 1 (IZR k) = true) as ->
      by (apply Rltb_true; apply IZR_lt; unfold INT_MAX in Hk; lia).
  rewrite double_to_int_out_of_range by (rewrite trunc_IZR; lia).
  done.
Qed.

Lemma diff_sites_init_threshold_witness :
  rounds Rmult /\ Z.of_nat 3 <= INT_MAX
  /\ diff_sites_init Rmult 3 1 = Ready 3
  /\ diff_sites_init Rmult 3 (IZR 2) = Ready 2
  /\ diff_sites_init Rmult 3 (IZR 10000000000)
     = Fail (Sites_too_low (- 2 ^ 31)).
Proof.
  assert (Z.of_nat 3 <= INT_MAX) as Hmax by (vm_compute; discriminate).
  destruct (diff_sites_init_threshold Rmult 3 1 rounds_exact Hmax)
    as (_ & _ & _ & H1 & _).
  destruct (diff_sites_init_threshold Rmult 3 (IZR 2) rounds_exact Hmax)
    as (_ & _ & _ & _ & H2 & _).
  destruct (diff_sites_init_threshold Rmult 3 (IZR 10000000000)
              rounds_exact Hmax) as (_ & _ & _ & _ & _ & H3).
  split; [exact rounds_exact |]. split; [exact Hmax |].
  split; [exact (H1 eq_refl ltac:(lia)) |].
  split; [exact (H2 2 ltac:(vm_compute; split; [reflexivity | discriminate])
                    eq_refl) |].
  exact (H3 10000000000 ltac:(reflexivity) eq_refl).
Defined.

(** ** The sample arrays *)

Lemma cmp_int_le (a b : Z) : cmp_int a b <= 0 <-> a <= b.
Proof.
  unfold cmp_int.
  destruct (Z.ltb_spec a b); destruct (Z.ltb_spec b a); lia.
Qed.

Lemma cmp_pair_le (a b : pair_t) :
  cmp_pair a b <= 0
  <-> (iqry a < iqry b)%nat \/ (iqry a = iqry b /\ (igt a <= igt b)%nat).
Proof.
  unfold cmp_pair.
  destruct (Nat.ltb_spec (iqry a) (iqry b));
    destruct (Nat.ltb_spec (iqry b) (iqry a));
    destruct (Nat.ltb_spec (igt a) (igt b));
    destruct (Nat.ltb_spec (igt b) (igt a)); lia.
Qed.

Lemma cmp_pair_eq (a b : pair_t) : cmp_pair a b = 0 <-> a = b.
Proof.
  unfold cmp_pair. destruct a as [qa ga], b as [qb gb]. cbn [iqry igt].
  destruct (Nat.ltb_spec qa qb); destruct (Nat.ltb_spec qb qa);
    destruct (Nat.ltb_spec ga gb); destruct (Nat.ltb_spec gb ga);
    split; intros Heq; try lia; try (injection Heq; lia).
  f_equal; lia.
Qed.

Lemma StronglySorted_map {A B : Type} (R : B -> B -> Prop) (f : A -> B)
    (l : list A) :
  StronglySorted (fun a b => R (f a) (f b)) l -> StronglySorted R (map f l).
Proof.
  induction 1 as [| x l Hs IH Hx]; cbn [map]; constructor; [done |].
  apply List.Forall_map. exact Hx.
Qed.

Lemma qsort_int_sorted (l : list Z) :
  StronglySorted Z.le (qsort cmp_int l).
Proof.
  apply (StronglySorted_impl (fun a b => cmp_int a b <= 0)).
  { intros a b. by rewrite cmp_int_le. }
  apply extsort_sort_sorted.
  - intros a b. rewrite !cmp_int_le. lia.
  - intros a b c. rewrite !cmp_int_le. lia.
Qed.

Lemma qsort_pair_sorted (l : list pair_t) :
  StronglySorted (fun a b => cmp_pair a b <= 0) (qsort cmp_pair l).
Proof.
  apply extsort_sort_sorted.
  - intros a b. rewrite !cmp_pair_le. lia.
  - intros a b c. rewrite !cmp_pair_le. lia.
Qed.

Lemma sample_ids_Ready (hdr : bcf_hdr_t) (names : list cstring) :
  forall ids : list Z,
    sample_ids hdr names = Ready ids ->
    ids = map (hdr_sample_id hdr) names /\ Forall (fun i => 0 <= i) ids.
Proof.
  induction names as [| name rest IH]; intros ids; cbn [sample_ids].
  - intros [= <-]. by split.
  - destruct (Z.ltb_spec (hdr_sample_id hdr name) 0) as [| Hge]; [done |].
    intros H. apply bind_Ready in H as (ids' & Hids & [= <-]).
    destruct (IH ids' Hids) as [-> Hall]. split; [done |].
    by constructor.
Qed.

Lemma sample_ids_Fail (hdr : bcf_hdr_t) (names : list cstring)
    (e : init_error) :
  sample_ids hdr names = Fail e ->
  exists (known : list cstring) (name : cstring) (rest : list cstring),
    names = known ++ name :: rest /\ e = No_such_sample name
    /\ hdr_sample_id hdr name < 0
    /\ Forall (fun n => 0 <= hdr_sample_id hdr n) known.
Proof.
  induction names as [| name rest IH]; cbn [sample_ids]; [done |].
  destruct (Z.ltb_spec (hdr_sample_id hdr name) 0) as [Hlt | Hge].
  - intros [= <-]. by exists [], name, rest.
  - destruct (sample_ids hdr rest) as [ids |] eqn:Hrest; cbn [bind]; [done |].
    intros [= <-]. destruct (IH eq_refl) as (known & n & r & -> & He & Hn & Hk).
    exists (name :: known), n, r. repeat split; try done. by constructor.
Qed.

Lemma read_samples_length (hdr : bcf_hdr_t) (tmp : option (list cstring))
    (l : list nat) :
  read_samples hdr tmp = Ready l -> (1 <= length l)%nat.
Proof.
  unfold read_samples. destruct tmp as [[| n0 names] |]; [done | | done].
  intros H. apply bind_Ready in H as (ids & Hids & [= <-]).
  destruct (sample_ids_Ready _ _ _ Hids) as [-> _].
  rewrite length_map. unfold qsort.
  rewrite (Permutation_length (extsort_sort_perm cmp_int _)), length_map.
  cbn [length]. lia.
Qed.

(** A list of samples given with [-s] or [-S]. The run stops with "Failed
    to parse" when the list cannot be read or is empty, and with "No such
    sample" at the first name the header does not know. Otherwise the
    array holds the index of each name given, duplicates included, in
    ascending order of the index, and every index is one of the header. *)
Theorem sample_list_sorted (hdr : bcf_hdr_t) (tmp : option (list cstring)) :
  (forall l : list nat,
      read_samples hdr tmp = Ready l ->
      exists names : list cstring,
        tmp = Some names /\ names <> []
        /\ Forall (fun n => 0 <= hdr_sample_id hdr n) names
        /\ Permutation l (map (fun n => Z.to_nat (hdr_sample_id hdr n)) names)
        /\ StronglySorted le l
        /\ ((forall n : cstring,
                hdr_sample_id hdr n < Z.of_nat (hdr_nsamples hdr)) ->
            Forall (fun i => (i < hdr_nsamples hdr)%nat) l))
  /\ (tmp = None \/ tmp = Some [] -> read_samples hdr tmp = Fail Failed_to_parse)
  /\ (forall e : init_error,
         read_samples hdr tmp = Fail e ->
         e = Failed_to_parse
         \/ exists (known : list cstring) (name : cstring)
                   (rest : list cstring),
              tmp = Some (known ++ name :: rest) /\ e = No_such_sample name
              /\ hdr_sample_id hdr name < 0
              /\ Forall (fun n => 0 <= hdr_sample_id hdr n) known).
Proof.
  split.
  { intros l H. unfold read_samples in H.
    destruct tmp as [[| n0 names] |]; [done | | done].
    apply bind_Ready in H as (ids & Hids & [= <-]).
    destruct (sample_ids_Ready _ _ _ Hids) as [-> Hall].
    exists (n0 :: names). split; [done |]. split; [done |].
    split; [exact (proj1 (List.Forall_map _ _ _) Hall) |].
    split.
    { rewrite <- (map_map (hdr_sample_id hdr) Z.to_nat).
      apply Permutation_map. apply extsort_sort_perm. }
    split.
    { apply StronglySorted_map.
      apply (StronglySorted_impl Z.le); [intros a b; lia |].
      apply qsort_int_sorted. }
    intros Hhdr. apply List.Forall_map.
    apply (Permutation_Forall
             (Permutation_sym (extsort_sort_perm cmp_int _))).
    apply List.Forall_map.
    eapply List.Forall_impl;
      [| exact (proj1 (List.Forall_map _ _ _) Hall)].
    intros n Hn. cbn beta in Hn. specialize (Hhdr n). lia. }
  split.
  { by intros [-> | ->]. }
  intros e H. unfold read_samples in H.
  destruct tmp as [[| n0 names] |];
    [injection H as <-; by left | | injection H as <-; by left].
  destruct (sample_ids hdr (n0 :: names)) as [ids |] eqn:Hids; [done |].
  cbn [bind] in H. injection H as <-. right.
  destruct (sample_ids_Fail _ _ _ Hids) as (known & name & rest & E & H').
  exists known, name, rest. by rewrite E.
Qed.

(** ** The list of pairs *)

Lemma span_while_spec (f : Ascii.ascii -> bool) (s : cstring) :
  s = fst (span_while f s) ++ snd (span_while f s)
  /\ Forall (fun c => f c = true) (fst (span_while f s))
  /\ (forall (c : Ascii.ascii) (rest : cstring),
         snd (span_while f s) = c :: rest -> f c = false).
Proof.
  induction s as [| c s (IH1 & IH2 & IH3)]; cbn [span_while].
  - by repeat split.
  - destruct (f c) eqn:Hc.
    + destruct (span_while f s) as [k r]. cbn [fst snd] in *.
      split; [cbn [app]; by rewrite <- IH1 |].
      split; [by constructor | done].
    + cbn [fst snd]. split; [done |]. split; [done |].
      by intros c' rest [= <- _].
Qed.

Lemma span_while_all (f : Ascii.ascii -> bool) (s rest : cstring) :
  Forall (fun c => f c = true) s ->
  (forall (c : Ascii.ascii) (r : cstring), rest = c :: r -> f c = false) ->
  span_while f (s ++ rest) = (s, rest).
Proof.
  intros Hs Hrest. induction Hs as [| c s Hc _ IH]; cbn [app span_while].
  - destruct rest as [| c r]; [done |]. cbn [span_while].
    by rewrite (Hrest c r eq_refl).
  - by rewrite Hc, IH.
Qed.

(** A line of a file of pairs ([-P]) is split at its first white space: the
    query name is what precedes it and the genotype name what follows the
    whole run of white space, up to the end of the line, further columns
    included. A line without white space cannot be parsed. A query name
    without white space, joined by a run of white space to a name that
    does not start with one, is split into the two names. *)
Theorem pair_line_split (line : cstring) :
  (split_pair_line line = None
   <-> Forall (fun c => isspace c = false) line)
  /\ (forall a b : cstring,
         split_pair_line line = Some (a, b) ->
         exists ws : cstring,
           line = a ++ ws ++ b /\ ws <> []
           /\ Forall (fun c => isspace c = true) ws
           /\ Forall (fun c => isspace c = false) a
           /\ (forall (c : Ascii.ascii) (r : cstring),
                  b = c :: r -> isspace c = false))
  /\ (forall (a ws b : cstring),
         line = a ++ ws ++ b ->
         Forall (fun c => isspace c = false) a ->
         ws <> [] -> Forall (fun c => isspace c = true) ws ->
         (forall (c : Ascii.ascii) (r : cstring),
             b = c :: r -> isspace c = false) ->
         split_pair_line line = Some (a, b)).
Proof.
  unfold split_pair_line.
  destruct (span_while_spec (fun c => negb (isspace c)) line)
    as (Hline & Hname & Hptr).
  destruct (span_while (fun c => negb (isspace c)) line) as [name ptr] eqn:Hsp.
  cbn [fst snd] in *.
  assert (Forall (fun c => isspace c = false) name) as Hname'.
  { eapply List.Forall_impl; [| exact Hname]. intros c Hc. cbn beta in Hc.
    by apply negb_true_iff in Hc. }
  split.
  { destruct ptr as [| c ptr].
    - split; [intros _ | done]. by rewrite Hline, app_nil_r.
    - split; [done |]. intros Hall. exfalso.
      rewrite Hline in Hall. apply Forall_app in Hall as [_ Hall].
      inversion Hall as [| ? ? Hc _]; subst.
      specialize (Hptr c ptr eq_refl). apply negb_false_iff in Hptr.
      congruence. }
  split.
  { intros a b. destruct ptr as [| c ptr]; [done |]. intros [= <- <-].
    destruct (span_while_spec isspace ptr) as (Hp & Hws & Hb).
    exists (c :: fst (span_while isspace ptr)).
    split; [cbn [app]; by rewrite <- Hp |]. split; [done |].
    split.
    { constructor; [| done]. specialize (Hptr c ptr eq_refl).
      by apply negb_false_iff in Hptr. }
    split; [done | done]. }
  intros a ws b Heq Ha Hne Hws Hb.
  destruct ws as [| w ws]; [done |].
  pose proof (List.Forall_inv Hws) as Hw.
  pose proof (List.Forall_inv_tail Hws) as Hws'. cbn beta in Hw.
  rewrite Heq in Hsp.
  rewrite (span_while_all (fun c => negb (isspace c)) a ((w :: ws) ++ b))
    in Hsp.
  - injection Hsp as <- <-. cbn [app].
    by rewrite (span_while_all isspace ws b Hws' Hb).
  - eapply List.Forall_impl; [| exact Ha]. intros c Hc. cbn beta in *.
    by rewrite Hc.
  - intros c r [= <- _]. by rewrite Hw.
Qed.

Lemma pairs_of_list_length (qry_hdr gt_hdr : bcf_hdr_t) (names : list cstring) :
  (forall ps : list pair_t,
      pairs_of_list qry_hdr gt_hdr names = Ready ps ->
      length ps = (length names / 2)%nat)
  /\ (forall (a : cstring) (ps : list pair_t),
         pairs_of_list qry_hdr gt_hdr (a :: names) = Ready ps ->
         length ps = (length (a :: names) / 2)%nat).
Proof.
  induction names as [| b names [IH1 IH2]].
  - split; [by intros ps [= <-] | by intros a ps [= <-]].
  - split; [apply IH2 |]. intros a ps. cbn [pairs_of_list].
    destruct (hdr_sample_id qry_hdr a <? 0); [done |].
    destruct (hdr_sample_id gt_hdr b <? 0); [done |].
    intros H. apply bind_Ready in H as (ps' & Hps & [= <-]).
    cbn [length]. rewrite (IH1 ps' Hps).
    replace (S (S (length names))) with (length names + 1 * 2)%nat by lia.
    rewrite Nat.div_add by done. lia.
Qed.

Lemma pairs_of_file_length (qry_hdr gt_hdr : bcf_hdr_t)
    (names : list cstring) :
  forall ps : list pair_t,
    pairs_of_file qry_hdr gt_hdr names = Ready ps ->
    length ps = length names.
Proof.
  induction names as [| line names IH]; intros ps; cbn [pairs_of_file].
  - by intros [= <-].
  - destruct (split_pair_line line) as [[a b] |]; [| done].
    destruct (hdr_sample_id qry_hdr a <? 0); [done |].
    destruct (hdr_sample_id gt_hdr b <? 0); [done |].
    intros H. apply bind_Ready in H as (ps' & Hps & [= <-]).
    cbn [length]. by rewrite (IH ps' Hps).
Qed.

Lemma read_pairs_length (is_file : bool) (qry_hdr gt_hdr : bcf_hdr_t)
    (tmp : option (list cstring)) (ps : list pair_t) :
  read_pairs is_file qry_hdr gt_hdr tmp = Ready ps -> (1 <= length ps)%nat.
Proof.
  unfold read_pairs. destruct tmp as [[| n0 names] |]; [done | | done].
  destruct (negb is_file && negb (length (n0 :: names) mod 2 =? 0)%nat)
    eqn:Hodd; [done |].
  intros H. apply bind_Ready in H as (ps0 & Hps & [= <-]). unfold qsort.
  rewrite (Permutation_length (extsort_sort_perm cmp_pair ps0)).
  destruct is_file.
  - apply pairs_of_file_length in Hps. rewrite Hps. cbn [length]. lia.
  - apply (proj1 (pairs_of_list_length qry_hdr gt_hdr _)) in Hps.
    cbn [negb andb] in Hodd. apply negb_false_iff, Nat.eqb_eq in Hodd.
    rewrite Hps. cbn [length] in *.
    destruct names as [| n1 names]; [done |]. cbn [length].
    replace (S (S (length names))) with (length names + 1 * 2)%nat by lia.
    rewrite Nat.div_add by done. lia.
Qed.

(** The pairs of a comma-separated list with an even number of names: the
    names two by two, the first of each two looked up in the query header
    and the second in the genotype header. *)
Lemma pairs_of_list_spec (qry_hdr gt_hdr : bcf_hdr_t) (names : list cstring) :
  (forall ps : list pair_t,
      (length names mod 2 = 0)%nat ->
      pairs_of_list qry_hdr gt_hdr names = Ready ps ->
      exists raw : list (cstring * cstring),
        names = flat_map (fun ab => [fst ab; snd ab]) raw
        /\ Forall (fun ab => 0 <= hdr_sample_id qry_hdr (fst ab)
                             /\ 0 <= hdr_sample_id gt_hdr (snd ab)) raw
        /\ ps = map (fun ab =>
                       {| iqry := Z.to_nat (hdr_sample_id qry_hdr (fst ab));
                          igt := Z.to_nat (hdr_sample_id gt_hdr (snd ab)) |})
                    raw)
  /\ (forall (a : cstring) (ps : list pair_t),
         (length (a :: names) mod 2 = 0)%nat ->
         pairs_of_list qry_hdr gt_hdr (a :: names) = Ready ps ->
         exists raw : list (cstring * cstring),
           a :: names = flat_map (fun ab => [fst ab; snd ab]) raw
           /\ Forall (fun ab => 0 <= hdr_sample_id qry_hdr (fst ab)
                                /\ 0 <= hdr_sample_id gt_hdr (snd ab)) raw
           /\ ps = map (fun ab =>
                          {| iqry := Z.to_nat (hdr_sample_id qry_hdr (fst ab));
                             igt := Z.to_nat (hdr_sample_id gt_hdr (snd ab)) |})
                       raw).
Proof.
  induction names as [| b names [IH1 IH2]].
  - split; [| by intros a ps Hodd].
    intros ps _ [= <-]. by exists [].
  - split; [apply IH2 |]. intros a ps Heven. cbn [pairs_of_list].
    destruct (Z.ltb_spec (hdr_sample_id qry_hdr a) 0) as [| Ha]; [done |].
    destruct (Z.ltb_spec (hdr_sample_id gt_hdr b) 0) as [| Hb]; [done |].
    intros H. apply bind_Ready in H as (ps' & Hps & [= <-]).
    assert (length names mod 2 = 0)%nat as Heven'.
    { cbn [length] in Heven.
      replace (S (S (length names))) with (length names + 1 * 2)%nat
        in Heven by lia.
      by rewrite Nat.Div0.mod_add in Heven. }
    destruct (IH1 ps' Heven' Hps) as (raw & Hn & Hall & ->).
    exists ((a, b) :: raw). cbn [flat_map map fst snd app].
    split; [by rewrite <- Hn |]. split; [by constructor | done].
Qed.

(** The pairs of a file: each line split in its two names. *)
Lemma pairs_of_file_spec (qry_hdr gt_hdr : bcf_hdr_t) (names : list cstring) :
  forall ps : list pair_t,
    pairs_of_file qry_hdr gt_hdr names = Ready ps ->
    exists raw : list (cstring * cstring),
      Forall2 (fun line ab => split_pair_line line = Some ab) names raw
      /\ Forall (fun ab => 0 <= hdr_sample_id qry_hdr (fst ab)
                           /\ 0 <= hdr_sample_id gt_hdr (snd ab)) raw
      /\ ps = map (fun ab =>
                     {| iqry := Z.to_nat (hdr_sample_id qry_hdr (fst ab));
                        igt := Z.to_nat (hdr_sample_id gt_hdr (snd ab)) |})
                  raw.
Proof.
  induction names as [| line names IH]; intros ps; cbn [pairs_of_file].
  - intros [= <-]. exists []. by repeat split.
  - destruct (split_pair_line line) as [[a b] |] eqn:Hsplit; [| done].
    destruct (Z.ltb_spec (hdr_sample_id qry_hdr a) 0) as [| Ha]; [done |].
    destruct (Z.ltb_spec (hdr_sample_id gt_hdr b) 0) as [| Hb]; [done |].
    intros H. apply bind_Ready in H as (ps' & Hps & [= <-]).
    destruct (IH ps' Hps) as (raw & Hn & Hall & ->).
    exists ((a, b) :: raw). cbn [map fst snd].
    split; [by constructor |]. split; [by constructor | done].
Qed.

(** The pairs given with [-p] or [-P]. A list that cannot be read or is
    empty stops the run, and so does a comma-separated list with an odd
    number of names. Otherwise the names are taken two by two from the
    list, or each line of the file is split in its two names; each pair
    holds the index of its first name in the query header and of its
    second name in the genotype header (which with one file is the query
    header), both known to the headers; and the array holds these pairs,
    each as often as it is given, sorted by the index of the query sample
    and then by that of the genotype sample. [cmp_pair] returns 0 for
    equal pairs only. *)
Theorem pair_list_sorted (is_file : bool) (qry_hdr gt_hdr : bcf_hdr_t)
    (tmp : option (list cstring)) :
  (forall ps : list pair_t,
      read_pairs is_file qry_hdr gt_hdr tmp = Ready ps ->
      exists (names : list cstring) (raw : list (cstring * cstring)),
        tmp = Some names /\ names <> []
        /\ (if is_file
            then Forall2 (fun line ab => split_pair_line line = Some ab)
                         names raw
            else names = flat_map (fun ab => [fst ab; snd ab]) raw)
        /\ Forall (fun ab => 0 <= hdr_sample_id qry_hdr (fst ab)
                             /\ 0 <= hdr_sample_id gt_hdr (snd ab)) raw
        /\ Permutation
             ps
             (map (fun ab =>
                     {| iqry := Z.to_nat (hdr_sample_id qry_hdr (fst ab));
                        igt := Z.to_nat (hdr_sample_id gt_hdr (snd ab)) |})
                  raw)
        /\ length ps = (if is_file then length names
                        else length names / 2)%nat
        /\ (is_file = false -> (length names mod 2 = 0)%nat)
        /\ StronglySorted
             (fun a b => (iqry a < iqry b)%nat
                         \/ (iqry a = iqry b /\ (igt a <= igt b)%nat)) ps)
  /\ (forall names : list cstring,
         tmp = Some names -> is_file = false ->
         (length names mod 2 = 1)%nat ->
         read_pairs is_file qry_hdr gt_hdr tmp = Fail Odd_pairs)
  /\ (tmp = None \/ tmp = Some [] ->
      read_pairs is_file qry_hdr gt_hdr tmp = Fail Failed_to_parse)
  /\ (forall a b : pair_t, cmp_pair a b = 0 <-> a = b)
  /\ (forall a b : pair_t, cmp_pair b a = - cmp_pair a b).
Proof.
  split.
  { intros ps H. unfold read_pairs in H.
    destruct tmp as [[| n0 names] |]; [done | | done].
    destruct (negb is_file && negb (length (n0 :: names) mod 2 =? 0)%nat)
      eqn:Hodd; [done |].
    apply bind_Ready in H as (ps0 & Hps & [= <-]).
    assert (is_file = false -> (length (n0 :: names) mod 2 = 0)%nat)
      as Heven.
    { intros ->. cbn [negb andb] in Hodd.
      apply negb_false_iff in Hodd. by apply Nat.eqb_eq in Hodd. }
    assert (exists raw : list (cstring * cstring),
               (if is_file
                then Forall2 (fun line ab => split_pair_line line = Some ab)
                             (n0 :: names) raw
                else n0 :: names = flat_map (fun ab => [fst ab; snd ab]) raw)
               /\ Forall (fun ab => 0 <= hdr_sample_id qry_hdr (fst ab)
                                    /\ 0 <= hdr_sample_id gt_hdr (snd ab)) raw
               /\ ps0 = map (fun ab =>
                               {| iqry := Z.to_nat
                                            (hdr_sample_id qry_hdr (fst ab));
                                  igt := Z.to_nat
                                           (hdr_sample_id gt_hdr (snd ab)) |})
                            raw) as (raw & Hraw & Hids & Hps0).
    { destruct is_file.
      - by apply pairs_of_file_spec.
      - apply (proj1 (pairs_of_list_spec qry_hdr gt_hdr _));
          [by apply Heven | done]. }
    exists (n0 :: names), raw. split; [done |]. split; [done |].
    split; [done |]. split; [done |].
    split.
    { unfold qsort. rewrite <- Hps0. apply extsort_sort_perm. }
    split.
    { unfold qsort.
      rewrite (Permutation_length (extsort_sort_perm cmp_pair ps0)).
      destruct is_file.
      - by apply pairs_of_file_length in Hps.
      - by apply (proj1 (pairs_of_list_length qry_hdr gt_hdr _)) in Hps. }
    split.
    { intros ->. cbn [negb andb] in Hodd.
      apply negb_false_iff in Hodd. by apply Nat.eqb_eq in Hodd. }
    apply (StronglySorted_impl (fun a b => cmp_pair a b <= 0)).
    { intros a b. by rewrite cmp_pair_le. }
    apply qsort_pair_sorted. }
  split.
  { intros names -> -> Hodd. unfold read_pairs.
    destruct names as [| n0 names]; [done |].
    rewrite Hodd. done. }
  split.
  { by intros [-> | ->]. }
  split; [apply cmp_pair_eq |].
  intros a b. unfold cmp_pair.
  destruct (Nat.ltb_spec (iqry a) (iqry b));
    destruct (Nat.ltb_spec (iqry b) (iqry a));
    destruct (Nat.ltb_spec (igt a) (igt b));
    destruct (Nat.ltb_spec (igt b) (igt a)); lia.
Qed.

(** ** The modes of a run *)

Lemma nonzero_spec (x : R) : nonzero x = true <-> x <> 0%R.
Proof.
  unfold nonzero. rewrite orb_true_iff, !Rltb_true. lra.
Qed.

Lemma nonzero_0 : nonzero 0 = false.
Proof.
  destruct (nonzero 0) eqn:E; [| done]. apply nonzero_spec in E. lra.
Qed.

Lemma check_args_Ready (args : args_t) (u : unit) :
  check_args args = Ready u ->
  (given (arg_pair_samples args) = true ->
   arg_gt_samples args = None /\ arg_qry_samples args = None
   /\ arg_ntop args = 0)
  /\ (nonzero (arg_distinctive_sites args) = true ->
      given (arg_pair_samples args) = true)
  /\ (arg_hom_only args = true -> arg_gt_fname args = true).
Proof.
  unfold check_args.
  destruct (given (arg_pair_samples args)); cbn [andb negb].
  - destruct (arg_gt_samples args), (arg_qry_samples args); cbn; try done.
    destruct (Z.eqb_spec (arg_ntop args) 0); cbn [negb]; [| done].
    rewrite andb_false_r.
    destruct (arg_hom_only args), (arg_gt_fname args); cbn; try done.
  - rewrite andb_true_r.
    destruct (nonzero (arg_distinctive_sites args)); [done |].
    destruct (arg_hom_only args), (arg_gt_fname args); cbn; try done.
Qed.

Lemma triangle_positive (n : nat) : (1 <= n)%nat -> (1 <= n * (n + 1) / 2)%nat.
Proof.
  intros Hn. apply Nat.div_str_pos. nia.
Qed.

(** The five ways through "Prepare samples". *)
Lemma prepare_samples_Ready (args : args_t) (qry_hdr gt_hdr : bcf_hdr_t)
    (nqry : nat) (qs : option (list nat)) (s : samples_t) :
  (1 <= nqry)%nat ->
  (arg_gt_fname args = true -> hdr_nsamples gt_hdr <> 0%nat) ->
  prepare_samples args qry_hdr gt_hdr nqry qs = Ready s ->
  (s_pairs s = None -> (1 <= s_ngt_smpl s)%nat)
  /\ (forall ps : list pair_t,
         s_pairs s = Some ps ->
         arg_gt_fname args = false /\ given (arg_pair_samples args) = true
         /\ s_cross_check s = false /\ s_gt_smpl s = None
         /\ (1 <= length ps)%nat)
  /\ (s_cross_check s = true ->
      arg_gt_fname args = false /\ arg_gt_samples args = None
      /\ arg_pair_samples args = None /\ s_pairs s = None
      /\ s_ngt_smpl s = nqry /\ s_gt_smpl s = qs)
  /\ (arg_gt_fname args = true ->
      s_pairs s = None /\ s_cross_check s = false).
Proof.
  intros Hnq Hng. unfold prepare_samples.
  destruct (arg_gt_fname args) eqn:Hgt.
  - destruct (arg_gt_samples args) as [tmp |].
    + intros H. apply bind_Ready in H as (l & Hl & [= <-]). cbn.
      pose proof (read_samples_length _ _ _ Hl).
      split; [by intros _ |]. split; [done |]. split; [done |]. done.
    + intros [= <-]. cbn. specialize (Hng eq_refl).
      split; [intros _; lia |]. split; [done |]. split; [done |]. done.
  - destruct (arg_gt_samples args) as [tmp |].
    + intros H. apply bind_Ready in H as (l & Hl & [= <-]). cbn.
      pose proof (read_samples_length _ _ _ Hl).
      split; [by intros _ |]. split; [done |]. split; [done |]. done.
    + destruct (arg_pair_samples args) as [tmp |].
      * intros H. apply bind_Ready in H as (ps & Hps & [= <-]). cbn.
        pose proof (read_pairs_length _ _ _ _ _ Hps).
        split; [done |]. split; [| split; done].
        intros ps' [= <-]. repeat (split; [done |]). done.
      * intros [= <-]. cbn.
        split; [by intros _ |]. split; [done |]. split; [| done].
        intros _. repeat (split; [done |]). done.
Qed.

Lemma npairs_positive (cfg : config) :
  (1 <= nqry_smpl cfg)%nat ->
  (pairs cfg = None -> (1 <= ngt_smpl cfg)%nat) ->
  (forall ps : list pair_t, pairs cfg = Some ps -> (1 <= length ps)%nat) ->
  (1 <= npairs cfg)%nat.
Proof.
  intros Hq Hg Hp. unfold npairs. destruct (pairs cfg) as [ps |].
  - by apply Hp.
  - specialize (Hg eq_refl). destruct (cross_check cfg).
    + by apply triangle_positive.
    + nia.
Qed.

Lemma set_up_inv (fmul : R -> R -> R) (args : args_t)
    (qry_hdr gt_hdr : bcf_hdr_t) (cfg : config) :
  set_up fmul args qry_hdr gt_hdr = Ready cfg ->
  (two_files cfg = false -> gt_use_GT cfg = qry_use_GT cfg)
  /\ (cross_check cfg = true ->
      two_files cfg = false /\ pairs cfg = None
      /\ ngt_smpl cfg = nqry_smpl cfg /\ gt_smpl cfg = qry_smpl cfg
      /\ distinctive_sites cfg = 0)
  /\ (forall ps : list pair_t,
         pairs cfg = Some ps ->
         two_files cfg = false /\ cross_check cfg = false
         /\ ntop cfg = 0%nat /\ qry_smpl cfg = None /\ gt_smpl cfg = None
         /\ hom_only cfg = false /\ ps <> [])
  /\ (two_files cfg = true -> pairs cfg = None /\ cross_check cfg = false)
  /\ (hom_only cfg = true -> two_files cfg = true)
  /\ (distinctive_sites cfg <> 0 ->
      1 <= distinctive_sites cfg <= Z.of_nat (npairs cfg)
      /\ given (arg_pair_samples args) = true)
  /\ (1 <= nqry_smpl cfg)%nat
  /\ (pairs cfg = None -> (1 <= ngt_smpl cfg)%nat)
  /\ (1 <= npairs cfg)%nat.
Proof.
  intros H. unfold set_up in H. apply bind_Ready in H as (u & Hchk & Hinit).
  destruct (check_args_Ready _ _ Hchk) as (Cp & Cd & Ch).
  destruct (init_data_inv _ _ _ _ _ Hinit)
    as (q & g & qs & s & ds & Hnq & Hng & Hq & Hg & Hqs & Hs & Hds & ->).
  assert (1 <= nqry_of qry_hdr qs)%nat as Hnqry.
  { destruct (arg_qry_samples args) as [tmp |].
    - destruct Hqs as (l & Hl & ->). cbn. by apply read_samples_length in Hl.
    - rewrite Hqs. cbn. lia. }
  destruct (prepare_samples_Ready _ _ _ _ _ _ Hnqry Hng Hs)
    as (P1 & P2 & P3 & P4).
  assert (forall z : Z,
             (1 <= npairs (make_config args qry_hdr gt_hdr q g qs s z))%nat)
    as Hnp.
  { intros z. apply npairs_positive; cbn [make_config nqry_smpl ngt_smpl pairs];
      [done | done |].
    intros ps Hps. by destruct (P2 ps Hps) as (_ & _ & _ & _ & Hlen). }
  cbn [make_config two_files gt_use_GT qry_use_GT cross_check pairs ngt_smpl
       nqry_smpl gt_smpl qry_smpl distinctive_sites ntop hom_only].
  split.
  { intros Hgt. rewrite Hgt in Hg. by injection Hg as <-. }
  split.
  { intros Hc. destruct (P3 Hc) as (E1 & E2 & E3 & E4 & E5 & E6).
    repeat (split; [done |]).
    destruct (nonzero (arg_distinctive_sites args)) eqn:Hnz.
    - specialize (Cd eq_refl). by rewrite E3 in Cd.
    - by injection Hds as <-. }
  split.
  { intros ps Hps. destruct (P2 ps Hps) as (E1 & E2 & E3 & E4 & E5).
    destruct (Cp E2) as (F1 & F2 & F3).
    split; [done |]. split; [done |]. split; [by rewrite F3 |].
    split; [by rewrite F2 in Hqs |]. split; [done |].
    split.
    { destruct (arg_hom_only args) eqn:Hh; [| done].
      specialize (Ch eq_refl). congruence. }
    intros ->. cbn in E5. lia. }
  split; [done |]. split; [done |].
  split.
  { intros Hne. destruct (nonzero (arg_distinctive_sites args)) eqn:Hnz.
    - split; [| by apply Cd].
      apply (diff_sites_init_bounds _ _ _ _ (Hnp 0)) in Hds.
      exact Hds.
    - by injection Hds as <-. }
  split; [done |]. split; [done |]. apply Hnp.
Qed.

(** What holds of every run that gets past the checks of the options and
    [init_data]. With one file both sides read the same tag. A
    cross-check is a run with one file, no [-s gt:] and no pairs; it
    compares the query samples with themselves and has no distinctive
    sites. Explicit pairs are used with one file only (with [-g] the list
    given with [-p] is not read and the whole matrix is compared), never
    with [--n-matches], sample lists or [--homs-only]. [--homs-only] needs
    two files. A threshold of distinctive sites is between 1 and the
    number of pairs. There is at least one query sample, one genotype
    sample (or one pair), and one accumulator. *)
Theorem run_modes (fmul : R -> R -> R) (args : args_t)
    (qry_hdr gt_hdr : bcf_hdr_t) (cfg : config) :
  set_up fmul args qry_hdr gt_hdr = Ready cfg ->
  (two_files cfg = false -> gt_use_GT cfg = qry_use_GT cfg)
  /\ (cross_check cfg = true ->
      two_files cfg = false /\ pairs cfg = None
      /\ ngt_smpl cfg = nqry_smpl cfg /\ gt_smpl cfg = qry_smpl cfg
      /\ distinctive_sites cfg = 0)
  /\ (forall ps : list pair_t,
         pairs cfg = Some ps ->
         two_files cfg = false /\ cross_check cfg = false
         /\ ntop cfg = 0%nat /\ qry_smpl cfg = None /\ gt_smpl cfg = None
         /\ hom_only cfg = false /\ ps <> [])
  /\ (two_files cfg = true -> pairs cfg = None /\ cross_check cfg = false)
  /\ (hom_only cfg = true -> two_files cfg = true)
  /\ (distinctive_sites cfg <> 0 ->
      1 <= distinctive_sites cfg <= Z.of_nat (npairs cfg)
      /\ given (arg_pair_samples args) = true)
  /\ (1 <= nqry_smpl cfg)%nat
  /\ (pairs cfg = None -> (1 <= ngt_smpl cfg)%nat)
  /\ (1 <= npairs cfg)%nat.
Proof. apply set_up_inv. Qed.

(** ** Two runs set up *)

Example set_up_cross_check (fmul : R -> R -> R) :
  set_up fmul args_plain hdr_AB hdr_AB = Ready cfg_cross2.
Proof.
  unfold set_up, check_args, init_data, args_plain.
  cbn [arg_gt_fname arg_qry_use_GT arg_gt_use_GT arg_qry_samples
       arg_gt_samples arg_pair_samples arg_pair_samples_is_file arg_ntop
       arg_sort_by_hwe arg_hom_only arg_calc_hwe_prob arg_dry_run
       arg_distinctive_sites arg_rand given andb orb negb].
  rewrite nonzero_0. reflexivity.
Qed.

Example set_up_pair_file (fmul : R -> R -> R) :
  set_up fmul args_pair_file hdr_AB hdr_AB = Ready cfg_pair_file.
Proof.
  unfold set_up, check_args, init_data, args_pair_file.
  cbn [arg_gt_fname arg_qry_use_GT arg_gt_use_GT arg_qry_samples
       arg_gt_samples arg_pair_samples arg_pair_samples_is_file arg_ntop
       arg_sort_by_hwe arg_hom_only arg_calc_hwe_prob arg_dry_run
       arg_distinctive_sites arg_rand given andb orb negb].
  rewrite nonzero_0. reflexivity.
Qed.

Lemma init_data_cross_check (fmul : R -> R -> R) :
  init_data fmul args_plain hdr_AB hdr_AB = Ready cfg_cross2.
Proof.
  unfold init_data, args_plain.
  cbn [arg_gt_fname arg_qry_use_GT arg_gt_use_GT arg_qry_samples
       arg_gt_samples arg_pair_samples arg_pair_samples_is_file arg_ntop
       arg_sort_by_hwe arg_hom_only arg_calc_hwe_prob arg_dry_run
       arg_distinctive_sites arg_rand given andb orb negb].
  rewrite nonzero_0. reflexivity.
Defined.

Lemma tags_in_use_are_declared_witness :
  init_data Rmult args_plain hdr_AB hdr_AB = Ready cfg_cross2
  /\ (if qry_use_GT cfg_cross2 then hdr_has_GT hdr_AB else hdr_has_PL hdr_AB)
     = true
  /\ (arg_gt_fname args_plain = false ->
      gt_use_GT cfg_cross2 = qry_use_GT cfg_cross2)
  /\ (arg_qry_use_GT args_plain = -1 ->
      qry_use_GT cfg_cross2 = negb (hdr_has_PL hdr_AB)).
Proof.
  split; [exact (init_data_cross_check Rmult) |].
  destruct (tags_in_use_are_declared Rmult args_plain hdr_AB hdr_AB
              cfg_cross2 (init_data_cross_check Rmult))
    as (H1 & _ & H2 & H3 & _).
  split; [exact H1 |]. split; [exact H2 | exact H3].
Defined.

Lemma run_modes_witness :
  set_up Rmult args_pair_file hdr_AB hdr_AB = Ready cfg_pair_file
  /\ (forall ps : list pair_t,
         pairs cfg_pair_file = Some ps ->
         two_files cfg_pair_file = false /\ cross_check cfg_pair_file = false
         /\ ntop cfg_pair_file = 0%nat /\ qry_smpl cfg_pair_file = None
         /\ gt_smpl cfg_pair_file = None /\ hom_only cfg_pair_file = false
         /\ ps <> []).
Proof.
  split; [exact (set_up_pair_file Rmult) |].
  destruct (run_modes Rmult args_pair_file hdr_AB hdr_AB cfg_pair_file
              (set_up_pair_file Rmult)) as (_ & _ & H & _).
  exact H.
Defined.

(** * The DC section from the lines of the input *)

Lemma pairs_run_accum (cfg : config) (ps : list pair_t) (ls : list line_t)
    (st : state) (p : nat) :
  pairs cfg = Some ps -> dry_run cfg = false ->
  main_loop cfg (init_state cfg) ls = Done st ->
  (p < length ps)%nat ->
  accum st p
  = run_accum cfg (fun l => pair_outcome cfg ps l p)
              (fun l => match_score cfg l
                          (iqry (ps !!! p) * block_len (qry_use_GT cfg)))
              ls (accum (init_state cfg) p).
Proof.
  intros Hps Hdry Hrun Hp.
  apply (main_loop_run cfg p _ _ Hdry); [| apply allocated_init | done].
  intros st1 st2 l Hal Hd Hpl.
  destruct (pairs_line_step cfg ps st1 st2 l Hps Hal Hd Hpl)
    as (Hin & _ & _ & Hal2).
  split; [by apply Hin | done].
Qed.

Lemma matrix_run_accum (cfg : config) (ls : list line_t) (st : state)
    (i j : nat) :
  pairs cfg = None -> dry_run cfg = false ->
  (two_files cfg = false -> gt_use_GT cfg = qry_use_GT cfg) ->
  main_loop cfg (init_state cfg) ls = Done st ->
  (i < nqry_smpl cfg)%nat -> (j < row_width cfg i)%nat ->
  accum st (matrix_index cfg i j)
  = run_accum cfg (fun l => matrix_outcome cfg l i j)
              (fun l => match_score cfg l
                          (smpl (qry_smpl cfg) i
                           * block_len (qry_use_GT cfg)))
              ls (accum (init_state cfg) (matrix_index cfg i j)).
Proof.
  intros Hps Hdry Htag Hrun Hi Hj.
  apply (main_loop_run cfg _ _ _ Hdry); [| apply allocated_init | done].
  intros st1 st2 l Hal Hd Hpl.
  destruct (matrix_line_step cfg st1 st2 l Hps Htag Hal Hd Hpl)
    as (Hin & _ & _ & Hal2).
  split; [by apply Hin | done].
Qed.

Lemma dc_of_counted (cfg : config) (st : state) (ls : list line_t)
    (iq ig p : nat) (out : line_t -> outcome) (score : line_t -> R) :
  (p < npairs cfg)%nat ->
  accum st p = run_accum cfg out score ls (accum (init_state cfg) p) ->
  dc_of cfg st iq ig p = counted_line cfg ls iq ig out score.
Proof.
  intros Hp Hacc.
  destruct (run_from_init cfg p out score ls st Hp Hacc)
    as (H1 & H2 & H3 & _).
  unfold dc_of, counted_line. rewrite H1, H2.
  destruct (calc_hwe_prob cfg); [by rewrite H3 | done].
Qed.

Lemma report_all_lines (cfg : config) (st : state) :
  report_all cfg st = matrix_lines cfg st.
Proof.
  unfold report_all, matrix_lines. by rewrite report_outer_lines.
Qed.

Lemma flat_map_ext_seq {B : Type} (f g : nat -> list B) (l : list nat) :
  (forall a : nat, In a l -> f a = g a) -> flat_map f l = flat_map g l.
Proof.
  induction l as [| a l IH]; intros H; [done |].
  cbn [flat_map]. rewrite (H a (or_introl eq_refl)), IH; [done |].
  intros b Hb. apply H. by right.
Qed.

Lemma report_is_counted (qsort_idbl : list idbl_t -> list idbl_t)
    (cfg : config) (ls : list line_t) (st : state) :
  dry_run cfg = false ->
  (two_files cfg = false -> gt_use_GT cfg = qry_use_GT cfg) ->
  main_loop cfg (init_state cfg) ls = Done st ->
  (forall ps : list pair_t,
      pairs cfg = Some ps ->
      report qsort_idbl cfg st = Some (pairs_section cfg ps ls))
  /\ (pairs cfg = None -> trim cfg = 0%nat ->
      report qsort_idbl cfg st = Some (matrix_section cfg ls)).
Proof.
  intros Hdry Htag Hrun. split.
  - intros ps Hps. unfold report, report_pairs, pairs_section.
    assert (npairs cfg = length ps) as Hnp by (unfold npairs; by rewrite Hps).
    rewrite Hps, Hnp. f_equal.
    apply map_ext_in. intros p Hp. apply in_seq in Hp.
    apply dc_of_counted; [lia |].
    apply pairs_run_accum; try done. lia.
  - intros Hps Ht. unfold report. rewrite Hps, Ht. cbn [Nat.eqb].
    rewrite report_all_lines. unfold matrix_lines, matrix_section.
    pose proof (row_base_le_npairs cfg Hps) as Hnp. f_equal.
    apply flat_map_ext_seq. intros i Hi. apply in_seq in Hi.
    apply map_ext_in. intros j Hj. apply in_seq in Hj.
    pose proof (matrix_index_lt cfg (nqry_smpl cfg) i j ltac:(lia)
                  ltac:(lia)) as Hlt.
    apply dc_of_counted; [lia |].
    apply matrix_run_accum; try done; lia.
Qed.

(** A run from the command line to the DC section. When the run ends
    normally and is no dry run, the section it has printed is determined
    by the lines of the input. With explicit pairs there is one line for
    each pair, in the sorted order of the pairs; when all matches of the
    matrix are printed there is one line for each pair of the matrix, in
    the order of the loops. Each line shows the number of compared sites
    at which the two samples differ, the sum of the HWE scores of the
    sites at which they match, and the number of sites at which both have
    data (and the filter keeps them), the counts modulo [2^32]. Without
    [--distinctive-sites] the DS section is empty. *)
Theorem main_report (fmul : R -> R -> R)
    (qsort_idbl : list idbl_t -> list idbl_t)
    (args : args_t) (qry_hdr gt_hdr : bcf_hdr_t) (ls : list line_t)
    (cfg : config) (dc : list dc_line) (ds : list ds_line) :
  set_up fmul args qry_hdr gt_hdr = Ready cfg -> dry_run cfg = false ->
  main_vcfgtcheck fmul qsort_idbl args qry_hdr gt_hdr ls = Finished dc ds ->
  (forall ps : list pair_t,
      pairs cfg = Some ps -> dc = pairs_section cfg ps ls)
  /\ (pairs cfg = None -> trim cfg = 0%nat -> dc = matrix_section cfg ls)
  /\ (distinctive_sites cfg = 0 -> ds = []).
Proof.
  intros Hset Hdry. unfold main_vcfgtcheck. rewrite Hset.
  destruct (main_loop cfg (init_state cfg) ls) as [st |] eqn:Hrun; [| done].
  rewrite Hdry.
  destruct (set_up_inv _ _ _ _ _ Hset) as (Htag & _).
  destruct (report_is_counted qsort_idbl cfg ls st Hdry Htag Hrun)
    as [Hp Hm].
  destruct (report qsort_idbl cfg st) as [dc' |] eqn:Hrep; [| done].
  destruct (Z.eqb_spec (distinctive_sites cfg) 0) as [Hz | Hnz].
  - intros [= <- <-]. split; [| split; [| done]].
    + intros ps Hps. specialize (Hp ps Hps). congruence.
    + intros Hps Ht. specialize (Hm Hps Ht). congruence.
  - destruct (report_distinctive_sites cfg st) as [d |]; [| done].
    intros [= <- <-]. split; [| split; [| done]].
    + intros ps Hps. specialize (Hp ps Hps). congruence.
    + intros Hps Ht. specialize (Hm Hps Ht). congruence.
Qed.

Lemma main_report_witness :
  set_up Rmult args_plain hdr_AB hdr_AB = Ready cfg_cross2
  /\ dry_run cfg_cross2 = false
  /\ main_vcfgtcheck Rmult (fun l => l) args_plain hdr_AB hdr_AB two_sites
     = Finished [ {| DC_qry := 1; DC_gt := 0; DC_ndiff := 1; DC_hwe := 0%R;
                     DC_ncnt := 2 |} ] []
  /\ (pairs cfg_cross2 = None -> trim cfg_cross2 = 0%nat ->
      [ {| DC_qry := 1; DC_gt := 0; DC_ndiff := 1; DC_hwe := 0%R;
           DC_ncnt := 2 |} ] = matrix_section cfg_cross2 two_sites).
Proof.
  assert (main_vcfgtcheck Rmult (fun l => l) args_plain hdr_AB hdr_AB
                          two_sites
          = Finished [ {| DC_qry := 1; DC_gt := 0; DC_ndiff := 1;
                          DC_hwe := 0%R; DC_ncnt := 2 |} ] []) as Hmain.
  { unfold main_vcfgtcheck. rewrite set_up_cross_check. reflexivity. }
  split; [exact (set_up_cross_check Rmult) |]. split; [reflexivity |].
  split; [exact Hmain |].
  destruct (main_report Rmult (fun l => l) args_plain hdr_AB hdr_AB
              two_sites cfg_cross2 _ _ (set_up_cross_check Rmult) eq_refl
              Hmain)
    as (_ & H & _).
  exact H.
Defined.

(** ** A site record pushed and read back *)

Lemma shift_all_map (fuel : nat) (l : list diff_sites_t) :
  (length l <= fuel)%nat ->
  shift_all fuel l
  = map (fun dat => (to_int32 (ds_ndiff dat), to_int32 (ds_rid dat),
                     to_int32 (ds_pos dat), kbs_dat dat)) l.
Proof.
  revert l. induction fuel as [| fuel IH]; intros [| dat l] Hlen;
    cbn [length] in Hlen; try done; try lia.
  cbn [shift_all diff_sites_shift map]. rewrite IH by lia. done.
Qed.

(** A record that [diff_sites_push] hands to the sorter comes back from
    [diff_sites_shift] once, with the three numbers and the bit set it was
    pushed with: the calls of [diff_sites_shift] on the sorter after the
    push return what they returned before and the new record, in the order
    of the sort. The numbers are [int]s; they pass through the [uint32_t]
    fields of the record unchanged, negative ones too. *)
Theorem push_shift_round_trip (cfg : config) (st : state) (nd rid pos : Z) :
  - 2 ^ 31 <= nd < 2 ^ 31 ->
  - 2 ^ 31 <= rid < 2 ^ 31 ->
  - 2 ^ 31 <= pos < 2 ^ 31 ->
  Permutation
    (shift_all (length (es (diff_sites_push cfg nd rid pos st)))
               (extsort_sort diff_sites_cmp
                             (es (diff_sites_push cfg nd rid pos st))))
    ((nd, rid, pos, default [] (kbs_diff st))
       :: shift_all (length (es st)) (extsort_sort diff_sites_cmp (es st))).
Proof.
  intros Hnd Hrid Hpos.
  rewrite !shift_all_map
    by (rewrite (Permutation_length (extsort_sort_perm _ _)); lia).
  rewrite (extsort_sort_perm diff_sites_cmp (es st)).
  rewrite (extsort_sort_perm diff_sites_cmp
             (es (diff_sites_push cfg nd rid pos st))).
  unfold diff_sites_push, push_es. cbn [es].
  rewrite map_app. cbn [map ds_ndiff ds_rid ds_pos kbs_dat].
  rewrite !to_int32_to_uint32 by done.
  rewrite <- Permutation_cons_append. done.
Qed.

Lemma push_shift_round_trip_witness :
  - 2 ^ 31 <= 3 < 2 ^ 31
  /\ - 2 ^ 31 <= -1 < 2 ^ 31
  /\ - 2 ^ 31 <= 99 < 2 ^ 31
  /\ Permutation
       (shift_all
          (length (es (diff_sites_push cfg_cross2 3 (-1) 99 two_sites_state)))
          (extsort_sort diff_sites_cmp
             (es (diff_sites_push cfg_cross2 3 (-1) 99 two_sites_state))))
       ((3, -1, 99, default [] (kbs_diff two_sites_state))
          :: shift_all (length (es two_sites_state))
                       (extsort_sort diff_sites_cmp (es two_sites_state))).
Proof.
  assert (- 2 ^ 31 <= 3 < 2 ^ 31) as H1 by (cbn; lia).
  assert (- 2 ^ 31 <= -1 < 2 ^ 31) as H2 by (cbn; lia).
  assert (- 2 ^ 31 <= 99 < 2 ^ 31) as H3 by (cbn; lia).
  split; [exact H1 |]. split; [exact H2 |]. split; [exact H3 |].
  exact (push_shift_round_trip cfg_cross2 two_sites_state 3 (-1) 99 H1 H2 H3).
Defined.

(** ** The slower branch against the default one *)

Ltac split_ltb :=
  repeat match goal with
         | |- context [?a <? ?b] => destruct (Z.ltb_spec a b)
         end.

Lemma scan_min_fst (p : ptr) : fst (scan_min p) = MIN_PL p.
Proof.
  unfold scan_min, MIN_PL. cbn [fold_left fst].
  destruct (Z.ltb_spec (p 1%nat) (p 0%nat)); cbn [fst];
    split_ltb; cbn [fst]; lia.
Qed.

Lemma scan_min_snd (p : ptr) : p (Z.to_nat (snd (scan_min p))) = MIN_PL p.
Proof.
  unfold scan_min, MIN_PL. cbn [fold_left fst].
  destruct (Z.ltb_spec (p 1%nat) (p 0%nat)); cbn [fst];
    split_ltb; cbn [snd]; rewrite ?Nat2Z.id;
    change (Z.to_nat 0) with 0%nat; lia.
Qed.

Lemma DSG_PL_min (p : ptr) : p (Z.to_nat (DSG_PL p)) = MIN_PL p.
Proof.
  unfold DSG_PL, MIN_PL.
  split_ltb;
    change (Z.to_nat 0) with 0%nat; change (Z.to_nat 1) with 1%nat;
    change (Z.to_nat 2) with 2%nat; lia.
Qed.

Lemma find_existsb {A : Type} (f : A -> bool) (l : list A) :
  match List.find f l with
  | Some _ => existsb f l = true
  | None => existsb f l = false
  end.
Proof.
  induction l as [| x l IH]; [done |].
  cbn [List.find existsb]. destruct (f x); [done |]. exact IH.
Qed.

Lemma find_some_holds {A : Type} (f : A -> bool) (l : list A) (x : A) :
  List.find f l = Some x -> f x = true.
Proof.
  intros H. by destruct (List.find_some _ _ H).
Qed.

Lemma no_GT_iff (p : ptr) :
  bcf_gt_is_missing (p 0%nat) || bcf_gt_is_missing (p 1%nat)
  || (p 1%nat =? bcf_int32_vector_end)
  = negb (HAS_GT p).
Proof.
  unfold HAS_GT.
  by destruct (bcf_gt_is_missing (p 0%nat)), (bcf_gt_is_missing (p 1%nat)),
    (p 1%nat =? bcf_int32_vector_end).
Qed.

Lemma no_PL_iff (p : ptr) :
  (p 0%nat =? bcf_int32_missing) || (p 1%nat =? bcf_int32_missing)
  || (p 2%nat =? bcf_int32_missing) || (p 1%nat =? bcf_int32_vector_end)
  || (p 2%nat =? bcf_int32_vector_end)
  = negb (HAS_PL p).
Proof.
  unfold HAS_PL.
  by destruct (p 0%nat =? bcf_int32_missing), (p 1%nat =? bcf_int32_missing),
    (p 2%nat =? bcf_int32_missing), (p 1%nat =? bcf_int32_vector_end),
    (p 2%nat =? bcf_int32_vector_end).
Qed.

(** What [slow_match] returns, by the outcome of the default branch. *)
Lemma slow_match_spec (q g : bool) (aptr bptr : ptr) :
  match compare (select_cmp q g) false aptr bptr with
  | NoData => fst (slow_match q g aptr bptr) = -1
  | Mismatch => fst (slow_match q g aptr bptr) = 0
  | Match =>
      fst (slow_match q g aptr bptr) = 1
      /\ exists d : Z,
           snd (slow_match q g aptr bptr) = Some d
           /\ (q = true ->
               d = dsg_a (select_cmp q g) aptr
                         (VAL_a (select_cmp q g) aptr))
           /\ (q = false -> aptr (Z.to_nat d) = MIN_PL aptr)
  end.
Proof.
  unfold slow_match, compare.
  destruct q, g; cbn [select_cmp andb negb].
  - (* GT against GT *)
    cbn [GT_GT HAS_a HAS_b VAL_a VAL_b het_b differ dsg_a].
    unfold match_GT_GT. rewrite !no_GT_iff.
    destruct (HAS_GT aptr); cbn [negb]; [| done].
    destruct (HAS_GT bptr); cbn [negb]; [| done].
    fold (DSG_GT aptr). fold (DSG_GT bptr).
    destruct (Z.eqb_spec (DSG_GT aptr) (DSG_GT bptr)); cbn [negb fst snd];
      [| done].
    split; [done |]. exists (DSG_GT aptr). by cbn.
  - (* GT against PL *)
    cbn [GT_PL HAS_a HAS_b VAL_a VAL_b het_b differ dsg_a].
    unfold match_GT_PL. rewrite no_GT_iff, no_PL_iff.
    destruct (HAS_GT aptr); cbn [negb]; [| done].
    destruct (HAS_PL bptr); cbn [negb]; [| done].
    fold (DSG_GT aptr).
    pose proof (scan_min_fst bptr) as Hmin.
    destruct (scan_min bptr) as [min bdsg]. cbn [fst] in Hmin. subst min.
    rewrite (Z.eqb_sym (MIN_PL bptr)).
    destruct (Z.eqb_spec (bptr (Z.to_nat (DSG_GT aptr))) (MIN_PL bptr));
      cbn [negb fst snd]; [| done].
    split; [done |]. exists (DSG_GT aptr). by cbn.
  - (* PL against GT *)
    cbn [PL_GT HAS_a HAS_b VAL_a VAL_b het_b differ dsg_a].
    unfold match_GT_PL. rewrite no_GT_iff, no_PL_iff.
    destruct (HAS_PL aptr); cbn [negb].
    2: { by destruct (HAS_GT bptr). }
    destruct (HAS_GT bptr); cbn [negb]; [| done].
    fold (DSG_GT bptr).
    pose proof (scan_min_fst aptr) as Hmin.
    pose proof (scan_min_snd aptr) as Hdsg.
    destruct (scan_min aptr) as [min adsg]. cbn [fst snd] in Hmin, Hdsg.
    subst min.
    destruct (Z.eqb_spec (MIN_PL aptr) (aptr (Z.to_nat (DSG_GT bptr))));
      cbn [negb fst snd]; [| done].
    split; [done |]. exists adsg. by cbn.
  - (* PL against PL *)
    cbn [PL_PL HAS_a HAS_b VAL_a VAL_b het_b differ dsg_a].
    unfold match_PL_PL. rewrite !no_PL_iff.
    destruct (HAS_PL aptr); cbn [negb]; [| done].
    destruct (HAS_PL bptr); cbn [negb]; [| done].
    pose proof (scan_min_fst aptr) as Ha.
    pose proof (scan_min_fst bptr) as Hb.
    destruct (scan_min aptr) as [amin adsg].
    destruct (scan_min bptr) as [bmin bdsg].
    cbn [fst] in Ha, Hb. subst amin bmin.
    pose proof (find_existsb
                  (fun k => (aptr k =? MIN_PL aptr) && (bptr k =? MIN_PL bptr))
                  (seq 0 3)) as Hex.
    destruct (List.find _ (seq 0 3)) as [i |] eqn:Hfind.
    + rewrite Hex. cbn [negb fst snd option_map].
      split; [done |]. exists (Z.of_nat i).
      split; [done |]. split; [done |]. intros _.
      apply find_some_holds in Hfind. cbn beta in Hfind.
      apply andb_true_iff in Hfind as [Hfind _].
      rewrite Nat2Z.id. by apply Z.eqb_eq.
    + rewrite Hex. by cbn [negb fst].
Qed.

(** The body of the slower loop, which is compiled out, against the loops
    that are compiled in. For a pair of blocks the slower body makes the
    step on the accumulators that the default loops make without
    [--homs-only]: none on missing data, [ndiff] and [ncnt] on a
    mismatch, [ncnt] and the score on a match. This holds when the query
    side reads GT, or when no HWE score is computed; with the query side on
    PL the score the two add can differ (see [slower_branch_tie]). *)
Theorem slower_branch_agrees (calc : bool) (hwe : list R) (q g : bool)
    (aptr bptr : ptr) (a : Z * Z * R) :
  q = true \/ calc = false ->
  slow_step calc hwe q g aptr bptr a
  = accum_step calc
               (hwe !!! Z.to_nat (dsg_a (select_cmp q g) aptr
                                        (VAL_a (select_cmp q g) aptr)))
               (compare (select_cmp q g) false aptr bptr) a.
Proof.
  intros Hq. unfold slow_step.
  pose proof (slow_match_spec q g aptr bptr) as Hspec.
  destruct (slow_match q g aptr bptr) as [m d]. cbn [fst snd] in Hspec.
  destruct (compare (select_cmp q g) false aptr bptr).
  - by subst m.
  - by subst m.
  - destruct Hspec as (-> & d' & -> & Hd & _). cbn [Z.leb Z.eqb Z.compare].
    cbn [accum_step default]. destruct Hq as [Hq | ->]; [| done].
    by rewrite (Hd Hq).
Qed.

Lemma slower_branch_agrees_witness :
  (true = true \/ true = false)
  /\ slow_step true [1%R; 2%R; 3%R] true false (pair_of 2 4) (triple 10 0 20)
               (0, 0, 0%R)
     = accum_step true
         ([1%R; 2%R; 3%R]
            !!! Z.to_nat (dsg_a (select_cmp true false) (pair_of 2 4)
                                (VAL_a (select_cmp true false) (pair_of 2 4))))
         (compare (select_cmp true false) false (pair_of 2 4)
                  (triple 10 0 20))
         (0, 0, 0%R).
Proof.
  split; [by left |].
  exact (slower_branch_agrees true [1%R; 2%R; 3%R] true false (pair_of 2 4)
           (triple 10 0 20) (0, 0, 0%R) (or_introl eq_refl)).
Defined.

(** With the query side on PL and a tie for the smallest value the two
    branches pick different positions: the slower one the first, the
    default one the last of the two. *)
Example slower_branch_tie :
  slow_match false false (triple 0 0 5) (triple 0 0 5) = (1, Some 0)
  /\ compare PL_PL false (triple 0 0 5) (triple 0 0 5) = Match
  /\ dsg_a PL_PL (triple 0 0 5) (VAL_a PL_PL (triple 0 0 5)) = 1.
Proof. repeat split. Qed.
